(* ===== verification/_CoqProject ===== *)
-Q . S2P
Prelude.v
HttpTemplate.v
TemplateCursor.v
TemplateGrammar.v
PathMatcherNode.v
PathMatcher.v
RequestPath.v
PathMatcherCorrect.v
RequestInfo.v
SupportedMetrics.v
SupportedLabels.v
RequestBuilder.v
RequestBuilderCorrect.v
LogsMetricsLoader.v
EnvoyUtils.v
RoutingFilters.v
ConfigMessages.v
ConfigParser.v
HandlerUtils.v
Handler.v
ScFilter.v
ServiceControlCorrect.v
Verdict.v
HttpCall.v
Token.v
TokenClock.v
JsonUtil.v
AuthToken.v
TokenFactory.v
GeneratorClock.v
BackendAuth.v
ClientCache.v
ServiceControlCall.v
FilterConfigs.v
Gateway.v
ReportPath.v
Streams.v
ClientTeardown.v
