(* ===== verification/Prelude.v ===== *)
(** * ESPv2: a verification library for the C++ core of the API proxy

    ESPv2 is a chain of Envoy HTTP filters in front of an API.  For each request
    the chain works like this:

    - the path matcher filter (src/src/envoy/http/path_matcher) looks the HTTP
      method and the path up in the registered URI templates
      (src/src/api_proxy/path_matcher) and leaves the operation, and a query
      string made of the path parameters, in the filter state; a request that
      matches nothing is answered with 404;
    - the service control filter (src/src/envoy/http/service_control) makes a
      handler for the request, which finds the requirement of the operation and
      the API key, calls check and quota, and lets the request pass or rejects
      it; while data flows and at the end it sends reports;
    - requests and reports are made by the request builder
      (src/src/api_proxy/service_control), for the metrics and labels the
      service configuration asks for;
    - a service's call object (service_control_call_impl.cc) hands them to the
      client cache of the thread (client_cache.cc), which asks the cache of the
      client library and calls service control when that has no answer;
    - the calls to service control are HTTP requests with retries
      (http_call.cc), and carry an access token that a token subscriber keeps
      fresh (src/src/envoy/token), or that is signed with a service account key
      (src/src/api_proxy/auth);
    - the backend authentication filter (src/src/envoy/http/backend_auth) adds an
      identity token for the backend's audience;
    - the backend routing filter (src/src/envoy/http/backend_routing) rewrites
      the path for the backend of the operation.

    ** Files

    [Prelude]: strings, integers of machine width ([u64], [i64], [i32]), status
    codes, tactics and the hint database [esp].

    URI templates and path matching:
    - [HttpTemplate]: http_template.{h,cc}, the Parser class, statement by
      statement.  A parser operation takes and returns the parser object; loops
      and the recursion through variables run on fuel, and [None] is fuel spent.
    - [TemplateCursor]: the parser's cursor as a suffix of the text.
    - [TemplateGrammar]: the documented grammar as a syntax with a printer, its
      meaning as segments, verb and variable ranges, and the theorems: the parser
      accepts exactly the grammar ([Parse_grammar]), terminates with fuel one per
      character and four more ([Parse_total]), and its results are well formed
      ([Parse_ok]).
    - [PathMatcherNode]: path_matcher_node.{h,cc}, the trie, with insertion,
      lookup and Clone; children are a finite map, and lookup recurses on the
      request parts.
    - [PathMatcher]: path_matcher.{h,cc} and variable_binding_utils.cc.
    - [RequestPath]: what splitting a request path, percent-decoding and the
      rendering of bindings compute.
    - [PathMatcherCorrect]: matching as a relation between templates and request
      parts, and the refinement theorems: Lookup finds a rule that matches and
      fails only when none does, bindings never index out of range, which rule
      wins, and what a variable after "**" is bound to.

    Service control requests:
    - [RequestInfo]: request_info.h, and the protobuf messages as records of the
      fields the code uses; doubles are IEEE binary64 of the Standard Library.
    - [SupportedMetrics], [SupportedLabels], [RequestBuilder]:
      request_builder.{h,cc}, the two tables and the builder; version.{h,cc}.
    - [RequestBuilderCorrect]: what a check, quota or report request contains,
      that a response lets a request pass exactly in the documented cases, and
      that over the reports of one request each START and FINAL metric is sent
      once.
    - [LogsMetricsLoader]: logs_metrics_loader.cc, and the selection it makes: what
      the configuration asks for, in order, but for what comes with a label in
      conflict with one loaded before; the builder can serve it.

    The filters:
    - [EnvoyUtils]: the proxy's header maps and filter state as classes
      ([HeaderMapOps], [FilterStateOps]) with laws and instances on finite maps;
      src/src/envoy/utils.
    - [RoutingFilters]: the filters of path matcher and backend routing, and
      their composition.
    - [ConfigMessages]: the messages that configurations share.
    - [ConfigParser]: config_parser.{h,cc}, the configuration of service control.
    - [HandlerUtils]: handler_utils.cc.
    - [Handler]: handler_impl.{h,cc}.  Calls to service control and the callback
      to the filter are a list of actions; an answer that comes before a call
      returns is an argument, a later one an operation of its own.
    - [ScFilter]: filter.{h,cc} as a step relation: its operations, the answers,
      and destruction; an invariant by rule induction.
    - [ServiceControlCorrect]: the contract of handler and filter: exactly one
      answer per request, with the status the requirement, the API key and the
      answers determine, however the answers are timed; no state without a way
      on; reports that form a stream as the builder expects it.
    - [Verdict]: the status a request is answered with and the one it is reported
      with, over all reachable states of the filter.

    Tokens and calls:
    - [HttpCall]: http_call.{h,cc}.  An attempt may be answered inside send(), so
      that the callbacks and the next attempt run nested; fuel is one more than
      the retries left, and [http_call_correct] shows that it is enough.  The
      factory with its calls is a step relation over a client that answers any
      attempts inside send(): callbacks run once, and no answer reaches a deleted
      call, but for a call cancelled while a request that was accepted inside
      another send() is out ([http_calls_safe], [retry_inside_send_is_lost]).
    - [Token]: the token infos of metadata server and IAM, and the subscriber as
      a step relation over its request and its timer: it never stalls.
    - [TokenClock]: the subscriber with a clock: how long a token stays in use
      after it came, by its lifetime and the attempts that failed since.
    - [JsonUtil]: json_util.cc.  Parsed documents are trees; documents that are
      put together are nodes in a store, linked as FillChild links them, and the
      number of nodes is fuel enough to follow the links.
    - [AuthToken]: auth_token.cc, on a class [GrpcCore] for gRPC and OpenSSL; when
      a token is made, what it contains, and when the claims lose members.
    - [TokenFactory]: token_subscriber_factory_impl.h and sa_token_generator.cc.
    - [GeneratorClock]: the token generator with a clock: a signed token is renewed
      before it expires.
    - [BackendAuth]: the configuration and the filter of backend_auth.
    - [ClientCache]: client_cache.cc.  A check gets one answer, from a response if
      one was received and from network_fail_open otherwise.
    - [ServiceControlCall]: service_control_call_impl.{h,cc}: the tokens of all
      threads after any updates, when construction throws, a check from handler
      info to its answer, and the composition with the filter when a stream goes
      while its check is out.

    The filters together:
    - [FilterConfigs]: filter_config.h, filter_config_impl.h, filter_stats.h and
      filter_factory.cc of the four filters: counters in the scope of the server,
      configurations with the call objects of all services, and the functions that
      add filters to a stream; when the factory of service control throws.
    - [Gateway]: one request through the four filters, with its check over HTTP and
      its quota call: [gateway_correct] says what becomes of it.
    - [ReportPath]: the reports of one request, from the handler through the call
      object to the client library, and that every metric is sent as often as its
      tag says; for gRPC from the response headers on.
    - [Streams]: any number of streams, interleaved, that share the counters of
      service control: the counters are exact.
    - [ClientTeardown]: the destruction of a client cache with the calls of its
      factories: every call ends, and a report flushed then that waits for an
      answer is cancelled.

    ** Conventions

    C++ objects are records and methods take and return them.  A null pointer, an
    uninitialised member, a read out of range or a cast that overflows gives
    [None] where the code would follow it; exceptions are the left side of a sum.
    Out-parameters are part of the result.  Integers are [Z] with the wrap-around
    written where the code converts; sizes of requests are [nat].  Clocks, random
    ids and what the proxy knows of a stream are arguments.  Code that is not in
    the repository is a parameter or a class: header maps, filter state, query and
    cookie parsing, timestamps, base64, the distribution helper of the service
    control client, gRPC core and OpenSSL, protobuf encoding, gRPC status tables.

    ** Not modelled

    The service control client library, with its cache of checks, its quota
    prefetching and its batching of reports, is not in the repository: what it
    answers is an argument of [ClientCache], and when it runs the transports of
    quota and reports is left open, but for the flush of reports at its end.
    Signing and hashing are OpenSSL's, and JSON parsing and printing gRPC's.  The
    macros that register the filters, tracing spans and logging are the proxy's,
    and so are the filters between ours in the chain; the Go config manager is
    another program.  The streams of a server interleave operation by operation
    ([Streams]); a token update reaches all threads at once. *)
From stdpp Require Export base gmap strings list fin_maps.
From Stdlib Require Export ZArith Lia Ascii.

Declare Scope esp_scope.
Delimit Scope esp_scope with esp.

(** ** Strings as [std::string] sees them *)

(** [std::string::empty]. *)
Definition is_empty (s : string) : bool :=
  match s with EmptyString => true | String _ _ => false end.

(** A one-character string, for [push_back]. *)
Definition str1 (c : ascii) : string := String c EmptyString.

(** The characters from index [i] on ([""] when [i] is at or past the end). *)
Fixpoint sdrop (i : nat) (s : string) : string :=
  match i, s with
  | 0, _ => s
  | S _, EmptyString => EmptyString
  | S i', String _ s' => sdrop i' s'
  end.

(** The first [i] characters. *)
Fixpoint stake (i : nat) (s : string) : string :=
  match i, s with
  | 0, _ => EmptyString
  | S _, EmptyString => EmptyString
  | S i', String c s' => String c (stake i' s')
  end.

(** Every character of [s] satisfies [P]. *)
Fixpoint sforall (P : ascii → bool) (s : string) : bool :=
  match s with EmptyString => true | String c s' => P c && sforall P s' end.

(** [std::string::find_first_of] with one character: [None] is [npos]. *)
Fixpoint find_first_of (c : ascii) (s : string) : option nat :=
  match s with
  | EmptyString => None
  | String d s' => if bool_decide (d = c) then Some 0 else S <$> find_first_of c s'
  end.

(** [std::string::find_last_of] with one character: [None] is [npos]. *)
Fixpoint find_last_of (c : ascii) (s : string) : option nat :=
  match s with
  | EmptyString => None
  | String d s' =>
      match find_last_of c s' with
      | Some i => Some (S i)
      | None => if bool_decide (d = c) then Some 0 else None
      end
  end.

(** [s[i] = c] for an index in range; out of range the source never writes. *)
Fixpoint set_char (i : nat) (c : ascii) (s : string) : string :=
  match s, i with
  | EmptyString, _ => EmptyString
  | String _ s', 0 => String c s'
  | String d s', S i' => String d (set_char i' c s')
  end.

(** [absl::StrSplit(s, c)]: always at least one piece, delimiters dropped. *)
Fixpoint str_split (c : ascii) (s : string) : list string :=
  match s with
  | EmptyString => [EmptyString]
  | String d s' =>
      if bool_decide (d = c) then EmptyString :: str_split c s'
      else match str_split c s' with
           | [] => [str1 d]
           | w :: ws => String d w :: ws
           end
  end.

(** The pieces with the separator between two of them. *)
Fixpoint str_join (sep : string) (ws : list string) : string :=
  match ws with
  | [] => EmptyString
  | [w] => w
  | w :: ws' => w +:+ sep +:+ str_join sep ws'
  end.

(** [absl::StartsWith]. *)
Fixpoint starts_with (p s : string) : bool :=
  match p, s with
  | EmptyString, _ => true
  | String _ _, EmptyString => false
  | String c p', String d s' => bool_decide (c = d) && starts_with p' s'
  end.

(** ** Machine integers *)

Definition wrap_unsigned (w x : Z) : Z := x mod 2 ^ w.
Definition wrap_signed (w x : Z) : Z := (x + 2 ^ (w - 1)) mod 2 ^ w - 2 ^ (w - 1).

(** [size_t] and [uint64_t]. *)
Definition u64 : Z → Z := wrap_unsigned 64.
(** [uint32_t]. *)
Definition u32 : Z → Z := wrap_unsigned 32.
(** [int], as the conversions of the source leave it. *)
Definition i32 : Z → Z := wrap_signed 32.
(** [int64_t]. *)
Definition i64 : Z → Z := wrap_signed 64.

(** [std::string::npos]. *)
Definition npos : Z := 2 ^ 64 - 1.
Definition size_of_pos (p : option nat) : Z :=
  match p with Some i => Z.of_nat i | None => npos end.

(** ** [google::protobuf::util::Status]

    A code and a message.  The codes are those of google.rpc.Code, as far as
    the source names them. *)
Record Status := mkStatus { error_code : Z; error_message : string }.

Module Code.
Definition OK : Z := 0.
Definition CANCELLED : Z := 1.
Definition INVALID_ARGUMENT : Z := 3.
Definition NOT_FOUND : Z := 5.
Definition PERMISSION_DENIED : Z := 7.
Definition RESOURCE_EXHAUSTED : Z := 8.
Definition INTERNAL : Z := 13.
Definition UNAUTHENTICATED : Z := 16.
End Code.

Definition Status_OK : Status := mkStatus Code.OK "".
Definition status_ok (s : Status) : bool := bool_decide (error_code s = Code.OK).

#[export] Instance Status_eq_dec : EqDecision Status.
Proof. solve_decision. Defined.

(** ** Automation *)

Create HintDb esp.
Create Rewrite HintDb esp.

(** Destructs the innermost discriminee of a [match] in the goal or in a
    hypothesis, and simplifies. *)
Ltac case_innermost t :=
  lazymatch t with
  | context [match ?x with _ => _ end] => case_innermost x
  | _ => destruct t eqn:?
  end.
Ltac case_goal :=
  match goal with |- context [match ?x with _ => _ end] => case_innermost x end;
  simplify_eq/=.
Ltac case_hyp H :=
  match type of H with context [match ?x with _ => _ end] => case_innermost x end;
  simplify_eq/=.

(** Turns boolean facts on decided propositions into the propositions. *)
Ltac bools :=
  repeat match goal with
  | H : bool_decide _ = true |- _ => apply bool_decide_eq_true in H
  | H : bool_decide _ = false |- _ => apply bool_decide_eq_false in H
  | H : (_ && _) = true |- _ => apply andb_true_iff in H as [??]
  | H : (_ || _) = false |- _ => apply orb_false_iff in H as [??]
  | H : negb _ = true |- _ => apply negb_true_iff in H
  | H : negb _ = false |- _ => apply negb_false_iff in H
  | H : (_ <? _)%Z = true |- _ => apply Z.ltb_lt in H
  | H : (_ <? _)%Z = false |- _ => apply Z.ltb_ge in H
  | H : (_ <=? _)%Z = true |- _ => apply Z.leb_le in H
  | H : (_ <=? _)%Z = false |- _ => apply Z.leb_gt in H
  | H : (_ <? _)%nat = true |- _ => apply Nat.ltb_lt in H
  | H : (_ <? _)%nat = false |- _ => apply Nat.ltb_ge in H
  | H : (_ <=? _)%nat = true |- _ => apply Nat.leb_le in H
  | H : (_ <=? _)%nat = false |- _ => apply Nat.leb_gt in H
  end.

(** ** Lemmas on strings *)

Lemma is_empty_true s : is_empty s = true ↔ s = "".
Proof. destruct s; naive_solver. Qed.

Lemma is_empty_false s : is_empty s = false ↔ s ≠ "".
Proof. destruct s; naive_solver. Qed.

Lemma app_nil_l_s s : "" +:+ s = s.
Proof. done. Qed.

Lemma app_cons_s c s t : String c s +:+ t = String c (s +:+ t).
Proof. done. Qed.

Lemma app_nil_r_s s : s +:+ "" = s.
Proof. induction s as [|c s IH]; [done|]. by rewrite app_cons_s, IH. Qed.

Lemma app_assoc_s s t u : (s +:+ t) +:+ u = s +:+ t +:+ u.
Proof. induction s as [|c s IH]; [done|]. by rewrite !app_cons_s, IH. Qed.

Lemma length_app_s s t : String.length (s +:+ t) = String.length s + String.length t.
Proof.
  induction s as [|c s IH]; [done|]. rewrite app_cons_s. simpl. by rewrite IH.
Qed.

Lemma app_eq_nil_s s t : s +:+ t = "" ↔ s = "" ∧ t = "".
Proof. destruct s; [naive_solver|]. rewrite app_cons_s. naive_solver. Qed.

Lemma length_zero_s s : String.length s = 0 ↔ s = "".
Proof. destruct s; naive_solver. Qed.

Lemma sforall_app P s t : sforall P (s +:+ t) = sforall P s && sforall P t.
Proof.
  induction s as [|c s IH]; [done|]. rewrite app_cons_s. simpl. rewrite IH.
  by rewrite andb_assoc.
Qed.

Lemma sdrop_nil i : sdrop i "" = "".
Proof. by destruct i. Qed.

Lemma sdrop_all s : sdrop (String.length s) s = "".
Proof. by induction s. Qed.

Lemma sdrop_ge i s : String.length s ≤ i → sdrop i s = "".
Proof.
  revert i. induction s as [|c s IH]; intros [|i] Hi; simpl in *; try done; try lia.
  apply IH. lia.
Qed.

Lemma length_sdrop i s : String.length (sdrop i s) = String.length s - i.
Proof.
  revert i. induction s as [|c s IH]; intros [|i]; simpl; auto.
Qed.

(** The character at [i] and the rest after it. *)
Lemma sdrop_get i s c : String.get i s = Some c ↔ sdrop i s = String c (sdrop (S i) s).
Proof.
  revert i. induction s as [|d s IH]; intros [|i]; simpl;
    [naive_solver..| apply IH].
Qed.

Lemma sdrop_lt i s : i < String.length s → ∃ c, String.get i s = Some c.
Proof.
  revert i. induction s as [|d s IH]; intros [|i]; simpl; intros ?; try lia; eauto.
  apply IH. lia.
Qed.

Lemma get_lt i s c : String.get i s = Some c → i < String.length s.
Proof.
  revert i. induction s as [|d s IH]; intros [|i] Hi; simpl in *; try done; [lia|].
  apply IH in Hi. lia.
Qed.

Lemma stake_sdrop i s : stake i s +:+ sdrop i s = s.
Proof.
  revert i. induction s as [|c s IH]; intros [|i]; try done. simpl.
  rewrite app_cons_s. by f_equal.
Qed.

(** ** Lemmas on machine integers *)

Lemma u64_id x : (0 ≤ x < 2 ^ 64)%Z → u64 x = x.
Proof. intros. unfold u64, wrap_unsigned. by apply Z.mod_small. Qed.

Lemma u64_range x : (0 ≤ u64 x < 2 ^ 64)%Z.
Proof. unfold u64, wrap_unsigned. by apply Z.mod_pos_bound. Qed.

(** Only the last wrap-around of a subtraction matters. *)
Lemma u64_sub_l x y : u64 (u64 x - y) = u64 (x - y).
Proof. apply Zminus_mod_idemp_l. Qed.

Lemma i32_id x : (- 2 ^ 31 ≤ x < 2 ^ 31)%Z → i32 x = x.
Proof. intros. unfold i32, wrap_signed. rewrite Z.mod_small; lia. Qed.

(** Wrapping to 64 bits first does not change what 32 bits keep. *)
Lemma i32_u64 x : i32 (u64 x) = i32 x.
Proof.
  unfold i32, u64, wrap_signed, wrap_unsigned.
  rewrite <-(Zplus_mod_idemp_l (x mod 2 ^ 64)).
  assert ((x mod 2 ^ 64) mod 2 ^ 32 = x mod 2 ^ 32)%Z as ->.
  { rewrite (Z.div_mod x (2 ^ 64)) at 2 by lia.
    replace (2 ^ 64 * (x / 2 ^ 64) + x mod 2 ^ 64)%Z
      with (x mod 2 ^ 64 + (x / 2 ^ 64 * 2 ^ 32) * 2 ^ 32)%Z by ring.
    by rewrite Z_mod_plus_full. }
  by rewrite Zplus_mod_idemp_l.
Qed.

#[export] Hint Rewrite app_nil_l_s app_cons_s app_nil_r_s app_assoc_s length_app_s
  sforall_app : esp.
#[export] Hint Resolve app_nil_r_s u64_range : esp.
