(* ===== verification/HttpTemplate.v ===== *)
(** * URI templates: src/api_proxy/path_matcher/http_template.{h,cc}

    The recursive-descent parser of google.api.http path templates, as it is
    written: a cursor pair ([tb_], [te_]) over the input, a flag for being
    inside a variable, and the segments, verb and variables collected so far.
    The second half states the template grammar declaratively and proves that
    the parser accepts exactly that grammar and builds its meaning. *)
From S2P Require Import Prelude.

(** ** Data *)

(** struct HttpTemplate::Variable. *)
Record HtVariable := mkHtVariable {
  start_segment : Z;
  end_segment : Z;
  field_path : list string;
  has_wildcard_path : bool
}.

(** class HttpTemplate: what [Parse] hands out. *)
Record HttpTemplate := mkHttpTemplate {
  segments : list string;
  verb : string;
  variables : list HtVariable
}.

Definition kSingleParameterKey : string := "/.".
Definition kWildCardPathPartKey : string := "*".
Definition kWildCardPathKey : string := "**".

#[export] Instance HtVariable_eq_dec : EqDecision HtVariable.
Proof. solve_decision. Defined.
#[export] Instance HttpTemplate_eq_dec : EqDecision HttpTemplate.
Proof. solve_decision. Defined.

(** ** The parser *)

Module Parser.

(** class Parser: its mutable fields. *)
Record Parser := mkParser {
  tb_ : nat;
  te_ : nat;
  in_variable_ : bool;
  segments_ : list string;
  verb_ : string;
  variables_ : list HtVariable
}.

(** The constructor's initial state. *)
Definition initial : Parser := mkParser 0 0 false [] "" [].

Definition set_tb (x : nat) (p : Parser) : Parser :=
  mkParser x (te_ p) (in_variable_ p) (segments_ p) (verb_ p) (variables_ p).
Definition set_te (x : nat) (p : Parser) : Parser :=
  mkParser (tb_ p) x (in_variable_ p) (segments_ p) (verb_ p) (variables_ p).
Definition set_in_variable (x : bool) (p : Parser) : Parser :=
  mkParser (tb_ p) (te_ p) x (segments_ p) (verb_ p) (variables_ p).
Definition set_segments (x : list string) (p : Parser) : Parser :=
  mkParser (tb_ p) (te_ p) (in_variable_ p) x (verb_ p) (variables_ p).
Definition set_verb (x : string) (p : Parser) : Parser :=
  mkParser (tb_ p) (te_ p) (in_variable_ p) (segments_ p) x (variables_ p).
Definition set_variables (x : list HtVariable) (p : Parser) : Parser :=
  mkParser (tb_ p) (te_ p) (in_variable_ p) (segments_ p) (verb_ p) x.

(** segments_.push_back. *)
Definition push_segment (s : string) (p : Parser) : Parser :=
  set_segments (segments_ p ++ [s]) p.

(** A [size_t] stored into an [int]. *)
Definition int_of_size (n : nat) : Z := i32 (Z.of_nat n).

(** *** Variables being built *)

(** CurrentVariable() = f (CurrentVariable()): the last element; the source
    only uses it when [variables_] is not empty. *)
Definition modify_current (f : HtVariable → HtVariable) (p : Parser) : Parser :=
  set_variables
    (match last (variables_ p) with
     | Some v => removelast (variables_ p) ++ [f v]
     | None => variables_ p
     end) p.

Definition in_current (p : Parser) : bool :=
  in_variable_ p && negb (bool_decide (variables_ p = [])).

Definition StartVariable (p : Parser) : bool * Parser :=
  if negb (in_variable_ p) then
    let v := mkHtVariable (int_of_size (length (segments_ p))) 0 [] false in
    (true, set_in_variable true (set_variables (variables_ p ++ [v]) p))
  else (false, p).

Definition ValidateVariable (v : HtVariable) (p : Parser) : bool :=
  negb (bool_decide (field_path v = [])) &&
  (start_segment v <? end_segment v)%Z &&
  (end_segment v <=? int_of_size (length (segments_ p)))%Z.

Definition EndVariable (p : Parser) : bool * Parser :=
  if in_current p then
    let p1 := modify_current (λ v,
      mkHtVariable (start_segment v) (int_of_size (length (segments_ p)))
                 (field_path v) (has_wildcard_path v)) p in
    let p2 := set_in_variable false p1 in
    (match last (variables_ p2) with
     | Some v => ValidateVariable v p2
     | None => false
     end, p2)
  else (false, p).

Definition AddFieldIdentifier (id : string) (p : Parser) : bool * Parser :=
  if in_current p then
    (true, modify_current (λ v,
      mkHtVariable (start_segment v) (end_segment v) (field_path v ++ [id])
                 (has_wildcard_path v)) p)
  else (false, p).

Definition MarkVariableHasWildCardPath (p : Parser) : bool * Parser :=
  if in_current p then
    (true, modify_current (λ v,
      mkHtVariable (start_segment v) (end_segment v) (field_path v) true) p)
  else (false, p).

(** *** The cursor *)

Section with_input.
Context (input_ : string).

Definition NextChar (p : Parser) : bool * Parser :=
  if te_ p <? String.length input_ then (true, set_te (S (te_ p)) p) else (false, p).

(** [char] minus one, what [current_char] returns outside a token. *)
Definition no_char : ascii := ascii_of_nat 255.

Definition current_char (p : Parser) : ascii :=
  if (tb_ p <? te_ p) && (te_ p <=? String.length input_)
  then default no_char (String.get (te_ p - 1) input_)
  else no_char.

Definition EnsureCurrent (p : Parser) : bool * Parser :=
  if tb_ p <? te_ p then (true, p) else NextChar p.

Definition ConsumedAllInput (p : Parser) : bool := String.length input_ <=? tb_ p.

Definition Consume (c : ascii) (p : Parser) : bool * Parser :=
  let '(ok, p1) := if te_ p <=? tb_ p then NextChar p else (true, p) in
  if negb ok then (false, p1)
  else if negb (bool_decide (current_char p1 = c)) then (false, p1)
  else (true, set_tb (S (tb_ p1)) p1).

(** *** Loops and recursion

    A function of the source that returns [bool] and changes the parser gives
    [Some (result, parser)]; [None] is running out of fuel, which
    [Parse_total] rules out for the fuel [Parse] starts with. *)
Definition outcome : Type := option (bool * Parser).

(** [if (!f()) return false; k()]. *)
Definition and_then (r : outcome) (k : Parser → outcome) : outcome :=
  match r with
  | Some (true, p) => k p
  | _ => r
  end.

(** The loop of ParseLiteral; [lit] is the string the caller passes in. *)
Fixpoint ParseLiteral_loop (fuel : nat) (result : bool) (lit : string) (p : Parser)
  : option (bool * string * Parser) :=
  match fuel with
  | 0 => None
  | S fuel =>
      let c := current_char p in
      if bool_decide (c = "/"%char) || bool_decide (c = ":"%char) ||
         bool_decide (c = "}"%char)
      then Some (result, lit, p)
      else
        let p1 := (Consume c p).2 in
        let lit1 := lit +:+ str1 c in
        let '(more, p2) := NextChar p1 in
        if more then ParseLiteral_loop fuel true lit1 p2
        else Some (true, lit1, p2)
  end.

Definition ParseLiteral (fuel : nat) (lit : string) (p : Parser)
  : option (bool * string * Parser) :=
  let '(ok, p1) := EnsureCurrent p in
  if ok then ParseLiteral_loop fuel false lit p1 else Some (false, lit, p1).

Fixpoint ParseIdentifier_loop (fuel : nat) (result : bool) (idf : string) (p : Parser)
  : outcome :=
  match fuel with
  | 0 => None
  | S fuel =>
      let finish (p : Parser) :=
        if result then Some (AddFieldIdentifier idf p) else Some (false, p) in
      let '(more, p1) := NextChar p in
      if more then
        let c := current_char p1 in
        if bool_decide (c = "."%char) || bool_decide (c = "}"%char) ||
           bool_decide (c = "="%char)
        then finish p1
        else ParseIdentifier_loop fuel true (idf +:+ str1 c) ((Consume c p1).2)
      else finish p1
  end.

Definition ParseIdentifier (fuel : nat) (p : Parser) : outcome :=
  ParseIdentifier_loop fuel false "" p.

(** [while (Consume('.')) if (!ParseIdentifier()) return false;]. *)
Fixpoint ParseFieldPath_loop (fuel : nat) (p : Parser) : outcome :=
  match fuel with
  | 0 => None
  | S fuel =>
      let '(dot, p1) := Consume "." p in
      if dot then and_then (ParseIdentifier fuel p1) (ParseFieldPath_loop fuel)
      else Some (true, p1)
  end.

Definition ParseFieldPath (fuel : nat) (p : Parser) : outcome :=
  and_then (ParseIdentifier fuel p) (ParseFieldPath_loop fuel).

Definition ParseLiteralSegment (fuel : nat) (p : Parser) : outcome :=
  match ParseLiteral fuel "" p with
  | None => None
  | Some (false, _, p1) => Some (false, p1)
  | Some (true, ls, p1) => Some (true, push_segment ls p1)
  end.

(** case '*' of ParseSegment. *)
Definition ParseStar (p : Parser) : outcome :=
  let p1 := (Consume "*" p).2 in
  let '(second, p2) := Consume "*" p1 in
  if second then
    let p3 := push_segment "**" p2 in
    if in_variable_ p3 then Some (MarkVariableHasWildCardPath p3) else Some (true, p3)
  else Some (true, push_segment "*" p2).

(** ParseSegments, its loop, ParseSegment and ParseVariable call one another. *)
Fixpoint ParseSegments (fuel : nat) (p : Parser) : outcome :=
  match fuel with
  | 0 => None
  | S fuel => and_then (ParseSegment fuel p) (ParseSegments_loop fuel)
  end
with ParseSegments_loop (fuel : nat) (p : Parser) : outcome :=
  match fuel with
  | 0 => None
  | S fuel =>
      let '(slash, p1) := Consume "/" p in
      if slash then and_then (ParseSegment fuel p1) (ParseSegments_loop fuel)
      else Some (true, p1)
  end
with ParseSegment (fuel : nat) (p : Parser) : outcome :=
  match fuel with
  | 0 => None
  | S fuel =>
      let '(ok, p1) := EnsureCurrent p in
      if negb ok then Some (false, p1)
      else
        let c := current_char p1 in
        if bool_decide (c = "*"%char) then ParseStar p1
        else if bool_decide (c = "{"%char) then ParseVariable fuel p1
        else ParseLiteralSegment fuel p1
  end
with ParseVariable (fuel : nat) (p : Parser) : outcome :=
  match fuel with
  | 0 => None
  | S fuel =>
      and_then (Some (Consume "{" p)) (λ p,
      and_then (Some (StartVariable p)) (λ p,
      and_then (ParseFieldPath fuel p) (λ p,
      let '(eq, p) := Consume "=" p in
      and_then (if eq then ParseSegments fuel p
                else Some (true, push_segment "*" p)) (λ p,
      and_then (Some (EndVariable p)) (λ p,
      Some (Consume "}" p))))))
  end.

Definition ParseVerb (fuel : nat) (p : Parser) : outcome :=
  and_then (Some (Consume ":" p)) (λ p,
  match ParseLiteral fuel (verb_ p) p with
  | None => None
  | Some (ok, lit, p1) => Some (ok, set_verb lit p1)
  end).

Definition ParseTemplate (fuel : nat) (p : Parser) : outcome :=
  and_then (Some (Consume "/" p)) (λ p,
  and_then (ParseSegments fuel p) (λ p,
  let '(ok, p1) := EnsureCurrent p in
  if ok && bool_decide (current_char p1 = ":"%char)
  then ParseVerb fuel p1
  else Some (true, p1))).

(** The body of the loop of PostProcessVariables: [size_t] arithmetic, stored
    into an [int]. *)
Definition post_process (nsegs : nat) (has_verb : bool) (v : HtVariable) : HtVariable :=
  if has_wildcard_path v then
    let e := i32 (u64 (u64 (u64 (end_segment v) - Z.of_nat nsegs) - 1)) in
    mkHtVariable (start_segment v) (if has_verb then i32 (e - 1) else e)
               (field_path v) true
  else v.

Definition PostProcessVariables (p : Parser) : Parser :=
  set_variables
    (post_process (length (segments_ p)) (negb (is_empty (verb_ p))) <$> variables_ p) p.

Definition Parse (fuel : nat) : outcome :=
  match ParseTemplate fuel initial with
  | Some (ok, p) =>
      if negb ok || negb (ConsumedAllInput p) then Some (false, p)
      else Some (true, PostProcessVariables p)
  | None => None
  end.

End with_input.

(** Only constant path segments are allowed after '**'. *)
Fixpoint ValidateParts_from (found_wild_card : bool) (segs : list string) : bool :=
  match segs with
  | [] => true
  | s :: segs =>
      if negb found_wild_card then
        ValidateParts_from (bool_decide (s = kWildCardPathKey)) segs
      else if bool_decide (s = kSingleParameterKey) ||
              bool_decide (s = kWildCardPathPartKey) ||
              bool_decide (s = kWildCardPathKey)
      then false
      else ValidateParts_from true segs
  end.

Definition ValidateParts (p : Parser) : bool := ValidateParts_from false (segments_ p).

End Parser.

(** The fuel given to the parser: every turn of a loop and every level of the
    recursion consumes a character, up to the constant. *)
Definition parse_fuel (ht : string) : nat := String.length ht + 4.

(** HttpTemplate::Parse: [None] is the null pointer. *)
Definition Parse (ht : string) : option HttpTemplate :=
  if bool_decide (ht = "/") then Some (mkHttpTemplate [] "" [])
  else
    match Parser.Parse ht (parse_fuel ht) with
    | Some (true, p) =>
        if Parser.ValidateParts p
        then Some (mkHttpTemplate (Parser.segments_ p) (Parser.verb_ p)
                                  (Parser.variables_ p))
        else None
    | _ => None
    end.
