(* ===== verification/TemplateCursor.v ===== *)
(** * The parser's cursor

    [cur tb te r] relates the two indexes of class Parser to the input that is
    still to be read.  Each lemma describes one primitive of the parser, or one
    of its two character loops, by what it does to that remaining input. *)
From S2P Require Import Prelude HttpTemplate.
Import Parser.

(** The longest prefix of characters satisfying [P], and what follows. *)
Fixpoint span (P : ascii → bool) (s : string) : string * string :=
  match s with
  | EmptyString => ("", "")
  | String c s' =>
      if P c then let '(l, r) := span P s' in (String c l, r) else ("", s)
  end.

(** The characters ParseLiteral stops at, and those ParseIdentifier stops at. *)
Definition lit_char (c : ascii) : bool :=
  negb (bool_decide (c = "/"%char) || bool_decide (c = ":"%char) ||
        bool_decide (c = "}"%char)).
Definition ident_char (c : ascii) : bool :=
  negb (bool_decide (c = "."%char) || bool_decide (c = "}"%char) ||
        bool_decide (c = "="%char)).

Lemma span_app P s l r : span P s = (l, r) → s = l +:+ r.
Proof.
  revert l r. induction s as [|c s IH]; simpl; intros l r ?; simplify_eq/=; [done|].
  destruct (P c); simplify_eq/=; [|done].
  destruct (span P s) as [l' r'] eqn:E; simplify_eq/=.
  rewrite app_cons_s. f_equal. by apply IH.
Qed.

Lemma span_forall P s l r : span P s = (l, r) → sforall P l = true.
Proof.
  revert l r. induction s as [|c s IH]; simpl; intros l r ?; simplify_eq/=; [done|].
  destruct (P c) eqn:Hc; simplify_eq/=; [|done].
  destruct (span P s) as [l' r'] eqn:E; simplify_eq/=. rewrite Hc. by eapply IH.
Qed.

(** A remaining input that starts with no character of [P]. *)
Definition stops (P : ascii → bool) (r : string) : Prop :=
  match r with EmptyString => True | String c _ => P c = false end.

Lemma span_stops P s l r : span P s = (l, r) → stops P r.
Proof.
  revert l r. induction s as [|c s IH]; simpl; intros l r ?; simplify_eq/=; [done|].
  destruct (P c) eqn:Hc; simplify_eq/=; [|done].
  destruct (span P s) as [l' r'] eqn:E; simplify_eq/=. by eapply IH.
Qed.

Lemma span_intro P l r : sforall P l = true → stops P r → span P (l +:+ r) = (l, r).
Proof.
  induction l as [|c l IH]; intros Hl Hr.
  - destruct r as [|c r]; [done|]. rewrite app_nil_l_s. simpl in *. by rewrite Hr.
  - simpl in Hl. apply andb_true_iff in Hl as [Hc Hl]. rewrite app_cons_s. simpl.
    by rewrite Hc, IH.
Qed.

(** Computes record projections and updates of the parser state only. *)
Ltac psimpl := cbv beta iota zeta delta [tb_ te_ in_variable_ segments_ verb_
  variables_ set_tb set_te set_in_variable set_segments set_verb set_variables].

Section cursor.
Context (input_ : string).

Definition cur (tb te : nat) (r : string) : Prop :=
  tb ≤ te ∧ te ≤ S tb ∧ te ≤ String.length input_ ∧ sdrop tb input_ = r.

(** Where [te_] is once the parser has looked for a current character. *)
Definition look (tb : nat) (r : string) : nat := if is_empty r then tb else S tb.

Lemma cur_length tb te r : cur tb te r → String.length r = String.length input_ - tb.
Proof. intros (_&_&_&<-). apply length_sdrop. Qed.

Lemma cur_next tb te c r :
  cur tb te (String c r) →
  tb < String.length input_ ∧ String.get tb input_ = Some c ∧ sdrop (S tb) input_ = r.
Proof.
  intros (?&?&?&H).
  assert (tb < String.length input_) as Hlt.
  { apply (f_equal String.length) in H. rewrite length_sdrop in H. simpl in H. lia. }
  destruct (sdrop_lt _ _ Hlt) as [d Hd]. pose proof Hd as Hg.
  apply sdrop_get in Hd. rewrite Hd in H. by simplify_eq.
Qed.

Lemma cur_end tb te : cur tb te "" → te = tb ∧ tb = String.length input_.
Proof.
  intros (?&?&?&H). apply (f_equal String.length) in H.
  rewrite length_sdrop in H. simpl in H. lia.
Qed.

Lemma cur_look tb te r : cur tb te r → cur tb (look tb r) r.
Proof.
  intros H. unfold look. destruct r as [|c r]; simpl.
  - by destruct (cur_end _ _ H) as [-> _].
  - destruct (cur_next _ _ _ _ H) as (?&_&_). destruct H as (?&?&?&?).
    repeat split; try done; lia.
Qed.

Lemma cur_step tb te c r : cur tb te (String c r) → cur (S tb) (S tb) r.
Proof. intros H. destruct (cur_next _ _ _ _ H) as (?&_&?). repeat split; try done; lia. Qed.

Lemma cur_steps tb te l r :
  cur tb te (l +:+ r) → cur (tb + String.length l) (look (tb + String.length l) r) r.
Proof.
  revert tb te. induction l as [|c l IH]; intros tb te H; simpl.
  - rewrite Nat.add_0_r. by eapply cur_look.
  - rewrite app_cons_s in H. apply cur_step, IH in H.
    by rewrite <-Nat.add_succ_comm.
Qed.

Lemma cur_initial : cur 0 0 input_.
Proof. repeat split; lia. Qed.

Lemma current_char_cur tb c r iv sg vb vs :
  cur tb (S tb) (String c r) →
  current_char input_ (mkParser tb (S tb) iv sg vb vs) = c.
Proof.
  intros H. destruct (cur_next _ _ _ _ H) as (?&Hg&_). unfold current_char. psimpl.
  assert ((tb <? S tb) = true) as -> by (apply Nat.ltb_lt; lia).
  assert ((S tb <=? String.length input_) = true) as -> by (apply Nat.leb_le; lia).
  simpl. by rewrite Nat.sub_0_r, Hg.
Qed.

Lemma NextChar_cur tb r iv sg vb vs :
  cur tb tb r →
  NextChar input_ (mkParser tb tb iv sg vb vs)
  = (negb (is_empty r), mkParser tb (look tb r) iv sg vb vs).
Proof.
  intros H. unfold NextChar, look. psimpl. destruct r as [|c r].
  - destruct (cur_end _ _ H) as [_ ->]. by rewrite Nat.ltb_irrefl.
  - destruct (cur_next _ _ _ _ H) as (?&_&_).
    by assert ((tb <? String.length input_) = true) as -> by (apply Nat.ltb_lt; lia).
Qed.

Lemma EnsureCurrent_cur tb te r iv sg vb vs :
  cur tb te r →
  EnsureCurrent input_ (mkParser tb te iv sg vb vs)
  = (negb (is_empty r), mkParser tb (look tb r) iv sg vb vs).
Proof.
  intros H. unfold EnsureCurrent. psimpl. destruct (tb <? te) eqn:E; bools.
  - destruct r as [|c r]; [by apply cur_end in H; lia|].
    destruct H as (?&?&?&?). by assert (te = S tb) as -> by lia.
  - assert (te = tb) as -> by (destruct H; lia). by apply NextChar_cur.
Qed.

Definition head_is (c : ascii) (r : string) : bool :=
  match r with EmptyString => false | String d _ => bool_decide (d = c) end.

Lemma Consume_cur c tb te r iv sg vb vs :
  cur tb te r →
  Consume input_ c (mkParser tb te iv sg vb vs)
  = if head_is c r then (true, mkParser (S tb) (S tb) iv sg vb vs)
    else (false, mkParser tb (look tb r) iv sg vb vs).
Proof.
  intros H.
  assert ((if te <=? tb then NextChar input_ (mkParser tb te iv sg vb vs)
           else (true, mkParser tb te iv sg vb vs))
          = (negb (is_empty r), mkParser tb (look tb r) iv sg vb vs)) as E.
  { rewrite <-(EnsureCurrent_cur _ _ _ iv sg vb vs H). unfold EnsureCurrent. psimpl.
    rewrite Nat.leb_antisym. by destruct (tb <? te). }
  unfold Consume. psimpl. rewrite E. destruct r as [|d r]; simpl; [done|].
  rewrite (current_char_cur _ _ _ _ _ _ _ (cur_look _ _ _ H)). simpl.
  by destruct (bool_decide (d = c)).
Qed.

Lemma ParseLiteral_loop_cur fuel result lit tb r0 l r iv sg vb vs :
  cur tb (S tb) r0 → r0 ≠ "" → span lit_char r0 = (l, r) → String.length l < fuel →
  ParseLiteral_loop input_ fuel result lit (mkParser tb (S tb) iv sg vb vs)
  = Some (result || negb (is_empty l), lit +:+ l,
          mkParser (tb + String.length l) (look (tb + String.length l) r) iv sg vb vs).
Proof.
  revert result lit tb r0 l r.
  induction fuel as [|fuel IH]; intros result lit tb r0 l r H Hne Hs Hf; [lia|].
  destruct r0 as [|c r0]; [done|]. simpl.
  rewrite (current_char_cur _ _ _ _ _ _ _ H).
  fold (lit_char c). simpl in Hs. unfold lit_char in Hs at 1.
  destruct (bool_decide (c = "/"%char) || _ || _) eqn:Hc; simplify_eq/=.
  { by rewrite orb_false_r, app_nil_r_s, Nat.add_0_r. }
  destruct (span lit_char r0) as [l' r'] eqn:Hs'; simplify_eq/=.
  rewrite (Consume_cur _ _ _ _ _ _ _ _ H). simpl.
  rewrite bool_decide_eq_true_2 by done. simpl.
  pose proof (cur_step _ _ _ _ H) as H1.
  rewrite (NextChar_cur _ _ _ _ _ _ H1). destruct r0 as [|d r0]; simpl.
  - simpl in Hs'. simplify_eq/=. by rewrite orb_true_r, Nat.add_1_r.
  - rewrite (IH true _ _ _ l' r (cur_look _ _ _ H1)) by (done || lia). simpl.
    rewrite orb_true_r, app_assoc_s, <-Nat.add_succ_comm. done.
Qed.

Lemma ParseLiteral_cur fuel lit tb te r0 l r iv sg vb vs :
  cur tb te r0 → span lit_char r0 = (l, r) → String.length l < fuel →
  ParseLiteral input_ fuel lit (mkParser tb te iv sg vb vs)
  = Some (negb (is_empty l), lit +:+ l,
          mkParser (tb + String.length l) (look (tb + String.length l) r) iv sg vb vs).
Proof.
  intros H Hs Hf. unfold ParseLiteral. rewrite (EnsureCurrent_cur _ _ _ _ _ _ _ H).
  destruct r0 as [|c r0].
  - simpl in *. simplify_eq/=. by rewrite app_nil_r_s, Nat.add_0_r.
  - simpl negb. cbv iota.
    by rewrite (ParseLiteral_loop_cur _ _ _ _ _ l r _ _ _ _ (cur_look _ _ _ H)).
Qed.

Lemma ParseIdentifier_loop_cur fuel result idf tb r0 l r iv sg vb vs :
  cur tb tb r0 → span ident_char r0 = (l, r) → String.length l < fuel →
  ParseIdentifier_loop input_ fuel result idf (mkParser tb tb iv sg vb vs)
  = Some (let p := mkParser (tb + String.length l) (look (tb + String.length l) r)
                            iv sg vb vs in
          if result || negb (is_empty l) then AddFieldIdentifier (idf +:+ l) p
          else (false, p)).
Proof.
  revert result idf tb r0 l r.
  induction fuel as [|fuel IH]; intros result idf tb r0 l r H Hs Hf; [lia|]. simpl.
  rewrite (NextChar_cur _ _ _ _ _ _ H). destruct r0 as [|c r0]; simpl.
  { simpl in Hs. simplify_eq/=. rewrite orb_false_r, app_nil_r_s, Nat.add_0_r.
    by destruct result. }
  pose proof (cur_look _ _ _ H) as H1. unfold look in *; simpl in *.
  rewrite (current_char_cur _ _ _ _ _ _ _ H1). unfold ident_char in Hs at 1.
  destruct (bool_decide (c = "."%char) || _ || _) eqn:Hc; simplify_eq/=.
  { rewrite orb_false_r, app_nil_r_s, Nat.add_0_r. by destruct result. }
  destruct (span ident_char r0) as [l' r'] eqn:Hs'; simplify_eq/=.
  rewrite (Consume_cur _ _ _ _ _ _ _ _ H1). simpl.
  rewrite bool_decide_eq_true_2 by done. simpl.
  rewrite (IH true _ _ _ l' r (cur_step _ _ _ _ H)) by (done || lia). simpl.
  by rewrite orb_true_r, app_assoc_s, <-Nat.add_succ_comm.
Qed.

(** ParseIdentifier is only entered right after a consumed character. *)
Lemma ParseIdentifier_cur fuel tb r0 l r iv sg vb vs :
  cur tb tb r0 → span ident_char r0 = (l, r) → String.length l < fuel →
  ParseIdentifier input_ fuel (mkParser tb tb iv sg vb vs)
  = Some (let p := mkParser (tb + String.length l) (look (tb + String.length l) r)
                            iv sg vb vs in
          if is_empty l then (false, p) else AddFieldIdentifier l p).
Proof.
  intros H Hs Hf. unfold ParseIdentifier.
  rewrite (ParseIdentifier_loop_cur _ _ _ _ _ l r _ _ _ _ H Hs Hf). simpl.
  by destruct l.
Qed.

End cursor.
