(* ===== verification/TemplateGrammar.v ===== *)
(** * The template grammar, and the parser against it

    The grammar of the comments of http_template.cc,
<<
    Template = "/" Segments [ Verb ] ;
    Segments = Segment { "/" Segment } ;
    Segment  = "*" | "**" | LITERAL | Variable ;
    Variable = "{" FieldPath [ "=" Segments ] "}" ;
    FieldPath = IDENT { "." IDENT } ;
    Verb     = ":" LITERAL ;
>>
    as syntax trees with their text ([template_text]) and their meaning
    ([denote]).  [Parse_grammar] shows that [Parse] succeeds on exactly the
    texts of well-formed trees and returns their meaning. *)
From S2P Require Import Prelude HttpTemplate TemplateCursor.
Import Parser.

(** ** Syntax trees *)

Inductive Atom := AStar | ADoubleStar | ALiteral (l : string).

(** Variables do not nest: their sub-template consists of atoms.  The grammar in the
    comment of the source has Segments there, and so variables; StartVariable refuses
    a variable inside another one. *)
Inductive Seg := SAtom (a : Atom) | SVar (path : list string) (sub : option (list Atom)).

Record Template := mkTemplate { t_segs : list Seg; t_verb : option string }.

Definition atom_text (a : Atom) : string :=
  match a with AStar => "*" | ADoubleStar => "**" | ALiteral l => l end.

Definition seg_text (s : Seg) : string :=
  match s with
  | SAtom a => atom_text a
  | SVar path None => "{" +:+ str_join "." path +:+ "}"
  | SVar path (Some sub) =>
      "{" +:+ str_join "." path +:+ "=" +:+ str_join "/" (atom_text <$> sub) +:+ "}"
  end.

Definition verb_text (v : option string) : string :=
  match v with None => "" | Some l => ":" +:+ l end.

Definition template_text (t : Template) : string :=
  "/" +:+ str_join "/" (seg_text <$> t_segs t) +:+ verb_text (t_verb t).

(** LITERAL and IDENT, as the two character loops read them. *)
Definition wf_literal (l : string) : Prop := l ≠ "" ∧ sforall lit_char l = true.
Definition wf_ident (l : string) : Prop := l ≠ "" ∧ sforall ident_char l = true.

(** A segment that starts with a star or a brace is never a literal. *)
Definition wf_atom (a : Atom) : Prop :=
  match a with
  | ALiteral l => wf_literal l ∧ head_is "*" l = false ∧ head_is "{" l = false
  | _ => True
  end.

Definition wf_sub (sub : option (list Atom)) : Prop :=
  match sub with None => True | Some s => s ≠ [] ∧ Forall wf_atom s end.

Definition wf_seg (s : Seg) : Prop :=
  match s with
  | SAtom a => wf_atom a
  | SVar path sub => path ≠ [] ∧ Forall wf_ident path ∧ wf_sub sub
  end.

(** ** Meaning *)

(** [{field_path}] is equivalent to [{field_path=*}]. *)
Definition sub_atoms (sub : option (list Atom)) : list Atom := default [AStar] sub.

Definition seg_atoms (s : Seg) : list Atom :=
  match s with SAtom a => [a] | SVar _ sub => sub_atoms sub end.

Definition is_double_star (a : Atom) : bool :=
  match a with ADoubleStar => true | _ => false end.

Definition segs_strings (ss : list Seg) : list string :=
  atom_text <$> (ss ≫= seg_atoms).

(** The variables of the segments, the first one at index [off]. *)
Fixpoint segs_vars (off : nat) (ss : list Seg) : list HtVariable :=
  match ss with
  | [] => []
  | SAtom _ :: ss => segs_vars (S off) ss
  | SVar path sub :: ss =>
      let e := off + length (sub_atoms sub) in
      mkHtVariable (Z.of_nat off) (Z.of_nat e) path (existsb is_double_star (sub_atoms sub))
      :: segs_vars e ss
  end.

(** A variable with a double star has its end counted from the end of the path:
    -1 is the end, and a verb is one more segment. *)
Definition from_end (n : nat) (has_verb : bool) (v : HtVariable) : HtVariable :=
  if has_wildcard_path v then
    mkHtVariable (start_segment v)
      (end_segment v - Z.of_nat n - 1 - (if has_verb then 1 else 0))
      (field_path v) true
  else v.

Definition denote (t : Template) : HttpTemplate :=
  let segs := segs_strings (t_segs t) in
  mkHttpTemplate segs (default "" (t_verb t))
    (from_end (length segs) (bool_decide (is_Some (t_verb t))) <$> segs_vars 0 (t_segs t)).

(** Nothing but constants after a double star. *)
Definition const_after_wildcard (segs : list string) : Prop :=
  ∀ pre post, segs = pre ++ "**" :: post → Forall (λ s, s ∉ ["*"; "**"; "/."]) post.

Definition wf_template (t : Template) : Prop :=
  t_segs t ≠ [] ∧ Forall wf_seg (t_segs t) ∧
  match t_verb t with None => True | Some v => wf_literal v end ∧
  const_after_wildcard (segs_strings (t_segs t)).

(** ** Auxiliary facts *)

Lemma ValidateParts_from_true segs :
  ValidateParts_from true segs = true ↔ Forall (λ s, s ∉ ["*"; "**"; "/."]) segs.
Proof.
  induction segs as [|s segs IH]; simpl; [by split|].
  unfold kSingleParameterKey, kWildCardPathPartKey, kWildCardPathKey.
  rewrite Forall_cons, <-IH.
  assert (s ∉ ["*"; "**"; "/."] ↔
          bool_decide (s = "/.") || bool_decide (s = "*") || bool_decide (s = "**") = false)
    as ->.
  { rewrite !orb_false_iff, !bool_decide_eq_false, !not_elem_of_cons.
    pose proof (not_elem_of_nil s). naive_solver. }
  destruct (_ || _); naive_solver.
Qed.

Lemma ValidateParts_from_false segs :
  ValidateParts_from false segs = true ↔ const_after_wildcard segs.
Proof.
  induction segs as [|s segs IH]; simpl.
  { split; [|done]. intros _ [|??] ? ?; done. }
  unfold kWildCardPathKey. destruct (bool_decide (s = "**")) eqn:Hs; bools.
  - subst s. rewrite ValidateParts_from_true. split.
    + intros Hall [|s pre] post Heq; simplify_eq/=; [done|].
      apply Forall_app in Hall as [_ Hall]. by apply Forall_cons in Hall as [_ ?].
    + intros H. by apply (H []).
  - rewrite IH. split; intros H pre post Heq.
    + destruct pre as [|s' pre]; simplify_eq/=. by eapply H.
    + apply (H (s :: pre)). by simplify_eq/=.
Qed.

Lemma modify_current_snoc f tb te iv sg vb vs v :
  modify_current f (mkParser tb te iv sg vb (vs ++ [v]))
  = mkParser tb te iv sg vb (vs ++ [f v]).
Proof. unfold modify_current. psimpl. by rewrite last_snoc, removelast_last. Qed.

Lemma in_current_snoc tb te iv sg vb vs v :
  in_current (mkParser tb te iv sg vb (vs ++ [v])) = iv.
Proof.
  unfold in_current. psimpl. rewrite bool_decide_eq_false_2; [by destruct iv|].
  by destruct vs.
Qed.

Lemma AddFieldIdentifier_snoc id tb te sg vb vs v :
  AddFieldIdentifier id (mkParser tb te true sg vb (vs ++ [v]))
  = (true, mkParser tb te true sg vb
      (vs ++ [mkHtVariable (start_segment v) (end_segment v) (field_path v ++ [id])
                           (has_wildcard_path v)])).
Proof. unfold AddFieldIdentifier. by rewrite in_current_snoc, modify_current_snoc. Qed.

(** What a sequence of atoms does to the current variable. *)
Definition mark (sub : list Atom) (v : HtVariable) : HtVariable :=
  mkHtVariable (start_segment v) (end_segment v) (field_path v)
    (has_wildcard_path v || existsb is_double_star sub).

Lemma mark_nil v : mark [] v = v.
Proof. destruct v. unfold mark. simpl. by rewrite orb_false_r. Qed.

(** What follows the first piece of a joined list. *)
Definition join_tail (sep : string) (ws : list string) : string :=
  match ws with [] => "" | _ => sep +:+ str_join sep ws end.

Lemma str_join_cons sep w ws : str_join sep (w :: ws) = w +:+ join_tail sep ws.
Proof. destruct ws; simpl; [by rewrite app_nil_r_s|done]. Qed.

Lemma head_is_true c r : head_is c r = true ↔ ∃ r', r = String c r'.
Proof.
  destruct r as [|d r]; simpl; [naive_solver|].
  rewrite bool_decide_eq_true. naive_solver.
Qed.

Lemma head_is_literal c l r :
  wf_literal l → head_is c (l +:+ r) = head_is c l.
Proof. by intros [? _]; destruct l. Qed.

(** ** The parser reads no more than the grammar, and always answers *)

Section parse.
Context (input_ : string).
#[local] Abbreviation cur := (cur input_).

(** *** Atoms, inside a variable or not *)

(** The variables after reading the atoms: the current one is only marked when
    the parser is inside it. *)
Definition marked (iv : bool) (sub : list Atom) (vs : list HtVariable) : list HtVariable :=
  if iv then match last vs with
             | Some v => removelast vs ++ [mark sub v]
             | None => vs
             end
  else vs.

Lemma marked_in sub vs v : marked true sub (vs ++ [v]) = vs ++ [mark sub v].
Proof. unfold marked. by rewrite last_snoc, removelast_last. Qed.

(** The parser is inside a variable only while one is being built. *)
Definition var_ok (iv : bool) (vs : list HtVariable) : Prop :=
  iv = true → ∃ vs' v, vs = vs' ++ [v].

Lemma marked_nil iv vs : var_ok iv vs → marked iv [] vs = vs.
Proof.
  unfold var_ok. destruct iv; [|done]. intros (vs'&v&->); [done|].
  by rewrite marked_in, mark_nil.
Qed.

Lemma marked_app iv s1 s2 vs : marked iv s2 (marked iv s1 vs) = marked iv (s1 ++ s2) vs.
Proof.
  destruct iv; [|done]. destruct vs as [|v vs _] using rev_ind; [done|].
  rewrite !marked_in. do 2 f_equal. unfold mark. simpl.
  by rewrite existsb_app, orb_assoc.
Qed.

Lemma var_ok_marked iv sub vs : var_ok iv vs → var_ok iv (marked iv sub vs).
Proof.
  intros H ->. destruct (H eq_refl) as (vs'&v&->). rewrite marked_in. eauto.
Qed.

Lemma ParseStar_cur tb te r0 iv sg vb vs :
  cur tb te (String "*" r0) → var_ok iv vs →
  ∃ a r tb' te',
    ParseStar input_ (mkParser tb te iv sg vb vs)
      = Some (true, mkParser tb' te' iv (sg ++ [atom_text a]) vb (marked iv [a] vs)) ∧
    a = (if head_is "*" r0 then ADoubleStar else AStar) ∧
    String "*" r0 = atom_text a +:+ r ∧ cur tb' te' r ∧ tb < tb'.
Proof.
  intros H Hv. unfold ParseStar. rewrite (Consume_cur _ _ _ _ _ _ _ _ _ H). simpl.
  pose proof (cur_step _ _ _ _ _ H) as H1. rewrite (Consume_cur _ _ _ _ _ _ _ _ _ H1).
  destruct (head_is "*" r0) eqn:Hh.
  - apply head_is_true in Hh as [r ->]. pose proof (cur_step _ _ _ _ _ H1) as H2.
    exists ADoubleStar, r, (S (S tb)), (S (S tb)). unfold push_segment. psimpl.
    split; [|by split_and!; [..|lia]]. destruct iv; [|done].
    destruct (Hv eq_refl) as (vs'&v&->). unfold MarkVariableHasWildCardPath.
    rewrite in_current_snoc, modify_current_snoc, marked_in. unfold mark. simpl.
    by rewrite orb_true_r.
  - exists AStar, r0, (S tb), (look (S tb) r0). unfold push_segment. psimpl.
    split; [|by split_and!; [..|eapply cur_look|lia]]. do 3 f_equal.
    destruct iv; [|done]. destruct (Hv eq_refl) as (vs'&v&->). rewrite marked_in.
    f_equal. f_equal. unfold mark. destruct v. simpl. by rewrite orb_false_r.
Qed.

(** *** Field paths *)

Definition add_path (ids : list string) (v : HtVariable) : HtVariable :=
  mkHtVariable (start_segment v) (end_segment v) (field_path v ++ ids)
               (has_wildcard_path v).

Lemma add_path_nil v : add_path [] v = v.
Proof. destruct v. unfold add_path. simpl. by rewrite app_nil_r. Qed.

Lemma add_path_app i1 i2 v : add_path i2 (add_path i1 v) = add_path (i1 ++ i2) v.
Proof. unfold add_path. simpl. by rewrite app_assoc. Qed.

Lemma ParseIdentifier_in fuel tb r0 l r sg vb vs v :
  cur tb tb r0 → span ident_char r0 = (l, r) → String.length r0 < fuel →
  ParseIdentifier input_ fuel (mkParser tb tb true sg vb (vs ++ [v]))
  = Some (negb (is_empty l),
          mkParser (tb + String.length l) (look (tb + String.length l) r) true sg vb
            (vs ++ [add_path (if is_empty l then [] else [l]) v])).
Proof.
  intros H Hs Hf. pose proof (span_app _ _ _ _ Hs) as ->.
  rewrite length_app_s in Hf.
  rewrite (ParseIdentifier_cur _ _ _ _ _ _ _ _ _ _ H Hs) by lia.
  destruct l as [|c l]; cbv beta iota zeta delta [is_empty negb].
  - by rewrite add_path_nil.
  - by rewrite AddFieldIdentifier_snoc.
Qed.

Lemma ParseFieldPath_loop_sound fuel tb te r0 sg vb vs v :
  cur tb te r0 → String.length r0 < fuel →
  ∃ ok p', ParseFieldPath_loop input_ fuel (mkParser tb te true sg vb (vs ++ [v]))
             = Some (ok, p') ∧
    (ok = true → ∃ ids r tb' te',
       Forall wf_ident ids ∧ r0 = join_tail "." ids +:+ r ∧ cur tb' te' r ∧ tb ≤ tb' ∧
       p' = mkParser tb' te' true sg vb (vs ++ [add_path ids v])).
Proof.
  revert tb te r0 v. induction fuel as [|fuel IH]; intros tb te r0 v H Hf; [lia|].
  simpl. rewrite (Consume_cur _ _ _ _ _ _ _ _ _ H). destruct (head_is "." r0) eqn:Hh.
  - apply head_is_true in Hh as [r1 ->]. simpl in Hf.
    pose proof (cur_step _ _ _ _ _ H) as H1. destruct (span ident_char r1) as [l r] eqn:Hs.
    rewrite (ParseIdentifier_in _ _ _ _ _ _ _ _ _ H1 Hs) by lia.
    pose proof (span_app _ _ _ _ Hs) as ->. pose proof (span_forall _ _ _ _ Hs) as Hl.
    destruct (is_empty l) eqn:Hl0; cbn [negb and_then]; [by eexists _, _; split|].
    rewrite length_app_s in Hf.
    destruct (IH _ _ r (add_path [l] v) (cur_steps _ _ _ _ _ H1)) as (ok&p'&->&Hok); [lia|].
    exists ok, p'. split; [done|]. intros ->.
    destruct (Hok eq_refl) as (ids&r'&tb'&te'&?&->&?&?&->).
    exists (l :: ids), r', tb', te'. split_and!; try done; [| |lia|by rewrite add_path_app].
    + apply Forall_cons. apply is_empty_false in Hl0. by repeat split.
    + unfold join_tail at 2. rewrite str_join_cons. by autorewrite with esp.
  - simpl. eexists _, _. split; [done|]. intros _. exists [], r0, tb, (look tb r0).
    split_and!; try done; [by eapply cur_look|by rewrite add_path_nil].
Qed.

Lemma ParseFieldPath_sound fuel tb r0 sg vb vs v :
  cur tb tb r0 → String.length r0 < fuel →
  ∃ ok p', ParseFieldPath input_ fuel (mkParser tb tb true sg vb (vs ++ [v]))
             = Some (ok, p') ∧
    (ok = true → ∃ ids r tb' te',
       ids ≠ [] ∧ Forall wf_ident ids ∧ r0 = str_join "." ids +:+ r ∧ cur tb' te' r ∧
       tb < tb' ∧ p' = mkParser tb' te' true sg vb (vs ++ [add_path ids v])).
Proof.
  intros H Hf. unfold ParseFieldPath. destruct (span ident_char r0) as [l r] eqn:Hs.
  rewrite (ParseIdentifier_in _ _ _ _ _ _ _ _ _ H Hs) by done.
  pose proof (span_app _ _ _ _ Hs) as ->. pose proof (span_forall _ _ _ _ Hs) as Hl.
  destruct (is_empty l) eqn:Hl0; cbn [negb and_then]; [by eexists _, _; split|]. rewrite length_app_s in Hf.
  destruct (ParseFieldPath_loop_sound fuel _ _ r sg vb vs (add_path [l] v)
    (cur_steps _ _ _ _ _ H)) as (ok&p'&->&Hok); [lia|].
  exists ok, p'. split; [done|]. intros ->.
  destruct (Hok eq_refl) as (ids&r'&tb'&te'&?&->&?&?&->). apply is_empty_false in Hl0.
  exists (l :: ids), r', tb', te'.
  split_and!; try done; [by apply Forall_cons| |  |by rewrite add_path_app].
  - rewrite str_join_cons. by autorewrite with esp.
  - assert (String.length l ≠ 0) by (by rewrite length_zero_s). lia.
Qed.

(** *** Segments and variables *)

Definition is_atom (s : Seg) : Prop := match s with SAtom _ => True | SVar _ _ => False end.

(** The variables after reading segments [ss] with [sg] already read. *)
Definition vs_after (iv : bool) (sg : list string) (ss : list Seg) (vs : list HtVariable)
  : list HtVariable :=
  if iv then marked true (ss ≫= seg_atoms) vs else vs ++ segs_vars (length sg) ss.

Lemma segs_strings_app s1 s2 : segs_strings (s1 ++ s2) = segs_strings s1 ++ segs_strings s2.
Proof. unfold segs_strings. by rewrite bind_app, fmap_app. Qed.

Lemma segs_vars_cons off s ss :
  segs_vars off (s :: ss) = segs_vars off [s] ++ segs_vars (off + length (seg_atoms s)) ss.
Proof. destruct s; simpl; [by rewrite Nat.add_1_r|done]. Qed.

Lemma vs_after_cons iv sg s ss vs :
  vs_after iv (sg ++ segs_strings [s]) ss (vs_after iv sg [s] vs)
  = vs_after iv sg (s :: ss) vs.
Proof.
  unfold vs_after. destruct iv.
  - rewrite marked_app. simpl. by rewrite app_nil_r.
  - rewrite (segs_vars_cons _ s ss), app_assoc. do 2 f_equal.
    unfold segs_strings. rewrite length_app, length_fmap. simpl. by rewrite app_nil_r.
Qed.

Lemma vs_after_ok iv sg ss vs : var_ok iv vs → var_ok iv (vs_after iv sg ss vs).
Proof. destruct iv; [|done]. apply (var_ok_marked true). Qed.

(** What a function that reads segments [ss], spelled [text ss], achieves. *)
Definition segs_read (text : list Seg → string) (shape : list Seg → Prop)
    (tb : nat) (r0 : string) (iv : bool) (sg : list string) (vb : string)
    (vs : list HtVariable) (p' : Parser) : Prop :=
  ∃ ss r tb' te',
    shape ss ∧ Forall wf_seg ss ∧ (iv = true → Forall is_atom ss) ∧
    r0 = text ss +:+ r ∧ cur tb' te' r ∧ tb ≤ tb' ∧
    length (sg ++ segs_strings ss) ≤ tb' ∧
    p' = mkParser tb' te' iv (sg ++ segs_strings ss) vb (vs_after iv sg ss vs).

Definition segs_sound (f : Parser → outcome) (extra : nat) (fuel : nat)
    (text : list Seg → string) (shape : list Seg → Prop) : Prop :=
  ∀ tb te r0 iv sg vb vs,
    cur tb te r0 → var_ok iv vs → length sg ≤ tb → String.length r0 + extra ≤ fuel →
    ∃ ok p', f (mkParser tb te iv sg vb vs) = Some (ok, p') ∧
             (ok = true → segs_read text shape tb r0 iv sg vb vs p').

Definition one_text (ss : list Seg) : string := str_join "/" (seg_text <$> ss).
Definition tail_text (ss : list Seg) : string := join_tail "/" (seg_text <$> ss).
Definition singleton_segs (ss : list Seg) : Prop := ∃ s, ss = [s].

Lemma segs_read_atom a tb te r iv sg vb vs tb0 r0 :
  wf_atom a → r0 = atom_text a +:+ r → cur tb te r → tb0 < tb → length sg ≤ tb0 →
  segs_read one_text singleton_segs tb0 r0 iv sg vb vs
    (mkParser tb te iv (sg ++ [atom_text a]) vb (marked iv [a] vs)).
Proof.
  intros. exists [SAtom a], r, tb, te. unfold singleton_segs.
  split_and!; [by eexists|by apply Forall_singleton|intros _; by apply Forall_singleton
              |done|done|lia|rewrite length_app; simpl; lia|].
  f_equal. unfold vs_after. destruct iv; [done|]. simpl. by rewrite app_nil_r.
Qed.

Lemma ParseLiteralSegment_sound fuel tb te r0 iv sg vb vs :
  cur tb te r0 → length sg ≤ tb → String.length r0 < fuel →
  head_is "*" r0 = false → head_is "{" r0 = false →
  ∃ ok p', ParseLiteralSegment input_ fuel (mkParser tb te iv sg vb vs) = Some (ok, p') ∧
    (ok = true → var_ok iv vs →
     segs_read one_text singleton_segs tb r0 iv sg vb vs p').
Proof.
  intros H Hsg Hf Hstar Hbrace. unfold ParseLiteralSegment.
  destruct (span lit_char r0) as [l r] eqn:Hs.
  pose proof (span_app _ _ _ _ Hs) as ->. pose proof (span_forall _ _ _ _ Hs) as Hl.
  rewrite length_app_s in Hf.
  rewrite (ParseLiteral_cur _ _ _ _ _ _ _ _ _ _ _ _ H Hs) by lia.
  rewrite app_nil_l_s. destruct (is_empty l) eqn:Hl0; cbn [negb].
  { by eexists _, _. }
  apply is_empty_false in Hl0. eexists _, _. split; [done|]. intros _ Hv.
  unfold push_segment. psimpl.
  assert (wf_atom (ALiteral l)) as Ha.
  { rewrite !head_is_literal in * by done. done. }
  pose proof (segs_read_atom (ALiteral l) _ _ r iv sg vb vs tb _ Ha eq_refl
    (cur_steps _ _ _ _ _ H)) as Hr.
  assert (String.length l ≠ 0) by (by rewrite length_zero_s).
  assert (marked iv [ALiteral l] vs = vs) as Hm.
  { rewrite <-(marked_nil iv vs Hv) at 2. unfold marked. destruct iv; [|done].
    by destruct (last vs). }
  rewrite Hm in Hr. apply Hr; lia.
Qed.

(** *** The four mutually recursive functions, together *)

Hypothesis input_small : (Z.of_nat (String.length input_) < 2 ^ 31)%Z.

Lemma int_of_size_small n : n ≤ String.length input_ → int_of_size n = Z.of_nat n.
Proof. intros. unfold int_of_size. apply i32_id. lia. Qed.

Lemma cur_tb_le tb te r : cur tb te r → tb ≤ String.length input_.
Proof. intros (?&?&?&_). lia. Qed.

(** Closing a variable whose sub-template has been read. *)
Lemma EndVariable_snoc tb te sg sub vb vs path wild :
  path ≠ [] → sub ≠ [] → length (sg ++ sub) ≤ String.length input_ →
  EndVariable (mkParser tb te true (sg ++ sub) vb
    (vs ++ [mkHtVariable (int_of_size (length sg)) 0 path wild]))
  = (true, mkParser tb te false (sg ++ sub) vb
      (vs ++ [mkHtVariable (Z.of_nat (length sg)) (Z.of_nat (length sg + length sub))
                           path wild])).
Proof.
  intros Hp Hsub Hlen. unfold EndVariable. rewrite in_current_snoc, modify_current_snoc.
  psimpl. rewrite last_snoc. unfold ValidateVariable. psimpl. simpl.
  rewrite length_app in *. rewrite !int_of_size_small by lia.
  rewrite bool_decide_eq_false_2 by done.
  assert (length sub ≠ 0) by (by destruct sub).
  rewrite (proj2 (Z.ltb_lt _ _)), (proj2 (Z.leb_le _ _)) by lia. done.
Qed.

Lemma one_text_atoms sub : one_text (SAtom <$> sub) = str_join "/" (atom_text <$> sub).
Proof. unfold one_text. by rewrite <-list_fmap_compose. Qed.

Lemma bind_atoms sub : (SAtom <$> sub) ≫= seg_atoms = sub.
Proof. induction sub as [|a sub IH]; [done|]. simpl. by f_equal. Qed.

Lemma atoms_of_segs ss :
  Forall is_atom ss → Forall wf_seg ss → ∃ sub, ss = SAtom <$> sub ∧ Forall wf_atom sub.
Proof.
  induction ss as [|s ss IH]; intros Hat Hwf; [by exists []|].
  apply Forall_cons in Hat as [Hs Hat], Hwf as [Hw Hwf].
  destruct (IH Hat Hwf) as (sub&->&?). destruct s as [a|]; [|done].
  exists (a :: sub). split; [done|]. by apply Forall_cons.
Qed.

(** The parser before the end of a variable whose sub-template has been read. *)
Definition open_variable (tb te : nat) (sg : list string) (vb : string) (vs : list HtVariable)
    (path : list string) (sub : option (list Atom)) : Parser :=
  mkParser tb te true (sg ++ (atom_text <$> sub_atoms sub)) vb
    (vs ++ [mkHtVariable (int_of_size (length sg)) 0 path (existsb is_double_star (sub_atoms sub))]).

Lemma close_variable tb te r sg vb vs path sub :
  wf_seg (SVar path sub) → cur tb te r → length (sg ++ (atom_text <$> sub_atoms sub)) ≤ tb →
  EndVariable (open_variable tb te sg vb vs path sub)
  = (true, mkParser tb te false (sg ++ segs_strings [SVar path sub]) vb
             (vs_after false sg [SVar path sub] vs)).
Proof.
  intros (Hp&_&Hsub) H Hlen. pose proof (cur_tb_le _ _ _ H) as Hle. unfold open_variable.
  rewrite EndVariable_snoc; [|done| |lia].
  - unfold vs_after, segs_strings. simpl. by rewrite app_nil_r, length_fmap.
  - destruct sub as [[|]|]; [by destruct Hsub|done..].
Qed.

Lemma variable_closed_sound tb0 r0 tb te r sg vb vs path sub :
  wf_seg (SVar path sub) → cur tb te r → tb0 ≤ tb →
  length (sg ++ (atom_text <$> sub_atoms sub)) ≤ tb →
  (∀ r', r = String "}" r' → r0 = seg_text (SVar path sub) +:+ r') →
  ∃ ok p', and_then (Some (EndVariable (open_variable tb te sg vb vs path sub)))
             (λ p, Some (Consume input_ "}" p)) = Some (ok, p') ∧
    (ok = true → segs_read one_text singleton_segs tb0 r0 false sg vb vs p').
Proof.
  intros Hwf H Htb Hlen Htext. rewrite (close_variable _ _ r) by done. cbn [and_then].
  rewrite (Consume_cur _ _ _ _ _ _ _ _ _ H). destruct (head_is "}" r) eqn:Hcl; [|by eexists _, _].
  apply head_is_true in Hcl as [r' ->]. eexists _, _. split; [done|]. intros _.
  exists [SVar path sub], r', (S tb), (S tb). unfold segs_strings in *. simpl. rewrite app_nil_r.
  split_and!; [by eexists|by apply Forall_singleton|done|by apply Htext|by eapply cur_step|lia|lia|done].
Qed.

Lemma ParseVariable_sound fuel :
  segs_sound (ParseSegments input_ fuel) 3 fuel one_text (λ ss, ss ≠ []) →
  ∀ tb te r0 iv sg vb vs,
    cur tb te (String "{" r0) → length sg ≤ tb → String.length r0 + 2 ≤ S fuel →
    ∃ ok p', ParseVariable input_ (S fuel) (mkParser tb te iv sg vb vs) = Some (ok, p') ∧
      (ok = true → segs_read one_text singleton_segs tb (String "{" r0) iv sg vb vs p').
Proof.
  intros IH tb te r0 iv sg vb vs H Hsg Hf. simpl.
  rewrite (Consume_cur _ _ _ _ _ _ _ _ _ H). simpl head_is. cbn [and_then].
  unfold StartVariable. psimpl. destruct iv; cbn [negb and_then]; [by eexists _, _|].
  pose proof (cur_step _ _ _ _ _ H) as H1.
  set (v0 := mkHtVariable (int_of_size (length sg)) 0 [] false).
  destruct (ParseFieldPath_sound fuel (S tb) r0 sg vb vs v0 H1) as (ok&p'&->&Hok); [lia|].
  destruct ok; cbn [and_then]; [|by eexists _, _].
  destruct (Hok eq_refl) as (ids&r&tb2&te2&Hids0&Hids&->&H2&Htb2&->). clear Hok.
  rewrite length_app_s in Hf.
  rewrite (Consume_cur _ _ _ _ _ _ _ _ _ H2). destruct (head_is "=" r) eqn:Heq.
  - apply head_is_true in Heq as [r' ->]. simpl in Hf.
    pose proof (cur_step _ _ _ _ _ H2) as H3.
    pose proof (cur_length _ _ _ _ H1) as L1. pose proof (cur_length _ _ _ _ H2) as L2.
    rewrite length_app_s in L1. simpl in L1, L2.
    destruct (IH _ _ _ true sg vb (vs ++ [add_path ids v0]) H3) as (ok&p'&->&Hok);
      [intros _; eauto|lia|lia|].
    destruct ok; cbn [and_then]; [|by eexists _, _].
    destruct (Hok eq_refl) as (ss&r&tb3&te3&Hss&Hwf&Hat&->&H4&Htb3&Hlen&->). clear Hok.
    destruct (atoms_of_segs ss (Hat eq_refl) Hwf) as (sub&->&Hsub).
    unfold vs_after, segs_strings in *. rewrite marked_in, one_text_atoms, !bind_atoms in *.
    apply (variable_closed_sound tb _ tb3 te3 r sg vb vs ids (Some sub)); [|done|lia|done|].
    + split_and!; [done|done|]. split; [by destruct sub|done].
    + intros r' ->. simpl. by autorewrite with esp.
  - cbn [and_then]. unfold push_segment. psimpl. pose proof (cur_look _ _ _ _ H2) as H3.
    apply (variable_closed_sound tb _ tb2 _ r sg vb vs ids None); [|exact H3|lia| |].
    + by split_and!.
    + rewrite length_app. simpl. lia.
    + intros r' ->. simpl. by autorewrite with esp.
Qed.

Lemma one_text_cons s ss : one_text (s :: ss) = one_text [s] +:+ tail_text ss.
Proof. apply str_join_cons. Qed.

(** One segment, then the loop. *)
Lemma segs_read_cons tb r0 iv sg vb vs p1 (f : Parser → outcome) fuel :
  segs_read one_text singleton_segs tb r0 iv sg vb vs p1 → var_ok iv vs →
  String.length r0 + 2 ≤ fuel →
  segs_sound f 2 fuel tail_text (λ _, True) →
  ∃ ok p', f p1 = Some (ok, p') ∧
           (ok = true → segs_read one_text (λ ss, ss ≠ []) tb r0 iv sg vb vs p').
Proof.
  intros (ss&r&tb1&te1&[s ->]&Hwf&Hat&->&H1&Htb&Hlen&->) Hv Hf Hloop.
  rewrite length_app_s in Hf.
  destruct (Hloop _ _ _ iv (sg ++ segs_strings [s]) vb _ H1
    (vs_after_ok _ sg [s] _ Hv)) as (ok&p'&->&Hok);
    [done|lia|].
  exists ok, p'. split; [done|]. intros ->.
  destruct (Hok eq_refl) as (ss&r'&tb2&te2&_&Hwf2&Hat2&->&H2&Htb2&Hlen2&->).
  rewrite vs_after_cons, <-app_assoc, <-segs_strings_app in *. simpl in Hlen2.
  exists (s :: ss), r', tb2, te2. rewrite (one_text_cons s ss), app_assoc_s.
  split_and!; [done|by apply (Forall_app_2 _ [s])| |done|done|lia|done|done].
  intros ?. apply (Forall_app_2 _ [s]); auto.
Qed.

Lemma parse_segments_sound fuel :
  segs_sound (ParseSegment input_ fuel) 2 fuel one_text singleton_segs ∧
  segs_sound (ParseSegments_loop input_ fuel) 2 fuel tail_text (λ _, True) ∧
  segs_sound (ParseSegments input_ fuel) 3 fuel one_text (λ ss, ss ≠ []) ∧
  (∀ tb te r0 iv sg vb vs,
    cur tb te (String "{" r0) → length sg ≤ tb → String.length r0 + 2 ≤ fuel →
    ∃ ok p', ParseVariable input_ fuel (mkParser tb te iv sg vb vs) = Some (ok, p') ∧
      (ok = true → segs_read one_text singleton_segs tb (String "{" r0) iv sg vb vs p')).
Proof.
  induction fuel as [|fuel (IHseg&IHloop&IHsegs&IHvar)].
  { split_and!; intros tb te r0 iv sg vb vs; intros; lia. }
  split_and!; [..|by apply ParseVariable_sound];
    intros tb te r0 iv sg vb vs H Hv Hsg Hf; simpl.
  - rewrite (EnsureCurrent_cur _ _ _ _ _ _ _ _ H).
    destruct r0 as [|c r0]; cbn [is_empty negb]; [by eexists _, _|].
    pose proof (cur_look _ _ _ _ H) as H1. unfold look in *. cbn [is_empty] in *.
    rewrite (current_char_cur _ _ _ _ _ _ _ _ H1). simpl in Hf.
    destruct (bool_decide (c = "*"%char)) eqn:Hstar; bools.
    { subst c. destruct (ParseStar_cur _ _ _ iv sg vb vs H1 Hv)
        as (a&r&tb'&te'&->&Ha&Htext&H2&Hlt).
      eexists _, _. split; [done|]. intros _. eapply segs_read_atom; eauto.
      subst a. by case_match. }
    destruct (bool_decide (c = "{"%char)) eqn:Hbrace; bools.
    { subst c. apply IHvar; [done..|lia]. }
    destruct (ParseLiteralSegment_sound fuel tb (S tb) (String c r0) iv sg vb vs H1)
      as (ok&p'&->&Hok); simpl; [done|lia|by apply bool_decide_eq_false_2..|].
    eexists _, _. split; [done|]. auto.
  - rewrite (Consume_cur _ _ _ _ _ _ _ _ _ H). destruct (head_is "/" r0) eqn:Hh.
    + apply head_is_true in Hh as [r1 ->]. simpl in Hf.
      pose proof (cur_step _ _ _ _ _ H) as H1.
      destruct (IHseg _ _ _ iv sg vb vs H1 Hv) as (ok&p'&->&Hok); [lia|lia|].
      destruct ok; cbn [and_then]; [|by eexists _, _].
      destruct (segs_read_cons _ _ _ _ _ _ _ _ fuel (Hok eq_refl) Hv ltac:(simpl; lia) IHloop)
        as (ok&p2&->&Hok2).
      eexists _, _. split; [done|]. intros ->.
      destruct (Hok2 eq_refl) as (ss&r&tb2&te2&Hss&Hwf&Hat&->&H2&Htb2&Hlen2&->).
      exists ss, r, tb2, te2. split_and!; try done; try lia.
      unfold tail_text, one_text. by destruct ss.
    + eexists _, _. split; [done|]. intros _.
      exists [], r0, tb, (look tb r0).
      split_and!; try done; [by eapply cur_look|by rewrite app_nil_r|].
      rewrite app_nil_r. f_equal. unfold vs_after.
      destruct iv; [by symmetry; apply (marked_nil true)|by rewrite app_nil_r].
  - destruct (IHseg _ _ _ iv sg vb vs H Hv) as (ok&p'&->&Hok); [lia|lia|].
    destruct ok; cbn [and_then]; [|by eexists _, _].
    apply (segs_read_cons _ _ _ _ _ _ _ _ fuel (Hok eq_refl) Hv ltac:(simpl; lia) IHloop).
Qed.

(** ** The parser reads everything of the grammar *)

Lemma ParseFieldPath_loop_complete fuel ids tb te r sg vb vs v :
  cur tb te (join_tail "." ids +:+ r) → Forall wf_ident ids →
  stops ident_char r → head_is "." r = false →
  String.length (join_tail "." ids +:+ r) < fuel →
  ∃ tb' te', ParseFieldPath_loop input_ fuel (mkParser tb te true sg vb (vs ++ [v]))
      = Some (true, mkParser tb' te' true sg vb (vs ++ [add_path ids v])) ∧
    cur tb' te' r ∧ tb ≤ tb'.
Proof.
  revert ids tb te v. induction fuel as [|fuel IH]; intros ids tb te v H Hids Hr Hdot Hf.
  { lia. }
  destruct ids as [|l ids]; simpl ParseFieldPath_loop.
  - rewrite app_nil_l_s in *. rewrite (Consume_cur _ _ _ _ _ _ _ _ _ H), Hdot.
    rewrite add_path_nil. eexists _, _. split; [done|]. split; [by eapply cur_look|lia].
  - apply Forall_cons in Hids as [[Hl0 Hl] Hids]. unfold join_tail in H, Hf.
    rewrite str_join_cons, !app_assoc_s in *. change ("." +:+ ?x) with (String "." x) in *.
    rewrite (Consume_cur _ _ _ _ _ _ _ _ _ H). simpl head_is. cbv iota.
    pose proof (cur_step _ _ _ _ _ H) as H1.
    assert (stops ident_char (join_tail "." ids +:+ r)) as Hstop by (by destruct ids).
    pose proof (span_intro _ _ _ Hl Hstop) as Hs. simpl in Hf.
    rewrite (ParseIdentifier_in _ _ _ _ _ _ _ _ _ H1 Hs) by lia.
    assert (is_empty l = false) as -> by (by apply is_empty_false). cbn [negb and_then].
    rewrite length_app_s in Hf.
    destruct (IH ids _ _ (add_path [l] v) (cur_steps _ _ _ _ _ H1))
      as (tb'&te'&->&?&?); [done..|lia|].
    rewrite add_path_app. eexists _, _. split; [done|]. split; [done|lia].
Qed.

Lemma ParseFieldPath_complete fuel ids tb r sg vb vs v :
  cur tb tb (str_join "." ids +:+ r) → ids ≠ [] → Forall wf_ident ids →
  stops ident_char r → head_is "." r = false →
  String.length (str_join "." ids +:+ r) < fuel →
  ∃ tb' te', ParseFieldPath input_ fuel (mkParser tb tb true sg vb (vs ++ [v]))
      = Some (true, mkParser tb' te' true sg vb (vs ++ [add_path ids v])) ∧
    cur tb' te' r ∧ tb < tb'.
Proof.
  intros H Hne Hids Hr Hdot Hf. destruct ids as [|l ids]; [done|].
  apply Forall_cons in Hids as [[Hl0 Hl] Hids]. rewrite str_join_cons, app_assoc_s in *.
  assert (stops ident_char (join_tail "." ids +:+ r)) as Hstop by (by destruct ids).
  pose proof (span_intro _ _ _ Hl Hstop) as Hs. unfold ParseFieldPath.
  rewrite (ParseIdentifier_in _ _ _ _ _ _ _ _ _ H Hs) by lia.
  assert (is_empty l = false) as -> by (by apply is_empty_false). cbn [negb and_then].
  rewrite length_app_s in Hf.
  destruct (ParseFieldPath_loop_complete fuel ids _ _ r sg vb vs (add_path [l] v)
    (cur_steps _ _ _ _ _ H)) as (tb'&te'&->&?&?); [done..|lia|].
  rewrite add_path_app. eexists _, _. split; [done|]. split; [done|].
  assert (String.length l ≠ 0) by (by rewrite length_zero_s). lia.
Qed.

(** A function that reads segments reads the text of these segments. *)
Definition segs_complete (f : nat → Parser → outcome) (extra : nat)
    (text : string) (follow : string → Prop) (iv : bool) (ss : list Seg) : Prop :=
  ∀ fuel tb te r sg vb vs,
    cur tb te (text +:+ r) → follow r → var_ok iv vs → length sg ≤ tb →
    String.length (text +:+ r) + extra ≤ fuel →
    ∃ tb' te', f fuel (mkParser tb te iv sg vb vs)
        = Some (true, mkParser tb' te' iv (sg ++ segs_strings ss) vb (vs_after iv sg ss vs)) ∧
      cur tb' te' r ∧ tb ≤ tb' ∧ length (sg ++ segs_strings ss) ≤ tb'.

Abbreviation seg_complete iv s :=
  (segs_complete (ParseSegment input_) 2 (seg_text s) (stops lit_char) iv [s]).

Definition not_slash (r : string) : Prop := stops lit_char r ∧ head_is "/" r = false.

Lemma atom_complete iv a : wf_atom a → seg_complete iv (SAtom a).
Proof.
  intros Ha [|fuel] tb te r sg vb vs H Hr Hv Hsg Hf; [lia|]. simpl seg_text in *.
  assert (vs_after iv sg [SAtom a] vs = marked iv [a] vs) as Hvs.
  { unfold vs_after. destruct iv; [done|]. simpl. by rewrite app_nil_r. }
  rewrite Hvs. unfold segs_strings. simpl.
  rewrite (EnsureCurrent_cur _ _ _ _ _ _ _ _ H). pose proof (cur_look _ _ _ _ H) as H1.
  assert (∃ c t, atom_text a = String c t) as (c&t&Hct).
  { destruct a as [| |[|c l]]; simpl; eauto. by destruct Ha as [[? _] _]. }
  assert (look tb (atom_text a +:+ r) = S tb) as Hlook by (by rewrite Hct).
  assert (is_empty (atom_text a +:+ r) = false) as -> by (by rewrite Hct).
  cbn [negb]. rewrite Hlook in *.
  rewrite Hct, app_cons_s in H1. rewrite (current_char_cur _ _ _ _ _ _ _ _ H1).
  destruct a as [| |l]; simpl in Hct; simplify_eq/=.
  - destruct (ParseStar_cur _ _ _ iv sg vb vs H1 Hv) as (a&r'&tb'&te'&->&Ha'&Ht&?&?).
    rewrite app_nil_l_s in *.
    assert (head_is "*" r = false) as Hs.
    { destruct r as [|d r]; [done|]. simpl. apply bool_decide_eq_false. by intros ->. }
    rewrite Hs in Ha'. subst a. simpl in Ht. rewrite app_cons_s in Ht. simplify_eq/=.
    eexists _, _. split; [done|]. rewrite length_app. simpl. split_and!; [done|lia|lia].
  - destruct (ParseStar_cur _ _ _ iv sg vb vs H1 Hv) as (a&r'&tb'&te'&->&Ha'&Ht&?&?).
    simpl in Ha'. subst a. simpl in Ht. rewrite !app_cons_s in Ht. simplify_eq/=.
    eexists _, _. split; [done|]. rewrite length_app. simpl. split_and!; [done|lia|lia].
  - destruct Ha as ((Hl0&Hl)&Hstar&Hbrace). simpl in Hstar, Hbrace. rewrite Hstar, Hbrace.
    unfold ParseLiteralSegment.
    pose proof (span_intro _ _ _ Hl Hr) as Hs. rewrite app_cons_s in Hs.
    rewrite (ParseLiteral_cur _ _ _ _ _ _ _ _ _ _ _ _ H1 Hs)
      by (simpl; rewrite length_app_s in Hf; lia).
    cbn [is_empty negb]. rewrite app_nil_l_s. unfold push_segment. psimpl.
    rewrite <-app_cons_s in H1. apply cur_steps in H1. eexists _, _. split; [|split].
    + do 3 f_equal. rewrite <-(marked_nil iv vs Hv) at 1. unfold marked.
      destruct iv; [|done]. by destruct (last vs).
    + done.
    + rewrite length_app. simpl. lia.
Qed.

Lemma loop_complete iv ss :
  Forall (λ s, seg_complete iv s) ss →
  segs_complete (ParseSegments_loop input_) 2 (tail_text ss) not_slash iv ss.
Proof.
  induction ss as [|s ss IH]; intros Hss [|fuel] tb te r sg vb vs H Hr Hv Hsg Hf;
    [lia| |lia|]; simpl ParseSegments_loop.
  - unfold tail_text in H. simpl in H. rewrite app_nil_l_s in H.
    rewrite (Consume_cur _ _ _ _ _ _ _ _ _ H). destruct Hr as [_ ->].
    eexists _, _. unfold segs_strings. simpl. rewrite app_nil_r. split; [|split].
    + do 3 f_equal. unfold vs_after.
      destruct iv; [by symmetry; apply (marked_nil true)|by rewrite app_nil_r].
    + by eapply cur_look.
    + lia.
  - apply Forall_cons in Hss as [Hs Hss].
    assert (tail_text (s :: ss) +:+ r = String "/" (seg_text s +:+ tail_text ss +:+ r)) as E.
    { unfold tail_text at 1. simpl fmap. unfold join_tail. rewrite str_join_cons.
      by autorewrite with esp. }
    rewrite E in *. rewrite (Consume_cur _ _ _ _ _ _ _ _ _ H). simpl head_is. cbv iota.
    pose proof (cur_step _ _ _ _ _ H) as H1. simpl in Hf.
    destruct (Hs fuel _ _ _ sg vb vs H1) as (tb1&te1&->&H2&L1&L2); [|done|lia|lia|].
    { unfold tail_text. destruct (fmap _ ss); [|done]. by destruct Hr. }
    cbn [and_then].
    destruct (IH Hss fuel _ _ _ (sg ++ segs_strings [s]) vb (vs_after iv sg [s] vs) H2)
      as (tb2&te2&->&H3&L3&L4);
      [done|by apply vs_after_ok|done|rewrite !length_app_s in *; lia|].
    rewrite vs_after_cons, <-app_assoc, <-segs_strings_app in *.
    eexists _, _. split; [done|]. split_and!; [done|lia|done].
Qed.

Lemma segments_complete iv ss :
  ss ≠ [] → Forall (λ s, seg_complete iv s) ss →
  segs_complete (ParseSegments input_) 3 (one_text ss) not_slash iv ss.
Proof.
  intros Hne Hss [|fuel] tb te r sg vb vs H Hr Hv Hsg Hf; [lia|].
  destruct ss as [|s ss]; [done|]. apply Forall_cons in Hss as [Hs Hss].
  rewrite one_text_cons, app_assoc_s in *. change (one_text [s]) with (seg_text s) in *. simpl.
  destruct (Hs fuel _ _ _ sg vb vs H) as (tb1&te1&->&H2&L1&L2); [|done..|lia|].
  { unfold tail_text. destruct (fmap _ ss); [|done]. by destruct Hr. }
  cbn [and_then].
  destruct (loop_complete iv ss Hss fuel _ _ _ (sg ++ segs_strings [s]) vb
    (vs_after iv sg [s] vs) H2) as (tb2&te2&->&H3&L3&L4);
    [done|by apply vs_after_ok|done|rewrite !length_app_s in *; lia|].
  rewrite vs_after_cons, <-app_assoc, <-segs_strings_app in *.
  eexists _, _. split; [done|]. split_and!; [done|lia|done].
Qed.

(** The text of a variable between its path and its closing brace. *)
Definition sub_text (sub : option (list Atom)) : string :=
  match sub with None => "" | Some s => "=" +:+ str_join "/" (atom_text <$> s) end.

Lemma variable_text path sub r :
  seg_text (SVar path sub) +:+ r = String "{" (str_join "." path +:+ sub_text sub +:+ String "}" r).
Proof. destruct sub; simpl; by autorewrite with esp. Qed.

(** From the sub-template to the closing brace. *)
Lemma variable_rest_complete fuel tb te r sg vb vs path sub :
  wf_seg (SVar path sub) → cur tb te (sub_text sub +:+ String "}" r) →
  length sg < tb → String.length (sub_text sub) + String.length r + 3 ≤ fuel →
  ∃ tb' te',
    (let '(eq, p) := Consume input_ "="
       (mkParser tb te true sg vb (vs ++ [mkHtVariable (int_of_size (length sg)) 0 path false])) in
     and_then (if eq then ParseSegments input_ fuel p else Some (true, push_segment "*" p)) (λ p,
     and_then (Some (EndVariable p)) (λ p, Some (Consume input_ "}" p))))
    = Some (true, mkParser tb' te' false (sg ++ segs_strings [SVar path sub]) vb
                    (vs_after false sg [SVar path sub] vs)) ∧
    cur tb' te' r ∧ tb ≤ tb' ∧ length (sg ++ segs_strings [SVar path sub]) ≤ tb'.
Proof.
  intros Hwf H Hsg Hf. rewrite (Consume_cur _ _ _ _ _ _ _ _ _ H).
  assert (∀ tb' te', cur tb' te' (String "}" r) → tb ≤ tb' →
    length (sg ++ (atom_text <$> sub_atoms sub)) ≤ tb' →
    ∃ tb2 te2, and_then (Some (EndVariable (open_variable tb' te' sg vb vs path sub)))
        (λ p, Some (Consume input_ "}" p))
      = Some (true, mkParser tb2 te2 false (sg ++ segs_strings [SVar path sub]) vb
                      (vs_after false sg [SVar path sub] vs)) ∧
      cur tb2 te2 r ∧ tb ≤ tb2 ∧ length (sg ++ segs_strings [SVar path sub]) ≤ tb2) as Hclose.
  { intros tb' te' H' Htb Hlen. rewrite (close_variable _ _ _ _ _ _ _ _ Hwf H' Hlen). cbn [and_then].
    rewrite (Consume_cur _ _ _ _ _ _ _ _ _ H'). simpl head_is. cbv iota.
    exists (S tb'), (S tb'). unfold segs_strings. simpl. rewrite app_nil_r.
    split_and!; [done|by eapply cur_step|lia|lia]. }
  destruct Hwf as (Hp0&_&Hsub). destruct sub as [sub|]; simpl sub_text in *; simpl head_is; cbv iota.
  - destruct Hsub as [Hsub0 Hsub]. rewrite app_cons_s in H. pose proof (cur_step _ _ _ _ _ H) as H1.
    rewrite <-one_text_atoms in H1, Hf.
    destruct (segments_complete true (SAtom <$> sub)) with (fuel := fuel) (tb := S tb) (te := S tb)
      (r := String "}" r) (sg := sg) (vb := vb)
      (vs := vs ++ [mkHtVariable (int_of_size (length sg)) 0 path false])
      as (tb3&te3&->&H5&L3&L4); try done.
    { by destruct sub. }
    { apply Forall_fmap. eapply Forall_impl; [done|]. intros. by apply atom_complete. }
    { intros _. eauto. }
    { lia. }
    { rewrite !length_app_s in *. simpl in *. lia. }
    assert (∀ l, mkParser tb3 te3 true (sg ++ segs_strings (SAtom <$> sub)) vb
      (vs_after true sg (SAtom <$> sub) (vs ++ [mkHtVariable l 0 path false]))
      = mkParser tb3 te3 true (sg ++ (atom_text <$> sub)) vb
          (vs ++ [mkHtVariable l 0 path (existsb is_double_star sub)])) as ->
      by (intros l; unfold vs_after, segs_strings; by rewrite marked_in, bind_atoms).
    unfold segs_strings in L4. rewrite bind_atoms in L4. apply Hclose; [done|lia|done].
  - cbn [and_then]. unfold push_segment. psimpl. apply Hclose; [by eapply cur_look|lia|].
    rewrite length_app. simpl. lia.
Qed.

Lemma variable_complete path sub : wf_seg (SVar path sub) → seg_complete false (SVar path sub).
Proof.
  intros Hwf [|[|fuel]] tb te r sg vb vs H Hr Hv Hsg Hf; [lia..|].
  rewrite variable_text in *. simpl ParseSegment. simpl in Hf. rewrite !length_app_s in Hf. simpl in Hf.
  rewrite (EnsureCurrent_cur _ _ _ _ _ _ _ _ H). pose proof (cur_look _ _ _ _ H) as H1.
  unfold look in *. cbn [is_empty negb] in *. rewrite (current_char_cur _ _ _ _ _ _ _ _ H1).
  simpl bool_decide. cbv iota. rewrite (Consume_cur _ _ _ _ _ _ _ _ _ H1).
  simpl head_is. cbn [and_then]. unfold StartVariable. psimpl. cbn [negb and_then].
  pose proof (cur_step _ _ _ _ _ H1) as H2. pose proof Hwf as (Hp0&Hp&_).
  set (v0 := mkHtVariable (int_of_size (length sg)) 0 [] false).
  destruct (ParseFieldPath_complete fuel path (S tb) (sub_text sub +:+ String "}" r) sg vb vs v0 H2)
    as (tb2&te2&->&H3&L2); try done.
  { by destruct sub. }
  { by destruct sub. }
  { rewrite !length_app_s. simpl. lia. }
  cbn [and_then]. unfold add_path, v0. cbn [start_segment end_segment field_path has_wildcard_path app].
  pose proof (cur_length _ _ _ _ H2) as N2. pose proof (cur_length _ _ _ _ H3) as N3.
  rewrite !length_app_s in N2. rewrite length_app_s in N3. simpl in N2, N3.
  destruct (variable_rest_complete fuel tb2 te2 r sg vb vs path sub Hwf H3) as (tb3&te3&E&H4&L3&L4);
    [lia|lia|].
  exists tb3, te3. split; [exact E|]. split_and!; [done|lia|done].
Qed.

Lemma seg_complete_all s : wf_seg s → seg_complete false s.
Proof. destruct s; [apply atom_complete|apply variable_complete]. Qed.

End parse.

(** ** Whole templates *)

Section template.
Context (input_ : string).
Hypothesis input_small : (Z.of_nat (String.length input_) < 2 ^ 31)%Z.

(** The parser state before post-processing that a tree stands for. *)
Definition raw_state (t : Template) (tb te : nat) : Parser :=
  mkParser tb te false (segs_strings (t_segs t)) (default "" (t_verb t))
    (segs_vars 0 (t_segs t)).

Definition wf_syntax (t : Template) : Prop :=
  t_segs t ≠ [] ∧ Forall wf_seg (t_segs t) ∧
  match t_verb t with None => True | Some v => wf_literal v end.

Lemma consumed_all tb te r : cur input_ tb te r →
  (String.length input_ <=? tb) = is_empty r.
Proof.
  intros H. pose proof (cur_length _ _ _ _ H) as L. pose proof (cur_tb_le _ _ _ _ H).
  destruct r; simpl in *; [apply Nat.leb_le|apply Nat.leb_gt]; lia.
Qed.

Lemma ParseTemplate_sound :
  ∃ ok p, ParseTemplate input_ (parse_fuel input_) initial = Some (ok, p) ∧
    (ok = true → ConsumedAllInput input_ p = true →
     ∃ t tb te, wf_syntax t ∧ template_text t = input_ ∧ p = raw_state t tb te ∧
                length (segs_strings (t_segs t)) ≤ String.length input_).
Proof.
  unfold ParseTemplate, initial. pose proof (cur_initial input_) as H0.
  rewrite (Consume_cur _ _ _ _ _ _ _ _ _ H0). destruct (head_is "/" input_) eqn:Hh;
    cbn [and_then]; [|by eexists _, _].
  apply head_is_true in Hh as [r0 E]. rewrite E in H0 at 2.
  pose proof (cur_step _ _ _ _ _ H0) as H1.
  destruct (parse_segments_sound input_ input_small (parse_fuel input_)) as (_&_&Hsegs&_).
  destruct (Hsegs _ _ _ false [] "" [] H1) as (ok&p&->&Hok); [done|simpl; lia| |].
  { unfold parse_fuel. rewrite E. simpl. lia. }
  destruct ok; cbn [and_then]; [|by eexists _, _].
  destruct (Hok eq_refl) as (ss&r&tb&te&Hne&Hwf&_&->&H2&_&Hlen&->). clear Hok.
  rewrite (EnsureCurrent_cur _ _ _ _ _ _ _ _ H2). pose proof (cur_look _ _ _ _ H2) as H3.
  pose proof (cur_tb_le _ _ _ _ H3) as Htb. simpl app in *.
  destruct r as [|c r]; cbn [is_empty negb andb].
  { eexists _, _. split; [done|]. intros _ _.
    exists (mkTemplate ss None), tb, (look tb ""). split_and!; [done| |done|simpl; lia].
    by rewrite E. }
  unfold look in *. cbn [is_empty] in *. rewrite (current_char_cur _ _ _ _ _ _ _ _ H3).
  destruct (bool_decide (c = ":"%char)) eqn:Hc; bools.
  - subst c. unfold ParseVerb. rewrite (Consume_cur _ _ _ _ _ _ _ _ _ H3).
    simpl head_is. cbn [and_then]. pose proof (cur_step _ _ _ _ _ H3) as H4. psimpl.
    destruct (span lit_char r) as [l r'] eqn:Hs. pose proof (span_app _ _ _ _ Hs) as ->.
    rewrite (ParseLiteral_cur _ _ _ _ _ _ _ _ _ _ _ _ H4 Hs).
    2: { unfold parse_fuel. pose proof (cur_length _ _ _ _ H4) as L.
         rewrite length_app_s in L. lia. }
    eexists _, _. split; [done|]. psimpl. intros Hl. unfold ConsumedAllInput. psimpl.
    apply negb_true_iff, is_empty_false in Hl.
    rewrite (consumed_all _ _ _ (cur_steps _ _ _ _ _ H4)). intros ->%is_empty_true.
    exists (mkTemplate ss (Some l)).
    eexists _, _. split_and!; [|  |done|simpl; lia].
    + split_and!; [done..|]. split; [done|]. by eapply span_forall.
    + by rewrite E, app_nil_r_s.
  - eexists _, _. split; [done|]. intros _. unfold ConsumedAllInput. psimpl.
    by rewrite (consumed_all _ _ _ H3).
Qed.

Lemma ParseTemplate_complete t :
  wf_syntax t → template_text t = input_ →
  ∃ tb te, ParseTemplate input_ (parse_fuel input_) initial = Some (true, raw_state t tb te) ∧
           cur input_ tb te "" ∧ length (segs_strings (t_segs t)) ≤ String.length input_.
Proof.
  intros (Hne&Hwf&Hverb) E. unfold ParseTemplate, initial.
  pose proof (cur_initial input_) as H0. rewrite <-E in H0 at 2.
  rewrite (Consume_cur _ _ _ _ _ _ _ _ _ H0). simpl head_is. cbn [and_then].
  pose proof (cur_step _ _ _ _ _ H0) as H1.
  destruct (segments_complete input_ false (t_segs t)) with (fuel := parse_fuel input_)
    (tb := 1) (te := 1) (r := verb_text (t_verb t)) (sg := @nil string) (vb := "")
    (vs := @nil HtVariable) as (tb&te&->&H2&_&Hlen); try done.
  { eapply Forall_impl; [done|]. intros. by apply seg_complete_all. }
  { by destruct (t_verb t). }
  { simpl. lia. }
  { assert (String.length (template_text t) = String.length input_) as L by (by rewrite E).
    change (S (String.length (one_text (t_segs t) +:+ verb_text (t_verb t)))
            = String.length input_) in L. unfold parse_fuel. lia. }
  cbn [and_then]. rewrite (EnsureCurrent_cur _ _ _ _ _ _ _ _ H2).
  pose proof (cur_look _ _ _ _ H2) as H3. unfold raw_state.
  pose proof (cur_tb_le _ _ _ _ H2) as Htb. simpl in Hlen.
  destruct (t_verb t) as [l|]; simpl verb_text in *; cbn [is_empty negb andb].
  - unfold look in *. simpl in H3. rewrite (current_char_cur _ _ _ _ _ _ _ _ H3).
    simpl bool_decide. cbv iota. unfold ParseVerb.
    rewrite (Consume_cur _ _ _ _ _ _ _ _ _ H3). simpl head_is. cbn [and_then].
    pose proof (cur_step _ _ _ _ _ H3) as H4. psimpl. destruct Hverb as [Hl0 Hl].
    pose proof (span_intro _ _ "" Hl I) as Hs. rewrite app_nil_r_s in Hs.
    rewrite (ParseLiteral_cur _ _ _ _ _ _ _ _ _ _ _ _ H4 Hs).
    2: { unfold parse_fuel. pose proof (cur_length _ _ _ _ H4) as L. lia. }
    psimpl. assert (is_empty l = false) as -> by (by apply is_empty_false).
    eexists _, _. split; [done|]. rewrite <-(app_nil_r_s l) in H4.
    split; [apply (cur_steps _ _ _ _ _ H4)|lia].
  - eexists _, _. split; [done|]. split; [done|lia].
Qed.

End template.

(** Post-processing turns the absolute ends into the documented relative ones. *)
Lemma post_process_from_end n has_verb v :
  (0 ≤ end_segment v ≤ Z.of_nat n)%Z → (Z.of_nat n + 1 < 2 ^ 31)%Z →
  post_process n has_verb v = from_end n has_verb v.
Proof.
  intros He Hn. unfold post_process, from_end. destruct (has_wildcard_path v); [|done].
  assert (i32 (u64 (u64 (u64 (end_segment v) - Z.of_nat n) - 1))
          = end_segment v - Z.of_nat n - 1)%Z as ->.
  { rewrite (u64_id (end_segment v)) by lia. rewrite u64_sub_l, i32_u64. apply i32_id. lia. }
  f_equal. destruct has_verb; [rewrite i32_id by lia; lia|lia].
Qed.

Lemma segs_vars_range off ss :
  Forall (λ v, (0 ≤ end_segment v ≤ Z.of_nat (off + length (segs_strings ss)))%Z)
         (segs_vars off ss).
Proof.
  revert off. induction ss as [|s ss IH]; intros off; [by constructor|].
  change (s :: ss) with ([s] ++ ss) at 1. rewrite segs_strings_app, length_app.
  rewrite segs_vars_cons.
  assert (length (segs_strings [s]) = length (seg_atoms s)) as Hs.
  { unfold segs_strings. rewrite length_fmap. simpl. by rewrite app_nil_r. }
  rewrite Hs. apply Forall_app. split.
  - destruct s; simpl; [by constructor|]. apply Forall_singleton. simpl. lia.
  - eapply Forall_impl; [apply IH|]. simpl. intros. lia.
Qed.

(** ** Theorems *)

Definition fits_int (ht : string) : Prop := (Z.of_nat (String.length ht) + 1 < 2 ^ 31)%Z.

(** The parser state a well-formed tree ends in, after post-processing. *)
Lemma post_process_raw ht t tb te :
  fits_int ht → length (segs_strings (t_segs t)) ≤ String.length ht →
  match t_verb t with None => True | Some v => wf_literal v end →
  PostProcessVariables (raw_state t tb te)
  = mkParser tb te false (segments (denote t)) (verb (denote t)) (variables (denote t)).
Proof.
  intros Hsmall Hlen Hverb. unfold fits_int in Hsmall.
  unfold PostProcessVariables, raw_state, denote. psimpl.
  cbn [segments verb variables]. f_equal.
  assert (negb (is_empty (default "" (t_verb t))) = bool_decide (is_Some (t_verb t))) as ->.
  { destruct (t_verb t) as [l|]; simpl; [|done]. destruct Hverb as [Hl _].
    by apply is_empty_false in Hl as ->. }
  apply list_fmap_ext. intros i v Hv. apply post_process_from_end; [|lia].
  pose proof (segs_vars_range 0 (t_segs t)) as Hr. rewrite Forall_lookup in Hr.
  apply (Hr i v Hv).
Qed.

(** C29: the template parser always terminates with an answer: with the fuel
    [Parse] gives it, no loop or recursive call of class Parser runs out. *)
Theorem Parse_total ht :
  fits_int ht → ∃ ok p, Parser.Parse ht (parse_fuel ht) = Some (ok, p).
Proof.
  intros Hs. unfold Parser.Parse. unfold fits_int in Hs.
  destruct (ParseTemplate_sound ht) as (ok&p&->&_); [lia|].
  destruct (negb ok || _); eauto.
Qed.

Lemma Parse_spec ht ht' :
  fits_int ht →
  HttpTemplate.Parse ht = Some ht' ↔
    (ht = "/" ∧ ht' = mkHttpTemplate [] "" []) ∨
    (∃ t, wf_template t ∧ template_text t = ht ∧ denote t = ht').
Proof.
  intros Hs. unfold HttpTemplate.Parse. destruct (bool_decide (ht = "/")) eqn:Hroot; bools.
  { subst ht. split; [intros [= <-]; by left|]. intros [[_ ->]|(t&(Hne&Hwf&_)&Ht&_)]; [done|].
    exfalso. destruct (t_segs t) as [|s ss] eqn:Et; [done|].
    unfold template_text in Ht. rewrite Et in Ht. simpl fmap in Ht. rewrite str_join_cons in Ht.
    assert (seg_text s = "") as Hnil.
    { change (String "/" ((seg_text s +:+ join_tail "/" (seg_text <$> ss)) +:+
                verb_text (t_verb t)) = String "/" "") in Ht.
      injection Ht as Ht. by apply app_eq_nil_s in Ht as [[? _]%app_eq_nil_s _]. }
    apply Forall_cons in Hwf as [Hwf _].
    destruct s as [[]|? []]; simpl in *; try done. by destruct Hwf as [[]]. }
  assert (Z.of_nat (String.length ht) < 2 ^ 31)%Z as Hs' by (unfold fits_int in Hs; lia).
  unfold Parser.Parse. split.
  - destruct (ParseTemplate_sound ht Hs') as (ok&p&->&Hok).
    destruct ok; [|done]. destruct (ConsumedAllInput ht p) eqn:Hc; [|done]. cbn [negb orb].
    destruct (Hok eq_refl eq_refl) as (t&tb&te&(Hne&Hwf&Hv)&Ht&->&Hlen).
    rewrite (post_process_raw ht) by done. unfold ValidateParts. psimpl.
    destruct (ValidateParts_from _ _) eqn:Hval; [|done]. intros [= <-]. right.
    exists t. apply ValidateParts_from_false in Hval. split_and!; [by split_and!|done|done].
  - intros [[? _]|(t&(Hne&Hwf&Hv&Hconst)&Ht&<-)]; [done|].
    destruct (ParseTemplate_complete ht Hs' t) as (tb&te&->&Hcur&Hlen);
      [by split_and!|done|].
    unfold ConsumedAllInput. change (tb_ (raw_state t tb te)) with tb.
    rewrite (consumed_all _ _ _ _ Hcur). cbn [is_empty negb orb].
    rewrite (post_process_raw ht) by done. unfold ValidateParts. psimpl.
    by apply (ValidateParts_from_false (segments (denote t))) in Hconst as ->.
Qed.

(** C1: HttpTemplate::Parse accepts exactly the texts of the template grammar
    (plus the root template "/"), and what it returns is the meaning of the
    syntax tree: segments in order, the verb, and each variable's segment range,
    relative to the end of the path when it contains a double star. *)
Theorem Parse_grammar ht ht' :
  fits_int ht →
  HttpTemplate.Parse ht = Some ht' ↔
    (ht = "/" ∧ ht' = mkHttpTemplate [] "" []) ∨
    (∃ t, wf_template t ∧ template_text t = ht ∧ denote t = ht').
Proof. apply Parse_spec. Qed.

(** What a parsed template guarantees about one of its variables: a non-empty
    range of segments [s, e) and a field path; the end is stored relative to the
    end of the path exactly when the range has a double star. *)
Definition variable_ok (ht : HttpTemplate) (v : HtVariable) : Prop :=
  ∃ s e : nat,
    start_segment v = Z.of_nat s ∧ s < e ≤ length (segments ht) ∧
    field_path v ≠ [] ∧ Forall (λ id, id ≠ "") (field_path v) ∧
    if has_wildcard_path v then
      end_segment v = (Z.of_nat e - Z.of_nat (length (segments ht)) - 1
                       - (if is_empty (verb ht) then 0 else 1))%Z
    else end_segment v = Z.of_nat e ∧ segments ht !! (e - 1) ≠ Some "**".

Definition template_ok (ht : HttpTemplate) : Prop :=
  Forall (λ s, s ≠ "") (segments ht) ∧ const_after_wildcard (segments ht) ∧
  Forall (variable_ok ht) (variables ht).

Lemma wf_atom_text a : wf_atom a → atom_text a ≠ "" ∧ (atom_text a = "**" → a = ADoubleStar).
Proof.
  destruct a as [| |l]; simpl; [done|done|]. intros ((Hl&_)&Hs&_). split; [done|].
  by intros ->.
Qed.

Lemma wf_seg_atoms s : wf_seg s → Forall wf_atom (seg_atoms s) ∧ seg_atoms s ≠ [].
Proof.
  destruct s as [a|path [sub|]]; simpl.
  - intros. split; [by apply Forall_singleton|done].
  - by intros (_&_&?&?).
  - intros _. split; [by apply Forall_singleton|done].
Qed.

Lemma segs_vars_ok off pre ss v :
  Forall wf_seg ss → length pre = off → v ∈ segs_vars off ss →
  ∃ s e : nat,
    start_segment v = Z.of_nat s ∧ end_segment v = Z.of_nat e ∧
    s < e ≤ off + length (segs_strings ss) ∧
    field_path v ≠ [] ∧ Forall (λ id, id ≠ "") (field_path v) ∧
    (has_wildcard_path v = false → (pre ++ segs_strings ss) !! (e - 1) ≠ Some "**").
Proof.
  revert off pre. induction ss as [|s ss IH]; intros off pre Hwf Hpre Hv; [by inversion Hv|].
  apply Forall_cons in Hwf as [Hs Hwf]. rewrite segs_vars_cons in Hv.
  pose proof (wf_seg_atoms _ Hs) as [Hat Hne].
  assert (segs_strings (s :: ss) = (atom_text <$> seg_atoms s) ++ segs_strings ss) as Hss.
  { unfold segs_strings. simpl. by rewrite fmap_app. }
  rewrite Hss, length_app, length_fmap. apply elem_of_app in Hv as [Hv|Hv].
  - destruct s as [a|path sub]; simpl in Hv; [by inversion Hv|].
    apply list_elem_of_singleton in Hv as ->. simpl in *.
    exists off, (off + length (sub_atoms sub)). destruct Hs as (Hp&Hids&_).
    assert (length (sub_atoms sub) ≠ 0) by (by destruct (sub_atoms sub)).
    split_and!; try done; try lia.
    + eapply Forall_impl; [done|]. by intros ? [].
    + intros Hw. rewrite lookup_app_r by lia. rewrite lookup_app_l by (rewrite length_fmap; lia).
      rewrite list_lookup_fmap. destruct (sub_atoms sub !! _) as [a|] eqn:Ha; [|done].
      simpl. intros [= Htext]. apply list_elem_of_lookup_2 in Ha as Hin.
      rewrite Forall_forall in Hat. apply (wf_atom_text a) in Htext; [|auto]. subst a.
      apply not_true_iff_false in Hw. apply Hw. apply existsb_exists.
      exists ADoubleStar. split; [by apply list_elem_of_In|done].
  - destruct (IH (off + length (seg_atoms s)) (pre ++ (atom_text <$> seg_atoms s)) Hwf)
      as (s'&e'&?&?&?&?&?&Hlast).
    { by rewrite length_app, length_fmap, Hpre. }
    { done. }
    exists s', e'. split_and!; try done; try lia. by rewrite app_assoc.
Qed.

Lemma Parse_template_ok ht ht' : fits_int ht → HttpTemplate.Parse ht = Some ht' → template_ok ht'.
Proof.
  intros Hs [[_ ->]|(t&(Hne&Hwf&Hverb&Hc)&_&<-)]%Parse_spec; [|..|done].
  { split_and!; try by constructor. intros [|??] ? ?; done. }
  split_and!; [|done|].
  - unfold denote, segs_strings. simpl. apply Forall_fmap, Forall_bind.
    eapply Forall_impl; [done|]. intros s Hs'. apply wf_seg_atoms in Hs' as [Ha _].
    eapply Forall_impl; [done|]. intros a Ha'. by apply wf_atom_text in Ha' as [? _].
  - unfold denote. simpl. apply Forall_fmap. apply Forall_forall. intros v Hv.
    destruct (segs_vars_ok 0 [] (t_segs t) v Hwf eq_refl Hv) as (s&e&Hst&Hen&Hr&Hfp&Hids&Hlast).
    exists s, e. unfold compose, from_end. destruct (has_wildcard_path v) eqn:Hw; simpl;
      [|rewrite Hw; split_and!; [done|lia|lia|done|done|done|by apply Hlast]].
    split_and!; [done|lia|lia|done|done|]. rewrite Hen. f_equal.
    destruct (t_verb t) as [l|]; simpl; [|done]. destruct Hverb as [Hl _].
    by apply is_empty_false in Hl as ->.
Qed.

(** C30: every template that parses is well formed: no empty segment, nothing but
    constants after a double star, and every variable covers a non-empty range
    of segments within the template, stored the way the matcher reads it. *)
Theorem Parse_ok ht ht' : fits_int ht → HttpTemplate.Parse ht = Some ht' → template_ok ht'.
Proof. apply Parse_template_ok. Qed.

Lemma Parse_ok_witness :
  ∃ ht', HttpTemplate.Parse "/a/{b.c=x/**}/d:verb" = Some ht' ∧ template_ok ht'.
Proof.
  eexists. split; [vm_compute; reflexivity|].
  apply (Parse_ok "/a/{b.c=x/**}/d:verb"); [vm_compute; reflexivity|vm_compute; reflexivity].
Defined.

Lemma Parse_total_witness :
  ∃ ok p, Parser.Parse "/a/{b" (parse_fuel "/a/{b") = Some (ok, p).
Proof. apply (Parse_total "/a/{b"). vm_compute. reflexivity. Defined.

Definition example_template : Template :=
  mkTemplate [SAtom (ALiteral "v1"); SVar ["name"] (Some [ALiteral "shelves"; AStar]);
              SAtom (ALiteral "books")] (Some "list").

Lemma Parse_grammar_witness :
  HttpTemplate.Parse "/v1/{name=shelves/*}/books:list" = Some (denote example_template).
Proof.
  apply (Parse_grammar "/v1/{name=shelves/*}/books:list"); [vm_compute; reflexivity|].
  right. exists example_template. split; [|split; vm_compute; reflexivity].
  split; [done|]. split; [repeat constructor; done|]. split; [done|].
  apply ValidateParts_from_false. vm_compute. reflexivity.
Defined.
