(* ===== verification/PathMatcherNode.v ===== *)
(** * The matching trie: src/api_proxy/path_matcher/path_matcher_node.{h,cc}

    A node maps HTTP methods to results and path segments to children; the
    node under the key "**" is a wildcard node.  [void*] data is an [option]:
    [None] is the null pointer.  The second half gives the declarative meaning
    of a template path ([matches]) and proves that a lookup finds a registered
    path exactly when one matches. *)
From S2P Require Import Prelude HttpTemplate.

Section node.
Context {D : Type}.

(** struct PathMatcherLookupResult. *)
Record PathMatcherLookupResult := mkResult { data : option D; is_multiple : bool }.

(** PathMatcherLookupResult(). *)
Definition no_result : PathMatcherLookupResult := mkResult None false.

(** class PathMatcherNode. *)
Inductive PathMatcherNode := mkNode {
  result_map_ : gmap string PathMatcherLookupResult;
  children_ : gmap string PathMatcherNode;
  wildcard_ : bool
}.

(** PathMatcherNode(). *)
Definition new_node : PathMatcherNode := mkNode ∅ ∅ false.

Definition HttpMethod_WILD_CARD : string := "*".

(** PathInfo::Builder: [path_] and its appends; Build copies it. *)
Definition AppendLiteralNode (name : string) (path_ : list string) : list string :=
  path_ ++ [name].
Definition AppendSingleParameterNode (path_ : list string) : list string :=
  path_ ++ [kSingleParameterKey].

Definition set_wildcard (wildcard : bool) (n : PathMatcherNode) : PathMatcherNode :=
  mkNode (result_map_ n) (children_ n) wildcard.

(** InsertOrReturnExisting: [None] when the pair was inserted, else the value
    that is already there. *)
Definition InsertOrReturnExisting {V} (collection : gmap string V) (key : string) (v : V)
  : gmap string V * option V :=
  match collection !! key with
  | None => (<[key := v]> collection, None)
  | Some existing => (collection, Some existing)
  end.

(** LookupOrInsertNew, for children. *)
Definition LookupOrInsertNew (children : gmap string PathMatcherNode) (key : string)
  : PathMatcherNode :=
  default new_node (children !! key).

(** Find2KeysOrNull. *)
Definition Find2KeysOrNull {V} (collection : gmap string V) (key1 key2 : string) : option V :=
  match collection !! key1 with
  | Some v => Some v
  | None => collection !! key2
  end.

(** Clone: a deep copy. *)
Fixpoint Clone (n : PathMatcherNode) : PathMatcherNode :=
  mkNode (result_map_ n) (Clone <$> children_ n) (wildcard_ n).

(** InsertTemplate, on the remaining keys [current, end). *)
Fixpoint InsertTemplate (path : list string) (http_method : string)
    (method_data : option D) (mark_duplicates : bool) (n : PathMatcherNode)
  : bool * PathMatcherNode :=
  match path with
  | [] =>
      let '(results, existing) :=
        InsertOrReturnExisting (result_map_ n) http_method (mkResult method_data false) in
      match existing with
      | None => (true, mkNode results (children_ n) (wildcard_ n))
      | Some e =>
          (false,
           if mark_duplicates
           then mkNode (<[http_method := mkResult (data e) true]> results)
                       (children_ n) (wildcard_ n)
           else n)
      end
  | current :: path =>
      let child := LookupOrInsertNew (children_ n) current in
      let child := if bool_decide (current = kWildCardPathKey)
                   then set_wildcard true child else child in
      let '(ok, child) := InsertTemplate path http_method method_data mark_duplicates child in
      (ok, mkNode (result_map_ n) (<[current := child]> (children_ n)) (wildcard_ n))
  end.

(** InsertPath. *)
Definition InsertPath (node_path_info : list string) (http_method : string)
    (method_data : option D) (mark_duplicates : bool) (n : PathMatcherNode)
  : bool * PathMatcherNode :=
  InsertTemplate node_path_info http_method method_data mark_duplicates n.

(** GetResultForHttpMethod: whether a result was found, and [*result] after. *)
Definition GetResultForHttpMethod (key : string) (n : PathMatcherNode)
    (result : PathMatcherLookupResult) : bool * PathMatcherLookupResult :=
  match Find2KeysOrNull (result_map_ n) key HttpMethod_WILD_CARD with
  | Some found => (true, found)
  | None => (false, result)
  end.

(** LookupPathFromChild, with the recursive call of LookupPath on the rest of
    the path as an argument. *)
Definition LookupPathFromChild
    (lookup : PathMatcherNode → PathMatcherLookupResult → PathMatcherLookupResult)
    (child_key : string) (n : PathMatcherNode) (result : PathMatcherLookupResult)
  : bool * PathMatcherLookupResult :=
  match children_ n !! child_key with
  | Some child =>
      let result := lookup child result in
      (bool_decide (is_Some (data result)), result)
  | None => (false, result)
  end.

(** The loop over child keys at the end of LookupPath. *)
Fixpoint lookup_children
    (lookup : PathMatcherNode → PathMatcherLookupResult → PathMatcherLookupResult)
    (keys : list string) (n : PathMatcherNode) (result : PathMatcherLookupResult)
  : PathMatcherLookupResult :=
  match keys with
  | [] => result
  | key :: keys =>
      let '(found, result) := LookupPathFromChild lookup key n result in
      if found then result else lookup_children lookup keys n result
  end.

(** LookupPath: [*result] after the call. *)
Fixpoint LookupPath (parts : list string) (http_method : string) (n : PathMatcherNode)
    (result : PathMatcherLookupResult) {struct parts} : PathMatcherLookupResult :=
  match parts with
  | [] =>
      let '(found, result) := GetResultForHttpMethod http_method n result in
      if found then result
      else match children_ n !! kWildCardPathKey with
           | Some child => (GetResultForHttpMethod http_method child result).2
           | None => result
           end
  | current :: parts =>
      let lookup child result := LookupPath parts http_method child result in
      let '(found, result) := LookupPathFromChild lookup current n result in
      if found then result
      else if wildcard_ n then LookupPath parts http_method n result
      else lookup_children lookup
             [kSingleParameterKey; kWildCardPathPartKey; kWildCardPathKey] n result
  end.

(** ** What a trie holds, and what a path of keys matches *)

(** The node reached along keys. *)
Fixpoint node_at (n : PathMatcherNode) (path : list string) : option PathMatcherNode :=
  match path with
  | [] => Some n
  | k :: path => children_ n !! k ≫= λ c, node_at c path
  end.

(** The result registered for a path and a method. *)
Definition results (n : PathMatcherNode) (path : list string) (m : string)
  : option PathMatcherLookupResult :=
  node_at n path ≫= λ n', result_map_ n' !! m.

(** The result a path gives a request: for its method, else for any method. *)
Definition results_for (n : PathMatcherNode) (path : list string) (m : string)
  : option PathMatcherLookupResult :=
  match results n path m with
  | Some r => Some r
  | None => results n path HttpMethod_WILD_CARD
  end.

(** [matches w keys parts]: the request parts match the template keys, where
    [w] says whether the last key read was "**".  A key matches its own text;
    "/." and "*" match any one part; "**" matches one or more parts, or none at
    the end of the path.  After "**" every key stands for itself. *)
Inductive matches : bool → list string → list string → Prop :=
  | match_end w : matches w [] []
  | match_end_wild w : matches w [kWildCardPathKey] []
  | match_exact w k ks ps :
      matches (bool_decide (k = kWildCardPathKey)) ks ps → matches w (k :: ks) (k :: ps)
  | match_single k ks p ps :
      k ∈ [kSingleParameterKey; kWildCardPathPartKey] →
      matches false ks ps → matches false (k :: ks) (p :: ps)
  | match_wild ks p ps :
      matches true ks ps → matches false (kWildCardPathKey :: ks) (p :: ps)
  | match_skip ks p ps : matches true ks ps → matches true ks (p :: ps).

(** Wildcard flags: a node is a wildcard node iff its key is "**". *)
Definition wildcards_ok (n : PathMatcherNode) : Prop :=
  ∀ path k n', node_at n (path ++ [k]) = Some n' →
    wildcard_ n' = bool_decide (k = kWildCardPathKey).

(** No registered result has null data. *)
Definition data_ok (n : PathMatcherNode) : Prop :=
  ∀ path m r, results n path m = Some r → is_Some (data r).

End node.

Arguments PathMatcherLookupResult : clear implicits.
Arguments PathMatcherNode : clear implicits.

Section node_theory.
Context {D : Type}.
Implicit Types (n c : PathMatcherNode D) (r : PathMatcherLookupResult D).

(** ** Walking the trie *)

Lemma node_at_app n p1 p2 : node_at n (p1 ++ p2) = node_at n p1 ≫= λ c, node_at c p2.
Proof.
  revert n. induction p1 as [|k p1 IH]; intros n; simpl; [done|].
  destruct (children_ n !! k); simpl; [apply IH|done].
Qed.

Lemma results_cons n k path m : results n (k :: path) m = children_ n !! k ≫= λ c, results c path m.
Proof. unfold results. simpl. by destruct (children_ n !! k). Qed.

Lemma results_for_cons n k path m :
  results_for n (k :: path) m = children_ n !! k ≫= λ c, results_for c path m.
Proof.
  unfold results_for. rewrite !results_cons. by destruct (children_ n !! k).
Qed.

Lemma results_new path m : results (@new_node D) path m = None.
Proof. destruct path; [apply lookup_empty|]. rewrite results_cons. simpl. by rewrite lookup_empty. Qed.

Lemma wildcards_ok_child n k c :
  wildcards_ok n → children_ n !! k = Some c →
  wildcards_ok c ∧ wildcard_ c = bool_decide (k = kWildCardPathKey).
Proof.
  intros Hn Hc. split.
  - intros path k' n' Hn'. apply (Hn (k :: path) k'). simpl. by rewrite Hc.
  - apply (Hn [] k). simpl. by rewrite Hc.
Qed.

Lemma data_ok_child n k c : data_ok n → children_ n !! k = Some c → data_ok c.
Proof. intros Hn Hc path m r Hr. apply (Hn (k :: path) m). by rewrite results_cons, Hc. Qed.

Lemma wildcards_ok_intro (n : PathMatcherNode D) :
  (∀ k c, children_ n !! k = Some c →
     wildcards_ok c ∧ wildcard_ c = bool_decide (k = kWildCardPathKey)) →
  wildcards_ok n.
Proof.
  intros H [|k' path] k n'; simpl.
  - destruct (children_ n !! k) eqn:Hc; simpl; intros; simplify_eq. by apply H.
  - destruct (children_ n !! k') eqn:Hc; simpl; intros Hn'; [|done].
    by eapply (H k').
Qed.

Lemma wildcards_ok_set b n : wildcards_ok n → wildcards_ok (set_wildcard b n).
Proof. intros Hn. apply wildcards_ok_intro. intros k c. by apply (wildcards_ok_child n). Qed.

Lemma wildcards_ok_new : wildcards_ok (@new_node D).
Proof. apply wildcards_ok_intro. intros k c. simpl. by rewrite lookup_empty. Qed.

Lemma data_ok_new : data_ok (@new_node D).
Proof. intros path m r. by rewrite results_new. Qed.

Lemma results_set b n path m : results (set_wildcard b n) path m = results n path m.
Proof. by destruct path. Qed.

(** ** Insertion *)

(** The child an insertion descends into holds what was under its key. *)
Lemma results_child n k path m :
  results (LookupOrInsertNew (children_ n) k) path m = results n (k :: path) m.
Proof.
  rewrite results_cons. unfold LookupOrInsertNew.
  destruct (children_ n !! k); simpl; [done|apply results_new].
Qed.

Definition insert_result (old : option (PathMatcherLookupResult D)) (d : option D)
    (mark_duplicates : bool) : PathMatcherLookupResult D :=
  match old with
  | None => mkResult d false
  | Some e => if mark_duplicates then mkResult (data e) true else e
  end.

Definition is_none {A} (o : option A) : bool := match o with None => true | Some _ => false end.

Lemma results_nil n m : results n [] m = result_map_ n !! m.
Proof. done. Qed.

Lemma InsertTemplate_results path m d mark n path' m' :
  let '(ok, n') := InsertTemplate path m d mark n in
  ok = is_none (results n path m) ∧
  results n' path' m' =
    if decide (path' = path ∧ m' = m)
    then Some (insert_result (results n path m) d mark)
    else results n path' m'.
Proof.
  revert n path'. induction path as [|k path IH]; intros n path'; simpl.
  - unfold InsertOrReturnExisting. rewrite results_nil.
    destruct (result_map_ n !! m) as [e|] eqn:He; (split; [done|]); simpl; case_decide as Hd.
    + destruct Hd as [-> ->]. destruct mark; rewrite results_nil; simpl; by simplify_map_eq.
    + destruct mark; [|done]. destruct path' as [|k' path']; [|done].
      rewrite !results_nil. simpl. rewrite lookup_insert_ne; naive_solver.
    + destruct Hd as [-> ->]. rewrite results_nil. simpl. by simplify_map_eq.
    + destruct path' as [|k' path']; [|done].
      rewrite !results_nil. simpl. rewrite lookup_insert_ne; naive_solver.
  - set (child := LookupOrInsertNew (children_ n) k).
    set (child' := if bool_decide (k = kWildCardPathKey) then set_wildcard true child else child).
    assert (∀ p q, results child' p q = results n (k :: p) q) as Hchild.
    { intros p q. unfold child'. rewrite <-results_child.
      destruct (bool_decide _); [apply results_set|done]. }
    specialize (IH child').
    destruct (InsertTemplate path m d mark child') as [ok c] eqn:E.
    split; [destruct (IH []) as [-> _]; by rewrite Hchild|].
    destruct path' as [|k' path'].
    { rewrite decide_False; [done|naive_solver]. }
    destruct (IH path') as [_ IH']. rewrite results_cons. simpl.
    destruct (decide (k' = k)) as [->|Hk].
    + rewrite lookup_insert_eq. simpl. rewrite IH', !Hchild.
      repeat case_decide; naive_solver.
    + rewrite lookup_insert_ne by done. rewrite decide_False by naive_solver.
      by rewrite results_cons.
Qed.

Lemma InsertTemplate_wildcard path m d mark n :
  wildcard_ (InsertTemplate path m d mark n).2 = wildcard_ n.
Proof.
  destruct path as [|k path]; simpl.
  - unfold InsertOrReturnExisting. by repeat case_match; simplify_eq/=.
  - by destruct (InsertTemplate path _ _ _ _).
Qed.

Lemma InsertTemplate_wildcards_ok path m d mark n :
  wildcards_ok n → wildcards_ok (InsertTemplate path m d mark n).2.
Proof.
  revert n. induction path as [|k path IH]; intros n Hn; simpl.
  - unfold InsertOrReturnExisting.
    destruct (result_map_ n !! m); [destruct mark|]; simpl; try done;
      apply wildcards_ok_intro; intros k c; by apply (wildcards_ok_child n).
  - set (child := if bool_decide _ then _ else _).
    assert (wildcards_ok child ∧ wildcard_ child = bool_decide (k = kWildCardPathKey))
      as [Hc Hw].
    { unfold child, LookupOrInsertNew.
      destruct (children_ n !! k) as [c|] eqn:Hc; simpl.
      - destruct (wildcards_ok_child _ _ _ Hn Hc) as [? Hw].
        destruct (bool_decide _); [by split; [apply wildcards_ok_set|]|done].
      - destruct (bool_decide _); split; try done;
          [apply wildcards_ok_set|]; apply wildcards_ok_new. }
    pose proof (IH child Hc) as Hok. pose proof (InsertTemplate_wildcard path m d mark child) as Hw'.
    destruct (InsertTemplate path m d mark child) as [ok c]; simpl in *.
    apply wildcards_ok_intro. intros k' c'. simpl. rewrite lookup_insert.
    destruct (decide (k = k')) as [<-|Hk]; [|by apply (wildcards_ok_child n)].
    intros [= <-]. split; [done|]. congruence.
Qed.

(** ** Lookup *)

Lemma GetResult_spec m n r :
  GetResultForHttpMethod m n r
  = match results_for n [] m with Some r' => (true, r') | None => (false, r) end.
Proof.
  unfold GetResultForHttpMethod, Find2KeysOrNull, results_for. rewrite !results_nil.
  by repeat case_match; simplify_eq.
Qed.

(** What a lookup that starts with an empty result can return. *)
Definition found_by (w : bool) n (parts : list string) (m : string) r : Prop :=
  ∃ path, results_for n path m = Some r ∧ matches w path parts.

(** The same under the child at a key, if there is one. *)
Definition found_under n (k : string) (parts : list string) (m : string) r : Prop :=
  ∃ c, children_ n !! k = Some c ∧
       found_by (bool_decide (k = kWildCardPathKey)) c parts m r.

Definition wild_keys : list string :=
  [kSingleParameterKey; kWildCardPathPartKey; kWildCardPathKey].

Lemma found_by_nil w n m r :
  found_by w n [] m r ↔
    results_for n [] m = Some r ∨ results_for n [kWildCardPathKey] m = Some r.
Proof.
  split.
  - intros (path&Hr&Hm). inversion Hm; subst; auto.
  - intros [H|H]; [exists []|exists [kWildCardPathKey]]; split; try done; constructor.
Qed.

Lemma found_by_cons w n part parts m r :
  found_by w n (part :: parts) m r ↔
    found_under n part parts m r ∨
    (w = true ∧ found_by true n parts m r) ∨
    (w = false ∧ ∃ k, k ∈ wild_keys ∧ found_under n k parts m r).
Proof.
  assert (∀ k ks, results_for n (k :: ks) m = Some r →
    matches (bool_decide (k = kWildCardPathKey)) ks parts → found_under n k parts m r) as Hin.
  { intros k ks. rewrite results_for_cons. destruct (children_ n !! k) as [c|] eqn:Hc; [|done].
    simpl. intros. exists c. split; [done|]. by exists ks. }
  assert (∀ k, found_under n k parts m r → ∃ ks, results_for n (k :: ks) m = Some r ∧
    matches (bool_decide (k = kWildCardPathKey)) ks parts) as Hout.
  { intros k (c&Hc&ks&Hr&Hm). exists ks. by rewrite results_for_cons, Hc. }
  split.
  - intros (path&Hr&Hm). inversion Hm; subst.
    + left. by eapply Hin.
    + right; right. split; [done|]. exists k. split; [set_solver|].
      eapply Hin; [done|]. rewrite bool_decide_eq_false_2; [done|]. set_solver.
    + right; right. split; [done|]. exists kWildCardPathKey. split; [set_solver|].
      by eapply Hin.
    + right; left. split; [done|]. by exists path.
  - intros [Hu|[[-> (path&Hr&Hm)]|[-> (k&Hk&Hu)]]].
    + destruct (Hout _ Hu) as (ks&?&?). exists (part :: ks). split; [done|]. by constructor.
    + exists path. split; [done|]. by constructor.
    + destruct (Hout _ Hu) as (ks&?&Hm). exists (k :: ks). split; [done|].
      unfold wild_keys in Hk. destruct (decide (k = kWildCardPathKey)) as [->|Hne].
      * by apply match_wild.
      * rewrite bool_decide_eq_false_2 in Hm by done. apply match_single; [set_solver|done].
Qed.

(** A lookup's outcome: a match, or the result untouched and no match. *)
Definition lookup_outcome (found : PathMatcherLookupResult D → Prop) r r' : Prop :=
  found r' ∨ (r' = r ∧ ∀ r0, ¬ found r0).

Section lookup.
Context (parts : list string) (m : string).
Hypothesis IH : ∀ n r, wildcards_ok n → data_ok n → data r = None →
  lookup_outcome (found_by (wildcard_ n) n parts m) r (LookupPath parts m n r).
Context (n : PathMatcherNode D) (r : PathMatcherLookupResult D).
Hypotheses (Hn : wildcards_ok n) (Hd : data_ok n) (Hr : data r = None).

Lemma found_by_data w c parts' r' : data_ok c → found_by w c parts' m r' → is_Some (data r').
Proof.
  intros Hc (path&Hr'&_). unfold results_for in Hr'.
  destruct (results c path m) eqn:E; simplify_eq; eauto.
Qed.

Lemma LookupPathFromChild_outcome k :
  (∃ r', LookupPathFromChild (λ c r, LookupPath parts m c r) k n r = (true, r') ∧
         found_under n k parts m r') ∨
  (LookupPathFromChild (λ c r, LookupPath parts m c r) k n r = (false, r) ∧
   ∀ r0, ¬ found_under n k parts m r0).
Proof using All.
  unfold LookupPathFromChild, found_under. destruct (children_ n !! k) as [c|] eqn:Hc.
  2: { right. split; [done|]. naive_solver. }
  destruct (wildcards_ok_child _ _ _ Hn Hc) as [Hc' Hw].
  destruct (IH c r Hc' (data_ok_child _ _ _ Hd Hc) Hr) as [Hf|[-> Hno]]; rewrite Hw in *.
  - left. eexists. split; [|by eauto]. f_equal. apply bool_decide_eq_true.
    eapply found_by_data; [|done]. by eapply data_ok_child.
  - right. rewrite Hr. split; [done|]. naive_solver.
Qed.

Lemma lookup_children_outcome keys :
  lookup_outcome (λ r', ∃ k, k ∈ keys ∧ found_under n k parts m r') r
    (lookup_children (λ c r, LookupPath parts m c r) keys n r).
Proof using All.
  induction keys as [|k keys IHk]; simpl.
  - right. split; [done|]. set_solver.
  - destruct (LookupPathFromChild_outcome k) as [(r'&->&Hf)|[-> Hno]].
    + left. exists k. split; [set_solver|done].
    + destruct IHk as [(k'&?&?)|[-> Hno']]; [left|right].
      * exists k'. split; [set_solver|done].
      * split; [done|]. intros r0 (k'&[->|Hk']%elem_of_cons&?); [naive_solver|].
        apply (Hno' r0). eauto.
Qed.

End lookup.

Lemma LookupPath_outcome parts m n r :
  wildcards_ok n → data_ok n → data r = None →
  lookup_outcome (found_by (wildcard_ n) n parts m) r (LookupPath parts m n r).
Proof.
  revert n r. induction parts as [|part parts IH]; intros n r Hn Hd Hr; simpl.
  - rewrite GetResult_spec. destruct (results_for n [] m) as [r'|] eqn:E.
    { left. apply found_by_nil. auto. }
    assert (results_for n [kWildCardPathKey] m
            = children_ n !! kWildCardPathKey ≫= λ c, results_for c [] m) as E2
      by apply results_for_cons.
    destruct (children_ n !! kWildCardPathKey) as [c|] eqn:Hc; simpl in E2.
    2: { right. split; [done|]. intros r0 [?|?]%found_by_nil; congruence. }
    rewrite GetResult_spec. destruct (results_for c [] m) as [r'|] eqn:E'; simpl; [left|right].
    + apply found_by_nil. auto.
    + split; [done|]. intros r0 [?|?]%found_by_nil; congruence.
  - destruct (LookupPathFromChild_outcome parts m IH n r Hn Hd Hr part) as [(r'&->&Hf)|[-> Hno]].
    { left. apply found_by_cons. auto. }
    destruct (wildcard_ n) eqn:Hw.
    + destruct (IH n r Hn Hd Hr) as [Hf|[-> Hno']]; rewrite Hw in *; [left|right].
      * apply found_by_cons. auto.
      * split; [done|]. intros r0 [?|[[_ ?]|[? _]]]%found_by_cons; naive_solver.
    + destruct (lookup_children_outcome parts m IH n r Hn Hd Hr wild_keys)
        as [Hf|[Heq Hno']]; [left|right].
      * apply found_by_cons. auto.
      * split; [done|]. intros r0 [?|[[? _]|[_ ?]]]%found_by_cons; naive_solver.
Qed.

Lemma matches_refl w path : matches w path path.
Proof. revert w. induction path; intros w; constructor; auto. Qed.

(** A path registered under the very text of the request wins. *)
Lemma LookupPath_exact parts m n r r0 :
  data_ok n → results_for n parts m = Some r0 → LookupPath parts m n r = r0.
Proof.
  revert n r. induction parts as [|part parts IH]; intros n r Hd H0; simpl.
  - by rewrite GetResult_spec, H0.
  - rewrite results_for_cons in H0. destruct (children_ n !! part) as [c|] eqn:Hc; [|done].
    simpl in H0. unfold LookupPathFromChild at 1. rewrite Hc.
    pose proof (data_ok_child _ _ _ Hd Hc) as Hdc.
    rewrite (IH c r Hdc H0), bool_decide_eq_true_2; [done|].
    eapply (found_by_data m false c parts); [done|]. exists parts. split; [done|].
    apply matches_refl.
Qed.

(** ** Inserting a registered path again *)

(** Tries that answer every lookup with the same data. *)
Definition same_data n n' : Prop :=
  ∀ path, option_Forall2
    (λ a b, wildcard_ a = wildcard_ b ∧
            ∀ m, data <$> (result_map_ a !! m) = data <$> (result_map_ b !! m))
    (node_at n path) (node_at n' path).

Lemma same_data_refl n : same_data n n.
Proof. intros path. destruct (node_at n path); by constructor. Qed.

Lemma same_data_child n n' k :
  same_data n n' → option_Forall2 same_data (children_ n !! k) (children_ n' !! k).
Proof.
  intros H. pose proof (H [k]) as Hk. simpl in Hk.
  destruct (children_ n !! k) as [c|] eqn:E, (children_ n' !! k) as [c'|] eqn:E';
    simpl in Hk; try by inversion Hk.
  - constructor. intros path. specialize (H (k :: path)). simpl in H. by rewrite E, E' in H.
  - constructor.
Qed.

Lemma same_data_get m n n' r r' :
  same_data n n' → data r = data r' →
  (GetResultForHttpMethod m n r).1 = (GetResultForHttpMethod m n' r').1 ∧
  data (GetResultForHttpMethod m n r).2 = data (GetResultForHttpMethod m n' r').2.
Proof.
  intros H Hr. specialize (H []). simpl in H. inversion H as [? ? [_ Hm]|]; subst.
  unfold GetResultForHttpMethod, Find2KeysOrNull.
  pose proof (Hm m) as H1. pose proof (Hm HttpMethod_WILD_CARD) as H2.
  destruct (result_map_ n !! m), (result_map_ n' !! m); simpl in *; try done;
    [by simplify_eq|].
  destruct (result_map_ n !! _), (result_map_ n' !! _); simpl in *; by simplify_eq.
Qed.

Lemma LookupPathFromChild_same parts m k n n' r r' :
  (∀ n n' r r', same_data n n' → data r = data r' →
     data (LookupPath parts m n r) = data (LookupPath parts m n' r')) →
  same_data n n' → data r = data r' →
  let lookup c r := LookupPath parts m c r in
  (LookupPathFromChild lookup k n r).1 = (LookupPathFromChild lookup k n' r').1 ∧
  data (LookupPathFromChild lookup k n r).2 = data (LookupPathFromChild lookup k n' r').2.
Proof.
  intros IH H Hr. unfold LookupPathFromChild. pose proof (same_data_child _ _ k H) as Hc.
  destruct Hc as [c c' Hs|]; [|done]. simpl. by rewrite (IH c c' r r' Hs Hr).
Qed.

Lemma LookupPath_same parts m n n' r r' :
  same_data n n' → data r = data r' →
  data (LookupPath parts m n r) = data (LookupPath parts m n' r').
Proof.
  revert n n' r r'. induction parts as [|part parts IH]; intros n n' r r' H Hr; simpl.
  - destruct (same_data_get m n n' r r' H Hr) as [H1 H2].
    destruct (GetResultForHttpMethod m n r) as [f1 r1], (GetResultForHttpMethod m n' r') as [f2 r2].
    simpl in *. subst f2. destruct f1; [done|].
    pose proof (same_data_child _ _ kWildCardPathKey H) as Hc.
    destruct Hc as [c c' Hs|]; [|done]. by apply same_data_get.
  - destruct (LookupPathFromChild_same parts m part n n' r r' IH H Hr) as [H1 H2].
    destruct (LookupPathFromChild _ part n r) as [f1 r1],
      (LookupPathFromChild _ part n' r') as [f2 r2]. simpl in *. subst f2.
    destruct f1; [done|]. assert (wildcard_ n' = wildcard_ n) as ->.
    { specialize (H []). simpl in H. inversion H as [? ? [Hw _]|]. done. }
    destruct (wildcard_ n); [by apply IH|].
    change (data (lookup_children (λ c r, LookupPath parts m c r) wild_keys n r1)
            = data (lookup_children (λ c r, LookupPath parts m c r) wild_keys n' r2)).
    clear -IH H H2. generalize wild_keys as keys. intros keys. revert r1 r2 H2.
    induction keys as [|k keys IHk]; intros r1 r2 Hr; [done|]. simpl.
    destruct (LookupPathFromChild_same parts m k n n' r1 r2 IH H Hr) as [H1 H2].
    destruct (LookupPathFromChild _ k n r1), (LookupPathFromChild _ k n' r2). simpl in *. subst.
    case_match; auto.
Qed.

Lemma InsertTemplate_same path m d n e :
  wildcards_ok n → results n path m = Some e →
  same_data n (InsertTemplate path m d true n).2.
Proof.
  revert n. induction path as [|k path IH]; intros n Hn He; simpl.
  - rewrite results_nil in He. unfold InsertOrReturnExisting. rewrite He. simpl.
    intros [|k path']; simpl; [|apply (same_data_refl n (k :: path'))].
    constructor. split; [done|]. intros m'. simpl.
    destruct (decide (m = m')) as [<-|]; [by rewrite lookup_insert_eq, He|].
    by rewrite lookup_insert_ne.
  - rewrite results_cons in He. destruct (children_ n !! k) as [c|] eqn:Hc; [|done].
    simpl in He. unfold LookupOrInsertNew. rewrite Hc. simpl.
    destruct (wildcards_ok_child _ _ _ Hn Hc) as [Hok Hw].
    assert ((if bool_decide (k = kWildCardPathKey) then set_wildcard true c else c) = c) as ->.
    { destruct (bool_decide _); [|done]. destruct c; simpl in *. by subst. }
    specialize (IH c Hok He). destruct (InsertTemplate path m d true c) as [ok c'].
    intros [|k' path']; simpl; [by constructor|].
    destruct (decide (k = k')) as [<-|]; [rewrite Hc, lookup_insert_eq; apply IH|].
    rewrite lookup_insert_ne by done. destruct (children_ n !! k') as [c0|]; simpl; [|constructor].
    apply (same_data_refl c0 path').
Qed.

End node_theory.

(** ** What [matches] says for the keys of a parsed template *)

(** A key against one part: its own text, or a single-segment wildcard. *)
Definition seg_match (k p : string) : Prop :=
  k = p ∨ k = kWildCardPathPartKey ∨ k = kSingleParameterKey.

Definition constant_key (k : string) : Prop := k ∉ ["*"; "**"; "/."].

Lemma matches_no_wild ks ps :
  kWildCardPathKey ∉ ks → matches false ks ps ↔ Forall2 seg_match ks ps.
Proof.
  revert ps. induction ks as [|k ks IH]; intros ps Hk.
  - split; [inversion 1; subst; constructor|inversion 1; subst; constructor].
  - apply not_elem_of_cons in Hk as [Hk Hks].
    assert (bool_decide (k = kWildCardPathKey) = false) as Hb by (by apply bool_decide_eq_false).
    split.
    + inversion 1; subst; [done|..|done].
      * constructor; [by left|]. apply IH; [done|congruence].
      * constructor; [unfold seg_match; set_solver|by apply IH].
    + inversion 1 as [|? p ? ps' Hm Hall]; subst. apply IH in Hall; [|done].
      destruct Hm as [->|[->| ->]].
      * constructor. by rewrite Hb.
      * apply match_single; [set_solver|done].
      * apply match_single; [set_solver|done].
Qed.

Lemma constant_keys_no_wild ks : Forall constant_key ks → kWildCardPathKey ∉ ks.
Proof.
  intros Hks Hin. rewrite Forall_forall in Hks. specialize (Hks _ Hin).
  unfold constant_key, kWildCardPathKey in Hks. set_solver.
Qed.

Lemma matches_constant ks ps : Forall constant_key ks → matches false ks ps ↔ ps = ks.
Proof.
  intros Hks. rewrite matches_no_wild by (by apply constant_keys_no_wild). split.
  - induction 1 as [|k p ks ps Hm _ IH]; [done|]. apply Forall_cons in Hks as [Hk Hks].
    f_equal; [|auto]. unfold constant_key in Hk.
    destruct Hm as [->|[->| ->]]; [done|set_solver..].
  - intros ->. clear. induction ks; constructor; [by left|done].
Qed.

Lemma matches_after_wild ks ps :
  Forall constant_key ks →
  matches true ks ps ↔ ∃ mid, ps = mid ++ ks.
Proof.
  intros Hks. split.
  - induction ps as [|p ps IH]; inversion 1; subst.
    + by exists [].
    + apply Forall_cons in Hks as [Hk _]. unfold constant_key, kWildCardPathKey in Hk. set_solver.
    + exists []. simpl. f_equal. apply Forall_cons in Hks as [Hk Hks].
      apply matches_constant; [done|]. rewrite bool_decide_eq_false_2 in *; [done|].
      unfold constant_key, kWildCardPathKey in *. set_solver.
    + destruct IH as [mid ->]; [done|]. by exists (p :: mid).
  - intros [mid ->]. induction mid as [|p mid IH]; simpl; [|by constructor].
    destruct ks as [|k ks]; [constructor|]. apply Forall_cons in Hks as [Hk Hks].
    constructor. rewrite bool_decide_eq_false_2.
    + by apply matches_constant.
    + unfold constant_key, kWildCardPathKey in *. set_solver.
Qed.

Lemma matches_wild pre post ps :
  kWildCardPathKey ∉ pre → Forall constant_key post →
  matches false (pre ++ kWildCardPathKey :: post) ps ↔
  ∃ front mid, ps = front ++ mid ++ post ∧ Forall2 seg_match pre front ∧
               (mid = [] → post = []).
Proof.
  intros Hpre Hpost. revert ps. induction pre as [|k pre IH]; intros ps; simpl.
  - split.
    + inversion 1 as [|?|? ? ? ps' Hm|? ? ? ? Hk|? ? ps' Hm|]; subst.
      * exists [], []. by repeat constructor.
      * apply matches_after_wild in Hm as [mid ->]; [|done].
        exists [], (kWildCardPathKey :: mid). by repeat constructor.
      * unfold kWildCardPathKey in Hk. set_solver.
      * apply matches_after_wild in Hm as [mid ->]; [|done].
        eexists [], (_ :: mid). by repeat constructor.
    + intros (front&mid&->&Hf&Hmid). inversion Hf; subst. simpl.
      destruct mid as [|p mid]; [rewrite Hmid by done; constructor|].
      simpl. apply match_wild, matches_after_wild; eauto.
  - apply not_elem_of_cons in Hpre as [Hk Hpre].
    assert (bool_decide (k = kWildCardPathKey) = false) as Hb by (by apply bool_decide_eq_false).
    split.
    + assert (∀ p ps', seg_match k p → matches false (pre ++ kWildCardPathKey :: post) ps' →
        ∃ front mid, p :: ps' = front ++ mid ++ post ∧ Forall2 seg_match (k :: pre) front ∧
                     (mid = [] → post = [])) as Hcons.
      { intros p ps' Hm (front&mid&->&?&?)%IH; [|done]. exists (p :: front), mid.
        split_and!; [done|by constructor|done]. }
      inversion 1; subst; [by destruct pre|..|done].
      * apply Hcons; [by left|congruence].
      * apply Hcons; [|done]. unfold seg_match. set_solver.
    + intros (front&mid&->&Hf&Hmid). inversion Hf as [|? p ? front' Hm Hf']; subst. simpl.
      assert (matches false (pre ++ kWildCardPathKey :: post) (front' ++ mid ++ post)) as Hrec
        by (apply IH; eauto 6).
      destruct Hm as [->|[->| ->]].
      * constructor. by rewrite Hb.
      * apply match_single; [set_solver|done].
      * apply match_single; [set_solver|done].
Qed.
