(* ===== verification/PathMatcher.v ===== *)
(** * Path matcher: src/api_proxy/path_matcher/path_matcher.{h,cc} and
    variable_binding_utils.cc

    Registration of URI templates, splitting of request paths, lookup with
    extraction of the variable bindings, and their rendering as query
    parameters. *)
From S2P Require Import Prelude HttpTemplate PathMatcherNode.

(** ** Percent-decoding *)

Definition ascii_Z (c : ascii) : Z := Z.of_N (N_of_ascii c).
Definition Z_ascii (x : Z) : ascii := ascii_of_N (Z.to_N (x mod 256)).

(** IsReservedChar: reserved characters according to RFC 6570. *)
Definition IsReservedChar (c : ascii) : bool :=
  bool_decide (c ∈ ["!"; "#"; "$"; "&"; "'"; "("; ")"; "*"; "+"; ","; "/"; ":"; ";";
                    "="; "?"; "@"; "["; "]"]%char).

Definition in_range (lo hi c : ascii) : bool :=
  (ascii_Z lo <=? ascii_Z c)%Z && (ascii_Z c <=? ascii_Z hi)%Z.

Definition ascii_isxdigit (c : ascii) : bool :=
  in_range "a" "f" c || in_range "A" "F" c || in_range "0" "9" c.

Definition hex_digit_to_int (c : ascii) : Z :=
  let x := ascii_Z c in
  let x := if (ascii_Z "9" <? x)%Z then (x + 9)%Z else x in
  Z.land x 15.

(** GetEscapedChar: [Some] of the character when [src] has an escape at [i]
    that is to be decoded. *)
Definition GetEscapedChar (src : string) (i : nat) (unescape_reserved_chars : bool)
  : option ascii :=
  if i + 2 <? String.length src then
    match String.get i src, String.get (i + 1) src, String.get (i + 2) src with
    | Some p, Some h, Some l =>
        if bool_decide (p = "%"%char) && (ascii_isxdigit h && ascii_isxdigit l) then
          let c := Z_ascii (Z.lor (Z.shiftl (hex_digit_to_int h) 4) (hex_digit_to_int l)) in
          if negb unescape_reserved_chars && IsReservedChar c then None else Some c
        else None
    | _, _, _ => None
    end
  else None.

(** The second loop of UrlUnescapeString, from index [i]; it makes at most
    one turn per character. *)
Fixpoint unescape_loop (fuel : nat) (part : string) (unescape_reserved_chars : bool)
    (i : nat) (unescaped : string) : string :=
  match fuel with
  | 0 => unescaped
  | S fuel =>
      match String.get i part with
      | None => unescaped
      | Some d =>
          match GetEscapedChar part i unescape_reserved_chars with
          | Some ch => unescape_loop fuel part unescape_reserved_chars (i + 3) (unescaped +:+ str1 ch)
          | None => unescape_loop fuel part unescape_reserved_chars (i + 1) (unescaped +:+ str1 d)
          end
      end
  end.

Definition needs_unescaping (part : string) (unescape_reserved_chars : bool) : bool :=
  existsb (λ i, bool_decide (is_Some (GetEscapedChar part i unescape_reserved_chars)))
          (seq 0 (String.length part)).

Definition UrlUnescapeString (part : string) (unescape_reserved_chars : bool) : string :=
  if negb (needs_unescaping part unescape_reserved_chars) then part
  else unescape_loop (String.length part) part unescape_reserved_chars 0 "".

(** ** Variable bindings *)

(** struct VariableBinding. *)
Record VariableBinding := mkBinding { binding_field_path : list string; value : string }.

(** The loop that joins parts [i, end_segment): [None] is reading past the end
    of [parts]. *)
Fixpoint join_parts (n : nat) (i end_segment : Z) (is_multipart keep_binding_escaped : bool)
    (parts : list string) (v : string) : option string :=
  match n with
  | 0 => Some v
  | S n =>
      if (i <? end_segment)%Z then
        match parts !! Z.to_nat i with
        | None => None
        | Some part =>
            let v := v +:+ (if keep_binding_escaped then part
                            else UrlUnescapeString part (negb is_multipart)) in
            let v := if (i <? u64 (end_segment - 1))%Z then v +:+ "/" else v in
            join_parts n (i + 1) end_segment is_multipart keep_binding_escaped parts v
        end
      else Some v
  end.

(** One turn of the loop of ExtractBindingsFromPath, in [size_t] arithmetic.
    The joining loop reads a new part each turn, so it can turn at most once
    more than there are parts before it stops or leaves [parts]. *)
Definition extract_binding (var : HtVariable) (parts : list string)
    (keep_binding_escaped : bool) : option VariableBinding :=
  let size := Z.of_nat (length parts) in
  let end_ := if (0 <=? end_segment var)%Z then u64 (end_segment var)
              else u64 (u64 (size + u64 (end_segment var)) + 1) in
  let is_multipart := (1 <? u64 (end_ - u64 (start_segment var)))%Z ||
                      (end_segment var <? 0)%Z in
  v ← join_parts (S (length parts)) (u64 (start_segment var)) end_ is_multipart
        keep_binding_escaped parts "";
  Some (mkBinding (field_path var) v).

(** ExtractBindingsFromPath: the bindings it appends. *)
Definition ExtractBindingsFromPath (vars : list HtVariable) (parts : list string)
    (keep_binding_escaped : bool) : option (list VariableBinding) :=
  mapM (λ var, extract_binding var parts keep_binding_escaped) vars.

(** ** Request paths *)

(** while (!result.empty() && result.back().empty()) result.pop_back(). *)
Fixpoint drop_trailing_empty (parts : list string) : list string :=
  match parts with
  | [] => []
  | p :: parts =>
      match drop_trailing_empty parts with
      | [] => if is_empty p then [] else [p]
      | parts => p :: parts
      end
  end.

Definition ExtractRequestParts (path : string) (custom_verbs : gset string) : list string :=
  let path := match find_first_of "?" path with
              | Some i => stake i path
              | None => path
              end in
  let last_colon_pos := find_last_of ":" path in
  let last_slash_pos := find_last_of "/" path in
  let path :=
    match last_colon_pos with
    | Some colon =>
        if (size_of_pos last_slash_pos <? Z.of_nat colon)%Z then
          if bool_decide (sdrop (colon + 1) path ∈ custom_verbs)
          then set_char colon "/" path else path
        else path
    | None => path
    end in
  let result := if is_empty path then [] else str_split "/" (sdrop 1 path) in
  drop_trailing_empty result.

(** ** Registration and lookup *)

(** TransformHttpTemplate. *)
Definition TransformHttpTemplate (ht : HttpTemplate) : list string :=
  let path := foldl (λ path part, AppendLiteralNode part path) [] (segments ht) in
  if is_empty (verb ht) then path else AppendLiteralNode (verb ht) path.

Section matcher.
Context {Method : Type}.

(** struct PathMatcher::MethodData. *)
Record MethodData := mkMethodData {
  md_method : Method;
  md_variables : list HtVariable;
  md_body_field_path : string
}.

(** PathMatcherBuilder and PathMatcher have the same members. *)
Record PathMatcher := mkMatcher {
  root_ptr_ : PathMatcherNode MethodData;
  custom_verbs_ : gset string;
  methods_ : list MethodData
}.

(** PathMatcherBuilder(). *)
Definition new_builder : PathMatcher := mkMatcher new_node ∅ [].

(** LookupInPathMatcherNode. *)
Definition LookupInPathMatcherNode (root : PathMatcherNode MethodData) (parts : list string)
    (http_method : string) : PathMatcherLookupResult MethodData :=
  LookupPath parts http_method root no_result.

(** PathMatcherBuilder::Register. *)
Definition Register (http_method http_template body_field_path : string) (method : Method)
    (b : PathMatcher) : bool * PathMatcher :=
  match Parse http_template with
  | None => (false, b)
  | Some ht =>
      let path_info := TransformHttpTemplate ht in
      let method_data := mkMethodData method (variables ht) body_field_path in
      let '(inserted, root) :=
        InsertPath path_info http_method (Some method_data) true (root_ptr_ b) in
      if negb inserted then (false, mkMatcher root (custom_verbs_ b) (methods_ b))
      else (true,
            mkMatcher root
              (if is_empty (verb ht) then custom_verbs_ b
               else {[verb ht]} ∪ custom_verbs_ b)
              (methods_ b ++ [method_data]))
  end.

(** PathMatcherBuilder::Build moves the members. *)
Definition Build (b : PathMatcher) : PathMatcher := b.

(** PathMatcher::Lookup(http_method, path). *)
Definition Lookup (http_method path : string) (pm : PathMatcher) : option Method :=
  let parts := ExtractRequestParts path (custom_verbs_ pm) in
  md_method <$> data (LookupInPathMatcherNode (root_ptr_ pm) parts http_method).

(** PathMatcher::Lookup(http_method, path, variable_bindings): the method and
    [*variable_bindings] after the call; the outer [None] is an access out of
    the bounds of the parts. *)
Definition Lookup_bindings (http_method path : string) (bindings : list VariableBinding)
    (pm : PathMatcher) : option (option Method * list VariableBinding) :=
  let parts := ExtractRequestParts path (custom_verbs_ pm) in
  match data (LookupInPathMatcherNode (root_ptr_ pm) parts http_method) with
  | None => Some (None, bindings)
  | Some md =>
      bs ← ExtractBindingsFromPath (md_variables md) parts true;
      Some (Some (md_method md), bs)
  end.

End matcher.

Arguments MethodData : clear implicits.
Arguments PathMatcher : clear implicits.

(** ** Query parameters: VariableBindingsToQueryParameters *)

(** absl::StrContains(segment, "_"). *)
Definition has_underscore (s : string) : bool :=
  match find_first_of "_" s with Some _ => true | None => false end.

Definition json_name (snake_to_json : gmap string string) (segment : string) : string :=
  if has_underscore segment then default segment (snake_to_json !! segment) else segment.

(** The two loops, with their indexes compared with [size() - 1]. *)
Fixpoint field_path_params (j : nat) (n : nat) (path : list string)
    (snake_to_json : gmap string string) (query_params : string) : string :=
  match path with
  | [] => query_params
  | segment :: path =>
      let q := query_params +:+ json_name snake_to_json segment in
      let q := if j <? n - 1 then q +:+ "." else q in
      field_path_params (S j) n path snake_to_json q
  end.

Fixpoint bindings_params (i : nat) (n : nat) (bindings : list VariableBinding)
    (snake_to_json : gmap string string) (query_params : string) : string :=
  match bindings with
  | [] => query_params
  | b :: bindings =>
      let q := field_path_params 0 (length (binding_field_path b)) (binding_field_path b)
                 snake_to_json query_params in
      let q := q +:+ "=" +:+ value b in
      let q := if i <? n - 1 then q +:+ "&" else q in
      bindings_params (S i) n bindings snake_to_json q
  end.

Definition VariableBindingsToQueryParameters (variable_bindings : list VariableBinding)
    (snake_to_json : gmap string string) : string :=
  bindings_params 0 (length variable_bindings) variable_bindings snake_to_json "".
