(* ===== verification/RequestPath.v ===== *)
(** * Request paths, percent-decoding and query parameters

    What ExtractRequestParts, UrlUnescapeString and
    VariableBindingsToQueryParameters compute, against direct definitions. *)
From S2P Require Import Prelude HttpTemplate TemplateCursor TemplateGrammar PathMatcherNode PathMatcher.

(** ** Searching and splitting *)

Definition no_char_of (cs : list ascii) (s : string) : bool :=
  sforall (λ c, negb (bool_decide (c ∈ cs))) s.

Lemma find_first_of_app c s t :
  no_char_of [c] s = true → find_first_of c (s +:+ String c t) = Some (String.length s).
Proof.
  induction s as [|d s IH]; intros H.
  - simpl. by rewrite bool_decide_eq_true_2.
  - unfold no_char_of in H. simpl in H. apply andb_true_iff in H as [Hd Hs].
    rewrite app_cons_s. simpl. apply negb_true_iff, bool_decide_eq_false in Hd.
    rewrite bool_decide_eq_false_2 by set_solver. by rewrite IH.
Qed.

Lemma find_first_of_none c s : no_char_of [c] s = true → find_first_of c s = None.
Proof.
  induction s as [|d s IH]; intros H; [done|].
  unfold no_char_of in H. simpl in H. apply andb_true_iff in H as [Hd Hs].
  simpl. apply negb_true_iff, bool_decide_eq_false in Hd.
  rewrite bool_decide_eq_false_2 by set_solver. by rewrite IH.
Qed.

Lemma find_last_of_none c s : no_char_of [c] s = true → find_last_of c s = None.
Proof.
  induction s as [|d s IH]; intros H; [done|].
  unfold no_char_of in H. simpl in H. apply andb_true_iff in H as [Hd Hs].
  simpl. rewrite IH by done. apply negb_true_iff, bool_decide_eq_false in Hd.
  rewrite bool_decide_eq_false_2 by set_solver. done.
Qed.

Lemma find_last_of_app_none c s t :
  find_last_of c t = None → find_last_of c (s +:+ t) = find_last_of c s.
Proof.
  intros Ht. induction s as [|d s IH]; [done|]. rewrite app_cons_s. simpl. by rewrite IH.
Qed.

Lemma find_last_of_app_some c s t i :
  find_last_of c t = Some i → find_last_of c (s +:+ t) = Some (String.length s + i).
Proof.
  intros Ht. induction s as [|d s IH]; [done|]. rewrite app_cons_s. simpl. by rewrite IH.
Qed.

Lemma find_last_of_cons c t :
  no_char_of [c] t = true → find_last_of c (String c t) = Some 0.
Proof.
  intros Ht. simpl. rewrite (find_last_of_none _ _ Ht). by rewrite bool_decide_eq_true_2.
Qed.

Lemma find_last_of_lt c s i : find_last_of c s = Some i → i < String.length s.
Proof.
  revert i. induction s as [|d s IH]; intros i H; simpl in *; [done|].
  destruct (find_last_of c s) as [j|]; simplify_eq/=.
  - specialize (IH j eq_refl). lia.
  - case_bool_decide; simplify_eq. lia.
Qed.

Lemma stake_app s t : stake (String.length s) (s +:+ t) = s.
Proof. induction s as [|d s IH]; [done|]. rewrite app_cons_s. simpl. by f_equal. Qed.

Lemma sdrop_app s t : sdrop (String.length s) (s +:+ t) = t.
Proof. induction s as [|d s IH]; [done|]. by rewrite app_cons_s. Qed.

Lemma sdrop_app_S s c t : sdrop (String.length s + 1) (s +:+ String c t) = t.
Proof. induction s as [|d s IH]; [done|]. by rewrite app_cons_s. Qed.

Lemma set_char_app c s d t : set_char (String.length s) c (s +:+ String d t) = s +:+ String c t.
Proof. induction s as [|e s IH]; [done|]. rewrite !app_cons_s. simpl. by f_equal. Qed.

Lemma str_split_no c s : no_char_of [c] s = true → str_split c s = [s].
Proof.
  induction s as [|d s IH]; intros H; [done|].
  unfold no_char_of in H. simpl in H. apply andb_true_iff in H as [Hd Hs].
  simpl. apply negb_true_iff, bool_decide_eq_false in Hd.
  rewrite bool_decide_eq_false_2 by set_solver. by rewrite IH.
Qed.

Lemma str_split_app c s t :
  no_char_of [c] s = true → str_split c (s +:+ String c t) = s :: str_split c t.
Proof.
  induction s as [|d s IH]; intros H.
  - simpl. by rewrite bool_decide_eq_true_2.
  - unfold no_char_of in H. simpl in H. apply andb_true_iff in H as [Hd Hs].
    rewrite app_cons_s. simpl. apply negb_true_iff, bool_decide_eq_false in Hd.
    rewrite bool_decide_eq_false_2 by set_solver. by rewrite IH.
Qed.

(** Splitting undoes joining. *)
Lemma str_split_join c ws :
  ws ≠ [] → Forall (λ w, no_char_of [c] w = true) ws →
  str_split c (str_join (str1 c) ws) = ws.
Proof.
  intros Hne Hall. induction ws as [|w ws IH]; [done|].
  apply Forall_cons in Hall as [Hw Hall]. destruct ws as [|w' ws].
  - simpl. by apply str_split_no.
  - change (str_join (str1 c) (w :: w' :: ws))
      with (w +:+ String c (str_join (str1 c) (w' :: ws))).
    rewrite str_split_app by done. f_equal. by apply IH.
Qed.

Lemma drop_trailing_empty_last parts : last (drop_trailing_empty parts) ≠ Some "".
Proof.
  induction parts as [|p parts IH]; [done|]. simpl.
  destruct (drop_trailing_empty parts) as [|q ps] eqn:E.
  - destruct (is_empty p) eqn:Hp; [done|]. simpl. apply is_empty_false in Hp. congruence.
  - by rewrite last_cons_cons.
Qed.

Lemma drop_trailing_empty_prefix parts :
  ∃ n, drop_trailing_empty parts ++ replicate n "" = parts.
Proof.
  induction parts as [|p parts [n IH]]; [by exists 0|]. simpl.
  destruct (drop_trailing_empty parts) as [|p' ps] eqn:E; simpl in *.
  - destruct p; [exists (S n)|exists n]; simpl; by rewrite IH.
  - exists n. simpl. by rewrite IH.
Qed.

Lemma drop_trailing_empty_length parts : length (drop_trailing_empty parts) ≤ length parts.
Proof.
  induction parts as [|p parts IH]; [done|]. simpl.
  destruct (drop_trailing_empty parts); simpl in *; [destruct (is_empty p); simpl; lia|lia].
Qed.

Lemma str_split_length c s : length (str_split c s) ≤ S (String.length s).
Proof.
  induction s as [|d s IH]; [done|]. simpl. case_bool_decide; simpl; [lia|].
  destruct (str_split c s); simpl in *; lia.
Qed.

Lemma stake_length i s : String.length (stake i s) ≤ String.length s.
Proof. revert i. induction s as [|d s IH]; intros [|i]; simpl; try lia. specialize (IH i). lia. Qed.

Lemma set_char_length i c s : String.length (set_char i c s) = String.length s.
Proof. revert i. induction s as [|d s IH]; intros [|i]; simpl; auto. Qed.

Lemma ExtractRequestParts_length path cv :
  length (ExtractRequestParts path cv) ≤ String.length path.
Proof.
  unfold ExtractRequestParts. set (p := match find_first_of _ _ with Some _ => _ | None => _ end).
  assert (String.length p ≤ String.length path) as Hp.
  { unfold p. destruct (find_first_of _ _); [apply stake_length|done]. }
  set (q := match find_last_of ":" p with Some _ => _ | None => _ end).
  assert (String.length q = String.length p) as Hq.
  { unfold q. repeat case_match; try done. apply set_char_length. }
  etrans; [apply drop_trailing_empty_length|].
  destruct q as [|d q]; simpl in *; [lia|].
  pose proof (str_split_length "/" q). lia.
Qed.

(** ** Request paths *)

Definition opt_text (c : ascii) (o : option string) : string :=
  match o with Some s => String c s | None => "" end.

(** A request target: segments, an optional verb, an optional query. *)
Definition request_text (ws : list string) (v q : option string) : string :=
  "/" +:+ str_join "/" ws +:+ opt_text ":" v +:+ opt_text "?" q.

Lemma no_char_of_weaken cs cs' s :
  cs' ⊆ cs → no_char_of cs s = true → no_char_of cs' s = true.
Proof.
  intros Hsub. induction s as [|d s IH]; [done|]. unfold no_char_of in *. simpl.
  rewrite !andb_true_iff, !negb_true_iff, !bool_decide_eq_false. set_solver.
Qed.

Lemma no_char_of_app cs s t :
  no_char_of cs (s +:+ t) = no_char_of cs s && no_char_of cs t.
Proof. apply sforall_app. Qed.

Lemma no_char_of_join cs sep ws :
  no_char_of cs sep = true → Forall (λ w, no_char_of cs w = true) ws →
  no_char_of cs (str_join sep ws) = true.
Proof.
  intros Hsep. induction 1 as [|w ws Hw _ IH]; [done|]. rewrite str_join_cons.
  rewrite no_char_of_app, Hw. destruct ws; [done|]. unfold join_tail.
  by rewrite no_char_of_app, Hsep, IH.
Qed.

Lemma slash_join_snoc front w :
  "/" +:+ str_join "/" (front ++ [w]) = join_tail "/" front +:+ String "/" w.
Proof.
  induction front as [|f front IH]; [done|]. simpl app. rewrite str_join_cons.
  unfold join_tail at 2. rewrite str_join_cons.
  assert (join_tail "/" (front ++ [w]) = "/" +:+ str_join "/" (front ++ [w])) as ->
    by (by destruct front).
  rewrite IH. by rewrite !app_assoc_s.
Qed.

Section request.
Context (front : list string) (w : string) (v q : option string) (cv : gset string).
#[local] Abbreviation ws := (front ++ [w]).
Hypothesis Hws : Forall (λ x, no_char_of ["/"%char; "?"%char] x = true) ws.
Hypothesis Hv : match v with
  | Some x => no_char_of ["/"%char; "?"%char; ":"%char] x = true
  | None => no_char_of [":"%char] w = true
  end.

Lemma request_no_query :
  no_char_of ["?"%char] ("/" +:+ str_join "/" ws +:+ opt_text ":" v) = true.
Proof using Hv Hws.
  rewrite !no_char_of_app. rewrite no_char_of_join; [|done|].
  - destruct v as [x|]; [|done]. simpl. pose proof Hv as Hx.
    apply (no_char_of_weaken _ ["?"%char]) in Hx; [|set_solver]. unfold no_char_of in *. simpl.
    by rewrite Hx.
  - eapply Forall_impl; [exact Hws|]. intros x. apply no_char_of_weaken. set_solver.
Qed.

(** The path before the query. *)
Lemma request_path :
  match find_first_of "?" (request_text ws v q) with
  | Some i => stake i (request_text ws v q)
  | None => request_text ws v q
  end = "/" +:+ str_join "/" ws +:+ opt_text ":" v.
Proof using Hv Hws.
  set (base := "/" +:+ str_join "/" ws +:+ opt_text ":" v).
  assert (request_text ws v q = base +:+ opt_text "?" q) as ->
    by (unfold request_text, base; by rewrite !app_assoc_s).
  destruct q as [q'|]; simpl opt_text.
  - rewrite find_first_of_app by apply request_no_query. apply stake_app.
  - rewrite app_nil_r_s. by rewrite find_first_of_none by apply request_no_query.
Qed.

Lemma segments_no_slash : Forall (λ x, no_char_of ["/"%char] x = true) ws.
Proof using Hws.
  eapply Forall_impl; [exact Hws|]. intros x. apply no_char_of_weaken. clear. set_solver.
Qed.

Lemma last_no_slash : no_char_of ["/"%char] w = true.
Proof using Hws. exact (Forall_inv (proj2 (proj1 (Forall_app _ _ _) segments_no_slash))). Qed.

(** Splitting a path into parts that have no slash. *)
Lemma split_parts parts :
  parts ≠ [] → Forall (λ x, no_char_of ["/"%char] x = true) parts →
  (if is_empty ("/" +:+ str_join "/" parts) then []
   else str_split "/" (sdrop 1 ("/" +:+ str_join "/" parts))) = parts.
Proof using Type.
  intros Hne Hall. simpl is_empty. cbv iota.
  change (sdrop 1 ("/" +:+ str_join "/" parts)) with (str_join "/" parts).
  by rewrite (str_split_join "/").
Qed.

(** What follows the last colon becomes a part when it is a known verb, and stays
    in the last segment otherwise. *)
Lemma verb_replaced x :
  no_char_of ["/"%char; ":"%char] x = true →
  let path := "/" +:+ str_join "/" ws +:+ ":" +:+ x in
  match find_last_of ":" path with
  | Some colon =>
      if (size_of_pos (find_last_of "/" path) <? Z.of_nat colon)%Z then
        if bool_decide (sdrop (colon + 1) path ∈ cv) then set_char colon "/" path else path
      else path
  | None => path
  end = "/" +:+ str_join "/" (if bool_decide (x ∈ cv) then ws ++ [x] else front ++ [w +:+ ":" +:+ x]).
Proof using Hws.
  intros Hx. cbv zeta.
  assert (no_char_of [":"%char] x = true) by (eapply no_char_of_weaken; [|exact Hx]; clear; set_solver).
  assert (no_char_of ["/"%char] x = true) by (eapply no_char_of_weaken; [|exact Hx]; clear; set_solver).
  rewrite <-app_assoc_s. set (pre := "/" +:+ str_join "/" ws). change (":" +:+ x) with (String ":" x).
  rewrite (find_last_of_app_some ":" pre (String ":" x) 0) by (by apply find_last_of_cons).
  rewrite (find_last_of_app_none "/" pre (String ":" x)).
  2: { simpl. by rewrite find_last_of_none. }
  assert (∃ i, find_last_of "/" pre = Some i) as [i Hi].
  { unfold pre. rewrite slash_join_snoc.
    rewrite (find_last_of_app_some _ _ _ 0) by (apply find_last_of_cons, last_no_slash). eauto. }
  pose proof (find_last_of_lt _ _ _ Hi) as Hlt. rewrite Hi, Nat.add_0_r. simpl size_of_pos.
  destruct (Z.ltb_spec (Z.of_nat i) (Z.of_nat (String.length pre))); [|lia].
  rewrite sdrop_app_S. case_bool_decide.
  - rewrite set_char_app, slash_join_snoc. unfold pre, join_tail. by destruct front.
  - unfold pre. by rewrite !slash_join_snoc, app_assoc_s.
Qed.

(** A path without a verb has no colon after its last slash. *)
Lemma no_verb_kept :
  no_char_of [":"%char] w = true →
  let path := "/" +:+ str_join "/" ws in
  match find_last_of ":" path with
  | Some colon =>
      if (size_of_pos (find_last_of "/" path) <? Z.of_nat colon)%Z then
        if bool_decide (sdrop (colon + 1) path ∈ cv) then set_char colon "/" path else path
      else path
  | None => path
  end = path.
Proof using Hws.
  intros Hcolon. cbv zeta. rewrite slash_join_snoc.
  rewrite (find_last_of_app_some "/" _ _ 0) by (apply find_last_of_cons, last_no_slash).
  rewrite (find_last_of_app_none ":" (join_tail "/" front) (String "/" w)).
  2: { simpl. by rewrite find_last_of_none. }
  rewrite Nat.add_0_r. simpl size_of_pos.
  destruct (find_last_of ":" (join_tail "/" front)) as [i|] eqn:Hc; [|done].
  pose proof (find_last_of_lt _ _ _ Hc).
  by destruct (Z.ltb_spec (Z.of_nat (String.length (join_tail "/" front))) (Z.of_nat i)); [lia|].
Qed.

(** The segments that the path is split into. *)
Definition request_segments : list string :=
  front ++ match v with
           | Some x => if bool_decide (x ∈ cv) then [w; x] else [w +:+ ":" +:+ x]
           | None => [w]
           end.

Lemma ExtractRequestParts_text :
  ExtractRequestParts (request_text ws v q) cv = drop_trailing_empty request_segments.
Proof using Hv Hws.
  unfold ExtractRequestParts, request_segments. rewrite request_path. pose proof segments_no_slash as Hs.
  destruct v as [x|].
  - change (opt_text ":" (Some x)) with (":" +:+ x).
    assert (no_char_of ["/"%char] x = true) by (eapply no_char_of_weaken; [|exact Hv]; clear; set_solver).
    rewrite verb_replaced by (eapply no_char_of_weaken; [|exact Hv]; clear; set_solver).
    f_equal. case_bool_decide.
    + rewrite split_parts, <-app_assoc; [done|by destruct front|].
      apply Forall_app. split; [done|]. by apply Forall_singleton.
    + apply split_parts; [by destruct front|]. apply Forall_app in Hs as [Hs _].
      apply Forall_app. split; [done|]. apply Forall_singleton.
      rewrite !no_char_of_app, last_no_slash. done.
  - change (opt_text ":" None) with "". rewrite app_nil_r_s, no_verb_kept by exact Hv.
    f_equal. apply split_parts; [by destruct front|done].
Qed.

End request.

(** ** Percent-decoding *)

(** The character an escape at the front of the string stands for. *)
Definition escape_at_front (reserved : bool) (s : string) : option ascii :=
  match s with
  | String p (String h (String l _)) =>
      if bool_decide (p = "%"%char) && (ascii_isxdigit h && ascii_isxdigit l) then
        let c := Z_ascii (Z.lor (Z.shiftl (hex_digit_to_int h) 4) (hex_digit_to_int l)) in
        if negb reserved && IsReservedChar c then None else Some c
      else None
  | _ => None
  end.

(** Decoding in one pass over the string. *)
Fixpoint decode (reserved : bool) (skip : nat) (s : string) : string :=
  match s with
  | "" => ""
  | String d s' =>
      match skip with
      | S skip => decode reserved skip s'
      | 0 => match escape_at_front reserved s with
             | Some ch => String ch (decode reserved 2 s')
             | None => String d (decode reserved 0 s')
             end
      end
  end.

Lemma get_app_add pre s j : String.get (String.length pre + j) (pre +:+ s) = String.get j s.
Proof. induction pre as [|d pre IH]; [done|]. by rewrite app_cons_s. Qed.

Lemma GetEscapedChar_front pre s reserved :
  GetEscapedChar (pre +:+ s) (String.length pre) reserved = escape_at_front reserved s.
Proof.
  unfold GetEscapedChar. rewrite length_app_s.
  rewrite <-(Nat.add_0_r (String.length pre)) at 3. rewrite !get_app_add.
  destruct s as [|p [|h [|l s]]]; simpl.
  - by rewrite (proj2 (Nat.ltb_ge _ _)) by lia.
  - by rewrite (proj2 (Nat.ltb_ge _ _)) by lia.
  - by rewrite (proj2 (Nat.ltb_ge _ _)) by lia.
  - by rewrite (proj2 (Nat.ltb_lt _ _)) by lia.
Qed.

Lemma escape_at_front_long reserved s ch :
  escape_at_front reserved s = Some ch → ∃ p h l t, s = String p (String h (String l t)).
Proof. destruct s as [|p [|h [|l t]]]; simpl; try done. eauto. Qed.

Lemma decode_escape reserved d s ch :
  escape_at_front reserved (String d s) = Some ch →
  decode reserved 0 (String d s) = String ch (decode reserved 2 s).
Proof. intros E. cbn [decode]. by rewrite E. Qed.

Lemma decode_char reserved d s :
  escape_at_front reserved (String d s) = None →
  decode reserved 0 (String d s) = String d (decode reserved 0 s).
Proof. intros E. cbn [decode]. by rewrite E. Qed.

Lemma unescape_loop_decode fuel pre s reserved acc :
  String.length s ≤ fuel →
  unescape_loop fuel (pre +:+ s) reserved (String.length pre) acc = acc +:+ decode reserved 0 s.
Proof.
  revert pre s acc. induction fuel as [|fuel IH]; intros pre s acc Hf.
  { destruct s; simpl in *; [by rewrite app_nil_r_s|lia]. }
  simpl. rewrite GetEscapedChar_front.
  rewrite <-(Nat.add_0_r (String.length pre)) at 1. rewrite get_app_add.
  destruct s as [|d s]; [simpl; by rewrite !app_nil_r_s|]. cbn [String.get].
  destruct (escape_at_front reserved (String d s)) as [ch|] eqn:E.
  - destruct (escape_at_front_long _ _ _ E) as (p&h&l&t&[= -> ->]).
    replace (String.length pre + 3) with (String.length (pre +:+ String p (String h (String l ""))))
      by (rewrite length_app_s; done).
    replace (pre +:+ String p (String h (String l t)))
      with ((pre +:+ String p (String h (String l ""))) +:+ t) by (by rewrite app_assoc_s).
    rewrite IH by (simpl in Hf; lia). rewrite (decode_escape _ _ _ _ E).
    by rewrite app_assoc_s.
  - replace (String.length pre + 1) with (String.length (pre +:+ str1 d))
      by (rewrite length_app_s; done).
    replace (pre +:+ String d s) with ((pre +:+ str1 d) +:+ s) by (by rewrite app_assoc_s).
    rewrite IH by (simpl in Hf; lia). rewrite (decode_char _ _ _ E).
    by rewrite app_assoc_s.
Qed.

(** Without an escape to decode, decoding changes nothing. *)
Lemma decode_id reserved pre s :
  (∀ i, String.length pre ≤ i < String.length (pre +:+ s) →
     GetEscapedChar (pre +:+ s) i reserved = None) →
  decode reserved 0 s = s.
Proof.
  revert pre. induction s as [|d s IH]; intros pre H; [done|].
  assert (escape_at_front reserved (String d s) = None) as E.
  { rewrite <-(GetEscapedChar_front pre). apply H. rewrite length_app_s. simpl. lia. }
  rewrite (decode_char _ _ _ E). f_equal. apply (IH (pre +:+ str1 d)).
  intros i Hi. rewrite !length_app_s in Hi. simpl in Hi. rewrite app_assoc_s. apply H.
  rewrite length_app_s. simpl. lia.
Qed.

Lemma UrlUnescapeString_decode part reserved :
  UrlUnescapeString part reserved = decode reserved 0 part.
Proof.
  unfold UrlUnescapeString, needs_unescaping. destruct (existsb _ _) eqn:E; simpl.
  - pose proof (unescape_loop_decode (String.length part) "" part reserved "") as H.
    rewrite !app_nil_l_s in H. by apply H.
  - symmetry. apply (decode_id _ ""). intros i Hi. rewrite app_nil_l_s in *.
    destruct (GetEscapedChar part i reserved) as [c|] eqn:Hc; [|done].
    assert (existsb (λ i, bool_decide (is_Some (GetEscapedChar part i reserved)))
              (seq 0 (String.length part)) = true) as H; [|by rewrite E in H].
    apply existsb_exists. exists i. split; [apply in_seq; lia|].
    apply bool_decide_eq_true. rewrite Hc. eauto.
Qed.

(** Percent-encoding of every character, with upper-case digits. *)
Definition hex_char (x : Z) : ascii :=
  if (x <? 10)%Z then Z_ascii (48 + x) else Z_ascii (55 + x).

Definition pct (c : ascii) (rest : string) : string :=
  String "%" (String (hex_char (ascii_Z c / 16)) (String (hex_char (ascii_Z c mod 16)) rest)).

Fixpoint pct_encode (s : string) : string :=
  match s with "" => "" | String c s => pct c (pct_encode s) end.

Lemma escape_at_front_pct c rest : escape_at_front true (pct c rest) = Some c.
Proof. destruct c as [[] [] [] [] [] [] [] []]; vm_compute; reflexivity. Qed.

Lemma escape_at_front_pct_reserved c rest :
  escape_at_front false (pct c rest) = if IsReservedChar c then None else Some c.
Proof. destruct c as [[] [] [] [] [] [] [] []]; vm_compute; reflexivity. Qed.

Lemma decode_pct_encode s : decode true 0 (pct_encode s) = s.
Proof.
  induction s as [|c s IH]; [done|]. simpl pct_encode.
  pose proof (escape_at_front_pct c (pct_encode s)) as E. unfold pct in *.
  rewrite (decode_escape _ _ _ _ E). simpl. by f_equal.
Qed.

(** ** Query parameters *)

Lemma field_path_params_join n j path sj acc :
  j + length path = n →
  field_path_params j n path sj acc = acc +:+ str_join "." (json_name sj <$> path).
Proof.
  revert j acc. induction path as [|p path IH]; intros j acc Hn;
    [simpl; by rewrite app_nil_r_s|]. cbn [field_path_params]. simpl length in Hn.
  rewrite IH by lia. rewrite fmap_cons, str_join_cons.
  destruct (Nat.ltb_spec j (n - 1)).
  - destruct path as [|p' path]; simpl in *; [lia|]. by rewrite !app_assoc_s.
  - destruct path as [|p' path]; simpl in *; [|lia]. by rewrite !app_nil_r_s.
Qed.

(** One parameter: the field path in JSON names, "=", the value. *)
Definition query_param (sj : gmap string string) (b : VariableBinding) : string :=
  str_join "." (json_name sj <$> binding_field_path b) +:+ "=" +:+ value b.

Lemma bindings_params_join n i bs sj acc :
  i + length bs = n →
  bindings_params i n bs sj acc = acc +:+ str_join "&" (query_param sj <$> bs).
Proof.
  revert i acc. induction bs as [|b bs IH]; intros i acc Hn;
    [simpl; by rewrite app_nil_r_s|]. cbn [bindings_params]. simpl length in Hn.
  rewrite IH by lia. rewrite fmap_cons, str_join_cons.
  rewrite field_path_params_join by lia. unfold query_param at 2.
  destruct (Nat.ltb_spec i (n - 1)).
  - destruct bs as [|b' bs]; simpl in *; [lia|]. by rewrite !app_assoc_s.
  - destruct bs as [|b' bs]; simpl in *; [|lia]. by rewrite !app_nil_r_s, !app_assoc_s.
Qed.

(** ** The statements *)

(** C31: the parts of a request target: its segments, of which the last one is
    split at its last colon exactly when the matcher knows what follows as a custom
    verb, and is kept whole with the colon otherwise; the query is ignored; then the
    empty parts at the end, and only those, are removed.  A target is a slash and
    segments joined with slashes, any of which may be empty; the last segment is
    written as [w], which may hold colons, and what follows its last colon, or
    without a colon. *)
Theorem ExtractRequestParts_request front w v q cv :
  Forall (λ x, no_char_of ["/"%char; "?"%char] x = true) (front ++ [w]) →
  match v with
  | Some x => no_char_of ["/"%char; "?"%char; ":"%char] x = true
  | None => no_char_of [":"%char] w = true
  end →
  let parts := ExtractRequestParts (request_text (front ++ [w]) v q) cv in
  last parts ≠ Some "" ∧
  ∃ n, parts ++ replicate n "" =
    front ++ match v with
             | Some x => if bool_decide (x ∈ cv) then [w; x] else [w +:+ ":" +:+ x]
             | None => [w]
             end.
Proof.
  intros Hws Hv. cbv zeta. rewrite ExtractRequestParts_text by done.
  split; [apply drop_trailing_empty_last|apply drop_trailing_empty_prefix].
Qed.

Lemma ExtractRequestParts_request_witness :
  (∃ n, ExtractRequestParts (request_text (["v1"; ""] ++ ["shelf:1"]) (Some "get") (Some "a=b/c:d"))
    {["get"]} ++ replicate n "" = ["v1"; ""; "shelf:1"; "get"]) ∧
  (∃ n, ExtractRequestParts (request_text (["v1"; ""] ++ ["shelf:1"]) (Some "put") (Some "a=b/c:d"))
    {["get"]} ++ replicate n "" = ["v1"; ""; "shelf:1:put"]) ∧
  (∃ n, ExtractRequestParts (request_text (["v1"; ""] ++ [""]) None None)
    {["get"]} ++ replicate n "" = ["v1"; ""; ""]) ∧
  last (ExtractRequestParts (request_text (["v1"; ""] ++ [""]) None None) {["get"]}) ≠ Some "".
Proof.
  split; [|split].
  - destruct (ExtractRequestParts_request ["v1"; ""] "shelf:1" (Some "get") (Some "a=b/c:d") {["get"]})
      as [_ H]; [repeat constructor|reflexivity|]. rewrite bool_decide_eq_true_2 in H by set_solver. exact H.
  - destruct (ExtractRequestParts_request ["v1"; ""] "shelf:1" (Some "put") (Some "a=b/c:d") {["get"]})
      as [_ H]; [repeat constructor|reflexivity|]. rewrite bool_decide_eq_false_2 in H by set_solver. exact H.
  - destruct (ExtractRequestParts_request ["v1"; ""] "" None None {["get"]})
      as [H1 H2]; [repeat constructor|reflexivity|]. split; [exact H2|exact H1].
Defined.

(** Whatever the path and the verbs, the parts never end with an empty part
    and there are at most as many as the path has characters. *)
Lemma ExtractRequestParts_trimmed path cv :
  last (ExtractRequestParts path cv) ≠ Some "" ∧
  length (ExtractRequestParts path cv) ≤ String.length path.
Proof.
  split; [|apply ExtractRequestParts_length]. unfold ExtractRequestParts.
  apply drop_trailing_empty_last.
Qed.

(** Extra slashes inside a path are kept as empty parts: the comment above
    the function says that they are collapsed. *)
Lemma ExtractRequestParts_keeps_slashes :
  ExtractRequestParts "/a//b///" ∅ = ["a"; ""; "b"].
Proof. reflexivity. Qed.

(** C32: the two passes of UrlUnescapeString (look for an escape, then copy)
    compute the one-pass decoder [decode]; percent-encoding every character and
    decoding gives the text back; and with [unescape_reserved_chars = false]
    an escaped reserved character stays as it is. *)
Theorem UrlUnescapeString_correct s :
  (∀ reserved, UrlUnescapeString s reserved = decode reserved 0 s) ∧
  UrlUnescapeString (pct_encode s) true = s ∧
  (∀ c, UrlUnescapeString (pct c s) false
        = if IsReservedChar c
          then String "%" (UrlUnescapeString (sdrop 1 (pct c s)) false)
          else String c (UrlUnescapeString s false)).
Proof.
  split_and!.
  - intros. apply UrlUnescapeString_decode.
  - rewrite UrlUnescapeString_decode. apply decode_pct_encode.
  - intros c. rewrite !UrlUnescapeString_decode.
    pose proof (escape_at_front_pct_reserved c s) as E. unfold pct in *.
    destruct (IsReservedChar c); [by apply decode_char|].
    by rewrite (decode_escape _ _ _ _ E).
Qed.

(** The query parameters are the bindings' parameters, "a.b=value" with the
    field path in JSON names, joined with "&". *)
Lemma VariableBindingsToQueryParameters_join bs sj :
  VariableBindingsToQueryParameters bs sj = str_join "&" (query_param sj <$> bs).
Proof. by apply bindings_params_join. Qed.
