(* ===== verification/PathMatcherCorrect.v ===== *)
(** * Correctness of the path matcher

    A builder after successful registrations holds exactly the registered rules
    ([registry_ok]); a lookup answers a rule whose template matches the request,
    and answers none only when no rule matches; the variable bindings read the
    segments the template names, within the request's parts. *)
From S2P Require Import Prelude HttpTemplate TemplateGrammar PathMatcherNode PathMatcher RequestPath.

Section registry.
Context {Method : Type}.

(** One call of Register. *)
Record Rule := mkRule {
  rule_http_method : string;
  rule_template : string;
  rule_body : string;
  rule_method : Method
}.

(** Registrations that all succeed, as a configuration requires. *)
Fixpoint register_all (rules : list Rule) (b : PathMatcher Method) : option (PathMatcher Method) :=
  match rules with
  | [] => Some b
  | r :: rules =>
      match Register (rule_http_method r) (rule_template r) (rule_body r) (rule_method r) b with
      | (true, b) => register_all rules b
      | (false, _) => None
      end
  end.

Definition rule_data (r : Rule) (ht : HttpTemplate) : MethodData Method :=
  mkMethodData (rule_method r) (variables ht) (rule_body r).

(** [entry rules ht r]: [r] is one of the rules and its template is [ht]. *)
Definition entry (rules : list Rule) (r : Rule) (ht : HttpTemplate) : Prop :=
  r ∈ rules ∧ Parse (rule_template r) = Some ht.

Definition registry_ok (rules : list Rule) (b : PathMatcher Method) : Prop :=
  wildcards_ok (root_ptr_ b) ∧ wildcard_ (root_ptr_ b) = false ∧
  (∀ path m res, results (root_ptr_ b) path m = Some res ↔
     ∃ r ht, entry rules r ht ∧ path = TransformHttpTemplate ht ∧
             m = rule_http_method r ∧ res = mkResult (Some (rule_data r ht)) false) ∧
  (∀ v, v ∈ custom_verbs_ b ↔ ∃ r ht, entry rules r ht ∧ verb ht = v ∧ v ≠ "").

(** The rule's template matches the request: same method or any, and the parts
    of the path match its keys. *)
Definition rule_matches (r : Rule) (ht : HttpTemplate) (m : string) (parts : list string) : Prop :=
  (rule_http_method r = m ∨ rule_http_method r = HttpMethod_WILD_CARD) ∧
  matches false (TransformHttpTemplate ht) parts.

Lemma registry_ok_new : registry_ok [] new_builder.
Proof.
  split_and!; [apply wildcards_ok_new|done| |]; simpl.
  - intros path m res. rewrite results_new. split; [done|].
    intros (r&ht&[Hin _]&_). by apply not_elem_of_nil in Hin.
  - intros v. split; [set_solver|]. intros (r&ht&[Hin _]&_). by apply not_elem_of_nil in Hin.
Qed.

Lemma entry_snoc rules r0 r ht :
  entry (rules ++ [r0]) r ht ↔
    entry rules r ht ∨ (r = r0 ∧ Parse (rule_template r0) = Some ht).
Proof. unfold entry. rewrite elem_of_app, list_elem_of_singleton. naive_solver. Qed.

Lemma Register_ok rules r b b' :
  registry_ok rules b →
  Register (rule_http_method r) (rule_template r) (rule_body r) (rule_method r) b = (true, b') →
  registry_ok (rules ++ [r]) b'.
Proof.
  intros (Hw&Hroot&Hres&Hverbs) HR. unfold Register in HR.
  destruct (Parse (rule_template r)) as [ht|] eqn:Hht; [|done].
  fold (rule_data r ht) in HR. unfold InsertPath in HR.
  pose proof (InsertTemplate_wildcards_ok (TransformHttpTemplate ht) (rule_http_method r)
    (Some (rule_data r ht)) true (root_ptr_ b) Hw) as Hw'.
  pose proof (InsertTemplate_wildcard (TransformHttpTemplate ht) (rule_http_method r)
    (Some (rule_data r ht)) true (root_ptr_ b)) as Hroot'.
  pose proof (λ p m, InsertTemplate_results (TransformHttpTemplate ht) (rule_http_method r)
    (Some (rule_data r ht)) true (root_ptr_ b) p m) as Hins.
  destruct (InsertTemplate _ _ _ _ _) as [ok root'] eqn:Heq. simpl in *.
  destruct ok; simplify_eq/=. split_and!; simpl; [done|congruence| |].
  - intros path m res. destruct (Hins path m) as [Hok ->].
    destruct (results (root_ptr_ b) (TransformHttpTemplate ht) (rule_http_method r))
      eqn:Hold; [done|]. simpl. case_decide as Hd.
    + destruct Hd as [-> ->]. split.
      * intros [= <-]. exists r, ht. rewrite entry_snoc. auto.
      * intros (r'&ht'&[He|[-> Hp]]%entry_snoc&Hpath&Hm&->).
        -- exfalso. assert (results (root_ptr_ b) (TransformHttpTemplate ht)
             (rule_http_method r) = Some (mkResult (Some (rule_data r' ht')) false)); [|congruence].
           apply Hres. by exists r', ht'.
        -- by simplify_eq.
    + rewrite Hres. split; intros (r'&ht'&He&?&?&?).
      * exists r', ht'. rewrite entry_snoc. auto.
      * apply entry_snoc in He as [He|[-> Hp]]; [by exists r', ht'|].
        exfalso. apply Hd. by simplify_eq.
  - intros v. destruct (is_empty (verb ht)) eqn:Hv.
    + apply is_empty_true in Hv. rewrite Hverbs. split; intros (r'&ht'&He&?&?).
      * exists r', ht'. rewrite entry_snoc. auto.
      * apply entry_snoc in He as [He|[-> Hp]]; [by exists r', ht'|]. congruence.
    + apply is_empty_false in Hv. rewrite elem_of_union, elem_of_singleton, Hverbs. split.
      * intros [->|(r'&ht'&He&?&?)]; [exists r, ht|exists r', ht']; rewrite entry_snoc; auto.
      * intros (r'&ht'&[He|[-> Hp]]%entry_snoc&?&?); [right; by exists r', ht'|].
        left. congruence.
Qed.

Lemma register_all_registry rules b :
  register_all rules new_builder = Some b → registry_ok rules b.
Proof.
  assert (∀ rules0 rules b0, registry_ok rules0 b0 → register_all rules b0 = Some b →
    registry_ok (rules0 ++ rules) b) as H; [|by apply (H []), registry_ok_new].
  intros rules0 rules1. revert rules0.
  induction rules1 as [|r rules1 IH]; intros rules0 b0 Hok Hall; simpl in Hall.
  - simplify_eq. by rewrite app_nil_r.
  - destruct (Register _ _ _ _ b0) as [[] b1] eqn:HR; [|done].
    rewrite (cons_middle r rules0 rules1), app_assoc. apply (IH _ b1); [|done].
    by eapply Register_ok.
Qed.

Section lookup.
Context (rules : list Rule) (b : PathMatcher Method).
Hypothesis Hok : registry_ok rules b.

Lemma registry_data_ok : data_ok (root_ptr_ b).
Proof.
  destruct Hok as (_&_&Hres&_). intros path m r Hr.
  apply Hres in Hr as (?&?&_&_&_&->). simpl. eauto.
Qed.

(** The trie's matches are the rules' matches. *)
Lemma found_by_rule parts m res :
  found_by false (root_ptr_ b) parts m res ↔
  ∃ r ht, entry rules r ht ∧ rule_matches r ht m parts ∧
    res = mkResult (Some (rule_data r ht)) false ∧
    (rule_http_method r ≠ m → ∀ r' ht', entry rules r' ht' →
       rule_http_method r' = m → TransformHttpTemplate ht' ≠ TransformHttpTemplate ht).
Proof.
  destruct Hok as (_&_&Hres&_). split.
  - intros (path&Hr&Hm). unfold results_for in Hr.
    destruct (results (root_ptr_ b) path m) as [res'|] eqn:E.
    + simplify_eq. apply Hres in E as (r&ht&He&->&->&->).
      exists r, ht. unfold rule_matches. naive_solver.
    + apply Hres in Hr as (r&ht&He&->&Hm'&->). exists r, ht.
      split_and!; [done|by split; [right|]|done|].
      intros _ r' ht' He' <- Ht'. rewrite <-Ht' in E.
      assert (results (root_ptr_ b) (TransformHttpTemplate ht') (rule_http_method r')
              = Some (mkResult (Some (rule_data r' ht')) false)); [|congruence].
      apply Hres. eauto 10.
  - intros (r&ht&He&[Hm Hmatch]&->&Hpref). exists (TransformHttpTemplate ht).
    split; [|done]. unfold results_for.
    destruct (decide (rule_http_method r = m)) as [<-|Hne].
    { rewrite (proj2 (Hres _ _ (mkResult (Some (rule_data r ht)) false))); eauto 10. }
    destruct (results (root_ptr_ b) (TransformHttpTemplate ht) m) as [res'|] eqn:E.
    + apply Hres in E as (r'&ht'&He'&Ht'&Hm'&->). exfalso. by eapply (Hpref Hne r' ht').
    + destruct Hm as [Hm|Hm]; [done|]. apply Hres. eauto 10.
Qed.

Lemma lookup_rule parts m :
  (∃ r ht, entry rules r ht ∧ rule_matches r ht m parts ∧
     LookupInPathMatcherNode (root_ptr_ b) parts m
       = mkResult (Some (rule_data r ht)) false ∧
     (rule_http_method r ≠ m → ∀ r' ht', entry rules r' ht' →
        rule_http_method r' = m → TransformHttpTemplate ht' ≠ TransformHttpTemplate ht)) ∨
  (LookupInPathMatcherNode (root_ptr_ b) parts m = no_result ∧
   ∀ r ht, entry rules r ht → ¬ rule_matches r ht m parts).
Proof.
  pose proof Hok as (Hw&Hroot&Hres&_).
  destruct (LookupPath_outcome parts m (root_ptr_ b) no_result Hw registry_data_ok eq_refl)
    as [Hf|[Heq Hno]]; rewrite Hroot in *.
  - left. apply found_by_rule in Hf as (r&ht&?&?&?&?). eauto 10.
  - right. split; [done|]. intros r ht He Hm.
    (* a rule matches, so some result is found for its keys *)
    destruct (results_for (root_ptr_ b) (TransformHttpTemplate ht) m) as [res|] eqn:E.
    + apply (Hno res). exists (TransformHttpTemplate ht). split; [done|]. apply Hm.
    + destruct Hm as [[<-|Hm] _]; unfold results_for in E; case_match; try done;
        [|rewrite <-Hm in E];
        assert (results (root_ptr_ b) (TransformHttpTemplate ht) (rule_http_method r)
          = Some (mkResult (Some (rule_data r ht)) false)) by (apply Hres; eauto 10);
        congruence.
Qed.

End lookup.
End registry.
Arguments Rule : clear implicits.

(** ** Bindings *)

(** The parts [s, e) of the request. *)
Definition slice (s e : nat) (parts : list string) : list string := take (e - s) (drop s parts).

Lemma slice_cons s e p parts : parts !! s = Some p → s < e →
  slice s e parts = p :: slice (S s) e parts.
Proof.
  intros Hp Hlt. unfold slice. rewrite (drop_S _ _ _ Hp).
  by replace (e - s) with (S (e - S s)) by lia.
Qed.

Lemma slice_nil s parts : slice s s parts = [].
Proof. unfold slice. by rewrite Nat.sub_diag. Qed.

Lemma slice_app_r s e l parts :
  length l ≤ s → slice s e (l ++ parts) = slice (s - length l) (e - length l) parts.
Proof.
  intros Hs. unfold slice. rewrite drop_app_ge by done.
  by replace (e - s) with (e - length l - (s - length l)) by lia.
Qed.

Lemma slice_app_l s e l parts : s ≤ e → e ≤ length l → slice s e (l ++ parts) = slice s e l.
Proof.
  intros Hs He. unfold slice. rewrite drop_app_le by lia. apply take_app_le. rewrite length_drop. lia.
Qed.

(** The joining loop writes the slice with slashes between its parts. *)
Lemma join_parts_slice n s e multi parts v :
  s ≤ e → e ≤ length parts → e - s < n → (Z.of_nat (length parts) < 2 ^ 31)%Z →
  join_parts n (Z.of_nat s) (Z.of_nat e) multi true parts v
  = Some (v +:+ str_join "/" (slice s e parts)).
Proof.
  revert s v. induction n as [|n IH]; intros s v Hse He Hn Hlen; [lia|]. simpl.
  destruct (Z.of_nat s <? Z.of_nat e)%Z eqn:Hlt; bools.
  - destruct (lookup_lt_is_Some_2 parts s) as [p Hp]; [lia|].
    rewrite Nat2Z.id, Hp, (slice_cons _ _ _ _ Hp) by lia.
    rewrite u64_id by lia. replace (Z.of_nat s + 1)%Z with (Z.of_nat (S s)) by lia.
    rewrite IH by lia. f_equal. destruct (Z.of_nat s <? Z.of_nat e - 1)%Z eqn:Hl; bools.
    + destruct (lookup_lt_is_Some_2 parts (S s)) as [q Hq]; [lia|].
      rewrite (slice_cons _ _ _ _ Hq) by lia. rewrite (str_join_cons "/" p).
      unfold join_tail. by autorewrite with esp.
    + assert (S s = e) as -> by lia. rewrite slice_nil. simpl.
      by autorewrite with esp.
  - assert (s = e) as -> by lia. rewrite slice_nil. by autorewrite with esp.
Qed.

(** The absolute end of a variable's range in a request with [n] parts. *)
Definition absolute_end (v : HtVariable) (n : nat) : nat :=
  Z.to_nat (if (0 <=? end_segment v)%Z then end_segment v
            else Z.of_nat n + end_segment v + 1)%Z.

(** The binding the variable stands for. *)
Definition binding_of (parts : list string) (v : HtVariable) : VariableBinding :=
  mkBinding (field_path v)
    (str_join "/" (slice (Z.to_nat (start_segment v)) (absolute_end v (length parts)) parts)).

Lemma matches_length w ks ps :
  matches w ks ps →
  length ks ≤ length ps ∨ (length ks = S (length ps) ∧ last ks = Some kWildCardPathKey).
Proof.
  induction 1 as [| |w k ks ps _ IH|k ks p ps _ _ IH|ks p ps _ IH|ks p ps _ IH]; simpl;
    try (destruct IH as [?|[? Hl]]; [left; lia|]); auto with lia.
  all: right; split; [lia|]; by rewrite last_cons, Hl.
Qed.

Lemma TransformHttpTemplate_segments ht :
  TransformHttpTemplate ht
  = segments ht ++ (if is_empty (verb ht) then [] else [verb ht]).
Proof.
  unfold TransformHttpTemplate, AppendLiteralNode.
  assert (∀ l acc : list string, foldl (λ path part, path ++ [part]) acc l = acc ++ l) as E.
  { induction l as [|x l IH]; intros acc; simpl; [by rewrite app_nil_r|].
    by rewrite IH, <-app_assoc. }
  rewrite E. simpl. by destruct (is_empty _); rewrite ?app_nil_r.
Qed.

(** In a request that matches the template, a variable's range lies within the
    parts. *)
Lemma variable_range ht v parts :
  template_ok ht → v ∈ variables ht → matches false (TransformHttpTemplate ht) parts →
  ∃ s e : nat, start_segment v = Z.of_nat s ∧ absolute_end v (length parts) = e ∧
    s ≤ e ≤ length parts ∧
    ((0 ≤ end_segment v)%Z ∧ end_segment v = Z.of_nat e ∨
     (end_segment v < 0)%Z ∧ (Z.of_nat (length parts) + end_segment v + 1 = Z.of_nat e)%Z).
Proof.
  intros (Hne&_&Hvars) Hv Hm. rewrite Forall_forall in Hvars.
  destruct (Hvars _ Hv) as (s&e&Hs&Hr&_&_&Hend). exists s.
  rewrite TransformHttpTemplate_segments in Hm.
  apply matches_length in Hm. rewrite length_app in Hm. unfold absolute_end.
  destruct (has_wildcard_path v).
  - set (extra := if is_empty (verb ht) then 0 else 1).
    assert ((if is_empty (verb ht) then 0 else 1)%Z = Z.of_nat extra) as Hx
      by (unfold extra; by destruct (is_empty _)).
    assert (length (if is_empty (verb ht) then [] else [verb ht]) = extra) as Hx'
      by (unfold extra; by destruct (is_empty _)).
    exists (length parts - (length (segments ht) - e) - extra).
    rewrite Hx in Hend. rewrite Hx' in Hm.
    destruct (Z.leb_spec 0 (end_segment v)); [lia|].
    split_and!; [done|lia|lia|lia|right; lia].
  - destruct Hend as [Hend Hlast]. exists e. rewrite Hend.
    destruct (0 <=? Z.of_nat e)%Z eqn:E; bools; [|lia].
    split_and!; try done; [lia|lia| |by left; lia].
    destruct Hm as [Hm|[Hm Hw]]; [lia|].
    destruct (is_empty (verb ht)); simpl in Hm; [|lia].
    destruct (decide (e = length (segments ht))) as [->|]; [|lia].
    exfalso. apply Hlast. rewrite app_nil_r, last_lookup in Hw.
    by rewrite <-Nat.sub_1_r in Hw.
Qed.

Lemma extract_binding_ok ht v parts :
  template_ok ht → v ∈ variables ht → matches false (TransformHttpTemplate ht) parts →
  (Z.of_nat (length parts) < 2 ^ 31)%Z →
  extract_binding v parts true = Some (binding_of parts v).
Proof.
  intros Hok Hv Hm Hlen. destruct (variable_range _ _ _ Hok Hv Hm) as (s&e&Hs&He&Hr&Hend).
  unfold extract_binding, binding_of. rewrite He, Hs, Nat2Z.id.
  assert ((if 0 <=? end_segment v then u64 (end_segment v)
           else u64 (u64 (Z.of_nat (length parts) + u64 (end_segment v)) + 1))%Z
          = Z.of_nat e) as ->.
  { destruct Hend as [[? ->]|[Hneg Heq]].
    - destruct (Z.leb_spec 0 (Z.of_nat e)); [|lia]. apply u64_id. lia.
    - destruct (Z.leb_spec 0 (end_segment v)); [lia|].
      unfold u64, wrap_unsigned. rewrite Zplus_mod_idemp_r, Zplus_mod_idemp_l.
      rewrite Z.mod_small; lia. }
  rewrite (u64_id (Z.of_nat s)) by lia.
  rewrite join_parts_slice by lia. by rewrite app_nil_l_s.
Qed.

Lemma ExtractBindings_ok ht parts :
  template_ok ht → matches false (TransformHttpTemplate ht) parts →
  (Z.of_nat (length parts) < 2 ^ 31)%Z →
  ExtractBindingsFromPath (variables ht) parts true = Some (binding_of parts <$> variables ht).
Proof.
  intros Hok Hm Hlen. unfold ExtractBindingsFromPath. apply mapM_Some.
  apply Forall2_fmap_r, Forall_Forall2_diag, Forall_forall. intros v Hv.
  by eapply extract_binding_ok.
Qed.

(** ** The statements *)

Section claims.
Context {Method : Type}.
Implicit Types (rules : list (Rule Method)) (b : PathMatcher Method).

(** The parts a matcher makes of a path. *)
Definition parts_of b (path : string) : list string :=
  ExtractRequestParts path (custom_verbs_ b).

Lemma parts_of_small b path : fits_int path → (Z.of_nat (length (parts_of b path)) < 2 ^ 31)%Z.
Proof.
  unfold fits_int, parts_of. pose proof (ExtractRequestParts_length path (custom_verbs_ b)). lia.
Qed.

(** C2: after registrations that all succeed, a lookup answers the method of a
    registered rule whose template matches the request, and a rule for any
    method only if no rule for the request's method has the same template; it
    answers null only when no rule matches. *)
Theorem Lookup_correct rules b m path :
  register_all rules new_builder = Some b →
  match Lookup m path (Build b) with
  | Some x => ∃ r ht, entry rules r ht ∧ rule_matches r ht m (parts_of b path) ∧
      x = rule_method r ∧
      (rule_http_method r ≠ m → ∀ r' ht', entry rules r' ht' → rule_http_method r' = m →
         TransformHttpTemplate ht' ≠ TransformHttpTemplate ht)
  | None => ∀ r ht, entry rules r ht → ¬ rule_matches r ht m (parts_of b path)
  end.
Proof.
  intros Hall%register_all_registry. unfold Lookup, Build.
  destruct (lookup_rule rules b Hall (parts_of b path) m) as [(r&ht&?&?&Hl&?)|[Hl ?]];
    unfold parts_of in *; rewrite Hl; simpl; eauto 10.
Qed.

(** A rule for the request's method whose template is the very text of the
    request wins over every wildcard rule. *)
Lemma Lookup_exact rules b r ht path :
  register_all rules new_builder = Some b → entry rules r ht →
  TransformHttpTemplate ht = parts_of b path →
  Lookup (rule_http_method r) path (Build b) = Some (rule_method r).
Proof.
  intros Hall%register_all_registry He Hp. unfold Lookup, Build, LookupInPathMatcherNode.
  fold (parts_of b path). rewrite <-Hp.
  rewrite (LookupPath_exact _ _ _ _ (mkResult (Some (rule_data r ht)) false)); [done| |].
  - by eapply registry_data_ok.
  - unfold results_for. destruct Hall as (_&_&Hres&_).
    rewrite (proj2 (Hres _ _ (mkResult (Some (rule_data r ht)) false))); eauto 10.
Qed.

Lemma Lookup_bindings_spec rules b m path bs :
  register_all rules new_builder = Some b → fits_int path →
  Forall (λ r, fits_int (rule_template r)) rules →
  match Lookup m path (Build b) with
  | Some x => ∃ r ht, entry rules r ht ∧ rule_matches r ht m (parts_of b path) ∧
      x = rule_method r ∧
      Lookup_bindings m path bs (Build b)
      = Some (Some x, binding_of (parts_of b path) <$> variables ht)
  | None => Lookup_bindings m path bs (Build b) = Some (None, bs)
  end.
Proof.
  intros Hall%register_all_registry Hpath Htemplates. unfold Lookup, Lookup_bindings, Build.
  destruct (lookup_rule rules b Hall (parts_of b path) m) as [(r&ht&He&Hm&Hl&_)|[Hl _]];
    fold (parts_of b path); rewrite Hl; simpl; [|done].
  exists r, ht. split_and!; try done. destruct He as [Hin Hht], Hm as [_ Hm].
  rewrite Forall_forall in Htemplates.
  rewrite (ExtractBindings_ok ht); [done| |done|by apply parts_of_small].
  eapply Parse_template_ok; [by apply Htemplates|done].
Qed.

(** C3: a lookup with bindings reads no part out of bounds, answers the same
    method as the plain lookup, and binds every variable of the matched template
    to the parts in its range joined with slashes. *)
Theorem Lookup_bindings_correct rules b m path bs :
  register_all rules new_builder = Some b → fits_int path →
  Forall (λ r, fits_int (rule_template r)) rules →
  match Lookup m path (Build b) with
  | Some x => ∃ r ht, entry rules r ht ∧ rule_matches r ht m (parts_of b path) ∧
      x = rule_method r ∧
      Lookup_bindings m path bs (Build b)
      = Some (Some x, binding_of (parts_of b path) <$> variables ht)
  | None => Lookup_bindings m path bs (Build b) = Some (None, bs)
  end.
Proof. apply Lookup_bindings_spec. Qed.

Lemma Register_existing rules b r ht tmpl ht' body x :
  registry_ok rules b → entry rules r ht → Parse tmpl = Some ht' →
  TransformHttpTemplate ht' = TransformHttpTemplate ht →
  ∃ b', Register (rule_http_method r) tmpl body x b = (false, b') ∧
        custom_verbs_ b' = custom_verbs_ b ∧ methods_ b' = methods_ b ∧
        same_data (root_ptr_ b) (root_ptr_ b').
Proof.
  intros (Hw&_&Hres&_) He Hp Ht. unfold Register, InsertPath. rewrite Hp, Ht.
  assert (results (root_ptr_ b) (TransformHttpTemplate ht) (rule_http_method r)
          = Some (mkResult (Some (rule_data r ht)) false)) as Hold by (apply Hres; eauto 10).
  set (d := Some _).
  pose proof (InsertTemplate_same _ _ d _ _ Hw Hold) as Hs.
  pose proof (InsertTemplate_results (TransformHttpTemplate ht) (rule_http_method r) d true
    (root_ptr_ b) [] "") as Hi.
  destruct (InsertTemplate _ _ _ _ _) as [ok root']. destruct Hi as [-> _]. rewrite Hold. simpl.
  eexists. split; [done|]. by split_and!.
Qed.

(** C33: registering a method again under the same template and HTTP method fails
    and keeps the first one: every lookup answers as before.  The comment of
    Register says that the last registered method replaces the existing one. *)
Theorem Register_keeps_first rules b r ht tmpl ht' body x :
  register_all rules new_builder = Some b → entry rules r ht → Parse tmpl = Some ht' →
  TransformHttpTemplate ht' = TransformHttpTemplate ht →
  ∃ b', Register (rule_http_method r) tmpl body x b = (false, b') ∧
        ∀ m path, Lookup m path (Build b') = Lookup m path (Build b).
Proof.
  intros Hall%register_all_registry He Hp Ht.
  destruct (Register_existing _ _ _ _ _ _ body x Hall He Hp Ht) as (b'&Hr&Hv&_&Hs).
  exists b'. split; [done|]. intros m path. unfold Lookup, Build, LookupInPathMatcherNode.
  rewrite Hv. f_equal. symmetry. by apply LookupPath_same.
Qed.

(** What "**" means: a matcher with the one rule [pre/**/post] answers
    exactly the requests whose parts are parts that match [pre], then any parts
    (at least one, unless [post] is empty), then [post]. *)
Lemma Lookup_wildcard (r : Rule Method) b ht pre post path :
  register_all [r] new_builder = Some b → Parse (rule_template r) = Some ht →
  TransformHttpTemplate ht = pre ++ kWildCardPathKey :: post →
  kWildCardPathKey ∉ pre → Forall constant_key post →
  Lookup (rule_http_method r) path (Build b) = Some (rule_method r) ↔
  ∃ front mid, parts_of b path = front ++ mid ++ post ∧ Forall2 seg_match pre front ∧
               (mid = [] → post = []).
Proof.
  intros Hall%register_all_registry Hp Ht Hpre Hpost.
  rewrite <-(matches_wild pre post) by done. unfold Lookup, Build. fold (parts_of b path).
  destruct (lookup_rule [r] b Hall (parts_of b path) (rule_http_method r))
    as [(r'&ht'&[Hin Hp']&[_ Hm]&Hl&_)|[Hl Hno]]; rewrite Hl; simpl.
  - apply list_elem_of_singleton in Hin as ->. simplify_eq. rewrite Ht in Hm.
    split; [done|]. intros _. done.
  - split; [done|]. intros Hm. exfalso. apply (Hno r ht).
    + split; [apply list_elem_of_singleton; done|done].
    + split; [by left|]. by rewrite Ht.
Qed.

(** C40: a variable that stands after "**" and has a fixed end.  A request matches
    [pre/**/post] as the parts [front], then the parts [mid] that "**" stands for,
    then [post], in which the segments of the variable stand for themselves.  But the
    range of the variable is counted in segments of the template, where "**" is one
    segment, and read in the parts of the request: the variable is bound to as many
    parts of [mid ++ post] from one place after the start of [mid].  That is its own
    text when "**" matches one part; when it matches more, the value starts that many
    parts too early, and as long as the range ends within [mid] it is made of parts
    that "**" has matched. *)
Theorem binding_after_wildcard (r : Rule Method) b ht pre post path front mid v s e :
  register_all [r] new_builder = Some b → Parse (rule_template r) = Some ht →
  fits_int path → fits_int (rule_template r) →
  TransformHttpTemplate ht = pre ++ kWildCardPathKey :: post →
  kWildCardPathKey ∉ pre → Forall constant_key post →
  parts_of b path = front ++ mid ++ post → Forall2 seg_match pre front → mid ≠ [] →
  v ∈ variables ht → start_segment v = Z.of_nat s → end_segment v = Z.of_nat e →
  length pre < s ≤ e →
  let own_text := str_join "/" (slice s e (TransformHttpTemplate ht)) in
  ∃ bs value,
    Lookup_bindings (rule_http_method r) path [] (Build b) = Some (Some (rule_method r), bs) ∧
    mkBinding (field_path v) value ∈ bs ∧
    own_text = str_join "/" (slice (s - S (length pre)) (e - S (length pre)) post) ∧
    value = str_join "/" (slice (s - length pre) (e - length pre) (mid ++ post)) ∧
    (length mid = 1 → value = own_text) ∧
    (e - length pre ≤ length mid → value = str_join "/" (slice (s - length pre) (e - length pre) mid)).
Proof.
  intros Hb Hp Hf1 Hf2 Ht Hpre Hpost Hparts Hfront Hmid Hv Hs He Hlt. cbv zeta.
  pose proof (proj2 (Lookup_wildcard r b ht pre post path Hb Hp Ht Hpre Hpost)) as Hl.
  pose proof (Lookup_bindings_spec [r] b (rule_http_method r) path [] Hb Hf1 ltac:(by constructor)) as Hbs.
  rewrite Hl in Hbs by (exists front, mid; split_and!; [done|done|by intros ->]).
  destruct Hbs as (r'&ht'&[Hin Hp']&_&_&Hbs). apply list_elem_of_singleton in Hin as ->.
  rewrite Hp in Hp'. injection Hp' as <-. pose proof (Forall2_length _ _ _ Hfront) as Hlen.
  assert (str_join "/" (slice s e (TransformHttpTemplate ht))
    = str_join "/" (slice (s - S (length pre)) (e - S (length pre)) post)) as Hown.
  { rewrite Ht, cons_middle, app_assoc, slice_app_r; rewrite length_app; simpl; [|lia].
    by rewrite Nat.add_1_r. }
  eexists _, (str_join "/" (slice (s - length pre) (e - length pre) (mid ++ post))).
  split; [exact Hbs|]. split_and!; [|exact Hown|done| |].
  - apply list_elem_of_fmap. exists v. split; [|done]. unfold binding_of, absolute_end.
    rewrite Hs, He, Hparts, !Nat2Z.id. destruct (Z.leb_spec 0 (Z.of_nat e)); [|lia].
    rewrite Nat2Z.id, (slice_app_r s e front) by lia. by rewrite <-Hlen.
  - intros Hm. rewrite Hown, slice_app_r by lia. rewrite Hm.
    by replace (s - length pre - 1) with (s - S (length pre)) by lia;
      replace (e - length pre - 1) with (e - S (length pre)) by lia.
  - intros Hm. by rewrite slice_app_l by lia.
Qed.

End claims.

(** ** A configuration to evaluate *)

Definition sample_rules : list (Rule string) :=
  [mkRule "GET" "/shelves/{shelf.id}" "" "GetShelf";
   mkRule "GET" "/shelves/new" "" "NewShelf";
   mkRule "*" "/files/{name=**}:read" "" "ReadFile";
   mkRule "GET" "/v1/**/end" "" "Deep"].

Definition sample_matcher : PathMatcher string :=
  Eval vm_compute in default new_builder (register_all sample_rules new_builder).

Lemma sample_ok : register_all sample_rules new_builder = Some sample_matcher.
Proof. vm_compute. reflexivity. Qed.

Definition template_of (s : string) : HttpTemplate :=
  default (mkHttpTemplate [] "" []) (Parse s).

Lemma Lookup_correct_witness :
  register_all sample_rules new_builder = Some sample_matcher ∧
  Lookup "POST" "/files/a/b:read" (Build sample_matcher) = Some "ReadFile" ∧
  ∃ r ht, entry sample_rules r ht ∧
    rule_matches r ht "POST" (parts_of sample_matcher "/files/a/b:read") ∧
    "ReadFile" = rule_method r.
Proof.
  split; [apply sample_ok|]. assert (Lookup "POST" "/files/a/b:read" (Build sample_matcher)
    = Some "ReadFile") as E by (vm_compute; reflexivity).
  split; [exact E|].
  pose proof (Lookup_correct sample_rules sample_matcher "POST" "/files/a/b:read" sample_ok) as H.
  rewrite E in H. destruct H as (r&ht&H1&H2&H3&_). exists r, ht. auto.
Defined.

Lemma Lookup_exact_witness :
  Lookup "GET" "/shelves/new" (Build sample_matcher) = Some "NewShelf".
Proof.
  apply (Lookup_exact sample_rules sample_matcher (mkRule "GET" "/shelves/new" "" "NewShelf")
           (template_of "/shelves/new")).
  - apply sample_ok.
  - split; [unfold sample_rules; set_solver|vm_compute; reflexivity].
  - vm_compute. reflexivity.
Defined.

Lemma Lookup_bindings_correct_witness :
  Lookup_bindings "PUT" "/files/a/b:read" [] (Build sample_matcher)
  = Some (Some "ReadFile", [mkBinding ["name"] "a/b"]) ∧
  match Lookup "PUT" "/files/a/b:read" (Build sample_matcher) with
  | Some x => ∃ r ht, entry sample_rules r ht ∧
      rule_matches r ht "PUT" (parts_of sample_matcher "/files/a/b:read") ∧
      x = rule_method r ∧
      Lookup_bindings "PUT" "/files/a/b:read" [] (Build sample_matcher)
      = Some (Some x, binding_of (parts_of sample_matcher "/files/a/b:read") <$> variables ht)
  | None => Lookup_bindings "PUT" "/files/a/b:read" [] (Build sample_matcher) = Some (None, [])
  end.
Proof.
  split; [vm_compute; reflexivity|].
  apply (Lookup_bindings_correct sample_rules sample_matcher "PUT" "/files/a/b:read" []).
  - apply sample_ok.
  - vm_compute. reflexivity.
  - repeat (constructor; [vm_compute; reflexivity|]). constructor.
Defined.

Lemma Register_keeps_first_witness :
  ∃ b', Register "GET" "/shelves/{any=*}" "" "Other" sample_matcher = (false, b') ∧
        ∀ m path, Lookup m path (Build b') = Lookup m path (Build sample_matcher).
Proof.
  apply (Register_keeps_first sample_rules sample_matcher
           (mkRule "GET" "/shelves/{shelf.id}" "" "GetShelf") (template_of "/shelves/{shelf.id}")
           "/shelves/{any=*}" (template_of "/shelves/{any=*}") "" "Other").
  - apply sample_ok.
  - split; [unfold sample_rules; set_solver|vm_compute; reflexivity].
  - vm_compute. reflexivity.
  - vm_compute. reflexivity.
Defined.

Definition deep_rule : Rule string := mkRule "GET" "/v1/**/end" "" "Deep".
Definition deep_matcher : PathMatcher string :=
  Eval vm_compute in default new_builder (register_all [deep_rule] new_builder).

Lemma Lookup_wildcard_witness :
  Lookup "GET" "/v1/a/b/end" (Build deep_matcher) = Some "Deep" ↔
  ∃ front mid, parts_of deep_matcher "/v1/a/b/end" = front ++ mid ++ ["end"] ∧
    Forall2 seg_match ["v1"] front ∧ (mid = [] → ["end"] = []).
Proof.
  apply (Lookup_wildcard deep_rule deep_matcher (template_of "/v1/**/end") ["v1"] ["end"]).
  - vm_compute. reflexivity.
  - vm_compute. reflexivity.
  - vm_compute. reflexivity.
  - unfold kWildCardPathKey. set_solver.
  - constructor; [|constructor]. unfold constant_key. set_solver.
Defined.

Definition after_rule : Rule string := mkRule "GET" "/**/{x=foo}" "" "M".
Definition after_matcher : PathMatcher string :=
  Eval vm_compute in default new_builder (register_all [after_rule] new_builder).

(** [x], whose pattern is the constant "foo", is bound to "q". *)
Lemma binding_after_wildcard_witness :
  ∃ bs, Lookup_bindings "GET" "/p/q/r/foo" [] (Build after_matcher) = Some (Some "M", bs) ∧
    mkBinding ["x"] "q" ∈ bs.
Proof.
  destruct (binding_after_wildcard after_rule after_matcher (template_of "/**/{x=foo}") [] ["foo"]
    "/p/q/r/foo" [] ["p"; "q"; "r"] (mkHtVariable 1 2 ["x"] false) 1 2)
    as (bs&value&Hl&Hin&_&->&_).
  - vm_compute. reflexivity.
  - vm_compute. reflexivity.
  - vm_compute. reflexivity.
  - vm_compute. reflexivity.
  - vm_compute. reflexivity.
  - apply not_elem_of_nil.
  - constructor; [|constructor]. unfold constant_key. set_solver.
  - vm_compute. reflexivity.
  - constructor.
  - discriminate.
  - assert (variables (template_of "/**/{x=foo}") = [mkHtVariable 1 2 ["x"] false]) as ->
      by (vm_compute; reflexivity). left.
  - reflexivity.
  - reflexivity.
  - simpl. lia.
  - exists bs. split; [exact Hl|exact Hin].
Defined.
