(* ===== verification/RequestInfo.v ===== *)
(** * Service control data: src/api_proxy/service_control/request_info.h

    What the filter knows of a request when it calls service control, the
    protobuf messages the request builder fills (as records of the fields it
    reads or writes), and IEEE doubles. *)
From Corelib Require Export SpecFloat.
From stdpp Require Export pretty sorting.
From S2P Require Import Prelude.

(** ** Doubles: binary64 *)

Definition double : Type := spec_float.
Definition double_of_int (z : Z) : double := binary_normalize 53 1024 z 0 false.
Definition dmul : double → double → double := SFmul 53 1024.
Definition ddiv : double → double → double := SFdiv 53 1024.
Definition dadd : double → double → double := SFadd 53 1024.
#[global] Arguments double_of_int : simpl never.
#[global] Arguments dmul : simpl never.
#[global] Arguments ddiv : simpl never.
#[global] Arguments dadd : simpl never.

(** ** request_info.h *)

Module protocol.

(** enum Protocol. *)
Inductive Protocol := UNKNOWN | HTTP | HTTPS | GRPC.

#[global] Instance Protocol_eq_dec : EqDecision Protocol.
Proof. solve_decision. Defined.

Definition ToString (p : Protocol) : string :=
  match p with
  | HTTP => "http"
  | HTTPS => "https"
  | GRPC => "grpc"
  | UNKNOWN => "unknown"
  end.

End protocol.

(** struct LatencyInfo: milliseconds, -1 when not available. *)
Record LatencyInfo := mkLatencyInfo {
  request_time_ms : Z;
  backend_time_ms : Z;
  overhead_time_ms : Z
}.

Definition new_LatencyInfo : LatencyInfo := mkLatencyInfo (-1) (-1) (-1).

(** struct OperationInfo; [current_time] is in nanoseconds since the epoch. *)
Record OperationInfo := mkOperationInfo {
  operation_id : string;
  operation_name : string;
  producer_project_id : string;
  api_key : string;
  referer : string;
  current_time : Z;
  client_ip : string;
  client_host : string
}.

Definition new_OperationInfo : OperationInfo := mkOperationInfo "" "" "" "" "" 0 "" "".

(** struct CheckRequestInfo : OperationInfo. *)
Record CheckRequestInfo := mkCheckRequestInfo {
  cri_operation :> OperationInfo;
  android_package_name : string;
  android_cert_fingerprint : string;
  ios_bundle_id : string
}.

(** struct CheckResponseInfo. *)
Record CheckResponseInfo := mkCheckResponseInfo {
  is_api_key_valid : bool;
  service_is_activated : bool;
  consumer_project_id : string
}.

Definition new_CheckResponseInfo : CheckResponseInfo := mkCheckResponseInfo true true "".

(** struct QuotaRequestInfo : OperationInfo; a null cost vector is [None]. *)
Record QuotaRequestInfo := mkQuotaRequestInfo {
  qri_operation :> OperationInfo;
  method_name : string;
  metric_cost_vector : option (list (string * Z))
}.

(** struct ReportRequestInfo : OperationInfo. *)
Record ReportRequestInfo := mkReportRequestInfo {
  rri_operation :> OperationInfo;
  response_code : Z;
  status : Status;
  url : string;
  location : string;
  api_name : string;
  api_version : string;
  api_method : string;
  request_size : Z;
  response_size : Z;
  latency : LatencyInfo;
  log_message : string;
  auth_issuer : string;
  auth_audience : string;
  frontend_protocol : protocol.Protocol;
  backend_protocol : protocol.Protocol;
  http_method : string;
  compute_platform : string;
  check_response_info : CheckResponseInfo;
  request_bytes : Z;
  request_headers : string;
  response_bytes : Z;
  response_headers : string;
  jwt_payloads : string;
  streaming_request_message_counts : Z;
  streaming_response_message_counts : Z;
  streaming_durations : Z;
  is_first_report : bool;
  is_final_report : bool
}.

(** ReportRequestInfo(). *)
Definition new_ReportRequestInfo : ReportRequestInfo :=
  mkReportRequestInfo new_OperationInfo 200 Status_OK "" "" "" "" "" (-1) (-1) new_LatencyInfo
    "" "" "" protocol.UNKNOWN protocol.UNKNOWN "" "UNKNOWN(ESPv2)" new_CheckResponseInfo
    0 "" 0 "" "" 0 0 0 true true.

(** ** Protobuf messages *)

(** google.protobuf.Timestamp. *)
Record Timestamp := mkTimestamp { seconds : Z; nanos : Z }.

(** google.protobuf.Value; nothing reads inside a struct or a list. *)
Inductive Value :=
  | kind_not_set
  | null_value
  | number_value (d : double)
  | string_value (s : string)
  | bool_value (b : bool)
  | struct_value
  | list_value.

Inductive LogSeverity := INFO | ERROR.

Record LogEntry := mkLogEntry {
  log_name : string;
  timestamp : Timestamp;
  severity : LogSeverity;
  struct_payload : gmap string Value
}.

Section messages.
Context {Distribution : Type}.

(** The oneof value of a MetricValue: not set, int64_value, distribution_value. *)
Inductive MetricValue :=
  | no_value
  | int64_value (v : Z)
  | distribution_value (d : Distribution).

Record MetricValueSet := mkMetricValueSet {
  metric_name : string;
  metric_values : list MetricValue
}.

(** google.api.servicecontrol.v1.Operation. *)
Record Operation := mkOperation {
  op_operation_id : string;
  op_operation_name : string;
  op_consumer_id : string;
  op_start_time : option Timestamp;
  op_end_time : option Timestamp;
  op_labels : gmap string string;
  op_metric_value_sets : list MetricValueSet;
  op_log_entries : list LogEntry
}.

Definition new_Operation : Operation := mkOperation "" "" "" None None ∅ [] [].

Definition set_operation_id (x : string) (op : Operation) : Operation :=
  mkOperation x (op_operation_name op) (op_consumer_id op) (op_start_time op) (op_end_time op)
    (op_labels op) (op_metric_value_sets op) (op_log_entries op).
Definition set_operation_name (x : string) (op : Operation) : Operation :=
  mkOperation (op_operation_id op) x (op_consumer_id op) (op_start_time op) (op_end_time op)
    (op_labels op) (op_metric_value_sets op) (op_log_entries op).
Definition set_consumer_id (x : string) (op : Operation) : Operation :=
  mkOperation (op_operation_id op) (op_operation_name op) x (op_start_time op) (op_end_time op)
    (op_labels op) (op_metric_value_sets op) (op_log_entries op).
Definition set_times (x : Timestamp) (op : Operation) : Operation :=
  mkOperation (op_operation_id op) (op_operation_name op) (op_consumer_id op) (Some x) (Some x)
    (op_labels op) (op_metric_value_sets op) (op_log_entries op).
Definition set_labels (x : gmap string string) (op : Operation) : Operation :=
  mkOperation (op_operation_id op) (op_operation_name op) (op_consumer_id op)
    (op_start_time op) (op_end_time op) x (op_metric_value_sets op) (op_log_entries op).
Definition set_metric_value_sets (x : list MetricValueSet) (op : Operation) : Operation :=
  mkOperation (op_operation_id op) (op_operation_name op) (op_consumer_id op)
    (op_start_time op) (op_end_time op) (op_labels op) x (op_log_entries op).
Definition set_log_entries (x : list LogEntry) (op : Operation) : Operation :=
  mkOperation (op_operation_id op) (op_operation_name op) (op_consumer_id op)
    (op_start_time op) (op_end_time op) (op_labels op) (op_metric_value_sets op) x.

(** CheckRequest and ReportRequest. *)
Record CheckRequest := mkCheckRequest {
  cr_service_name : string;
  cr_service_config_id : string;
  cr_operation : Operation
}.

Record ReportRequest := mkReportRequest {
  rr_service_name : string;
  rr_service_config_id : string;
  rr_operations : list Operation
}.

(** AllocateQuotaRequest and its QuotaOperation. *)
Inductive QuotaMode := QuotaMode_UNSPECIFIED | BEST_EFFORT.

Record QuotaOperation := mkQuotaOperation {
  qo_operation_id : string;
  qo_method_name : string;
  qo_consumer_id : string;
  qo_quota_mode : QuotaMode;
  qo_labels : gmap string string;
  qo_quota_metrics : list MetricValueSet
}.

Record AllocateQuotaRequest := mkAllocateQuotaRequest {
  aqr_service_name : string;
  aqr_service_config_id : string;
  aqr_operation : QuotaOperation
}.

End messages.

Arguments MetricValue : clear implicits.
Arguments MetricValueSet : clear implicits.
Arguments Operation : clear implicits.
Arguments CheckRequest : clear implicits.
Arguments ReportRequest : clear implicits.
Arguments QuotaOperation : clear implicits.
Arguments AllocateQuotaRequest : clear implicits.

(** google.api.MetricDescriptor and LabelDescriptor. *)
Inductive MetricKind := METRIC_KIND_UNSPECIFIED | GAUGE | DELTA | CUMULATIVE.
Inductive MetricValueType :=
  VALUE_TYPE_UNSPECIFIED | BOOL | INT64 | DOUBLE | STRING | DISTRIBUTION | MONEY.
Inductive LabelValueType := LABEL_STRING | LABEL_BOOL | LABEL_INT64.

#[export] Instance MetricKind_eq_dec : EqDecision MetricKind.
Proof. solve_decision. Defined.
#[export] Instance MetricValueType_eq_dec : EqDecision MetricValueType.
Proof. solve_decision. Defined.
#[export] Instance LabelValueType_eq_dec : EqDecision LabelValueType.
Proof. solve_decision. Defined.

Record LabelDescriptor := mkLabelDescriptor { label_key : string; label_value_type : LabelValueType }.

Record MetricDescriptor := mkMetricDescriptor {
  md_name : string;
  md_metric_kind : MetricKind;
  md_value_type : MetricValueType;
  md_labels : list LabelDescriptor
}.

(** ** std::set<std::string> and decimal output *)

(** The elements of a set in its iteration order. *)
Definition set_elements (s : gset string) : list string :=
  merge_sort (λ a b, Is_true (String.leb a b)) (elements s).

(** snprintf into a buffer of 20 characters with the format of an int. *)
Definition snprintf_d (z : Z) : string := stake 19 (pretty z).
