(* ===== verification/SupportedMetrics.v ===== *)
(** * The supported metrics: the metric half of
    src/api_proxy/service_control/request_builder.cc

    The helpers that append metric values to an operation, the functions that
    set each metric from the request info, and the table of metrics.  The
    distribution library is a parameter: the class [DistributionHelper]. *)
From S2P Require Import Prelude RequestInfo.

(** google::service_control_client::DistributionHelper: the distribution each
    call leaves, with its status. *)
Class DistributionHelper := {
  Distribution : Type;
  InitExponential : Z → double → double → Distribution * Status;
  AddSample : double → Distribution → Distribution * Status
}.

(** enum Mark and enum Tag. *)
Inductive Mark := PRODUCER | CONSUMER | PRODUCER_BY_CONSUMER.
Inductive Tag := START | INTERMEDIATE | FINAL.

#[export] Instance Mark_eq_dec : EqDecision Mark.
Proof. solve_decision. Defined.
#[export] Instance Tag_eq_dec : EqDecision Tag.
Proof. solve_decision. Defined.

Section metrics.
Context `{DH : DistributionHelper}.

#[local] Abbreviation Op := (Operation Distribution).

(** struct SupportedMetric.  [set] reads only the name of the metric it is
    called with. *)
Record SupportedMetric := mkMetric {
  metric_entry_name : string;
  metric_kind : MetricKind;
  metric_value_type : MetricValueType;
  tag : Tag;
  mark : Mark;
  metric_set : option (string → ReportRequestInfo → Op → Op * Status)
}.

(** ** Helpers *)

(** AddMetricValue adds a set with one value; [v] is what the caller then
    writes through the pointer it returns. *)
Definition AddMetricValue (name : string) (v : MetricValue Distribution) (op : Op) : Op :=
  set_metric_value_sets (op_metric_value_sets op ++ [mkMetricValueSet name [v]]) op.

Definition AddInt64Metric (name : string) (value : Z) (op : Op) : Op :=
  AddMetricValue name (int64_value value) op.

(** struct DistributionHelperOptions. *)
Record DistributionHelperOptions := mkDistributionHelperOptions {
  buckets : Z;
  growth : double;
  scale : double
}.

Definition time_distribution : DistributionHelperOptions :=
  mkDistributionHelperOptions 29 (double_of_int 2) (ddiv (double_of_int 1) (double_of_int 1000000)).
Definition size_distribution : DistributionHelperOptions :=
  mkDistributionHelperOptions 8 (double_of_int 10) (double_of_int 1).
Definition kMsToSecs : double := ddiv (double_of_int 1) (double_of_int 1000).

Definition AddDistributionMetric (options : DistributionHelperOptions) (name : string)
    (value : double) (op : Op) : Op * Status :=
  let '(distribution, st) := InitExponential (buckets options) (growth options) (scale options) in
  if negb (status_ok st) then (AddMetricValue name no_value op, st) else
  let '(distribution, st) := AddSample value distribution in
  if negb (status_ok st) then (AddMetricValue name no_value op, st) else
  (AddMetricValue name (distribution_value distribution) op, Status_OK).

(** ** Setters *)

Definition set_int64_metric_to_constant_1 (name : string) (info : ReportRequestInfo) (op : Op)
  : Op * Status := (AddInt64Metric name 1 op, Status_OK).

Definition set_int64_metric_to_constant_1_if_http_error (name : string)
    (info : ReportRequestInfo) (op : Op) : Op * Status :=
  (if (400 <=? response_code info)%Z then AddInt64Metric name 1 op else op, Status_OK).

Definition set_distribution_metric_to_request_size (name : string)
    (info : ReportRequestInfo) (op : Op) : Op * Status :=
  if (0 <=? request_size info)%Z
  then AddDistributionMetric size_distribution name (double_of_int (request_size info)) op
  else (op, Status_OK).

Definition set_distribution_metric_to_response_size (name : string)
    (info : ReportRequestInfo) (op : Op) : Op * Status :=
  if (0 <=? response_size info)%Z
  then AddDistributionMetric size_distribution name (double_of_int (response_size info)) op
  else (op, Status_OK).

Definition set_distribution_metric_to_request_time (name : string)
    (info : ReportRequestInfo) (op : Op) : Op * Status :=
  if (0 <=? request_time_ms (latency info))%Z then
    let request_time_secs := dmul (double_of_int (request_time_ms (latency info))) kMsToSecs in
    AddDistributionMetric time_distribution name request_time_secs op
  else (op, Status_OK).

Definition set_distribution_metric_to_backend_time (name : string)
    (info : ReportRequestInfo) (op : Op) : Op * Status :=
  if (0 <=? backend_time_ms (latency info))%Z then
    let backend_time_secs := dmul (double_of_int (backend_time_ms (latency info))) kMsToSecs in
    AddDistributionMetric time_distribution name backend_time_secs op
  else (op, Status_OK).

Definition set_distribution_metric_to_overhead_time (name : string)
    (info : ReportRequestInfo) (op : Op) : Op * Status :=
  if (0 <=? overhead_time_ms (latency info))%Z then
    let overhead_time_secs := dmul (double_of_int (overhead_time_ms (latency info))) kMsToSecs in
    AddDistributionMetric time_distribution name overhead_time_secs op
  else (op, Status_OK).

Definition set_int64_metric_to_request_bytes (name : string) (info : ReportRequestInfo) (op : Op)
  : Op * Status :=
  (if (0 <? request_bytes info)%Z then AddInt64Metric name (request_bytes info) op else op,
   Status_OK).

Definition set_int64_metric_to_response_bytes (name : string) (info : ReportRequestInfo) (op : Op)
  : Op * Status :=
  (if (0 <? response_bytes info)%Z then AddInt64Metric name (response_bytes info) op else op,
   Status_OK).

Definition set_distribution_metric_to_streaming_request_message_counts (name : string)
    (info : ReportRequestInfo) (op : Op) : Op * Status :=
  (if (0 <? streaming_request_message_counts info)%Z
   then (AddDistributionMetric size_distribution name
           (double_of_int (streaming_request_message_counts info)) op).1
   else op, Status_OK).

Definition set_distribution_metric_to_streaming_response_message_counts (name : string)
    (info : ReportRequestInfo) (op : Op) : Op * Status :=
  (if (0 <? streaming_response_message_counts info)%Z
   then (AddDistributionMetric size_distribution name
           (double_of_int (streaming_response_message_counts info)) op).1
   else op, Status_OK).

Definition set_distribution_metric_to_streaming_durations (name : string)
    (info : ReportRequestInfo) (op : Op) : Op * Status :=
  (if (0 <? streaming_durations info)%Z
   then (AddDistributionMetric time_distribution name
           (double_of_int (streaming_durations info)) op).1
   else op, Status_OK).

(** ** The table *)

(** supported_metrics: request counts, request and response sizes. *)
Definition request_metrics : list SupportedMetric :=
  [mkMetric "serviceruntime.googleapis.com/api/consumer/request_count" DELTA INT64 START CONSUMER
     (Some set_int64_metric_to_constant_1);
   mkMetric "serviceruntime.googleapis.com/api/producer/request_count" DELTA INT64 START PRODUCER
     (Some set_int64_metric_to_constant_1);
   mkMetric "serviceruntime.googleapis.com/api/producer/by_consumer/request_count" DELTA INT64 FINAL PRODUCER_BY_CONSUMER
     (Some set_int64_metric_to_constant_1);
   mkMetric "serviceruntime.googleapis.com/api/consumer/request_sizes" DELTA DISTRIBUTION FINAL CONSUMER
     (Some set_distribution_metric_to_request_size);
   mkMetric "serviceruntime.googleapis.com/api/producer/request_sizes" DELTA DISTRIBUTION FINAL PRODUCER
     (Some set_distribution_metric_to_request_size);
   mkMetric "serviceruntime.googleapis.com/api/producer/by_consumer/request_sizes" DELTA DISTRIBUTION FINAL PRODUCER_BY_CONSUMER
     (Some set_distribution_metric_to_request_size);
   mkMetric "serviceruntime.googleapis.com/api/consumer/response_sizes" DELTA DISTRIBUTION FINAL CONSUMER
     (Some set_distribution_metric_to_response_size);
   mkMetric "serviceruntime.googleapis.com/api/producer/response_sizes" DELTA DISTRIBUTION FINAL PRODUCER
     (Some set_distribution_metric_to_response_size);
   mkMetric "serviceruntime.googleapis.com/api/producer/by_consumer/response_sizes" DELTA DISTRIBUTION FINAL PRODUCER_BY_CONSUMER
     (Some set_distribution_metric_to_response_size)].

(** supported_metrics: bytes and error counts. *)
Definition bytes_error_metrics : list SupportedMetric :=
  [mkMetric "serviceruntime.googleapis.com/api/consumer/request_bytes" DELTA INT64 INTERMEDIATE CONSUMER
     (Some set_int64_metric_to_request_bytes);
   mkMetric "serviceruntime.googleapis.com/api/consumer/response_bytes" DELTA INT64 INTERMEDIATE CONSUMER
     (Some set_int64_metric_to_response_bytes);
   mkMetric "serviceruntime.googleapis.com/api/producer/request_bytes" DELTA INT64 INTERMEDIATE PRODUCER
     (Some set_int64_metric_to_request_bytes);
   mkMetric "serviceruntime.googleapis.com/api/producer/response_bytes" DELTA INT64 INTERMEDIATE PRODUCER
     (Some set_int64_metric_to_response_bytes);
   mkMetric "serviceruntime.googleapis.com/api/consumer/error_count" DELTA INT64 FINAL CONSUMER
     (Some set_int64_metric_to_constant_1_if_http_error);
   mkMetric "serviceruntime.googleapis.com/api/producer/error_count" DELTA INT64 FINAL PRODUCER
     (Some set_int64_metric_to_constant_1_if_http_error);
   mkMetric "serviceruntime.googleapis.com/api/producer/by_consumer/error_count" DELTA INT64 FINAL PRODUCER_BY_CONSUMER
     (Some set_int64_metric_to_constant_1_if_http_error)].

(** supported_metrics: latencies. *)
Definition latency_metrics : list SupportedMetric :=
  [mkMetric "serviceruntime.googleapis.com/api/consumer/total_latencies" DELTA DISTRIBUTION FINAL CONSUMER
     (Some set_distribution_metric_to_request_time);
   mkMetric "serviceruntime.googleapis.com/api/producer/total_latencies" DELTA DISTRIBUTION FINAL PRODUCER
     (Some set_distribution_metric_to_request_time);
   mkMetric "serviceruntime.googleapis.com/api/producer/by_consumer/total_latencies" DELTA DISTRIBUTION FINAL PRODUCER_BY_CONSUMER
     (Some set_distribution_metric_to_request_time);
   mkMetric "serviceruntime.googleapis.com/api/consumer/backend_latencies" DELTA DISTRIBUTION FINAL CONSUMER
     (Some set_distribution_metric_to_backend_time);
   mkMetric "serviceruntime.googleapis.com/api/producer/backend_latencies" DELTA DISTRIBUTION FINAL PRODUCER
     (Some set_distribution_metric_to_backend_time);
   mkMetric "serviceruntime.googleapis.com/api/producer/by_consumer/backend_latencies" DELTA DISTRIBUTION FINAL PRODUCER_BY_CONSUMER
     (Some set_distribution_metric_to_backend_time);
   mkMetric "serviceruntime.googleapis.com/api/consumer/request_overhead_latencies" DELTA DISTRIBUTION FINAL CONSUMER
     (Some set_distribution_metric_to_overhead_time);
   mkMetric "serviceruntime.googleapis.com/api/producer/request_overhead_latencies" DELTA DISTRIBUTION FINAL PRODUCER
     (Some set_distribution_metric_to_overhead_time);
   mkMetric "serviceruntime.googleapis.com/api/producer/by_consumer/request_overhead_latencies" DELTA DISTRIBUTION FINAL PRODUCER_BY_CONSUMER
     (Some set_distribution_metric_to_overhead_time)].

(** supported_metrics: streaming. *)
Definition streaming_metrics : list SupportedMetric :=
  [mkMetric "serviceruntime.googleapis.com/api/consumer/streaming_request_message_counts" DELTA DISTRIBUTION FINAL CONSUMER
     (Some set_distribution_metric_to_streaming_request_message_counts);
   mkMetric "serviceruntime.googleapis.com/api/producer/streaming_request_message_counts" DELTA DISTRIBUTION FINAL PRODUCER
     (Some set_distribution_metric_to_streaming_request_message_counts);
   mkMetric "serviceruntime.googleapis.com/api/consumer/streaming_response_message_counts" DELTA DISTRIBUTION FINAL CONSUMER
     (Some set_distribution_metric_to_streaming_response_message_counts);
   mkMetric "serviceruntime.googleapis.com/api/producer/streaming_response_message_counts" DELTA DISTRIBUTION FINAL PRODUCER
     (Some set_distribution_metric_to_streaming_response_message_counts);
   mkMetric "serviceruntime.googleapis.com/api/consumer/streaming_durations" DELTA DISTRIBUTION FINAL CONSUMER
     (Some set_distribution_metric_to_streaming_durations);
   mkMetric "serviceruntime.googleapis.com/api/producer/streaming_durations" DELTA DISTRIBUTION FINAL PRODUCER
     (Some set_distribution_metric_to_streaming_durations)].

(** supported_metrics. *)
Definition supported_metrics : list SupportedMetric :=
  request_metrics ++ bytes_error_metrics ++ latency_metrics ++ streaming_metrics.

End metrics.
