(* ===== verification/SupportedLabels.v ===== *)
(** * The supported labels: the label half of
    src/api_proxy/service_control/request_builder.cc

    The functions that set each label from the request info and the table of
    labels.  A setter that would read outside the table of error types gives
    [None].  Base64 encoding and the version the build generates are
    parameters: the class [LabelEnv]. *)
From S2P Require Import Prelude RequestInfo.

(** Envoy::Base64Url::encode, and the macro that the build generates from the version
    file. *)
Class LabelEnv := {
  Base64Url_encode : string → string;
  API_PROXY_VERSION_STRING : string
}.

(** ** src/api_proxy/utils/version.{h,cc} *)

Module Version.

(** class Version. *)
Record Version := new_Version { version_ : string }.

Definition get (v : Version) : string := version_ v.

(** The singleton; [set] is for tests, so that it keeps its first value. *)
Definition instance `{LabelEnv} : Version := new_Version API_PROXY_VERSION_STRING.

Definition set (version : string) (v : Version) : Version := new_Version version.

End Version.

(** enum Kind. *)
Inductive Kind := USER | SYSTEM.

#[export] Instance Kind_eq_dec : EqDecision Kind.
Proof. solve_decision. Defined.

#[local] Abbreviation Labels := (gmap string string).

(** struct SupportedLabel.  [set] reads only the name of the label it is called
    with. *)
Record SupportedLabel := mkLabel {
  label_name : string;
  label_entry_value_type : LabelValueType;
  kind : Kind;
  label_set : option (string → ReportRequestInfo → Labels → option (Labels * Status));
  by_consumer_only : bool
}.

(** ** Names *)

Definition kServiceControlCallerIp : string := "servicecontrol.googleapis.com/caller_ip".
Definition kServiceControlReferer : string := "servicecontrol.googleapis.com/referer".
Definition kServiceControlServiceAgent : string := "servicecontrol.googleapis.com/service_agent".
Definition kServiceControlUserAgent : string := "servicecontrol.googleapis.com/user_agent".
Definition kServiceControlPlatform : string := "servicecontrol.googleapis.com/platform".
Definition kServiceControlAndroidPackageName : string :=
  "servicecontrol.googleapis.com/android_package_name".
Definition kServiceControlAndroidCertFingerprint : string :=
  "servicecontrol.googleapis.com/android_cert_fingerprint".
Definition kServiceControlIosBundleId : string := "servicecontrol.googleapis.com/ios_bundle_id".
Definition kServiceControlBackendProtocol : string :=
  "servicecontrol.googleapis.com/backend_protocol".
Definition kServiceControlConsumerProject : string :=
  "serviceruntime.googleapis.com/consumer_project".
Definition kUserAgent : string := "ESPv2".
Definition kServiceAgentPrefix : string := "ESPv2/".

Section labels.
Context `{LE : LabelEnv}.

Definition get_service_agent : string := kServiceAgentPrefix +:+ Version.get Version.instance.

(** ** Setters *)

(** A setter's end: the labels and Status::OK. *)
Definition labels_ok (labels : Labels) : option (Labels * Status) := Some (labels, Status_OK).

(** (the map)[name] = value when the value is not empty. *)
Definition set_if_present (name value : string) (labels : Labels) : Labels :=
  if negb (is_empty value) then <[name := value]> labels else labels.

Definition set_credential_id (name : string) (info : ReportRequestInfo) (labels : Labels)
  : option (Labels * Status) :=
  labels_ok
    (if negb (is_empty (api_key info)) then
       let credential_id := "apikey:" +:+ api_key info in
       <[name := credential_id]> labels
     else if negb (is_empty (auth_issuer info)) then
       let base64_issuer := Base64Url_encode (auth_issuer info) in
       let credential_id := "jwtauth:issuer=" +:+ base64_issuer in
       let credential_id :=
         if negb (is_empty (auth_audience info)) then
           let base64_audience := Base64Url_encode (auth_audience info) in
           credential_id +:+ "&audience=" +:+ base64_audience
         else credential_id in
       <[name := credential_id]> labels
     else labels).

Definition error_types : list string :=
  ["0xx"; "1xx"; "2xx"; "3xx"; "4xx"; "5xx"; "6xx"; "7xx"; "8xx"; "9xx"].

(** error_types[i]: [None] when [i] is out of bounds. *)
Definition error_type_at (i : Z) : option string :=
  if (0 <=? i)%Z then error_types !! Z.to_nat i else None.

Definition code_class (response_code : Z) : Z := Z.rem (Z.quot response_code 100) 10.

Definition set_error_type (name : string) (info : ReportRequestInfo) (labels : Labels)
  : option (Labels * Status) :=
  if (400 <=? response_code info)%Z then
    let code := code_class (response_code info) in
    t ← error_type_at code; labels_ok (<[name := t]> labels)
  else labels_ok labels.

Definition set_protocol (name : string) (info : ReportRequestInfo) (labels : Labels)
  : option (Labels * Status) :=
  labels_ok (<[name := protocol.ToString (frontend_protocol info)]> labels).

Definition set_backend_protocol (name : string) (info : ReportRequestInfo) (labels : Labels)
  : option (Labels * Status) :=
  labels_ok
    (if bool_decide (backend_protocol info = protocol.GRPC) &&
        negb (bool_decide (frontend_protocol info = backend_protocol info))
     then <[name := protocol.ToString (backend_protocol info)]> labels else labels).

Definition set_consumer_project (name : string) (info : ReportRequestInfo) (labels : Labels)
  : option (Labels * Status) :=
  labels_ok (<[name := consumer_project_id (check_response_info info)]> labels).

Definition set_referer (name : string) (info : ReportRequestInfo) (labels : Labels)
  : option (Labels * Status) := labels_ok (set_if_present name (referer info) labels).

Definition set_response_code (name : string) (info : ReportRequestInfo) (labels : Labels)
  : option (Labels * Status) :=
  if negb (is_final_report info) then labels_ok labels
  else labels_ok (<[name := snprintf_d (response_code info)]> labels).

Definition set_response_code_class (name : string) (info : ReportRequestInfo) (labels : Labels)
  : option (Labels * Status) :=
  if negb (is_final_report info) then labels_ok labels
  else t ← error_type_at (code_class (response_code info)); labels_ok (<[name := t]> labels).

Definition set_status_code (name : string) (info : ReportRequestInfo) (labels : Labels)
  : option (Labels * Status) :=
  if negb (is_final_report info) then labels_ok labels
  else labels_ok (<[name := snprintf_d (error_code (status info))]> labels).

Definition set_location (name : string) (info : ReportRequestInfo) (labels : Labels)
  : option (Labels * Status) := labels_ok (set_if_present name (location info) labels).

Definition set_api_method (name : string) (info : ReportRequestInfo) (labels : Labels)
  : option (Labels * Status) := labels_ok (set_if_present name (api_method info) labels).

Definition set_api_version (name : string) (info : ReportRequestInfo) (labels : Labels)
  : option (Labels * Status) := labels_ok (set_if_present name (api_version info) labels).

Definition set_platform (name : string) (info : ReportRequestInfo) (labels : Labels)
  : option (Labels * Status) := labels_ok (<[name := compute_platform info]> labels).

Definition set_service_agent (name : string) (info : ReportRequestInfo) (labels : Labels)
  : option (Labels * Status) := labels_ok (<[name := get_service_agent]> labels).

Definition set_user_agent (name : string) (info : ReportRequestInfo) (labels : Labels)
  : option (Labels * Status) := labels_ok (<[name := kUserAgent]> labels).

(** ** The table *)

(** supported_labels: the first entries, user labels. *)
Definition user_labels : list SupportedLabel :=
  [mkLabel "/credential_id" LABEL_STRING USER (Some set_credential_id) false;
   mkLabel "/end_user" LABEL_STRING USER None false;
   mkLabel "/end_user_country" LABEL_STRING USER None false;
   mkLabel "/error_type" LABEL_STRING USER (Some set_error_type) false;
   mkLabel "/protocol" LABEL_STRING USER (Some set_protocol) false;
   mkLabel "/referer" LABEL_STRING USER (Some set_referer) false;
   mkLabel "/response_code" LABEL_STRING USER (Some set_response_code) false;
   mkLabel "/response_code_class" LABEL_STRING USER (Some set_response_code_class) false;
   mkLabel "/status_code" LABEL_STRING USER (Some set_status_code) false;
   mkLabel "appengine.googleapis.com/clone_id" LABEL_STRING USER None false;
   mkLabel "appengine.googleapis.com/module_id" LABEL_STRING USER None false;
   mkLabel "appengine.googleapis.com/replica_index" LABEL_STRING USER None false;
   mkLabel "appengine.googleapis.com/version_id" LABEL_STRING USER None false].

(** supported_labels: platform labels and the API method and version. *)
Definition cloud_labels : list SupportedLabel :=
  [mkLabel "cloud.googleapis.com/location" LABEL_STRING SYSTEM (Some set_location) false;
   mkLabel "cloud.googleapis.com/project" LABEL_STRING SYSTEM None false;
   mkLabel "cloud.googleapis.com/region" LABEL_STRING SYSTEM None false;
   mkLabel "cloud.googleapis.com/resource_id" LABEL_STRING USER None false;
   mkLabel "cloud.googleapis.com/resource_type" LABEL_STRING USER None false;
   mkLabel "cloud.googleapis.com/service" LABEL_STRING SYSTEM None false;
   mkLabel "cloud.googleapis.com/zone" LABEL_STRING SYSTEM None false;
   mkLabel "cloud.googleapis.com/uid" LABEL_STRING SYSTEM None false;
   mkLabel "serviceruntime.googleapis.com/api_method" LABEL_STRING USER (Some set_api_method) false;
   mkLabel "serviceruntime.googleapis.com/api_version" LABEL_STRING USER (Some set_api_version) false].

(** supported_labels: the service control labels. *)
Definition service_control_labels : list SupportedLabel :=
  [mkLabel kServiceControlCallerIp LABEL_STRING SYSTEM None false;
   mkLabel kServiceControlReferer LABEL_STRING SYSTEM None false;
   mkLabel kServiceControlServiceAgent LABEL_STRING SYSTEM (Some set_service_agent) false;
   mkLabel kServiceControlUserAgent LABEL_STRING SYSTEM (Some set_user_agent) false;
   mkLabel kServiceControlPlatform LABEL_STRING SYSTEM (Some set_platform) false;
   mkLabel kServiceControlBackendProtocol LABEL_STRING SYSTEM (Some set_backend_protocol) false;
   mkLabel kServiceControlConsumerProject LABEL_STRING SYSTEM (Some set_consumer_project) true].

(** supported_labels. *)
Definition supported_labels : list SupportedLabel :=
  user_labels ++ cloud_labels ++ service_control_labels.

End labels.
