(* ===== verification/RequestBuilder.v ===== *)
(** * Request builder: src/api_proxy/service_control/request_builder.{h,cc}

    The service control requests for Check, AllocateQuota and Report, and the
    conversion of the responses to statuses.  The operations return the message
    after the call with the status; [None] is undefined behaviour (a read out of
    bounds, or a null pointer that is followed). *)
From S2P Require Import Prelude RequestInfo SupportedMetrics SupportedLabels.

Definition kConsumerIdApiKey : string := "api_key:".
Definition kConsumerIdProject : string := "project:".

(** ** Responses of the server *)

(** google.api.servicecontrol.v1.CheckError.Code: the codes the source names,
    and any other by its number. *)
Inductive CheckErrorCode :=
  | CE_NOT_FOUND | CE_API_KEY_NOT_FOUND | CE_API_KEY_EXPIRED | CE_API_KEY_INVALID
  | CE_SERVICE_NOT_ACTIVATED | CE_PERMISSION_DENIED | CE_IP_ADDRESS_BLOCKED
  | CE_REFERER_BLOCKED | CE_CLIENT_APP_BLOCKED | CE_PROJECT_DELETED | CE_PROJECT_INVALID
  | CE_BILLING_DISABLED | CE_SECURITY_POLICY_VIOLATED | CE_INVALID_CREDENTIAL
  | CE_LOCATION_POLICY_VIOLATED | CE_CONSUMER_INVALID | CE_NAMESPACE_LOOKUP_UNAVAILABLE
  | CE_SERVICE_STATUS_UNAVAILABLE | CE_BILLING_STATUS_UNAVAILABLE | CE_QUOTA_CHECK_UNAVAILABLE
  | CE_CLOUD_RESOURCE_MANAGER_BACKEND_UNAVAILABLE | CE_SECURITY_POLICY_BACKEND_UNAVAILABLE
  | CE_LOCATION_POLICY_BACKEND_UNAVAILABLE | CE_other (code : Z).

#[export] Instance CheckErrorCode_eq_dec : EqDecision CheckErrorCode.
Proof. solve_decision. Defined.

(** CheckResponse: check_info.consumer_info.project_number and the codes of
    check_errors. *)
Record CheckResponse := mkCheckResponse {
  project_number : Z;
  check_errors : list CheckErrorCode
}.

(** QuotaError.Code, likewise, and QuotaError. *)
Inductive QuotaErrorCode :=
  | QE_UNSPECIFIED | QE_RESOURCE_EXHAUSTED | QE_BILLING_NOT_ACTIVE | QE_PROJECT_DELETED
  | QE_API_KEY_INVALID | QE_API_KEY_EXPIRED | QE_other (code : Z).

Record QuotaError := mkQuotaError { qe_code : QuotaErrorCode; qe_description : string }.

Record AllocateQuotaResponse := mkAllocateQuotaResponse { allocate_errors : list QuotaError }.

(** ** Helpers *)

(** CreateTimestamp: C++ division truncates. *)
Definition CreateTimestamp (timestamp_ns : Z) : Timestamp :=
  mkTimestamp (Z.quot timestamp_ns 1000000000) (Z.rem timestamp_ns 1000000000).

Definition VerifyRequiredCheckFields (info : OperationInfo) : Status :=
  if is_empty (operation_id info) then mkStatus Code.INVALID_ARGUMENT "operation_id is required."
  else if is_empty (operation_name info)
  then mkStatus Code.INVALID_ARGUMENT "operation_name is required."
  else Status_OK.

Definition VerifyRequiredReportFields (info : OperationInfo) : Status := Status_OK.

(** FilterPointers. *)
Fixpoint FilterPointers {Element} (pred : Element → bool) (l : list Element) : list Element :=
  match l with
  | [] => []
  | first :: rest => if pred first then first :: FilterPointers pred rest
                     else FilterPointers pred rest
  end.

(** ** Log entries *)

(** The names of the fields of an entry. *)
Definition kLogFieldNameApiKey : string := "api_key".
Definition kLogFieldNameApiMethod : string := "api_method".
Definition kLogFieldNameApiName : string := "api_name".
Definition kLogFieldNameApiVersion : string := "api_version".
Definition kLogFieldNameHttpMethod : string := "http_method".
Definition kLogFieldNameHttpResponseCode : string := "http_response_code".
Definition kLogFieldNameJwtPayloads : string := "jwt_payloads".
Definition kLogFieldNameLocation : string := "location".
Definition kLogFieldNameLogMessage : string := "log_message".
Definition kLogFieldNameProducerProjectId : string := "producer_project_id".
Definition kLogFieldNameReferer : string := "referer".
Definition kLogFieldNameRequestHeaders : string := "request_headers".
Definition kLogFieldNameRequestLatency : string := "request_latency_in_ms".
Definition kLogFieldNameRequestSize : string := "request_size_in_bytes".
Definition kLogFieldNameResponseHeaders : string := "response_headers".
Definition kLogFieldNameResponseSize : string := "response_size_in_bytes".
Definition kLogFieldNameTimestamp : string := "timestamp".
Definition kLogFieldNameUrl : string := "url".
Definition kLogFieldNameClientIp : string := "client_ip".

#[local] Abbreviation Fields := (gmap string Value).

Definition string_field (name value : string) (fields : Fields) : Fields :=
  if negb (is_empty value) then <[name := string_value value]> fields else fields.

Definition size_field (name : string) (value : Z) (fields : Fields) : Fields :=
  if (0 <=? value)%Z then <[name := number_value (double_of_int value)]> fields else fields.

(** FillLogEntry: the entry it fills, which was empty. *)
Definition FillLogEntry (info : ReportRequestInfo) (name : string) (time : Timestamp) : LogEntry :=
  let severity := if (400 <=? response_code info)%Z then ERROR else INFO in
  let fields : Fields :=
    <[kLogFieldNameTimestamp := number_value
        (dadd (double_of_int (seconds time))
              (ddiv (double_of_int (nanos time)) (double_of_int 1000000000)))]> ∅ in
  let fields := string_field kLogFieldNameProducerProjectId (producer_project_id info) fields in
  let fields := string_field kLogFieldNameApiKey (api_key info) fields in
  let fields := string_field kLogFieldNameReferer (referer info) fields in
  let fields := string_field kLogFieldNameApiName (api_name info) fields in
  let fields := string_field kLogFieldNameApiVersion (api_version info) fields in
  let fields := string_field kLogFieldNameUrl (url info) fields in
  let fields := string_field kLogFieldNameApiMethod (api_method info) fields in
  let fields := string_field kLogFieldNameLocation (location info) fields in
  let fields := string_field kLogFieldNameLogMessage (log_message info) fields in
  let fields := <[kLogFieldNameHttpResponseCode := number_value (double_of_int (response_code info))]> fields in
  let fields := size_field kLogFieldNameRequestSize (request_size info) fields in
  let fields := string_field kLogFieldNameRequestHeaders (request_headers info) fields in
  let fields := size_field kLogFieldNameResponseSize (response_size info) fields in
  let fields := string_field kLogFieldNameResponseHeaders (response_headers info) fields in
  let fields := size_field kLogFieldNameRequestLatency (request_time_ms (latency info)) fields in
  let fields := string_field kLogFieldNameHttpMethod (http_method info) fields in
  let fields := string_field kLogFieldNameClientIp (client_ip info) fields in
  let fields := string_field kLogFieldNameJwtPayloads (jwt_payloads info) fields in
  mkLogEntry name time severity fields.

Section builder.
Context `{DH : DistributionHelper} `{LE : LabelEnv}.

#[local] Abbreviation Op := (Operation Distribution).

(** class RequestBuilder. *)
Record RequestBuilder := mkRequestBuilder {
  logs_ : list string;
  metrics_ : list SupportedMetric;
  labels_ : list SupportedLabel;
  service_name_ : string;
  service_config_id_ : string
}.

Definition has_metric_set (m : SupportedMetric) : bool :=
  match metric_set m with Some _ => true | None => false end.
Definition has_label_set (l : SupportedLabel) : bool :=
  match label_set l with Some _ => true | None => false end.

(** RequestBuilder(logs, service_name, service_config_id). *)
Definition RequestBuilder_all (logs : gset string) (service_name service_config_id : string)
  : RequestBuilder :=
  mkRequestBuilder (set_elements logs)
    (FilterPointers has_metric_set supported_metrics)
    (FilterPointers has_label_set supported_labels)
    service_name service_config_id.

(** RequestBuilder(logs, metrics, labels, service_name, service_config_id). *)
Definition RequestBuilder_select (logs metrics labels : gset string)
    (service_name service_config_id : string) : RequestBuilder :=
  mkRequestBuilder (set_elements logs)
    (FilterPointers
       (λ m, has_metric_set m && bool_decide (metric_entry_name m ∈ metrics)) supported_metrics)
    (FilterPointers
       (λ l, has_label_set l && (bool_decide (kind l = SYSTEM) || bool_decide (label_name l ∈ labels)))
       supported_labels)
    service_name service_config_id.

(** SetOperationCommonFields. *)
Definition SetOperationCommonFields (info : OperationInfo) (time : Timestamp) (op : Op) : Op :=
  let op := if negb (is_empty (operation_id info))
            then set_operation_id (operation_id info) op else op in
  let op := if negb (is_empty (operation_name info))
            then set_operation_name (operation_name info) op else op in
  let op := if negb (is_empty (api_key info))
            then set_consumer_id (kConsumerIdApiKey +:+ api_key info) op else op in
  set_times time op.

(** ** Quota *)

(** The value of one quota metric. *)
Definition quota_metric (metric : string * Z) : MetricValueSet Distribution :=
  mkMetricValueSet metric.1 [int64_value (if (metric.2 <=? 0)%Z then 1 else metric.2)].

Definition FillAllocateQuotaRequest (rb : RequestBuilder) (info : QuotaRequestInfo)
    (request : AllocateQuotaRequest Distribution) : AllocateQuotaRequest Distribution * Status :=
  let operation := aqr_operation request in
  let op_id := if negb (is_empty (operation_id info)) then operation_id info
               else qo_operation_id operation in
  let op_method := if negb (is_empty (method_name info)) then method_name info
                   else qo_method_name operation in
  let consumer :=
    if negb (is_empty (api_key info)) then kConsumerIdApiKey +:+ api_key info
    else if negb (is_empty (producer_project_id info))
    then kConsumerIdProject +:+ producer_project_id info
    else qo_consumer_id operation in
  let labels := set_if_present kServiceControlCallerIp (client_ip info) (qo_labels operation) in
  let labels := set_if_present kServiceControlReferer (referer info) labels in
  let labels := <[kServiceControlUserAgent := kUserAgent]> labels in
  let labels := <[kServiceControlServiceAgent := get_service_agent]> labels in
  let metrics := match metric_cost_vector info with
                 | Some costs => qo_quota_metrics operation ++ (quota_metric <$> costs)
                 | None => qo_quota_metrics operation
                 end in
  (mkAllocateQuotaRequest (service_name_ rb) (service_config_id_ rb)
     (mkQuotaOperation op_id op_method consumer BEST_EFFORT labels metrics), Status_OK).

(** ** Check *)

Definition FillCheckRequest (rb : RequestBuilder) (info : CheckRequestInfo)
    (request : CheckRequest Distribution) : CheckRequest Distribution * Status :=
  let st := VerifyRequiredCheckFields info in
  if negb (status_ok st) then (request, st) else
  let time := CreateTimestamp (current_time info) in
  let op := SetOperationCommonFields info time (cr_operation request) in
  let labels := set_if_present kServiceControlCallerIp (client_ip info) (op_labels op) in
  let labels := set_if_present kServiceControlReferer (referer info) labels in
  let labels := <[kServiceControlUserAgent := kUserAgent]> labels in
  let labels := <[kServiceControlServiceAgent := get_service_agent]> labels in
  let labels :=
    set_if_present kServiceControlAndroidPackageName (android_package_name info) labels in
  let labels :=
    set_if_present kServiceControlAndroidCertFingerprint (android_cert_fingerprint info) labels in
  let labels := set_if_present kServiceControlIosBundleId (ios_bundle_id info) labels in
  (mkCheckRequest (service_name_ rb) (service_config_id_ rb) (set_labels labels op), Status_OK).

(** ** Report *)

(** The loop over labels, for those that [wanted] accepts. *)
Fixpoint fill_labels (wanted : SupportedLabel → bool) (ls : list SupportedLabel)
    (info : ReportRequestInfo) (labels : gmap string string)
  : option (gmap string string * Status) :=
  match ls with
  | [] => Some (labels, Status_OK)
  | l :: ls =>
      match label_set l with
      | Some set =>
          if wanted l then
            '(labels, st) ← set (label_name l) info labels;
            if negb (status_ok st) then Some (labels, st) else fill_labels wanted ls info labels
          else fill_labels wanted ls info labels
      | None => fill_labels wanted ls info labels
      end
  end.

(** The condition on a metric's tag. *)
Definition tag_reported (info : ReportRequestInfo) (t : Tag) : bool :=
  (is_first_report info && bool_decide (t = START)) ||
  (is_final_report info && (bool_decide (t = FINAL) || bool_decide (t = INTERMEDIATE))) ||
  (negb (is_final_report info) && bool_decide (t = INTERMEDIATE)).

(** The loop over metrics, for those that [wanted] accepts. *)
Fixpoint fill_metrics (wanted : SupportedMetric → bool) (ms : list SupportedMetric)
    (info : ReportRequestInfo) (op : Op) : Op * Status :=
  match ms with
  | [] => (op, Status_OK)
  | m :: ms =>
      match metric_set m with
      | Some set =>
          if wanted m && tag_reported info (tag m) then
            let '(op, st) := set (metric_entry_name m) info op in
            if negb (status_ok st) then (op, st) else fill_metrics wanted ms info op
          else fill_metrics wanted ms info op
      | None => fill_metrics wanted ms info op
      end
  end.

Definition has_operation (info : ReportRequestInfo) : bool :=
  negb (is_empty (operation_id info)) && negb (is_empty (operation_name info)).

(** Labels then metrics of one operation. *)
Definition fill_operation (rb : RequestBuilder) (label_wanted : SupportedLabel → bool)
    (metric_wanted : SupportedMetric → bool) (info : ReportRequestInfo) (op : Op)
  : option (Op * Status) :=
  if has_operation info then
    '(labels, st) ← fill_labels label_wanted (labels_ rb) info (op_labels op);
    let op := set_labels labels op in
    if negb (status_ok st) then Some (op, st)
    else Some (fill_metrics metric_wanted (metrics_ rb) info op)
  else Some (op, Status_OK).

Definition add_operation (op : Op) (request : ReportRequest Distribution)
  : ReportRequest Distribution :=
  mkReportRequest (rr_service_name request) (rr_service_config_id request)
    (rr_operations request ++ [op]).

Definition AppendByConsumerOperations (rb : RequestBuilder) (info : ReportRequestInfo)
    (request : ReportRequest Distribution) (time : Timestamp)
  : option (ReportRequest Distribution * Status) :=
  let op := SetOperationCommonFields info time new_Operation in
  let op := set_operation_id (op_operation_id op +:+ "1") op in
  '(op, st) ← fill_operation rb (λ _, true) (λ m, bool_decide (mark m = PRODUCER_BY_CONSUMER))
                info op;
  Some (add_operation op request, st).

(** Which metrics the operation of the producer carries. *)
Definition main_metric (info : ReportRequestInfo) (m : SupportedMetric) : bool :=
  let send_consumer_metric := negb (is_empty (api_key info)) in
  (send_consumer_metric || negb (bool_decide (mark m = CONSUMER))) &&
  negb (bool_decide (mark m = PRODUCER_BY_CONSUMER)).

Definition FillReportRequest (rb : RequestBuilder) (info : ReportRequestInfo)
    (request : ReportRequest Distribution) : option (ReportRequest Distribution * Status) :=
  let st := VerifyRequiredReportFields info in
  if negb (status_ok st) then Some (request, st) else
  let request := mkReportRequest (service_name_ rb) (service_config_id_ rb)
                   (rr_operations request) in
  let time := CreateTimestamp (current_time info) in
  let op := SetOperationCommonFields info time new_Operation in
  '(op, st) ← fill_operation rb (λ l, negb (by_consumer_only l)) (main_metric info) info op;
  if negb (status_ok st) then Some (add_operation op request, st) else
  let op := if is_final_report info
            then set_log_entries
                   (op_log_entries op ++ ((λ name, FillLogEntry info name time) <$> logs_ rb)) op
            else op in
  let request := add_operation op request in
  if negb (is_empty (consumer_project_id (check_response_info info)))
  then AppendByConsumerOperations rb info request time
  else Some (request, Status_OK).

End builder.

(** ** Responses *)

Definition ConvertAllocateQuotaResponse (response : AllocateQuotaResponse) (service_name : string)
  : Status :=
  match allocate_errors response with
  | [] => Status_OK
  | error :: _ =>
      match qe_code error with
      | QE_UNSPECIFIED => Status_OK
      | QE_RESOURCE_EXHAUSTED => mkStatus Code.RESOURCE_EXHAUSTED (qe_description error)
      | QE_BILLING_NOT_ACTIVE => mkStatus Code.PERMISSION_DENIED (qe_description error)
      | QE_PROJECT_DELETED | QE_API_KEY_INVALID | QE_API_KEY_EXPIRED =>
          mkStatus Code.INVALID_ARGUMENT (qe_description error)
      | QE_other _ => mkStatus Code.INTERNAL (qe_description error)
      end
  end.

Definition set_api_key_invalid (i : CheckResponseInfo) : CheckResponseInfo :=
  mkCheckResponseInfo false (service_is_activated i) (consumer_project_id i).
Definition set_not_activated (i : CheckResponseInfo) : CheckResponseInfo :=
  mkCheckResponseInfo (is_api_key_valid i) false (consumer_project_id i).
Definition set_consumer_project_id (x : string) (i : CheckResponseInfo) : CheckResponseInfo :=
  mkCheckResponseInfo (is_api_key_valid i) (service_is_activated i) x.

#[local] Abbreviation InfoPtr := (option CheckResponseInfo).

(** Storing the consumer project: a null pointer is followed if there is one. *)
Definition store_consumer_project (number : Z) (info : InfoPtr) : option InfoPtr :=
  if (0 <? number)%Z then
    match info with
    | Some i => Some (Some (set_consumer_project_id (pretty number) i))
    | None => None
    end
  else Some info.

(** The switch on the first error. *)
Definition check_error_status (error : CheckErrorCode) (service_name : string) (info : InfoPtr)
  : InfoPtr * Status :=
  match error with
  | CE_NOT_FOUND => (info, mkStatus Code.INVALID_ARGUMENT
      "Client project not found. Please pass a valid project.")
  | CE_API_KEY_NOT_FOUND => (set_api_key_invalid <$> info, mkStatus Code.INVALID_ARGUMENT
      "API key not found. Please pass a valid API key.")
  | CE_API_KEY_EXPIRED => (set_api_key_invalid <$> info, mkStatus Code.INVALID_ARGUMENT
      "API key expired. Please renew the API key.")
  | CE_API_KEY_INVALID => (set_api_key_invalid <$> info, mkStatus Code.INVALID_ARGUMENT
      "API key not valid. Please pass a valid API key.")
  | CE_SERVICE_NOT_ACTIVATED => (set_not_activated <$> info, mkStatus Code.PERMISSION_DENIED
      ("API " +:+ service_name +:+ " is not enabled for the project."))
  | CE_PERMISSION_DENIED => (info, mkStatus Code.PERMISSION_DENIED "Permission denied.")
  | CE_IP_ADDRESS_BLOCKED => (info, mkStatus Code.PERMISSION_DENIED "IP address blocked.")
  | CE_REFERER_BLOCKED => (info, mkStatus Code.PERMISSION_DENIED "Referer blocked.")
  | CE_CLIENT_APP_BLOCKED =>
      (info, mkStatus Code.PERMISSION_DENIED "Client application blocked.")
  | CE_PROJECT_DELETED => (info, mkStatus Code.PERMISSION_DENIED "Project has been deleted.")
  | CE_PROJECT_INVALID => (info, mkStatus Code.INVALID_ARGUMENT
      "Client project not valid. Please pass a valid project.")
  | CE_BILLING_DISABLED => (info, mkStatus Code.PERMISSION_DENIED
      ("API " +:+ service_name +:+ " has billing disabled. Please enable it."))
  | CE_SECURITY_POLICY_VIOLATED => (info, mkStatus Code.PERMISSION_DENIED
      "Request is not allowed as per security policies.")
  | CE_INVALID_CREDENTIAL => (info, mkStatus Code.PERMISSION_DENIED
      "The credential in the request can not be verified")
  | CE_LOCATION_POLICY_VIOLATED => (info, mkStatus Code.PERMISSION_DENIED
      "Request is not allowed as per location policies.")
  | CE_CONSUMER_INVALID => (info, mkStatus Code.PERMISSION_DENIED
      "The consumer from the API key does not represent a valid consumer folder or organization")
  | CE_NAMESPACE_LOOKUP_UNAVAILABLE | CE_SERVICE_STATUS_UNAVAILABLE
  | CE_BILLING_STATUS_UNAVAILABLE | CE_QUOTA_CHECK_UNAVAILABLE
  | CE_CLOUD_RESOURCE_MANAGER_BACKEND_UNAVAILABLE | CE_SECURITY_POLICY_BACKEND_UNAVAILABLE
  | CE_LOCATION_POLICY_BACKEND_UNAVAILABLE => (info, Status_OK)
  | CE_other code => (info, mkStatus Code.INTERNAL
      ("Request blocked due to unsupported error code: " +:+ pretty code))
  end.

(** ConvertCheckResponse: the info after the call ([None] inside for a null
    pointer) and the status. *)
Definition ConvertCheckResponse (check_response : CheckResponse) (service_name : string)
    (info : InfoPtr) : option (InfoPtr * Status) :=
  info ← store_consumer_project (project_number check_response) info;
  match check_errors check_response with
  | [] => Some (info, Status_OK)
  | error :: _ => Some (check_error_status error service_name info)
  end.

(** ** Supported descriptors *)

Section supported.
Context `{DH : DistributionHelper} `{LE : LabelEnv}.

Definition IsMetricSupported (metric : MetricDescriptor) : bool :=
  existsb (λ m, bool_decide (md_name metric = metric_entry_name m) &&
                bool_decide (md_metric_kind metric = metric_kind m) &&
                bool_decide (md_value_type metric = metric_value_type m)) supported_metrics.

Definition IsLabelSupported (label : LabelDescriptor) : bool :=
  existsb (λ l, bool_decide (label_key label = label_name l) &&
                bool_decide (label_value_type label = label_entry_value_type l)) supported_labels.

End supported.
