(* ===== verification/RequestBuilderCorrect.v ===== *)
(** * Correctness of the request builder

    Every metric setter appends at most one value set of its own metric, and
    every label setter writes at most its own label, so that a report is
    described metric by metric and label by label ([report_metrics],
    [report_label]); over a stream of reports each metric is sent in the reports
    its tag names. *)
From S2P Require Import Prelude RequestInfo SupportedMetrics SupportedLabels RequestBuilder.

(** ** Filtering *)

Lemma FilterPointers_elem {A} (pred : A → bool) l x :
  x ∈ FilterPointers pred l ↔ x ∈ l ∧ pred x = true.
Proof.
  induction l as [|y l IH]; simpl; [set_solver|].
  destruct (pred y) eqn:E; rewrite ?elem_of_cons, IH; intuition (subst; congruence || eauto).
Qed.

Lemma FilterPointers_ext {A} (p q : A → bool) l :
  (∀ x, p x = q x) → FilterPointers p l = FilterPointers q l.
Proof. intros E. induction l; simpl; [done|]. rewrite E. by case_match; rewrite IHl. Qed.

Lemma FilterPointers_sublist {A} (p : A → bool) l : FilterPointers p l `sublist_of` l.
Proof. induction l; simpl; [done|]. case_match; by constructor. Qed.

(** ** Metrics *)

Section metrics.
Context `{DH : DistributionHelper}.

(** Sampling into the two distributions the builder uses succeeds. *)
Class DistributionHelperOk : Prop := {
  helper_init o : o ∈ [time_distribution; size_distribution] →
    (InitExponential (buckets o) (growth o) (scale o)).2 = Status_OK;
  helper_sample o v : o ∈ [time_distribution; size_distribution] →
    (AddSample v (InitExponential (buckets o) (growth o) (scale o)).1).2 = Status_OK
}.

(** The value sets a metric adds to an operation. *)
Definition added (m : SupportedMetric) (info : ReportRequestInfo)
  : list (MetricValueSet Distribution) :=
  match metric_set m with
  | Some set => op_metric_value_sets (set (metric_entry_name m) info new_Operation).1
  | None => []
  end.

Definition add_sets (l : list (MetricValueSet Distribution)) (op : Operation Distribution)
  : Operation Distribution := set_metric_value_sets (op_metric_value_sets op ++ l) op.

(** A setter that appends at most one set of the metric's name, with one value,
    and succeeds. *)
Definition appends (set : string → ReportRequestInfo → Operation Distribution →
    Operation Distribution * Status) : Prop :=
  ∀ name info op,
    let l := op_metric_value_sets (set name info new_Operation).1 in
    set name info op = (add_sets l op, Status_OK) ∧
    (l = [] ∨ ∃ v, l = [mkMetricValueSet name [v]]).

Definition metric_appends (m : SupportedMetric) : Prop :=
  ∀ set, metric_set m = Some set → appends set.

Lemma add_sets_nil op : add_sets [] op = op.
Proof. unfold add_sets, set_metric_value_sets. rewrite app_nil_r. by destruct op. Qed.

Lemma add_sets_app l1 l2 op : add_sets l2 (add_sets l1 op) = add_sets (l1 ++ l2) op.
Proof. unfold add_sets, set_metric_value_sets. simpl. by rewrite <-app_assoc. Qed.

Lemma AddMetricValue_sets name v op :
  AddMetricValue name v op = add_sets [mkMetricValueSet name [v]] op.
Proof. done. Qed.

Context `{!DistributionHelperOk}.

Lemma AddDistributionMetric_ok o name v op :
  o ∈ [time_distribution; size_distribution] →
  AddDistributionMetric o name v op
  = (add_sets [mkMetricValueSet name
       [distribution_value (AddSample v (InitExponential (buckets o) (growth o) (scale o)).1).1]] op,
     Status_OK).
Proof.
  intros Ho. unfold AddDistributionMetric.
  pose proof (helper_init o Ho) as H1. pose proof (helper_sample o v Ho) as H2.
  destruct (InitExponential _ _ _) as [d st]. simpl in *. subst st. simpl.
  destruct (AddSample v d) as [d' st']. simpl in *. subst st'. simpl.
  by rewrite AddMetricValue_sets.
Qed.

Lemma size_in : size_distribution ∈ [time_distribution; size_distribution].
Proof. set_solver. Qed.
Lemma time_in : time_distribution ∈ [time_distribution; size_distribution].
Proof. set_solver. Qed.

(** One setter: decide its guard and use the lemmas above. *)
Tactic Notation "solve_appends" reference(f) :=
  intros name info op; cbv zeta;
  unfold f;
  unfold AddInt64Metric; try case_match;
  rewrite ?AddDistributionMetric_ok by (apply size_in || apply time_in);
  rewrite ?AddMetricValue_sets; simpl; rewrite ?add_sets_nil; eauto.

Lemma appends_constant_1 : appends set_int64_metric_to_constant_1.
Proof. solve_appends set_int64_metric_to_constant_1. Qed.
Lemma appends_http_error : appends set_int64_metric_to_constant_1_if_http_error.
Proof. solve_appends set_int64_metric_to_constant_1_if_http_error. Qed.
Lemma appends_request_size : appends set_distribution_metric_to_request_size.
Proof. solve_appends set_distribution_metric_to_request_size. Qed.
Lemma appends_response_size : appends set_distribution_metric_to_response_size.
Proof. solve_appends set_distribution_metric_to_response_size. Qed.
Lemma appends_request_time : appends set_distribution_metric_to_request_time.
Proof. solve_appends set_distribution_metric_to_request_time. Qed.
Lemma appends_backend_time : appends set_distribution_metric_to_backend_time.
Proof. solve_appends set_distribution_metric_to_backend_time. Qed.
Lemma appends_overhead_time : appends set_distribution_metric_to_overhead_time.
Proof. solve_appends set_distribution_metric_to_overhead_time. Qed.
Lemma appends_request_bytes : appends set_int64_metric_to_request_bytes.
Proof. solve_appends set_int64_metric_to_request_bytes. Qed.
Lemma appends_response_bytes : appends set_int64_metric_to_response_bytes.
Proof. solve_appends set_int64_metric_to_response_bytes. Qed.
Lemma appends_request_messages :
  appends set_distribution_metric_to_streaming_request_message_counts.
Proof. solve_appends set_distribution_metric_to_streaming_request_message_counts. Qed.
Lemma appends_response_messages :
  appends set_distribution_metric_to_streaming_response_message_counts.
Proof. solve_appends set_distribution_metric_to_streaming_response_message_counts. Qed.
Lemma appends_durations : appends set_distribution_metric_to_streaming_durations.
Proof. solve_appends set_distribution_metric_to_streaming_durations. Qed.

Create HintDb appends.
#[local] Hint Resolve appends_constant_1 appends_http_error appends_request_size
  appends_response_size appends_request_time appends_backend_time appends_overhead_time
  appends_request_bytes appends_response_bytes appends_request_messages
  appends_response_messages appends_durations : appends.

Lemma supported_metrics_append : Forall metric_appends supported_metrics.
Proof.
  unfold supported_metrics, request_metrics, bytes_error_metrics, latency_metrics,
    streaming_metrics.
  repeat apply Forall_app_2;
    repeat (apply Forall_cons_2; [intros ? [= <-]; auto with appends|]); apply Forall_nil_2.
Qed.

(** The metrics of a report, in the builder's order. *)
Definition report_metrics (wanted : SupportedMetric → bool) (ms : list SupportedMetric)
    (info : ReportRequestInfo) : list (MetricValueSet Distribution) :=
  FilterPointers (λ m, wanted m && tag_reported info (tag m)) ms ≫= λ m, added m info.

Lemma fill_metrics_report wanted ms info op :
  Forall metric_appends ms →
  fill_metrics wanted ms info op = (add_sets (report_metrics wanted ms info) op, Status_OK).
Proof.
  intros Hms. revert op. unfold report_metrics.
  induction Hms as [|m ms Hm _ IH]; intros op; [by rewrite add_sets_nil|].
  cbn [fill_metrics FilterPointers].
  destruct (wanted m && tag_reported info (tag m)) eqn:Hw.
  - rewrite bind_cons. destruct (metric_set m) as [set|] eqn:Hset.
    + destruct (Hm set Hset (metric_entry_name m) info op) as [-> _]. simpl negb.
      rewrite IH, add_sets_app. unfold added at 2. by rewrite Hset.
    + rewrite IH. unfold added at 2. by rewrite Hset.
  - destruct (metric_set m); apply IH.
Qed.

(** Every value set of a report belongs to a reported metric. *)
Lemma report_metrics_elem wanted ms info vs :
  Forall metric_appends ms → vs ∈ report_metrics wanted ms info →
  ∃ m v, m ∈ ms ∧ wanted m = true ∧ tag_reported info (tag m) = true ∧
         vs = mkMetricValueSet (metric_entry_name m) [v].
Proof.
  intros Hms Hin. apply list_elem_of_bind in Hin as (m&Hvs&[Hm Hw]%FilterPointers_elem).
  apply andb_true_iff in Hw as [Hw Ht]. rewrite Forall_forall in Hms. unfold added in Hvs.
  destruct (metric_set m) as [set|] eqn:Hset; [|by apply not_elem_of_nil in Hvs].
  destruct (Hms m Hm set Hset (metric_entry_name m) info new_Operation) as [_ [E|[v E]]];
    rewrite E in Hvs; [by apply not_elem_of_nil in Hvs|].
  apply list_elem_of_singleton in Hvs. eauto 10.
Qed.

End metrics.

(** ** Labels *)

Section labels.
Context `{LE : LabelEnv}.

(** The label a setter writes, if any. *)
Definition report_label (l : SupportedLabel) (info : ReportRequestInfo) : option string :=
  set ← label_set l; r ← set (label_name l) info ∅; r.1 !! label_name l.

(** A setter that succeeds on [info] and writes at most the entry of its name,
    whatever the map holds. *)
Definition writes (set : string → ReportRequestInfo → gmap string string →
    option (gmap string string * Status)) (info : ReportRequestInfo) : Prop :=
  ∀ name, ∃ v : option string, ∀ labels,
    set name info labels = Some (match v with Some s => <[name := s]> labels | None => labels end,
                                 Status_OK).

Definition label_writes (info : ReportRequestInfo) (l : SupportedLabel) : Prop :=
  ∀ set, label_set l = Some set → writes set info.

Lemma report_label_write l info set labels :
  label_set l = Some set → writes set info →
  set (label_name l) info labels
  = Some (match report_label l info with Some s => <[label_name l := s]> labels | None => labels end,
          Status_OK).
Proof.
  intros Hset Hw. destruct (Hw (label_name l)) as [v Hv]. unfold report_label. rewrite Hset. simpl.
  rewrite !Hv. simpl. destruct v; [by rewrite lookup_insert_eq|by rewrite lookup_empty].
Qed.

Lemma error_type_at_some i : (0 ≤ i < 10)%Z → is_Some (error_type_at i).
Proof.
  intros Hi. unfold error_type_at. destruct (Z.leb_spec 0 i); [|lia].
  apply lookup_lt_is_Some_2. simpl. lia.
Qed.

Lemma code_class_range c : (-100 < c)%Z → (0 ≤ code_class c < 10)%Z.
Proof.
  intros Hc. unfold code_class. assert (0 ≤ Z.quot c 100)%Z.
  { destruct (Z.le_gt_cases 0 c); [apply Z.quot_pos; lia|].
    rewrite <-(Z.opp_involutive c), Z.quot_opp_l by lia. rewrite Z.quot_small; lia. }
  apply Z.rem_bound_pos; lia.
Qed.

Section info.
Context (info : ReportRequestInfo).
Hypothesis Hcode : (-100 < response_code info)%Z.

Tactic Notation "solve_writes" reference(f) :=
  intros name; unfold f, labels_ok, set_if_present; repeat case_match;
  solve [by exists None|by eexists (Some _)].

Lemma writes_credential_id : writes set_credential_id info.
Proof. solve_writes set_credential_id. Qed.
Lemma writes_protocol : writes set_protocol info.
Proof. solve_writes set_protocol. Qed.
Lemma writes_backend_protocol : writes set_backend_protocol info.
Proof. solve_writes set_backend_protocol. Qed.
Lemma writes_consumer_project : writes set_consumer_project info.
Proof. solve_writes set_consumer_project. Qed.
Lemma writes_referer : writes set_referer info.
Proof. solve_writes set_referer. Qed.
Lemma writes_response_code : writes set_response_code info.
Proof. solve_writes set_response_code. Qed.
Lemma writes_status_code : writes set_status_code info.
Proof. solve_writes set_status_code. Qed.
Lemma writes_location : writes set_location info.
Proof. solve_writes set_location. Qed.
Lemma writes_api_method : writes set_api_method info.
Proof. solve_writes set_api_method. Qed.
Lemma writes_api_version : writes set_api_version info.
Proof. solve_writes set_api_version. Qed.
Lemma writes_platform : writes set_platform info.
Proof. solve_writes set_platform. Qed.
Lemma writes_service_agent : writes set_service_agent info.
Proof. solve_writes set_service_agent. Qed.
Lemma writes_user_agent : writes set_user_agent info.
Proof. solve_writes set_user_agent. Qed.

Lemma writes_error_type : writes set_error_type info.
Proof using Hcode.
  destruct (error_type_at_some _ (code_class_range _ Hcode)) as [t Ht].
  intros name. unfold set_error_type. case_match; [exists (Some t)|by exists None].
  intros labels. by rewrite Ht.
Qed.

Lemma writes_response_code_class : writes set_response_code_class info.
Proof using Hcode.
  destruct (error_type_at_some _ (code_class_range _ Hcode)) as [t Ht].
  intros name. unfold set_response_code_class. case_match; [by exists None|exists (Some t)].
  intros labels. by rewrite Ht.
Qed.

#[local] Hint Resolve writes_credential_id writes_protocol writes_backend_protocol
  writes_consumer_project writes_referer writes_response_code writes_status_code writes_location
  writes_api_method writes_api_version writes_platform writes_service_agent writes_user_agent
  writes_error_type writes_response_code_class : esp.

Lemma supported_labels_write : Forall (label_writes info) supported_labels.
Proof using Hcode.
  unfold supported_labels, user_labels, cloud_labels, service_control_labels.
  repeat apply Forall_app_2;
    repeat (apply Forall_cons_2; [intros ? Hs; inversion Hs; subst; auto with esp|]);
    apply Forall_nil_2.
Qed.

End info.

Lemma supported_labels_names : NoDup (label_name <$> supported_labels).
Proof. apply (bool_decide_unpack _). vm_compute. exact I. Qed.

(** The labels a report carries. *)
Lemma fill_labels_report wanted ls info labels :
  Forall (label_writes info) ls → NoDup (label_name <$> ls) →
  ∃ labels', fill_labels wanted ls info labels = Some (labels', Status_OK) ∧
    (∀ l, l ∈ ls → labels' !! label_name l
       = match (if wanted l then report_label l info else None) with
         | Some s => Some s
         | None => labels !! label_name l
         end) ∧
    (∀ k, k ∉ label_name <$> ls → labels' !! k = labels !! k).
Proof.
  intros Hls. revert labels. induction Hls as [|l ls Hl Hls IH]; intros labels Hnd.
  { exists labels. split_and!; [done|set_solver|done]. }
  rewrite fmap_cons in Hnd. apply NoDup_cons in Hnd as [Hnot Hnd].
  set (labels1 := match (if wanted l then report_label l info else None) with
                  | Some s => <[label_name l := s]> labels | None => labels end).
  assert (fill_labels wanted (l :: ls) info labels = fill_labels wanted ls info labels1) as ->.
  { cbn [fill_labels]. unfold labels1. destruct (label_set l) as [set|] eqn:Hset.
    - destruct (wanted l); [|done]. rewrite (report_label_write l info set) by auto. done.
    - unfold report_label. rewrite Hset. by destruct (wanted l). }
  destruct (IH labels1 Hnd) as (labels'&->&Hin&Hout). exists labels'. split_and!; [done| |].
  - intros l' [->|Hl']%elem_of_cons.
    + rewrite Hout by done. unfold labels1. case_match; [by rewrite lookup_insert_eq|done].
    + rewrite Hin by done. destruct (if wanted l' then _ else _); [done|]. unfold labels1.
      assert (label_name l ≠ label_name l').
      { intros E. apply Hnot. rewrite E. by apply list_elem_of_fmap_2. }
      destruct (if wanted l then _ else _); [by rewrite lookup_insert_ne|done].
  - intros k Hk. rewrite fmap_cons, not_elem_of_cons in Hk. destruct Hk as [Hk Hks].
    rewrite Hout by done. unfold labels1. case_match; [by rewrite lookup_insert_ne|done].
Qed.

End labels.

(** ** Reports *)

Section report.
Context `{DH : DistributionHelper} `{LE : LabelEnv}.

(** The builder's metrics and labels are entries of the tables, in their order. *)
Definition builder_ok (rb : RequestBuilder) : Prop :=
  metrics_ rb `sublist_of` supported_metrics ∧ labels_ rb `sublist_of` supported_labels.

Lemma RequestBuilder_all_ok logs s c : builder_ok (RequestBuilder_all logs s c).
Proof. split; apply FilterPointers_sublist. Qed.

Lemma RequestBuilder_select_ok logs ms ls s c : builder_ok (RequestBuilder_select logs ms ls s c).
Proof. split; apply FilterPointers_sublist. Qed.

Lemma sublist_Forall {A} (P : A → Prop) (l k : list A) :
  l `sublist_of` k → Forall P k → Forall P l.
Proof. induction 1; intros Hk; [done|..]; inversion Hk; subst; auto. Qed.

Lemma sublist_NoDup_fmap {A B} (f : A → B) (l k : list A) :
  l `sublist_of` k → NoDup (f <$> k) → NoDup (f <$> l).
Proof.
  intros Hs. assert (f <$> l `sublist_of` f <$> k) as Hf.
  { induction Hs; simpl; by constructor. }
  intros Hk. by eapply sublist_NoDup.
Qed.

Definition report_time (info : ReportRequestInfo) : Timestamp := CreateTimestamp (current_time info).

(** What one operation of a report holds. *)
Record describes (rb : RequestBuilder) (info : ReportRequestInfo) (id : string)
    (label_wanted : SupportedLabel → bool) (metric_wanted : SupportedMetric → bool)
    (logs : list LogEntry) (op : Operation Distribution) : Prop := {
  d_id : op_operation_id op = id;
  d_name : op_operation_name op = operation_name info;
  d_consumer : op_consumer_id op
    = if is_empty (api_key info) then "" else "api_key:" +:+ api_key info;
  d_times : op_start_time op = Some (report_time info) ∧ op_end_time op = Some (report_time info);
  d_metrics : op_metric_value_sets op
    = if has_operation info then report_metrics metric_wanted (metrics_ rb) info else [];
  d_labels : ∀ l, l ∈ labels_ rb → op_labels op !! label_name l
    = if has_operation info && label_wanted l then report_label l info else None;
  d_no_labels : ∀ k, k ∉ label_name <$> labels_ rb → op_labels op !! k = None;
  d_logs : op_log_entries op = logs
}.

Context `{!DistributionHelperOk}.

Lemma fill_operation_describes rb info id label_wanted metric_wanted op :
  builder_ok rb → (-100 < response_code info)%Z →
  op_operation_id op = id → op_operation_name op = operation_name info →
  op_consumer_id op = (if is_empty (api_key info) then "" else "api_key:" +:+ api_key info) →
  op_start_time op = Some (report_time info) → op_end_time op = Some (report_time info) →
  op_labels op = ∅ → op_metric_value_sets op = [] → op_log_entries op = [] →
  ∃ op', fill_operation rb label_wanted metric_wanted info op = Some (op', Status_OK) ∧
         describes rb info id label_wanted metric_wanted [] op'.
Proof.
  intros [Hms Hls] Hcode Hid Hname Hcons Ht1 Ht2 Hl Hm Hlog. unfold fill_operation.
  pose proof (sublist_Forall _ _ _ Hms supported_metrics_append) as Happ.
  pose proof (sublist_Forall _ _ _ Hls (supported_labels_write info Hcode)) as Hwr.
  pose proof (sublist_NoDup_fmap label_name _ _ Hls supported_labels_names) as Hnd.
  destruct (has_operation info) eqn:Hop.
  - destruct (fill_labels_report label_wanted _ _ (op_labels op) Hwr Hnd) as (labels&->&Hin&Hout).
    simpl. rewrite fill_metrics_report by done. eexists. split; [done|].
    constructor; simpl; rewrite ?Hm, ?Hop; auto.
    + intros l Hll. rewrite Hin by done. rewrite Hl, lookup_empty. simpl.
      by destruct (if label_wanted l then _ else _).
    + intros k Hk. rewrite Hout by done. by rewrite Hl, lookup_empty.
  - exists op. split; [done|]. constructor; rewrite ?Hop; auto; intros;
      rewrite Hl; apply lookup_empty.
Qed.

Lemma SetOperationCommonFields_new (info : ReportRequestInfo) :
  let op := SetOperationCommonFields info (report_time info) (@new_Operation Distribution) in
  op = mkOperation (operation_id info) (operation_name info)
         (if is_empty (api_key info) then "" else "api_key:" +:+ api_key info)
         (Some (report_time info)) (Some (report_time info)) ∅ [] [].
Proof.
  unfold SetOperationCommonFields. simpl.
  destruct (is_empty (operation_id info)) eqn:E1, (is_empty (operation_name info)) eqn:E2,
    (is_empty (api_key info)) eqn:E3; simpl;
    rewrite ?is_empty_true in *; by rewrite ?E1, ?E2.
Qed.

Definition report_logs (rb : RequestBuilder) (info : ReportRequestInfo) : list LogEntry :=
  if is_final_report info then (λ n, FillLogEntry info n (report_time info)) <$> logs_ rb else [].

(** ** Log entries

    The fields of an entry as a table of names with their values, for those that the
    info has. *)

Definition text_value (s : string) : option Value :=
  if is_empty s then None else Some (string_value s).
Definition count_value (n : Z) : option Value :=
  if (0 <=? n)%Z then Some (number_value (double_of_int n)) else None.

Definition log_fields (info : ReportRequestInfo) (time : Timestamp) : list (string * option Value) :=
  [("timestamp", Some (number_value (dadd (double_of_int (seconds time))
      (ddiv (double_of_int (nanos time)) (double_of_int 1000000000)))));
   ("producer_project_id", text_value (producer_project_id info));
   ("api_key", text_value (api_key info));
   ("referer", text_value (referer info));
   ("api_name", text_value (api_name info));
   ("api_version", text_value (api_version info));
   ("url", text_value (url info));
   ("api_method", text_value (api_method info));
   ("location", text_value (location info));
   ("log_message", text_value (log_message info));
   ("http_response_code", Some (number_value (double_of_int (response_code info))));
   ("request_size_in_bytes", count_value (request_size info));
   ("request_headers", text_value (request_headers info));
   ("response_size_in_bytes", count_value (response_size info));
   ("response_headers", text_value (response_headers info));
   ("request_latency_in_ms", count_value (request_time_ms (latency info)));
   ("http_method", text_value (http_method info));
   ("client_ip", text_value (client_ip info));
   ("jwt_payloads", text_value (jwt_payloads info))].

Definition put_field (fields : gmap string Value) (f : string * option Value) : gmap string Value :=
  match f.2 with Some v => <[f.1 := v]> fields | None => fields end.

Lemma string_field_put name s fields : string_field name s fields = put_field fields (name, text_value s).
Proof. unfold string_field, put_field, text_value. by destruct (is_empty s). Qed.

Lemma size_field_put name n fields : size_field name n fields = put_field fields (name, count_value n).
Proof. unfold size_field, put_field, count_value. simpl. by destruct (0 <=? n)%Z. Qed.

Lemma FillLogEntry_fields info name time :
  struct_payload (FillLogEntry info name time) = foldl put_field ∅ (log_fields info time).
Proof.
  unfold FillLogEntry. cbn [struct_payload]. by rewrite !string_field_put, !size_field_put.
Qed.

Lemma put_fields_lookup table : ∀ fields,
  NoDup table.*1 → (∀ k, k ∈ table.*1 → fields !! k = None) →
  ∀ k, foldl put_field fields table !! k
    = match fields !! k with
      | Some v => Some v
      | None => mjoin ((list_to_map table : gmap string (option Value)) !! k)
      end.
Proof.
  induction table as [|[n o] table IH]; intros fields Hnd Hnew k; simpl.
  { by destruct (fields !! k). }
  apply NoDup_cons in Hnd as [Hni Hnd].
  assert (fields !! n = None) as Hn by (apply Hnew; left). rewrite IH; [|done|].
  - unfold put_field. simpl. destruct (decide (n = k)) as [<-|Hne].
    + rewrite lookup_insert_eq, Hn. destruct o; [by rewrite lookup_insert_eq|]. rewrite Hn.
      by rewrite not_elem_of_list_to_map_1.
    + rewrite lookup_insert_ne by done. destruct o; [by rewrite lookup_insert_ne|done].
  - intros j Hj. unfold put_field. simpl. destruct o; [rewrite lookup_insert_ne by (by intros ->)|];
      apply Hnew; by right.
Qed.

(** An entry for the log [name]. *)
Definition entry_of (info : ReportRequestInfo) (name : string) (e : LogEntry) : Prop :=
  log_name e = name ∧ timestamp e = report_time info ∧
  severity e = (if (400 <=? response_code info)%Z then ERROR else INFO) ∧
  ∀ k, struct_payload e !! k
    = mjoin ((list_to_map (log_fields info (report_time info)) : gmap string (option Value)) !! k).

Lemma FillLogEntry_entry info name : entry_of info name (FillLogEntry info name (report_time info)).
Proof.
  split_and!; [done|done|done|]. intros k. rewrite FillLogEntry_fields, put_fields_lookup, lookup_empty.
  - done.
  - apply (bool_decide_unpack _). vm_compute. exact I.
  - intros j _. apply lookup_empty.
Qed.

Lemma report_logs_entries rb info :
  Forall2 (entry_of info) (if is_final_report info then logs_ rb else []) (report_logs rb info).
Proof.
  unfold report_logs. destruct (is_final_report info); [|constructor].
  apply Forall2_fmap_r, Forall_Forall2_diag, Forall_true. intros name. apply FillLogEntry_entry.
Qed.

Lemma describes_logs rb info id lw mw logs op :
  describes rb info id lw mw [] op → describes rb info id lw mw logs (set_log_entries logs op).
Proof. intros []. by constructor. Qed.

(** The metrics of the producer's operation and of the consumer's. *)
Lemma FillReportRequest_describes rb info request :
  builder_ok rb → (-100 < response_code info)%Z →
  ∃ main by_consumer,
    FillReportRequest rb info request
    = Some (mkReportRequest (service_name_ rb) (service_config_id_ rb)
              (rr_operations request ++ main ::
               (if is_empty (consumer_project_id (check_response_info info)) then []
                else [by_consumer])), Status_OK) ∧
    describes rb info (operation_id info) (λ l, negb (by_consumer_only l)) (main_metric info)
      (report_logs rb info) main ∧
    describes rb info (operation_id info +:+ "1") (λ _, true)
      (λ m, bool_decide (mark m = PRODUCER_BY_CONSUMER)) [] by_consumer.
Proof.
  intros Hok Hcode. unfold FillReportRequest, AppendByConsumerOperations. simpl negb. cbv iota.
  fold (report_time info). pose proof (SetOperationCommonFields_new info) as E. cbv zeta in E.
  rewrite E. set (op0 := mkOperation _ _ _ _ _ _ _ _).
  destruct (fill_operation_describes rb info (operation_id info) (λ l, negb (by_consumer_only l))
    (main_metric info) op0) as (main&->&Hmain); try done.
  destruct (fill_operation_describes rb info (operation_id info +:+ "1") (λ _, true)
    (λ m, bool_decide (mark m = PRODUCER_BY_CONSUMER))
    (set_operation_id (op_operation_id op0 +:+ "1") op0)) as (byc&->&Hbyc); try done.
  assert (∃ main', (if is_final_report info
    then set_log_entries (op_log_entries main ++
           ((λ name, FillLogEntry info name (report_time info)) <$> logs_ rb)) main
    else main) = main' ∧ describes rb info (operation_id info) (λ l, negb (by_consumer_only l))
      (main_metric info) (report_logs rb info) main') as (main'&Em&Hmain').
  { eexists. split; [done|]. unfold report_logs. destruct (is_final_report info); [|done].
    rewrite (d_logs _ _ _ _ _ _ _ Hmain). by apply describes_logs. }
  exists main', byc. split_and!; [|done|done]. simpl. rewrite Em. unfold add_operation. simpl.
  destruct (is_empty (consumer_project_id _)); simpl; [done|]. by rewrite <-app_assoc.
Qed.

End report.

(** ** Streams of reports *)

Section stream.
Context `{DH : DistributionHelper} `{LE : LabelEnv}.

Lemma supported_metrics_names : NoDup (metric_entry_name <$> supported_metrics).
Proof. apply (bool_decide_unpack _). vm_compute. exact I. Qed.

(** The reports of one request: the first and only the first is a first report,
    the last and only the last is final. *)
Definition stream_ok (infos : list ReportRequestInfo) : Prop :=
  ∀ i info, infos !! i = Some info →
    is_first_report info = bool_decide (i = 0) ∧
    is_final_report info = bool_decide (S i = length infos).

(** What a metric adds to the main operation of one report, its tag aside. *)
Definition contribution (m : SupportedMetric) (info : ReportRequestInfo)
  : list (MetricValueSet Distribution) := if main_metric info m then added m info else [].

(** What a metric adds to the main operations of a stream. *)
Definition stream_contribution (m : SupportedMetric) (infos : list ReportRequestInfo)
  : list (MetricValueSet Distribution) :=
  match tag m with
  | START => from_option (contribution m) [] (head infos)
  | INTERMEDIATE => infos ≫= contribution m
  | FINAL => from_option (contribution m) [] (last infos)
  end.

Context `{!DistributionHelperOk}.

Lemma added_named m info :
  metric_appends m → added m info = [] ∨ ∃ v, added m info = [mkMetricValueSet (metric_entry_name m) [v]].
Proof.
  intros Hm. unfold added. destruct (metric_set m) as [set|] eqn:Hset; [|by left].
  apply (Hm set Hset (metric_entry_name m) info new_Operation).
Qed.

Lemma filter_added m n info :
  metric_appends m →
  filter (λ vs, metric_name vs = n) (added m info)
  = if decide (metric_entry_name m = n) then added m info else [].
Proof.
  intros Hm. destruct (added_named m info Hm) as [->|[v ->]]; [by case_decide|].
  rewrite filter_cons, filter_nil. simpl. done.
Qed.

Lemma filter_report_metrics wanted ms info m :
  Forall metric_appends ms → NoDup (metric_entry_name <$> ms) → m ∈ ms →
  filter (λ vs, metric_name vs = metric_entry_name m) (report_metrics wanted ms info)
  = if wanted m && tag_reported info (tag m) then added m info else [].
Proof.
  intros Hms Hnd Hm. unfold report_metrics.
  assert (∀ ms', Forall metric_appends ms' → metric_entry_name m ∉ metric_entry_name <$> ms' →
    filter (λ vs, metric_name vs = metric_entry_name m)
      (FilterPointers (λ m, wanted m && tag_reported info (tag m)) ms' ≫= λ m, added m info) = [])
    as Hnone.
  { induction 1 as [|x ms' Hx _ IH]; intros Hnot; [done|].
    rewrite fmap_cons, not_elem_of_cons in Hnot. destruct Hnot as [Hne Hnot].
    cbn [FilterPointers]. case_match; [|auto]. rewrite bind_cons, filter_app, filter_added by done.
    rewrite decide_False by done. auto. }
  induction Hms as [|x ms Hx Hms IH]; [by apply not_elem_of_nil in Hm|].
  rewrite fmap_cons in Hnd. apply NoDup_cons in Hnd as [Hnot Hnd].
  cbn [FilterPointers]. apply elem_of_cons in Hm as [->|Hm].
  - destruct (wanted x && tag_reported info (tag x)); [|by apply Hnone].
    rewrite bind_cons, filter_app, filter_added by done. rewrite decide_True by done.
    by rewrite Hnone, app_nil_r.
  - assert (metric_entry_name x ≠ metric_entry_name m).
    { intros E. apply Hnot. rewrite E. by apply list_elem_of_fmap_2. }
    destruct (wanted x && tag_reported info (tag x)); [|by apply IH].
    rewrite bind_cons, filter_app, filter_added by done. rewrite decide_False by done.
    by apply IH.
Qed.

(** A stream's tail after the first report. *)
Lemma stream_bind m (f : ReportRequestInfo → list (MetricValueSet Distribution)) infos :
  stream_ok infos →
  (infos ≫= λ info, if tag_reported info (tag m) then f info else [])
  = match tag m with
    | START => from_option f [] (head infos)
    | INTERMEDIATE => infos ≫= f
    | FINAL => from_option f [] (last infos)
    end.
Proof.
  intros Hs. assert (∀ k l, infos = k ++ l →
    (l ≫= λ info, if tag_reported info (tag m) then f info else [])
    = match tag m with
      | START => if bool_decide (k = []) then from_option f [] (head l) else []
      | INTERMEDIATE => l ≫= f
      | FINAL => from_option f [] (last l)
      end) as Hgen.
  2: { specialize (Hgen [] infos eq_refl). by destruct (tag m). }
  intros k l. revert k. induction l as [|info l IH]; intros k Hk.
  { destruct (tag m); simpl; try done. by destruct (bool_decide _). }
  destruct (Hs (length k) info) as [Hf Hl]; [subst; by apply list_lookup_middle|].
  rewrite bind_cons. rewrite (IH (k ++ [info])) by (by rewrite <-app_assoc).
  assert (length infos = length k + S (length l)) as Hlen by (subst; by rewrite length_app).
  unfold tag_reported. rewrite Hf, Hl, Hlen.
  destruct (tag m); simpl.
  - rewrite (bool_decide_eq_false_2 (k ++ [info] = [])) by (by destruct k).
    rewrite !andb_false_r, andb_true_r, !orb_false_r.
    rewrite (bool_decide_ext (length k = 0) (k = [])); [|split; [apply nil_length_inv|by intros ->]].
    case_match; by rewrite ?app_nil_r.
  - rewrite !andb_true_r, andb_false_r. simpl. rewrite orb_negb_r. done.
  - rewrite !andb_false_r, andb_true_r, orb_false_r. simpl. destruct l as [|info' l]; simpl.
    + rewrite bool_decide_eq_true_2 by lia. by rewrite app_nil_r.
    + rewrite bool_decide_eq_false_2 by lia. done.
Qed.

End stream.

(** ** Decimal output *)

Lemma pretty_N_go_length k x s :
  (x < 10 ^ N.of_nat k)%N → String.length (pretty_N_go x s) ≤ k + String.length s.
Proof.
  revert x s. induction k as [|k IH]; intros x s Hx.
  - assert (x = 0%N) as -> by (simpl in Hx; lia). by rewrite pretty_N_go_0.
  - destruct (decide (x = 0%N)) as [->|Hne]; [rewrite pretty_N_go_0; lia|].
    rewrite pretty_N_go_step by lia. etrans; [apply IH|simpl; lia].
    rewrite Nat2N.inj_succ, N.pow_succ_r' in Hx. apply N.Div0.div_lt_upper_bound. lia.
Qed.

Lemma pretty_N_length k x :
  (x < 10 ^ N.of_nat k)%N → 0 < k → String.length (pretty x) ≤ k.
Proof.
  intros Hx Hk. unfold pretty, pretty_N. case_decide; [simpl; lia|].
  pose proof (pretty_N_go_length k x "" Hx) as Hg. simpl in Hg. lia.
Qed.

Lemma stake_all i s : String.length s ≤ i → stake i s = s.
Proof. revert i. induction s as [|c s IH]; intros [|i] H; simpl in *; try done; [lia|]. f_equal. apply IH. lia. Qed.

(** The buffer of 20 characters is long enough for every int. *)
Lemma snprintf_d_int z : (- 2 ^ 31 ≤ z < 2 ^ 31)%Z → snprintf_d z = pretty z.
Proof.
  intros Hz. unfold snprintf_d. apply stake_all.
  assert (∀ p, (Z.pos p ≤ 2 ^ 31)%Z → String.length (pretty (N.pos p)) ≤ 10) as Hp.
  { intros p Hp. apply pretty_N_length; [|lia]. simpl. lia. }
  destruct z as [|p|p]; [simpl; lia| |].
  - change (pretty (Z.pos p)) with (pretty (N.pos p)). specialize (Hp p). lia.
  - change (pretty (Z.neg p)) with ("-" +:+ pretty (N.pos p)). rewrite length_app_s.
    specialize (Hp p). simpl. lia.
Qed.

Lemma error_type_at_digit i : (0 ≤ i < 10)%Z → error_type_at i = Some (pretty i +:+ "xx").
Proof.
  intros Hi. assert (i ∈ [0; 1; 2; 3; 4; 5; 6; 7; 8; 9]%Z) as Hin by (simpl; set_unfold; lia).
  repeat (apply elem_of_cons in Hin as [->|Hin]; [vm_compute; reflexivity|]).
  by apply not_elem_of_nil in Hin.
Qed.

(** ** The statements *)

(** CreateTimestamp splits nanoseconds into seconds and nanoseconds: nothing
    is lost, the nanoseconds are below one second, and they are not negative for
    a time that is not before the epoch. *)
Lemma CreateTimestamp_correct ns :
  let t := CreateTimestamp ns in
  (seconds t * 1000000000 + nanos t = ns)%Z ∧ (Z.abs (nanos t) < 1000000000)%Z ∧
  ((0 ≤ nanos t)%Z ↔ (0 ≤ ns)%Z ∨ nanos t = 0%Z).
Proof.
  simpl. pose proof (Z.quot_rem' ns 1000000000) as E. split_and!; [lia| |].
  - pose proof (Z.rem_bound_abs ns 1000000000). lia.
  - destruct (Z.le_gt_cases 0 ns).
    + pose proof (Z.rem_bound_pos ns 1000000000). lia.
    + pose proof (Z.rem_nonpos ns 1000000000). lia.
Qed.

Section claims.
Context `{DH : DistributionHelper} `{LE : LabelEnv} `{!DistributionHelperOk}.

(** C26: a report that the distribution library accepts always succeeds, without
    undefined behaviour for response codes above -100; it appends one operation,
    and a second one with "1" after the id exactly when the check found a
    consumer project; each holds the ids, times, labels, metrics and log entries
    of the info ([describes]): logs only in a final report, one entry per log, whose
    fields are those of [log_fields] that the info has; no labels or metrics without
    an operation. *)
Theorem FillReportRequest_correct rb info request :
  builder_ok rb → (-100 < response_code info)%Z →
  ∃ main by_consumer,
    FillReportRequest rb info request
    = Some (mkReportRequest (service_name_ rb) (service_config_id_ rb)
              (rr_operations request ++ main ::
               (if is_empty (consumer_project_id (check_response_info info)) then []
                else [by_consumer])), Status_OK) ∧
    describes rb info (operation_id info) (λ l, negb (by_consumer_only l)) (main_metric info)
      (report_logs rb info) main ∧
    describes rb info (operation_id info +:+ "1") (λ _, true)
      (λ m, bool_decide (mark m = PRODUCER_BY_CONSUMER)) [] by_consumer ∧
    Forall2 (entry_of info) (if is_final_report info then logs_ rb else []) (report_logs rb info).
Proof.
  intros Hrb Hcode. destruct (FillReportRequest_describes rb info request Hrb Hcode) as (main&byc&?&?&?).
  exists main, byc. split_and!; [done..|]. apply report_logs_entries.
Qed.

(** Over the reports of a request, a START metric is sent with the first
    report only, a FINAL metric with the last only and an INTERMEDIATE metric
    with every report; consumer metrics only with an API key, and metrics by
    consumer never in the main operation. *)
Lemma FillReportRequest_stream rb infos ops m request :
  builder_ok rb → stream_ok infos → m ∈ metrics_ rb →
  Forall (λ info, has_operation info = true ∧ (-100 < response_code info)%Z) infos →
  Forall2 (λ info op, ∃ rest, FillReportRequest rb info request
     = Some (mkReportRequest (service_name_ rb) (service_config_id_ rb)
               (rr_operations request ++ op :: rest), Status_OK)) infos ops →
  filter (λ vs, metric_name vs = metric_entry_name m) (ops ≫= op_metric_value_sets)
  = stream_contribution m infos.
Proof.
  intros Hok Hs Hm Hall Hops. unfold stream_contribution. rewrite <-stream_bind by done.
  clear Hs. destruct Hok as [Hms Hls].
  pose proof (sublist_Forall _ _ _ Hms supported_metrics_append) as Happ.
  pose proof (sublist_NoDup_fmap metric_entry_name _ _ Hms supported_metrics_names) as Hnd.
  induction Hops as [|info op infos ops [rest Hr] _ IH]; [done|].
  apply Forall_cons in Hall as [[Hop Hcode] Hall].
  rewrite !bind_cons, filter_app, (IH Hall). f_equal.
  destruct (FillReportRequest_describes rb info request) as (main&byc&Hr'&Hmain&_);
    [by split|done|].
  rewrite Hr in Hr'. injection Hr' as Hr'. apply app_inv_head in Hr'. injection Hr' as -> _.
  rewrite (d_metrics _ _ _ _ _ _ _ Hmain), Hop, filter_report_metrics by done.
  unfold contribution. destruct (main_metric info m), (tag_reported info (tag m)); done.
Qed.

(** The labels of a final report of a builder with every label: response
    code and status in decimal, the class of the code as "Nxx", the credential
    from the API key or else the issuer and audience, the error type only from
    400 on. *)
Lemma FillReportRequest_labels logs svc cfg info request op rest :
  has_operation info = true → is_final_report info = true →
  (-100 < response_code info < 2 ^ 31)%Z → (- 2 ^ 31 ≤ error_code (status info) < 2 ^ 31)%Z →
  FillReportRequest (RequestBuilder_all logs svc cfg) info request
  = Some (mkReportRequest svc cfg (rr_operations request ++ op :: rest), Status_OK) →
  let class := pretty (Z.rem (Z.quot (response_code info) 100) 10) +:+ "xx" in
  op_labels op !! "/response_code" = Some (pretty (response_code info)) ∧
  op_labels op !! "/response_code_class" = Some class ∧
  op_labels op !! "/status_code" = Some (pretty (error_code (status info))) ∧
  op_labels op !! "/error_type" = (if (400 <=? response_code info)%Z then Some class else None) ∧
  op_labels op !! "/protocol" = Some (protocol.ToString (frontend_protocol info)) ∧
  op_labels op !! "/credential_id"
  = (if negb (is_empty (api_key info)) then Some ("apikey:" +:+ api_key info)
     else if is_empty (auth_issuer info) then None
     else Some ("jwtauth:issuer=" +:+ Base64Url_encode (auth_issuer info) +:+
                (if is_empty (auth_audience info) then ""
                 else "&audience=" +:+ Base64Url_encode (auth_audience info)))) ∧
  op_labels op !! kServiceControlConsumerProject = None.
Proof.
  intros Hop Hfin [Hc1 Hc2] Hst Hr.
  destruct (FillReportRequest_describes (RequestBuilder_all logs svc cfg) info request)
    as (main&byc&Hr'&Hmain&_); [apply RequestBuilder_all_ok|done|].
  rewrite Hr in Hr'. injection Hr' as Hr'. apply app_inv_head in Hr'. injection Hr' as -> _.
  assert (∀ l, l ∈ labels_ (RequestBuilder_all logs svc cfg) →
    op_labels main !! label_name l
    = if negb (by_consumer_only l) then report_label l info else None) as Hl.
  { intros l Hin. by rewrite (d_labels _ _ _ _ _ _ _ Hmain), Hop by done. }
  pose proof (error_type_at_digit _ (code_class_range _ Hc1)) as Hclass.
  unfold RequestBuilder_all, supported_labels, user_labels, cloud_labels, service_control_labels
    in Hl. simpl in Hl.
  split_and!;
    [pose proof (Hl (mkLabel "/response_code" LABEL_STRING USER (Some set_response_code) false))
       as Hi
    |pose proof (Hl (mkLabel "/response_code_class" LABEL_STRING USER
        (Some set_response_code_class) false)) as Hi
    |pose proof (Hl (mkLabel "/status_code" LABEL_STRING USER (Some set_status_code) false)) as Hi
    |pose proof (Hl (mkLabel "/error_type" LABEL_STRING USER (Some set_error_type) false)) as Hi
    |pose proof (Hl (mkLabel "/protocol" LABEL_STRING USER (Some set_protocol) false)) as Hi
    |pose proof (Hl (mkLabel "/credential_id" LABEL_STRING USER (Some set_credential_id) false))
       as Hi
    |pose proof (Hl (mkLabel kServiceControlConsumerProject LABEL_STRING SYSTEM
        (Some set_consumer_project) true)) as Hi];
    clear Hl; simpl in Hi; rewrite Hi by (repeat (apply list_elem_of_here || apply list_elem_of_further));
    clear Hi; unfold report_label; simpl; try done.
  - unfold set_response_code. rewrite Hfin. simpl. rewrite lookup_insert_eq, snprintf_d_int; [done|lia].
  - unfold set_response_code_class. rewrite Hfin. simpl. rewrite Hclass. simpl.
    by rewrite lookup_insert_eq.
  - unfold set_status_code. rewrite Hfin. simpl. by rewrite lookup_insert_eq, snprintf_d_int.
  - unfold set_error_type. case_match; [|done]. rewrite Hclass. simpl. by rewrite lookup_insert_eq.
  - unfold set_credential_id.
    destruct (is_empty (api_key info)), (is_empty (auth_issuer info)),
      (is_empty (auth_audience info)); simpl;
      rewrite ?lookup_insert_eq, ?app_nil_r_s; done.
Qed.

Lemma set_if_present_eq name v labels :
  labels !! name = None →
  set_if_present name v labels !! name = if is_empty v then None else Some v.
Proof. intros Hn. unfold set_if_present. destruct (is_empty v); simpl; by simplify_map_eq. Qed.

Lemma set_if_present_ne name name' v labels :
  name ≠ name' → set_if_present name v labels !! name' = labels !! name'.
Proof. intros Hn. unfold set_if_present. destruct (is_empty v); simpl; by simplify_map_eq. Qed.

Lemma op_labels_if (b : bool) x (op : Operation Distribution) :
  op_labels (if b then set_consumer_id x op else op) = op_labels op.
Proof. by destruct b. Qed.

Lemma not_elem_of_seven {A} (k a b c d e f g : A) :
  k ∉ [a; b; c; d; e; f; g] →
  k ≠ a ∧ k ≠ b ∧ k ≠ c ∧ k ≠ d ∧ k ≠ e ∧ k ≠ f ∧ k ≠ g ∧ k ∉ ([] : list A).
Proof. by rewrite !not_elem_of_cons. Qed.

(** C35: a check request without an operation id or name is refused and left as it
    was; otherwise it carries the builder's service, the ids, the API key as
    consumer, the current time as start and end time, no metrics, and exactly the
    labels of the info that are not empty with the two agent labels: no other key
    has a label. *)
Theorem FillCheckRequest_correct rb info :
  let empty := mkCheckRequest "" "" (@new_Operation Distribution) in
  let '(request, st) := FillCheckRequest rb info empty in
  let op := cr_operation request in
  let label (value : string) := if is_empty value then None else Some value in
  if is_empty (operation_id info)
  then request = empty ∧ st = mkStatus Code.INVALID_ARGUMENT "operation_id is required."
  else if is_empty (operation_name info)
  then request = empty ∧ st = mkStatus Code.INVALID_ARGUMENT "operation_name is required."
  else
    st = Status_OK ∧ cr_service_name request = service_name_ rb ∧
    cr_service_config_id request = service_config_id_ rb ∧
    op_operation_id op = operation_id info ∧ op_operation_name op = operation_name info ∧
    op_consumer_id op = (if is_empty (api_key info) then "" else "api_key:" +:+ api_key info) ∧
    op_start_time op = Some (CreateTimestamp (current_time info)) ∧
    op_end_time op = Some (CreateTimestamp (current_time info)) ∧
    op_metric_value_sets op = [] ∧ op_log_entries op = [] ∧
    (∀ k, k ∉ [kServiceControlCallerIp; kServiceControlReferer; kServiceControlUserAgent;
               kServiceControlServiceAgent; kServiceControlAndroidPackageName;
               kServiceControlAndroidCertFingerprint; kServiceControlIosBundleId] →
       op_labels op !! k = None) ∧
    op_labels op !! kServiceControlCallerIp = label (client_ip info) ∧
    op_labels op !! kServiceControlReferer = label (referer info) ∧
    op_labels op !! kServiceControlUserAgent = Some kUserAgent ∧
    op_labels op !! kServiceControlServiceAgent = Some get_service_agent ∧
    op_labels op !! kServiceControlAndroidPackageName = label (android_package_name info) ∧
    op_labels op !! kServiceControlAndroidCertFingerprint = label (android_cert_fingerprint info) ∧
    op_labels op !! kServiceControlIosBundleId = label (ios_bundle_id info).
Proof.
  cbv zeta. unfold FillCheckRequest, VerifyRequiredCheckFields.
  destruct (is_empty (operation_id info)) eqn:E1; [done|].
  destruct (is_empty (operation_name info)) eqn:E2; [done|].
  pose proof (λ name v, set_if_present_eq name v ∅ (lookup_empty _)) as Hempty.
  unfold SetOperationCommonFields. rewrite E1, E2. simpl.
  rewrite (op_labels_if (negb (is_empty (api_key info)))). simpl.
  split_and!; try by destruct (is_empty (api_key info)).
  all: try (intros k (?&?&?&?&?&?&?&_)%not_elem_of_seven).
  all: repeat first
    [ rewrite set_if_present_ne by first [done|congruence]
    | rewrite lookup_insert_ne by first [done|congruence]
    | rewrite lookup_insert_eq
    | rewrite set_if_present_eq ]; try done.
Qed.

(** A quota request is always filled: best effort, the API key or else the
    producer project as consumer, and one value per metric cost, which is at
    least 1. *)
Lemma FillAllocateQuotaRequest_correct rb info :
  let empty := mkAllocateQuotaRequest "" ""
    (@mkQuotaOperation Distribution "" "" "" QuotaMode_UNSPECIFIED ∅ []) in
  let '(request, st) := FillAllocateQuotaRequest rb info empty in
  let op := aqr_operation request in
  st = Status_OK ∧ qo_quota_mode op = BEST_EFFORT ∧ qo_operation_id op = operation_id info ∧
  qo_method_name op = method_name info ∧
  qo_consumer_id op
  = (if negb (is_empty (api_key info)) then "api_key:" +:+ api_key info
     else if is_empty (producer_project_id info) then ""
     else "project:" +:+ producer_project_id info) ∧
  qo_quota_metrics op
  = ((λ '(name, cost), mkMetricValueSet name [int64_value (Z.max 1 cost)]) <$>
       default [] (metric_cost_vector info)).
Proof.
  simpl. split_and!; try done.
  - destruct (is_empty (operation_id info)) eqn:E; [|done]. simpl. apply is_empty_true in E. done.
  - destruct (is_empty (method_name info)) eqn:E; [|done]. simpl. apply is_empty_true in E. done.
  - by destruct (is_empty (api_key info)), (is_empty (producer_project_id info)).
  - destruct (metric_cost_vector info) as [costs|]; [|done]. simpl. apply list_fmap_ext.
    intros _ [name cost] _. unfold quota_metric. simpl. do 3 f_equal.
    destruct (Z.leb_spec cost 0); lia.
Qed.

Lemma supported_metric_has_set m : m ∈ supported_metrics → has_metric_set m = true.
Proof.
  assert (forallb has_metric_set supported_metrics = true) as Hall by (vm_compute; done).
  rewrite forallb_forall in Hall. intros Hm. by apply Hall, list_elem_of_In.
Qed.

(** A metric descriptor is supported exactly when the table has an entry of
    its name, kind and type, and the builder made for a set of metrics keeps
    exactly the entries of those names; system labels are kept whatever the set
    of labels, user labels only when they are in it, and entries without a
    setter never. *)
Lemma RequestBuilder_select_correct logs ms ls svc cfg :
  (∀ d, IsMetricSupported d = true ↔ ∃ m, m ∈ supported_metrics ∧
     metric_entry_name m = md_name d ∧ metric_kind m = md_metric_kind d ∧
     metric_value_type m = md_value_type d) ∧
  (∀ m, m ∈ metrics_ (RequestBuilder_select logs ms ls svc cfg) ↔
     m ∈ supported_metrics ∧ metric_entry_name m ∈ ms) ∧
  (∀ l, l ∈ labels_ (RequestBuilder_select logs ms ls svc cfg) ↔
     l ∈ supported_labels ∧ label_set l ≠ None ∧ (kind l = SYSTEM ∨ label_name l ∈ ls)).
Proof.
  split_and!.
  - intros d. unfold IsMetricSupported. rewrite existsb_exists. split.
    + intros (m&Hm&E). apply list_elem_of_In in Hm. bools. eauto 10.
    + intros (m&Hm&<-&<-&<-). exists m. rewrite <-list_elem_of_In. split; [done|].
      by rewrite !bool_decide_eq_true_2.
  - intros m. unfold RequestBuilder_select. cbn [metrics_].
    rewrite FilterPointers_elem, andb_true_iff, bool_decide_eq_true.
    split; [tauto|]. intros [Hm Hin]. split_and!; try done.
    by apply supported_metric_has_set.
  - intros l. unfold RequestBuilder_select. cbn [labels_].
    rewrite FilterPointers_elem, andb_true_iff, orb_true_iff, !bool_decide_eq_true.
    unfold has_label_set. destruct (label_set l); intuition congruence.
Qed.

End claims.

(** Codes for which the request goes on although the check failed. *)
Definition fail_open (e : CheckErrorCode) : bool :=
  bool_decide (e ∈ [CE_NAMESPACE_LOOKUP_UNAVAILABLE; CE_SERVICE_STATUS_UNAVAILABLE;
    CE_BILLING_STATUS_UNAVAILABLE; CE_QUOTA_CHECK_UNAVAILABLE;
    CE_CLOUD_RESOURCE_MANAGER_BACKEND_UNAVAILABLE; CE_SECURITY_POLICY_BACKEND_UNAVAILABLE;
    CE_LOCATION_POLICY_BACKEND_UNAVAILABLE]).

Definition api_key_error (e : CheckErrorCode) : bool :=
  bool_decide (e ∈ [CE_API_KEY_NOT_FOUND; CE_API_KEY_EXPIRED; CE_API_KEY_INVALID]).

(** C27: what a check response means: the request is let through exactly when the
    response has no error or its first error is one of the seven that say a
    backend was unavailable; the API key is marked invalid by the three API key
    errors only, the service as not activated by its own error only, and the
    consumer project is stored when there is one.  A null info is followed
    exactly when there is one to store. *)
Theorem ConvertCheckResponse_correct response svc i :
  (∃ i' st, ConvertCheckResponse response svc (Some i) = Some (Some i', st) ∧
    consumer_project_id i'
    = (if (0 <? project_number response)%Z then pretty (project_number response)
       else consumer_project_id i) ∧
    (status_ok st = true ↔ from_option fail_open true (head (check_errors response)) = true) ∧
    is_api_key_valid i'
    = is_api_key_valid i && negb (from_option api_key_error false (head (check_errors response))) ∧
    service_is_activated i'
    = service_is_activated i &&
      negb (bool_decide (head (check_errors response) = Some CE_SERVICE_NOT_ACTIVATED)) ∧
    (status_ok st = false → error_code st ∈
       [Code.INVALID_ARGUMENT; Code.PERMISSION_DENIED; Code.INTERNAL])) ∧
  (ConvertCheckResponse response svc None = None ↔ (0 < project_number response)%Z).
Proof.
  destruct response as [number errors]. split.
  - unfold ConvertCheckResponse, store_consumer_project. simpl.
    set (i1 := if (0 <? number)%Z then set_consumer_project_id (pretty number) i else i).
    assert ((if (0 <? number)%Z then Some (Some (set_consumer_project_id (pretty number) i))
             else Some (Some i)) = Some (Some i1)) as ->
      by (unfold i1; by destruct (0 <? number)%Z).
    assert (consumer_project_id i1 = if (0 <? number)%Z then pretty number
            else consumer_project_id i) as <- by (unfold i1; by destruct (0 <? number)%Z).
    assert (is_api_key_valid i = is_api_key_valid i1 ∧ service_is_activated i = service_is_activated i1)
      as [-> ->] by (unfold i1; by destruct (0 <? number)%Z).
    clearbody i1. simpl. destruct errors as [|e errors]; simpl.
    + exists i1, Status_OK. rewrite !andb_true_r. by split_and!.
    + destruct e; simpl; (eexists _, _; split; [reflexivity|]); simpl;
        rewrite ?andb_true_r, ?andb_false_r; split_and!; try done; intros _; set_solver.
  - unfold ConvertCheckResponse, store_consumer_project. simpl.
    destruct (Z.ltb_spec 0 number); simpl; [done|].
    split; [|lia]. by destruct errors.
Qed.

(** ** An instance to evaluate *)

(** A distribution library that records the samples. *)
#[local] Instance sample_helper : DistributionHelper := {|
  Distribution := list double;
  InitExponential _ _ _ := ([], Status_OK);
  AddSample v d := (v :: d, Status_OK)
|}.

#[local] Instance sample_helper_ok : DistributionHelperOk.
Proof. split; intros; reflexivity. Defined.

#[local] Instance sample_env : LabelEnv := {| Base64Url_encode s := s; API_PROXY_VERSION_STRING := "1.0" |}.

Definition sample_operation : OperationInfo :=
  mkOperationInfo "id" "op" "producer" "key" "" 1500000000 "1.2.3.4" "".

Definition sample_report (first final : bool) : ReportRequestInfo :=
  mkReportRequestInfo sample_operation 404 Status_OK "/u" "" "" "" "m" 10 20
    (mkLatencyInfo 5 3 2) "" "" "" protocol.HTTP protocol.GRPC "GET" "GCE"
    (mkCheckResponseInfo true true "123") 7 "" 8 "" "" 0 0 0 first final.

Definition sample_builder : RequestBuilder := RequestBuilder_all {["log"]} "svc" "cfg".

Definition empty_report : ReportRequest (@Distribution sample_helper) := mkReportRequest "" "" [].

(** The first operation a report appends. *)
Definition main_operation (info : ReportRequestInfo) : Operation (@Distribution sample_helper) :=
  match FillReportRequest sample_builder info empty_report with
  | Some (r, _) => default new_Operation (head (rr_operations r))
  | None => new_Operation
  end.

Definition more_operations (info : ReportRequestInfo) : list (Operation (@Distribution sample_helper)) :=
  match FillReportRequest sample_builder info empty_report with
  | Some (r, _) => tail (rr_operations r)
  | None => []
  end.

Lemma sample_fill first final :
  FillReportRequest sample_builder (sample_report first final) empty_report
  = Some (mkReportRequest "svc" "cfg"
            (main_operation (sample_report first final) ::
             more_operations (sample_report first final)), Status_OK).
Proof.
  destruct (FillReportRequest_describes sample_builder (sample_report first final) empty_report)
    as (main&byc&E&_&_); [apply RequestBuilder_all_ok|done|].
  unfold main_operation, more_operations. by rewrite E.
Qed.

Lemma FillReportRequest_correct_witness :
  ∃ main by_consumer,
    FillReportRequest sample_builder (sample_report true true) empty_report
    = Some (mkReportRequest "svc" "cfg" [main; by_consumer], Status_OK) ∧
    op_operation_id main = "id" ∧ op_operation_id by_consumer = "id1" ∧
    length (op_log_entries main) = 1.
Proof.
  destruct (FillReportRequest_correct sample_builder (sample_report true true) empty_report)
    as (main&byc&E&Hm&Hb&_).
  - apply RequestBuilder_all_ok.
  - vm_compute. reflexivity.
  - exists main, byc. split; [exact E|]. destruct Hm, Hb. split_and!; try assumption.
    rewrite d_logs0. vm_compute. reflexivity.
Defined.

Lemma FillReportRequest_stream_witness :
  filter (λ vs, metric_name vs = "serviceruntime.googleapis.com/api/producer/request_count")
    ([main_operation (sample_report true false); main_operation (sample_report false true)]
       ≫= op_metric_value_sets)
  = [mkMetricValueSet "serviceruntime.googleapis.com/api/producer/request_count" [int64_value 1]].
Proof.
  apply (FillReportRequest_stream sample_builder [sample_report true false; sample_report false true]
    [main_operation (sample_report true false); main_operation (sample_report false true)]
    (mkMetric "serviceruntime.googleapis.com/api/producer/request_count" DELTA INT64 START PRODUCER
       (Some set_int64_metric_to_constant_1)) empty_report).
  - apply RequestBuilder_all_ok.
  - intros [|[|i]] info [= <-]; done.
  - right; left.
  - repeat constructor.
  - repeat constructor; eexists; apply sample_fill.
Defined.

Lemma FillReportRequest_labels_witness :
  op_labels (main_operation (sample_report true true)) !! "/response_code_class" = Some "4xx".
Proof.
  apply (FillReportRequest_labels {["log"]} "svc" "cfg" (sample_report true true) empty_report
    (main_operation (sample_report true true)) (more_operations (sample_report true true))).
  - reflexivity.
  - reflexivity.
  - split; vm_compute; reflexivity.
  - split; vm_compute; [discriminate|reflexivity].
  - apply sample_fill.
Defined.
