(* ===== verification/LogsMetricsLoader.v ===== *)
(** * Logs and metrics of a service:
    src/api_proxy/service_control/logs_metrics_loader.{h,cc}

    Which logs, metrics and labels a service configuration asks for, and that
    what is loaded is supported by the request builder. *)
From S2P Require Import Prelude RequestInfo SupportedMetrics SupportedLabels RequestBuilder RequestBuilderCorrect.

(** ** The service configuration: google.api.Service, as far as it is read *)

Record LogDescriptor := mkLogDescriptor { ld_name : string; ld_labels : list LabelDescriptor }.

Record MonitoredResourceDescriptor := mkMonitoredResourceDescriptor {
  mr_type : string;
  mr_labels : list LabelDescriptor
}.

(** Logging_LoggingDestination and Monitoring_MonitoringDestination: a monitored
    resource and the names of logs or metrics. *)
Record Destination := mkDestination { monitored_resource : string; names : list string }.

Record Service := mkService {
  logging_producer_destinations : list Destination;
  monitored_resources : list MonitoredResourceDescriptor;
  service_logs : list LogDescriptor;
  monitoring_producer_destinations : list Destination;
  monitoring_consumer_destinations : list Destination;
  service_metrics : list MetricDescriptor
}.

#[local] Abbreviation LabelMap := (gmap string LabelDescriptor).
#[local] Abbreviation MetricMap := (gmap string MetricDescriptor).

Section loader.
Context (label_supported_ : LabelDescriptor → bool) (metric_supported_ : MetricDescriptor → bool).

(** std::map::insert keeps an entry that is there. *)
Definition map_insert {V} (k : string) (v : V) (m : gmap string V) : gmap string V :=
  match m !! k with Some _ => m | None => <[k := v]> m end.

(** The first loop of AddLabels: the key of the first label in conflict. *)
Fixpoint find_conflict (descriptors : list LabelDescriptor) (labels : LabelMap) : option string :=
  match descriptors with
  | [] => None
  | ld :: descriptors =>
      match labels !! label_key ld with
      | Some existing =>
          if negb (bool_decide (label_value_type existing = label_value_type ld))
          then Some (label_key ld) else find_conflict descriptors labels
      | None => find_conflict descriptors labels
      end
  end.

(** AddLabels: the map after the call and the status. *)
Definition AddLabels (descriptors : list LabelDescriptor) (labels : LabelMap)
  : LabelMap * Status :=
  match find_conflict descriptors labels with
  | Some key => (labels, mkStatus Code.INVALID_ARGUMENT
                           ("Conflicting label in the configuration: " +:+ key))
  | None => (foldl (λ labels ld, if label_supported_ ld then map_insert (label_key ld) ld labels
                                 else labels) labels descriptors, Status_OK)
  end.

Fixpoint AddLogLabels (descriptors : list LogDescriptor) (log_name : string) (labels : LabelMap)
  : LabelMap * Status :=
  match descriptors with
  | [] => (labels, mkStatus Code.INVALID_ARGUMENT ("Log not found: " +:+ log_name))
  | ld :: descriptors =>
      if bool_decide (ld_name ld = log_name) then AddLabels (ld_labels ld) labels
      else AddLogLabels descriptors log_name labels
  end.

Fixpoint AddMonitoredResourceLabels (descriptors : list MonitoredResourceDescriptor)
    (monitored_resource_name : string) (labels : LabelMap) : LabelMap * Status :=
  match descriptors with
  | [] => (labels, mkStatus Code.INVALID_ARGUMENT
                     ("Monitored resource not found: " +:+ monitored_resource_name))
  | mr :: descriptors =>
      if bool_decide (mr_type mr = monitored_resource_name) then AddLabels (mr_labels mr) labels
      else AddMonitoredResourceLabels descriptors monitored_resource_name labels
  end.

(** The inner loop over the logs of a destination. *)
Fixpoint add_logs (log_names : list string) (log_descriptors : list LogDescriptor)
    (logs : gset string) (labels : LabelMap) : gset string * LabelMap :=
  match log_names with
  | [] => (logs, labels)
  | log_name :: log_names =>
      let '(labels, s) := AddLogLabels log_descriptors log_name labels in
      if negb (status_ok s) then add_logs log_names log_descriptors logs labels
      else add_logs log_names log_descriptors ({[log_name]} ∪ logs) labels
  end.

Fixpoint AddLoggingDestinations (destinations : list Destination)
    (monitored : list MonitoredResourceDescriptor) (log_descriptors : list LogDescriptor)
    (logs : gset string) (labels : LabelMap) : gset string * LabelMap * Status :=
  match destinations with
  | [] => (logs, labels, Status_OK)
  | ld :: destinations =>
      let '(labels, s) := AddMonitoredResourceLabels monitored (monitored_resource ld) labels in
      if negb (status_ok s)
      then AddLoggingDestinations destinations monitored log_descriptors logs labels
      else let '(logs, labels) := add_logs (names ld) log_descriptors logs labels in
           AddLoggingDestinations destinations monitored log_descriptors logs labels
  end.

Definition FindMetricDescriptor (metric_descriptors : list MetricDescriptor) (metric_name : string)
  : option MetricDescriptor :=
  List.find (λ md, bool_decide (md_name md = metric_name)) metric_descriptors.

(** The inner loop over the metrics of a destination. *)
Fixpoint add_metrics (metric_names : list string) (metric_descriptors : list MetricDescriptor)
    (metrics : MetricMap) (labels : LabelMap) : MetricMap * LabelMap :=
  match metric_names with
  | [] => (metrics, labels)
  | metric_name :: metric_names =>
      match FindMetricDescriptor metric_descriptors metric_name with
      | None => add_metrics metric_names metric_descriptors metrics labels
      | Some md =>
          if negb (metric_supported_ md)
          then add_metrics metric_names metric_descriptors metrics labels
          else
            let '(labels, s) := AddLabels (md_labels md) labels in
            if negb (status_ok s)
            then add_metrics metric_names metric_descriptors metrics labels
            else add_metrics metric_names metric_descriptors (map_insert metric_name md metrics)
                   labels
      end
  end.

Fixpoint AddMonitoringDestinations (destinations : list Destination)
    (monitored : list MonitoredResourceDescriptor) (metric_descriptors : list MetricDescriptor)
    (metrics : MetricMap) (labels : LabelMap) : MetricMap * LabelMap * Status :=
  match destinations with
  | [] => (metrics, labels, Status_OK)
  | md :: destinations =>
      let '(labels, s) := AddMonitoredResourceLabels monitored (monitored_resource md) labels in
      if negb (status_ok s)
      then AddMonitoringDestinations destinations monitored metric_descriptors metrics labels
      else let '(metrics, labels) := add_metrics (names md) metric_descriptors metrics labels in
           AddMonitoringDestinations destinations monitored metric_descriptors metrics labels
  end.

(** LoadLogsMetrics: the three sets after the call, and the status. *)
Definition LoadLogsMetrics (service : Service) (logs metrics labels : gset string)
  : gset string * gset string * gset string * Status :=
  let '(logs, labels_map, s) :=
    AddLoggingDestinations (logging_producer_destinations service) (monitored_resources service)
      (service_logs service) logs ∅ in
  if negb (status_ok s) then (logs, metrics, labels, s) else
  let '(metrics_map, labels_map, s) :=
    AddMonitoringDestinations (monitoring_producer_destinations service)
      (monitored_resources service) (service_metrics service) ∅ labels_map in
  if negb (status_ok s) then (logs, metrics, labels, s) else
  let '(metrics_map, labels_map, s) :=
    AddMonitoringDestinations (monitoring_consumer_destinations service)
      (monitored_resources service) (service_metrics service) metrics_map labels_map in
  if negb (status_ok s) then (logs, metrics, labels, s) else
  (logs, dom metrics_map ∪ metrics, dom labels_map ∪ labels, Status_OK).

(** ** What is asked for, in order *)

Definition FindLog (log_descriptors : list LogDescriptor) (log_name : string) : option LogDescriptor :=
  List.find (λ ld, bool_decide (ld_name ld = log_name)) log_descriptors.

Definition FindResource (descriptors : list MonitoredResourceDescriptor) (name : string)
  : option MonitoredResourceDescriptor :=
  List.find (λ mr, bool_decide (mr_type mr = name)) descriptors.

(** A name and the labels it comes with; a destination is the labels of its
    monitored resource and what it names. *)
#[local] Abbreviation Ask := (string * list LabelDescriptor)%type.
#[local] Abbreviation Asks := (list LabelDescriptor * list Ask)%type.

Definition destination_asks (service : Service) (labels_of : string → option (list LabelDescriptor))
    (d : Destination) : option Asks :=
  mr ← FindResource (monitored_resources service) (monitored_resource d);
  Some (mr_labels mr, omap (λ n, ls ← labels_of n; Some (n, ls)) (names d)).

(** The labels of a log that is described, and of a metric that is described and
    supported. *)
Definition log_labels (service : Service) (n : string) : option (list LabelDescriptor) :=
  ld_labels <$> FindLog (service_logs service) n.

Definition metric_labels (service : Service) (n : string) : option (list LabelDescriptor) :=
  md ← FindMetricDescriptor (service_metrics service) n;
  if metric_supported_ md then Some (md_labels md) else None.

Definition monitoring_destinations (service : Service) : list Destination :=
  monitoring_producer_destinations service ++ monitoring_consumer_destinations service.

Definition logging_asks (service : Service) : list Asks :=
  omap (destination_asks service (log_labels service)) (logging_producer_destinations service).

Definition monitoring_asks (service : Service) : list Asks :=
  omap (destination_asks service (metric_labels service)) (monitoring_destinations service).

(** Labels conflict with those loaded before when the key of one is loaded while
    the label itself is not supported: its type is another one. *)
Definition conflicts (labels : list LabelDescriptor) (loaded : gset string) : bool :=
  existsb (λ ld, bool_decide (label_key ld ∈ loaded) && negb (label_supported_ ld)) labels.

Definition supported_keys (labels : list LabelDescriptor) : gset string :=
  list_to_set (label_key <$> filter (λ ld, label_supported_ ld = true) labels).

(** What is accepted: the names whose labels do not conflict, and the labels. *)
Fixpoint accept (asks : list Ask) (loaded : gset string) : gset string * gset string :=
  match asks with
  | [] => (∅, loaded)
  | (n, labels) :: asks =>
      if conflicts labels loaded then accept asks loaded
      else let rest := accept asks (supported_keys labels ∪ loaded) in ({[n]} ∪ rest.1, rest.2)
  end.

Fixpoint accept_all (ds : list Asks) (loaded : gset string) : gset string * gset string :=
  match ds with
  | [] => (∅, loaded)
  | (resource, asks) :: ds =>
      if conflicts resource loaded then accept_all ds loaded
      else let here := accept asks (supported_keys resource ∪ loaded) in
           let rest := accept_all ds here.2 in (here.1 ∪ rest.1, rest.2)
  end.

Definition loaded_logs (service : Service) : gset string := (accept_all (logging_asks service) ∅).1.
Definition loaded_metrics (service : Service) : gset string :=
  (accept_all (monitoring_asks service) (accept_all (logging_asks service) ∅).2).1.
Definition loaded_labels (service : Service) : gset string :=
  (accept_all (monitoring_asks service) (accept_all (logging_asks service) ∅).2).2.

(** ** The loops are this selection *)

(** The supported label of a key has one type. *)
Hypothesis label_types : ∀ ld ld',
  label_supported_ ld = true → label_key ld = label_key ld' →
  label_supported_ ld' = bool_decide (label_value_type ld = label_value_type ld').

(** The map of labels holds the keys [loaded], each with a supported label. *)
Definition holds (labels : LabelMap) (loaded : gset string) : Prop :=
  dom labels = loaded ∧ map_Forall (λ k ld, label_key ld = k ∧ label_supported_ ld = true) labels.

Lemma find_conflict_spec ds labels loaded :
  holds labels loaded → conflicts ds loaded = negb (bool_decide (find_conflict ds labels = None)).
Proof using label_types.
  intros [<- Hl]. induction ds as [|ld ds IH]; [done|]. simpl. rewrite IH.
  destruct (labels !! label_key ld) as [existing|] eqn:E.
  - rewrite (bool_decide_eq_true_2 (_ ∈ dom _)) by (apply elem_of_dom; by eexists).
    destruct (Hl _ _ E) as [Hk Hs]. rewrite (label_types existing ld Hs Hk).
    by destruct (bool_decide (_ = label_value_type ld)).
  - rewrite bool_decide_eq_false_2; [done|]. by apply not_elem_of_dom.
Qed.

Lemma insert_labels_spec ds : ∀ labels loaded,
  holds labels loaded →
  holds (foldl (λ labels ld, if label_supported_ ld then map_insert (label_key ld) ld labels
                             else labels) labels ds) (supported_keys ds ∪ loaded).
Proof using label_types.
  induction ds as [|ld ds IH]; intros labels loaded Hl; simpl.
  { unfold supported_keys. simpl. by rewrite (left_id_L ∅ (∪)). }
  unfold supported_keys. rewrite filter_cons. destruct (label_supported_ ld) eqn:Es.
  - rewrite decide_True by done. simpl.
    rewrite <-(assoc_L (∪)), (comm_L (∪) {[_]}), <-(assoc_L (∪)), (comm_L (∪) loaded).
    apply IH. destruct Hl as [<- Hl]. unfold map_insert. destruct (labels !! label_key ld) eqn:E.
    + split; [|done]. apply elem_of_dom_2 in E. set_solver.
    + split; [by rewrite dom_insert_L|]. by apply map_Forall_insert_2.
  - rewrite decide_False by done. by apply IH.
Qed.

(** AddLabels. *)
Lemma AddLabels_spec ds labels loaded :
  holds labels loaded →
  status_ok (AddLabels ds labels).2 = negb (conflicts ds loaded) ∧
  holds (AddLabels ds labels).1 (if conflicts ds loaded then loaded else supported_keys ds ∪ loaded).
Proof using label_types.
  intros Hl. rewrite (find_conflict_spec ds labels loaded Hl). unfold AddLabels.
  destruct (find_conflict ds labels); simpl; [done|]. split; [done|]. by apply insert_labels_spec.
Qed.

Lemma FindMetricDescriptor_name mds name md :
  FindMetricDescriptor mds name = Some md → md_name md = name.
Proof. intros H. apply find_some in H as [_ He]. by apply bool_decide_eq_true in He. Qed.

(** AddLogLabels and AddMonitoredResourceLabels: the first descriptor of the name. *)
Lemma AddLogLabels_spec lds n labels :
  AddLogLabels lds n labels =
  match FindLog lds n with
  | Some ld => AddLabels (ld_labels ld) labels
  | None => (labels, mkStatus Code.INVALID_ARGUMENT ("Log not found: " +:+ n))
  end.
Proof. induction lds as [|ld lds IH]; [done|]. unfold FindLog in *. simpl. by case_bool_decide. Qed.

Lemma AddMonitoredResourceLabels_spec mrs n labels :
  AddMonitoredResourceLabels mrs n labels =
  match FindResource mrs n with
  | Some mr => AddLabels (mr_labels mr) labels
  | None => (labels, mkStatus Code.INVALID_ARGUMENT ("Monitored resource not found: " +:+ n))
  end.
Proof.
  induction mrs as [|mr mrs IH]; [done|]. unfold FindResource in *. simpl. by case_bool_decide.
Qed.

(** The loops over the names of a destination. *)
Lemma add_logs_spec service ns : ∀ logs labels loaded,
  holds labels loaded →
  let asks := omap (λ n, ls ← log_labels service n; Some (n, ls)) ns in
  (add_logs ns (service_logs service) logs labels).1 = (accept asks loaded).1 ∪ logs ∧
  holds (add_logs ns (service_logs service) logs labels).2 (accept asks loaded).2.
Proof using label_types.
  induction ns as [|n ns IH]; intros logs labels loaded Hl; simpl.
  { split; [|done]. by rewrite (left_id_L ∅ (∪)). }
  change (log_labels service n) with (ld_labels <$> FindLog (service_logs service) n).
  rewrite AddLogLabels_spec.
  destruct (FindLog (service_logs service) n) as [ld|]; simpl; [|by apply IH].
  destruct (AddLabels_spec (ld_labels ld) labels loaded Hl) as [Hs Hl'].
  destruct (AddLabels (ld_labels ld) labels) as [labels' st]. simpl in *. rewrite Hs.
  destruct (conflicts (ld_labels ld) loaded); simpl; [by apply IH|].
  destruct (IH ({[n]} ∪ logs) labels' _ Hl') as [-> ?]. split; [|done]. clear. set_solver.
Qed.

Lemma add_metrics_spec service ns : ∀ metrics labels loaded,
  holds labels loaded →
  let asks := omap (λ n, ls ← metric_labels service n; Some (n, ls)) ns in
  dom (add_metrics ns (service_metrics service) metrics labels).1
  = (accept asks loaded).1 ∪ dom metrics ∧
  holds (add_metrics ns (service_metrics service) metrics labels).2 (accept asks loaded).2.
Proof using label_types.
  induction ns as [|n ns IH]; intros metrics labels loaded Hl; simpl.
  { split; [|done]. by rewrite (left_id_L ∅ (∪)). }
  change (metric_labels service n) with
    (md ← FindMetricDescriptor (service_metrics service) n;
     if metric_supported_ md then Some (md_labels md) else None).
  destruct (FindMetricDescriptor (service_metrics service) n) as [md|]; simpl; [|by apply IH].
  destruct (metric_supported_ md); simpl; [|by apply IH].
  destruct (AddLabels_spec (md_labels md) labels loaded Hl) as [Hs Hl'].
  destruct (AddLabels (md_labels md) labels) as [labels' st]. simpl in *. rewrite Hs.
  destruct (conflicts (md_labels md) loaded); simpl; [by apply IH|].
  destruct (IH (map_insert n md metrics) labels' _ Hl') as [-> ?]. split; [|done].
  assert (dom (map_insert n md metrics) = {[n]} ∪ dom metrics) as ->.
  { unfold map_insert. destruct (metrics !! n) eqn:E; [|by rewrite dom_insert_L].
    apply elem_of_dom_2 in E. clear -E. set_solver. }
  clear. set_solver.
Qed.

(** The loops over the destinations. *)
Lemma AddLoggingDestinations_spec service ds : ∀ logs labels loaded,
  holds labels loaded →
  let asks := omap (destination_asks service (log_labels service)) ds in
  ∃ labels',
    AddLoggingDestinations ds (monitored_resources service) (service_logs service) logs labels
    = ((accept_all asks loaded).1 ∪ logs, labels', Status_OK) ∧
    holds labels' (accept_all asks loaded).2.
Proof using label_types.
  induction ds as [|d ds IH]; intros logs labels loaded Hl; simpl.
  { exists labels. by rewrite (left_id_L ∅ (∪)). }
  unfold destination_asks in *. rewrite AddMonitoredResourceLabels_spec.
  destruct (FindResource _ (monitored_resource d)) as [mr|]; simpl; [|by apply IH].
  destruct (AddLabels_spec (mr_labels mr) labels loaded Hl) as [Hs Hl'].
  destruct (AddLabels (mr_labels mr) labels) as [labels' st]. simpl in *. rewrite Hs.
  destruct (conflicts (mr_labels mr) loaded); simpl; [by apply IH|].
  destruct (add_logs_spec service (names d) logs labels' _ Hl') as [Hlogs Hl2].
  destruct (add_logs _ _ _ _) as [logs2 labels2]. simpl in *.
  destruct (IH logs2 labels2 _ Hl2) as (labels3&->&Hl3). exists labels3. split; [|done].
  rewrite Hlogs. f_equal. f_equal. clear. set_solver.
Qed.

Lemma AddMonitoringDestinations_spec service ds : ∀ metrics labels loaded,
  holds labels loaded →
  let asks := omap (destination_asks service (metric_labels service)) ds in
  ∃ metrics' labels',
    AddMonitoringDestinations ds (monitored_resources service) (service_metrics service) metrics labels
    = (metrics', labels', Status_OK) ∧
    dom metrics' = (accept_all asks loaded).1 ∪ dom metrics ∧
    holds labels' (accept_all asks loaded).2.
Proof using label_types.
  induction ds as [|d ds IH]; intros metrics labels loaded Hl; simpl.
  { exists metrics, labels. by rewrite (left_id_L ∅ (∪)). }
  unfold destination_asks in *. rewrite AddMonitoredResourceLabels_spec.
  destruct (FindResource _ (monitored_resource d)) as [mr|]; simpl; [|by apply IH].
  destruct (AddLabels_spec (mr_labels mr) labels loaded Hl) as [Hs Hl'].
  destruct (AddLabels (mr_labels mr) labels) as [labels' st]. simpl in *. rewrite Hs.
  destruct (conflicts (mr_labels mr) loaded); simpl; [by apply IH|].
  destruct (add_metrics_spec service (names d) metrics labels' _ Hl') as [Hm Hl2].
  destruct (add_metrics _ _ _ _) as [metrics2 labels2]. simpl in *.
  destruct (IH metrics2 labels2 _ Hl2) as (metrics3&labels3&->&Hm3&Hl3).
  exists metrics3, labels3. split_and!; try done. rewrite Hm3, Hm. clear. set_solver.
Qed.

Lemma accept_all_app ds1 ds2 loaded :
  accept_all (ds1 ++ ds2) loaded =
  ((accept_all ds1 loaded).1 ∪ (accept_all ds2 (accept_all ds1 loaded).2).1,
   (accept_all ds2 (accept_all ds1 loaded).2).2).
Proof.
  revert loaded. induction ds1 as [|[r asks] ds1 IH]; intros loaded; simpl.
  { rewrite (left_id_L ∅ (∪)). by destruct (accept_all ds2 loaded). }
  destruct (conflicts r loaded); [done|]. rewrite IH. simpl. by rewrite (assoc_L (∪)).
Qed.

Lemma LoadLogsMetrics_spec service logs metrics labels :
  LoadLogsMetrics service logs metrics labels
  = (loaded_logs service ∪ logs, loaded_metrics service ∪ metrics, loaded_labels service ∪ labels,
     Status_OK).
Proof using label_types.
  unfold LoadLogsMetrics, loaded_logs, loaded_metrics, loaded_labels, monitoring_asks,
    monitoring_destinations. rewrite omap_app, accept_all_app.
  destruct (AddLoggingDestinations_spec service (logging_producer_destinations service) logs ∅ ∅)
    as (l1&->&Hl1); [by split; [apply dom_empty_L|apply map_Forall_empty]|]. simpl.
  destruct (AddMonitoringDestinations_spec service (monitoring_producer_destinations service) ∅ l1 _ Hl1)
    as (m2&l2&->&Hm2&Hl2). simpl.
  destruct (AddMonitoringDestinations_spec service (monitoring_consumer_destinations service) m2 l2 _ Hl2)
    as (m3&l3&->&Hm3&Hl3). simpl.
  destruct Hl3 as [-> _]. rewrite Hm3, Hm2, dom_empty_L, (right_id_L ∅ (∪)).
  by rewrite (comm_L (∪) (accept_all _ (accept_all _ _).2).1 (accept_all _ (accept_all _ ∅).2).1).
Qed.

(** ** What is loaded, by the configuration *)

(** A label of a destination: of its resource or of what it names. *)
Definition label_of (d : Asks) (ld : LabelDescriptor) : Prop :=
  ld ∈ d.1 ∨ ∃ a, a ∈ d.2 ∧ ld ∈ a.2.

Lemma elem_of_supported_keys labels k :
  k ∈ supported_keys labels ↔ ∃ ld, ld ∈ labels ∧ label_supported_ ld = true ∧ label_key ld = k.
Proof.
  clear. unfold supported_keys. rewrite elem_of_list_to_set, list_elem_of_fmap.
  setoid_rewrite list_elem_of_filter. naive_solver.
Qed.

(** Nothing else is accepted. *)
Lemma accept_sound asks : ∀ loaded,
  (∀ n, n ∈ (accept asks loaded).1 → ∃ ls, (n, ls) ∈ asks) ∧
  ∀ k, k ∈ (accept asks loaded).2 → k ∈ loaded ∨
    ∃ a ld, a ∈ asks ∧ ld ∈ a.2 ∧ label_supported_ ld = true ∧ label_key ld = k.
Proof.
  clear. induction asks as [|[n0 ls0] asks IH]; intros loaded; simpl; [set_solver|].
  destruct (conflicts ls0 loaded); simpl.
  - destruct (IH loaded) as [H1 H2]. set_solver.
  - destruct (IH (supported_keys ls0 ∪ loaded)) as [H1 H2]. split.
    + intros n [->%elem_of_singleton|Hn]%elem_of_union; [eexists; left|].
      destruct (H1 n Hn) as [ls Hls]. eexists. by right.
    + intros k Hk. destruct (H2 k Hk) as [[Hk'|?]%elem_of_union|(a&ld&Ha&Hld)]; [|by left|].
      * apply elem_of_supported_keys in Hk' as (ld&Hld&?&?). right. exists (n0, ls0), ld. set_solver.
      * right. exists a, ld. set_solver.
Qed.

Lemma accept_all_sound ds : ∀ loaded,
  (∀ n, n ∈ (accept_all ds loaded).1 → ∃ d ls, d ∈ ds ∧ (n, ls) ∈ d.2) ∧
  ∀ k, k ∈ (accept_all ds loaded).2 → k ∈ loaded ∨
    ∃ d ld, d ∈ ds ∧ label_of d ld ∧ label_supported_ ld = true ∧ label_key ld = k.
Proof.
  clear. induction ds as [|[r asks] ds IH]; intros loaded; simpl; [set_solver|].
  destruct (conflicts r loaded); simpl.
  - destruct (IH loaded) as [H1 H2]. split; [|set_solver].
    intros n Hn. destruct (H1 n Hn) as (d&ls&?&?). exists d, ls. set_solver.
  - destruct (accept_sound asks (supported_keys r ∪ loaded)) as [H3 H4].
    destruct (IH (accept asks (supported_keys r ∪ loaded)).2) as [H1 H2]. split.
    + intros n [Hn|Hn]%elem_of_union.
      * destruct (H3 n Hn) as [ls Hls]. exists (r, asks), ls. split; [left|done].
      * destruct (H1 n Hn) as (d&ls&?&?). exists d, ls. set_solver.
    + intros k Hk. destruct (H2 k Hk) as [Hk2|(d&ld&?&?)]; [|right; exists d, ld; set_solver].
      destruct (H4 k Hk2) as [[Hk'|?]%elem_of_union|(a&ld&Ha&Hld&?)]; [|by left|].
      * apply elem_of_supported_keys in Hk' as (ld&Hld&?). right. exists (r, asks), ld.
        split_and!; [left|by left|naive_solver..].
      * right. exists (r, asks), ld. split_and!; [left|right; eauto|naive_solver..].
Qed.

(** Labels among [all] of which no two have the same key and other types: nothing
    is in conflict, and everything is accepted. *)
Section consistent.
Context (all : list LabelDescriptor).
Hypothesis consistent_all : ∀ ld ld',
  ld ∈ all → ld' ∈ all → label_key ld = label_key ld' → label_value_type ld = label_value_type ld'.

Lemma no_conflict labels loaded :
  labels ⊆ all → loaded ⊆ supported_keys all → conflicts labels loaded = false.
Proof using label_types consistent_all.
  intros Hls Hl. apply not_true_iff_false. unfold conflicts. rewrite existsb_exists.
  intros (ld&Hin&Hc). apply andb_true_iff in Hc as [Hk Hs]. apply bool_decide_eq_true in Hk.
  apply list_elem_of_In in Hin. apply Hl, elem_of_supported_keys in Hk as (ld'&Hin'&Hs'&Hk).
  rewrite (label_types ld' ld Hs' Hk), bool_decide_eq_true_2 in Hs; [done|].
  apply consistent_all; auto.
Qed.

Lemma supported_keys_subseteq labels : labels ⊆ all → supported_keys labels ⊆ supported_keys all.
Proof. clear. intros H k. rewrite !elem_of_supported_keys. set_solver. Qed.

Lemma accept_complete asks : ∀ loaded,
  (∀ a, a ∈ asks → a.2 ⊆ all) → loaded ⊆ supported_keys all →
  (∀ a, a ∈ asks → a.1 ∈ (accept asks loaded).1) ∧
  loaded ⊆ (accept asks loaded).2 ∧ (accept asks loaded).2 ⊆ supported_keys all ∧
  ∀ a, a ∈ asks → supported_keys a.2 ⊆ (accept asks loaded).2.
Proof using label_types consistent_all.
  induction asks as [|[n ls] asks IH]; intros loaded Ha Hl; simpl; [by set_solver|].
  assert (ls ⊆ all) as Hls by (apply (Ha (n, ls)); left).
  rewrite (no_conflict ls loaded Hls Hl). simpl.
  destruct (IH (supported_keys ls ∪ loaded)) as (H1&H2&H3&H4).
  { intros a Hin. apply Ha. by right. }
  { apply supported_keys_subseteq in Hls. clear -Hls Hl. set_solver. }
  clear -H1 H2 H3 H4. split_and!; [|set_solver|done|];
    (intros a [->|Hin]%elem_of_cons; simpl; [set_solver|]); [|by apply H4].
  apply elem_of_union. right. by apply H1.
Qed.

Lemma accept_all_complete ds : ∀ loaded,
  (∀ d ld, d ∈ ds → label_of d ld → ld ∈ all) → loaded ⊆ supported_keys all →
  (∀ d a, d ∈ ds → a ∈ d.2 → a.1 ∈ (accept_all ds loaded).1) ∧
  loaded ⊆ (accept_all ds loaded).2 ∧ (accept_all ds loaded).2 ⊆ supported_keys all ∧
  ∀ d ld, d ∈ ds → label_of d ld → label_supported_ ld = true →
    label_key ld ∈ (accept_all ds loaded).2.
Proof using label_types consistent_all.
  induction ds as [|[r asks] ds IH]; intros loaded Hd Hl; simpl.
  { split_and!; [|done|done|]; intros d ? Hin; by apply not_elem_of_nil in Hin. }
  assert (r ⊆ all) as Hr by (intros ld Hld; apply (Hd (r, asks)); [left|by left]).
  rewrite (no_conflict r loaded Hr Hl). simpl.
  destruct (accept_complete asks (supported_keys r ∪ loaded)) as (H1&H2&H3&H4).
  { intros a Ha ld Hld. apply (Hd (r, asks)); [left|right; eauto]. }
  { apply supported_keys_subseteq in Hr. clear -Hr Hl. set_solver. }
  destruct (IH (accept asks (supported_keys r ∪ loaded)).2) as (H5&H6&H7&H8); [|done|].
  { intros d ld Hin. apply Hd. by right. }
  split_and!; [| |done|].
  - intros d a [->|Hin]%elem_of_cons Ha; apply elem_of_union; [left; by apply H1|right; eauto].
  - etrans; [|exact H6]. clear -H2. set_solver.
  - intros d ld [->|Hin]%elem_of_cons Hld Hs; [|by eapply H8]. apply H6.
    destruct Hld as [Hld|(a&Ha&Hld)].
    + apply H2, elem_of_union. left. apply elem_of_supported_keys. eauto.
    + apply (H4 a Ha), elem_of_supported_keys. eauto.
Qed.

End consistent.

(** What a service asks for: a destination whose resource is described, and the
    logs and supported metrics that it names and that are described. *)
Definition described (service : Service) (d : Destination) (mr : MonitoredResourceDescriptor) : Prop :=
  FindResource (monitored_resources service) (monitored_resource d) = Some mr.

Definition asked_log (service : Service) (n : string) (l : LogDescriptor) : Prop :=
  ∃ d mr, d ∈ logging_producer_destinations service ∧ described service d mr ∧ n ∈ names d ∧
    FindLog (service_logs service) n = Some l.

Definition asked_metric (service : Service) (n : string) (md : MetricDescriptor) : Prop :=
  ∃ d mr, d ∈ monitoring_destinations service ∧ described service d mr ∧ n ∈ names d ∧
    FindMetricDescriptor (service_metrics service) n = Some md ∧ metric_supported_ md = true.

Definition asked_label (service : Service) (ld : LabelDescriptor) : Prop :=
  (∃ d mr, d ∈ logging_producer_destinations service ++ monitoring_destinations service ∧
     described service d mr ∧ ld ∈ mr_labels mr) ∨
  (∃ n l, asked_log service n l ∧ ld ∈ ld_labels l) ∨
  (∃ n md, asked_metric service n md ∧ ld ∈ md_labels md).

(** No two label descriptors of the service have the same key and other types. *)
Definition service_labels (service : Service) : list LabelDescriptor :=
  (monitored_resources service ≫= mr_labels) ++ (service_logs service ≫= ld_labels) ++
  (service_metrics service ≫= md_labels).

Definition consistent (service : Service) : Prop :=
  ∀ ld ld', ld ∈ service_labels service → ld' ∈ service_labels service →
    label_key ld = label_key ld' → label_value_type ld = label_value_type ld'.

Lemma elem_of_asks service labels_of (ds : list Destination) x :
  x ∈ omap (destination_asks service labels_of) ds ↔
  ∃ d mr, d ∈ ds ∧ described service d mr ∧ x.1 = mr_labels mr ∧
    x.2 = omap (λ n, ls ← labels_of n; Some (n, ls)) (names d).
Proof.
  clear. rewrite list_elem_of_omap. unfold destination_asks, described. split.
  - intros (d&Hd&E). destruct (FindResource _ _) as [mr|] eqn:Hr; simpl in E; [|done].
    injection E as <-. by exists d, mr.
  - intros (d&mr&Hd&Hr&H1&H2). exists d. split; [done|]. rewrite Hr. simpl. f_equal.
    destruct x. simpl in *. congruence.
Qed.

Lemma elem_of_names labels_of (ns : list string) (a : Ask) :
  a ∈ omap (λ n, ls ← labels_of n; Some (n, ls)) ns ↔ a.1 ∈ ns ∧ labels_of a.1 = Some a.2.
Proof.
  clear. rewrite list_elem_of_omap. destruct a as [n ls]. simpl. split.
  - intros (m&Hm&E). destruct (labels_of m) eqn:El; simpl in E; [|done]. by injection E as <- <-.
  - intros [Hn El]. exists n. by rewrite El.
Qed.

Lemma log_labels_some service n ls :
  log_labels service n = Some ls ↔
  ∃ l, FindLog (service_logs service) n = Some l ∧ ls = ld_labels l.
Proof.
  clear. unfold log_labels. destruct (FindLog _ _) as [l|]; simpl; split.
  - intros [= <-]. eauto.
  - by intros (?&[= <-]&->).
  - done.
  - by intros (?&?&_).
Qed.

Lemma metric_labels_some service n ls :
  metric_labels service n = Some ls ↔
  ∃ md, FindMetricDescriptor (service_metrics service) n = Some md ∧ metric_supported_ md = true ∧
    ls = md_labels md.
Proof.
  clear. unfold metric_labels. destruct (FindMetricDescriptor _ _) as [md|]; simpl; split.
  - destruct (metric_supported_ md) eqn:E; [|done]. intros [= <-]. eauto.
  - by intros (?&[= <-]&->&->).
  - done.
  - by intros (?&?&_).
Qed.

(** The logs, the metrics and the labels of the flattened configuration. *)
Lemma logging_asks_log service n :
  (∃ x ls, x ∈ logging_asks service ∧ (n, ls) ∈ x.2) ↔ ∃ l, asked_log service n l.
Proof.
  clear. unfold logging_asks, asked_log. split.
  - intros (x&ls&(d&mr&Hd&Hmr&_&->)%elem_of_asks&[Hn Hl]%elem_of_names). simpl in *.
    apply log_labels_some in Hl as (l&Hl&_). eauto 10.
  - intros (l&d&mr&Hd&Hmr&Hn&Hl). eexists (_, _), _. split; [apply elem_of_asks; by exists d, mr|].
    apply elem_of_names. simpl. split; [done|]. apply log_labels_some. eauto.
Qed.

Lemma monitoring_asks_metric service n :
  (∃ x ls, x ∈ monitoring_asks service ∧ (n, ls) ∈ x.2) ↔ ∃ md, asked_metric service n md.
Proof.
  clear. unfold monitoring_asks, asked_metric. split.
  - intros (x&ls&(d&mr&Hd&Hmr&_&->)%elem_of_asks&[Hn Hl]%elem_of_names). simpl in *.
    apply metric_labels_some in Hl as (md&Hl&Hs&_). eauto 10.
  - intros (md&d&mr&Hd&Hmr&Hn&Hl&Hs). eexists (_, _), _. split; [apply elem_of_asks; by exists d, mr|].
    apply elem_of_names. simpl. split; [done|]. apply metric_labels_some. eauto.
Qed.

Lemma asks_label service ld :
  (∃ x, x ∈ logging_asks service ++ monitoring_asks service ∧ label_of x ld) ↔ asked_label service ld.
Proof.
  clear. unfold logging_asks, monitoring_asks, asked_label, asked_log, asked_metric, label_of. split.
  - intros (x&[Hx|Hx]%elem_of_app&Hl); apply elem_of_asks in Hx as (d&mr&Hd&Hmr&H1&H2);
      rewrite H1, H2 in Hl; (destruct Hl as [Hl|(a&[Hn Ha]%elem_of_names&Hl)];
      [left; exists d, mr; by rewrite elem_of_app; auto|right]).
    + left. apply log_labels_some in Ha as (l&Hf&Hls). rewrite Hls in Hl. eauto 10.
    + right. apply metric_labels_some in Ha as (md&Hf&Hs&Hls). rewrite Hls in Hl. eauto 12.
  - intros [(d&mr&Hd&Hmr&Hl)|[(n&l&(d&mr&Hd&Hmr&Hn&Hf)&Hl)|(n&md&(d&mr&Hd&Hmr&Hn&Hf&Hs)&Hl)]].
    + apply elem_of_app in Hd as [Hd|Hd]; eexists (mr_labels mr, _); rewrite elem_of_app, !elem_of_asks;
        (split; [|by left]); [left|right]; exists d, mr; by split_and!.
    + eexists (mr_labels mr, _). rewrite elem_of_app, !elem_of_asks.
      split; [left; exists d, mr; by split_and!|right]. exists (n, ld_labels l). split; [|done].
      apply elem_of_names. simpl. split; [done|]. apply log_labels_some. eauto.
    + eexists (mr_labels mr, _). rewrite elem_of_app, !elem_of_asks.
      split; [right; exists d, mr; by split_and!|right]. exists (n, md_labels md). split; [|done].
      apply elem_of_names. simpl. split; [done|]. apply metric_labels_some. eauto.
Qed.

Lemma asked_label_described service ld : asked_label service ld → ld ∈ service_labels service.
Proof.
  clear. unfold service_labels. rewrite !elem_of_app, !list_elem_of_bind.
  intros [(d&mr&_&Hmr&Hl)|[(n&l&(d&mr&_&_&_&Hf)&Hl)|(n&md&(d&mr&_&_&_&Hf&_)&Hl)]].
  - left. apply find_some in Hmr as [Hin _]. exists mr. split; [done|by apply list_elem_of_In].
  - right. left. apply find_some in Hf as [Hin _]. exists l. split; [done|by apply list_elem_of_In].
  - right. right. apply find_some in Hf as [Hin _]. exists md. split; [done|by apply list_elem_of_In].
Qed.

Lemma loaded_sound service :
  (∀ n, n ∈ loaded_logs service → ∃ l, asked_log service n l) ∧
  (∀ n, n ∈ loaded_metrics service → ∃ md, asked_metric service n md) ∧
  (∀ k, k ∈ loaded_labels service →
     ∃ ld, asked_label service ld ∧ label_supported_ ld = true ∧ label_key ld = k).
Proof.
  clear. unfold loaded_logs, loaded_metrics, loaded_labels.
  destruct (accept_all_sound (logging_asks service) ∅) as [H1 H2].
  destruct (accept_all_sound (monitoring_asks service) (accept_all (logging_asks service) ∅).2)
    as [H3 H4]. split_and!.
  - intros n Hn. by apply logging_asks_log, H1.
  - intros n Hn. by apply monitoring_asks_metric, H3.
  - setoid_rewrite <-asks_label. setoid_rewrite elem_of_app.
    intros k [[Hk|(x&ld&?&?&?)]%H2|(x&ld&?&?&?)]%H4; [by apply not_elem_of_empty in Hk|eauto 10..].
Qed.

Lemma loaded_complete service :
  consistent service →
  (∀ n l, asked_log service n l → n ∈ loaded_logs service) ∧
  (∀ n md, asked_metric service n md → n ∈ loaded_metrics service) ∧
  (∀ ld, asked_label service ld → label_supported_ ld = true → label_key ld ∈ loaded_labels service).
Proof using label_types.
  intros Hc. unfold loaded_logs, loaded_metrics, loaded_labels.
  assert (∀ x ld, x ∈ logging_asks service ∨ x ∈ monitoring_asks service → label_of x ld →
    ld ∈ service_labels service) as Hin.
  { intros x ld Hx Hl. apply asked_label_described, asks_label. exists x. by rewrite elem_of_app. }
  destruct (accept_all_complete _ Hc (logging_asks service) ∅) as (H1&_&H2&H3);
    [intros x ld Hx; apply Hin; by left|set_solver|].
  destruct (accept_all_complete _ Hc (monitoring_asks service)
    (accept_all (logging_asks service) ∅).2) as (H4&H5&_&H6); [intros x ld Hx; apply Hin; by right|exact H2|].
  split_and!.
  - intros n l Hn. destruct (proj2 (logging_asks_log service n)) as (x&ls&Hx&Hls); [eauto|].
    by apply (H1 x (n, ls)).
  - intros n md Hn. destruct (proj2 (monitoring_asks_metric service n)) as (x&ls&Hx&Hls); [eauto|].
    by apply (H4 x (n, ls)).
  - intros ld (x&[Hx|Hx]%elem_of_app&Hl)%asks_label Hs; [apply H5|]; eauto.
Qed.

End loader.

Section load.
Context `{DH : DistributionHelper} `{LE : LabelEnv}.

(** LogsMetricsLoader::Load. *)
Definition Load (service : Service) (logs metrics labels : gset string)
  : gset string * gset string * gset string * Status :=
  LoadLogsMetrics IsLabelSupported IsMetricSupported service logs metrics labels.

Lemma IsLabelSupported_spec ld :
  IsLabelSupported ld = true ↔ ∃ l, l ∈ supported_labels ∧ label_name l = label_key ld ∧
    label_entry_value_type l = label_value_type ld.
Proof.
  unfold IsLabelSupported. rewrite existsb_exists. setoid_rewrite list_elem_of_In. split.
  - intros (l&Hl&Hs). bools. eauto.
  - intros (l&Hl&Hk&Ht). exists l. split; [done|].
    by rewrite !bool_decide_eq_true_2 by congruence.
Qed.

Lemma NoDup_fmap_inj {A B} (f : A → B) (l : list A) x y :
  NoDup (f <$> l) → x ∈ l → y ∈ l → f x = f y → x = y.
Proof.
  intros Hnd [i Hi]%list_elem_of_lookup [j Hj]%list_elem_of_lookup Hf.
  assert (i = j) as ->; [|congruence].
  apply (NoDup_lookup (f <$> l) i j (f x)); [done|..]; rewrite list_lookup_fmap.
  - by rewrite Hi.
  - rewrite Hj. simpl. congruence.
Qed.

(** The keys of the label table are distinct, so that each has one type. *)
Lemma IsLabelSupported_types ld ld' :
  IsLabelSupported ld = true → label_key ld = label_key ld' →
  IsLabelSupported ld' = bool_decide (label_value_type ld = label_value_type ld').
Proof.
  intros (l&Hl&Hk&Ht)%IsLabelSupported_spec Hkk. apply eq_true_iff_eq.
  rewrite bool_decide_eq_true, IsLabelSupported_spec. split.
  - intros (l'&Hl'&Hk'&Ht'). rewrite <-Ht, <-Ht'. f_equal.
    apply (NoDup_fmap_inj _ _ _ _ supported_labels_names); congruence.
  - intros Hv. exists l. split_and!; congruence.
Qed.

#[local] Abbreviation loaded_logs := (loaded_logs IsLabelSupported).
#[local] Abbreviation loaded_metrics := (loaded_metrics IsLabelSupported IsMetricSupported).
#[local] Abbreviation loaded_labels := (loaded_labels IsLabelSupported IsMetricSupported).
#[local] Abbreviation asked_metric := (asked_metric IsMetricSupported).
#[local] Abbreviation asked_label := (asked_label IsMetricSupported).

(** C28: loading a service configuration never fails and adds exactly what the
    configuration asks for in order.  Each logging destination of the producer and
    then each monitoring destination of the producer and of the consumer is taken
    when its resource is described and its labels do not conflict with those loaded
    before; then each log, or supported metric, that it names is taken when it is
    described and its labels do not conflict; the supported labels of what is taken
    are loaded.  So nothing is loaded that is not asked for, the builder made from the
    result has an entry for every metric, and every label is in the table; and when
    no two labels of the service have the same key and different types, everything
    asked for is loaded. *)
Theorem Load_correct service logs metrics labels svc cfg :
  Load service logs metrics labels
  = (loaded_logs service ∪ logs, loaded_metrics service ∪ metrics, loaded_labels service ∪ labels,
     Status_OK) ∧
  (∀ n, n ∈ loaded_logs service → ∃ l, asked_log service n l) ∧
  (∀ n, n ∈ loaded_metrics service →
     (∃ md, asked_metric service n md) ∧
     ∃ m, m ∈ metrics_ (RequestBuilder_select (loaded_logs service) (loaded_metrics service)
                          (loaded_labels service) svc cfg) ∧ metric_entry_name m = n) ∧
  (∀ k, k ∈ loaded_labels service →
     ∃ ld l, asked_label service ld ∧ label_key ld = k ∧ l ∈ supported_labels ∧
       label_name l = k ∧ label_entry_value_type l = label_value_type ld) ∧
  (consistent service →
   (∀ n l, asked_log service n l → n ∈ loaded_logs service) ∧
   (∀ n md, asked_metric service n md → n ∈ loaded_metrics service) ∧
   (∀ ld, asked_label service ld → IsLabelSupported ld = true → label_key ld ∈ loaded_labels service)).
Proof.
  destruct (loaded_sound IsLabelSupported IsMetricSupported service) as (H1&H2&H3).
  split; [by apply LoadLogsMetrics_spec, IsLabelSupported_types|]. split_and!; [done|..].
  - intros n Hn. split; [by apply H2|]. destruct (H2 n Hn) as (md&d&mr&_&_&_&Hf&Hsup).
    apply FindMetricDescriptor_name in Hf. unfold IsMetricSupported in Hsup.
    apply existsb_exists in Hsup as (m&Hmin&Hsup). bools. exists m. split; [|congruence].
    apply FilterPointers_elem. apply list_elem_of_In in Hmin. split; [done|].
    apply andb_true_iff. split; [|apply bool_decide_eq_true; congruence].
    by apply supported_metric_has_set.
  - intros k (ld&Hld&(l&Hl&Hk&Ht)%IsLabelSupported_spec&<-)%H3. by exists ld, l.
  - by apply loaded_complete, IsLabelSupported_types.
Qed.

End load.

#[local] Existing Instance sample_helper.
#[local] Existing Instance sample_env.

Definition count_metric : string := "serviceruntime.googleapis.com/api/producer/request_count".
Definition consumer_metric : string := "serviceruntime.googleapis.com/api/consumer/request_count".

(** A service whose consumer destination names [consumer_metric], with a label of
    the type given. *)
Definition sample_service (t : LabelValueType) : Service :=
  mkService [mkDestination "res" ["log"]]
    [mkMonitoredResourceDescriptor "res" [mkLabelDescriptor "/protocol" LABEL_STRING]]
    [mkLogDescriptor "log" [mkLabelDescriptor "unknown" LABEL_BOOL]]
    [mkDestination "res" [count_metric; "other"]; mkDestination "missing" [count_metric]]
    [mkDestination "res" [consumer_metric]]
    [mkMetricDescriptor count_metric DELTA INT64 [];
     mkMetricDescriptor consumer_metric DELTA INT64 [mkLabelDescriptor "/protocol" t];
     mkMetricDescriptor "other" GAUGE INT64 []].

(** A metric whose label conflicts is skipped, and with it its labels. *)
Example sample_load :
  Load (sample_service LABEL_STRING) ∅ ∅ ∅
  = ({["log"]}, {[count_metric; consumer_metric]}, {["/protocol"]}, Status_OK) ∧
  Load (sample_service LABEL_BOOL) ∅ ∅ ∅
  = ({["log"]}, {[count_metric]}, {["/protocol"]}, Status_OK).
Proof. split; apply (bool_decide_unpack _); vm_compute; exact I. Qed.

Lemma Load_correct_witness :
  consistent (sample_service LABEL_STRING) ∧
  consumer_metric ∈ loaded_metrics IsLabelSupported IsMetricSupported (sample_service LABEL_STRING).
Proof.
  assert (consistent (sample_service LABEL_STRING)) as Hc.
  { intros ld ld' H1 H2. cbn in H1, H2. rewrite !elem_of_cons in H1, H2.
    rewrite elem_of_nil in H1, H2.
    destruct H1 as [->|[->|[->|[]]]], H2 as [->|[->|[->|[]]]]; cbn; congruence. }
  split; [exact Hc|].
  destruct (Load_correct (sample_service LABEL_STRING) ∅ ∅ ∅ "svc" "cfg") as (_&_&_&_&H).
  destruct (H Hc) as (_&Hm&_). eapply Hm.
  exists (mkDestination "res" [consumer_metric]), (mkMonitoredResourceDescriptor "res"
    [mkLabelDescriptor "/protocol" LABEL_STRING]).
  split; [vm_compute; set_solver|]. split; [reflexivity|]. split; [left|].
  split; vm_compute; reflexivity.
Defined.
