(* ===== verification/EnvoyUtils.v ===== *)
(** * The proxy as the filters see it, and src/envoy/utils

    Header maps and filter state are the proxy's: they are classes of operations
    with the laws the filters rely on, and an instance on finite maps.  Then
    http_header_utils, filter_state_utils and json_struct. *)
From S2P Require Import Prelude RequestInfo.

(** ** Header maps *)

(** Http::HeaderMap.  Names are lower case.  [hm_get] is get() with the value of
    the entry, [hm_remove] remove(), [hm_add] addCopy(), [hm_set]
    setReferenceKey(). *)
Class HeaderMapOps (H : Type) := {
  hm_get : H → string → option string;
  hm_remove : string → H → H;
  hm_add : string → string → H → H;
  hm_set : string → string → H → H;
  hm_byteSize : H → Z
}.

Class HeaderMapLaws (H : Type) `{HeaderMapOps H} : Prop := {
  hm_get_remove_eq (h : H) k : hm_get (hm_remove k h) k = None;
  hm_get_remove_ne (h : H) k k' : k ≠ k' → hm_get (hm_remove k h) k' = hm_get h k';
  hm_get_add_eq (h : H) k v : hm_get h k = None → hm_get (hm_add k v h) k = Some v;
  hm_get_add_ne (h : H) k k' v : k ≠ k' → hm_get (hm_add k v h) k' = hm_get h k';
  hm_get_set_eq (h : H) k v : hm_get (hm_set k v h) k = Some v;
  hm_get_set_ne (h : H) k k' v : k ≠ k' → hm_get (hm_set k v h) k' = hm_get h k'
}.

(** The inline headers :path and :method. *)
Definition hm_Path `{HeaderMapOps H} (h : H) : option string := hm_get h ":path".
Definition hm_Method `{HeaderMapOps H} (h : H) : option string := hm_get h ":method".

(** remove then addCopy, as the filters replace a header. *)
Definition hm_replace `{HeaderMapOps H} (k v : string) (h : H) : H := hm_add k v (hm_remove k h).

Section replace.
Context `{HeaderMapLaws H}.

Lemma hm_get_replace_eq (h : H) k v : hm_get (hm_replace k v h) k = Some v.
Proof. apply hm_get_add_eq, hm_get_remove_eq. Qed.

Lemma hm_get_replace_ne (h : H) k k' v : k ≠ k' → hm_get (hm_replace k v h) k' = hm_get h k'.
Proof. intros. unfold hm_replace. by rewrite hm_get_add_ne, hm_get_remove_ne. Qed.

End replace.

(** A header map with one value per name. *)
Definition header_size (h : gmap string string) : Z :=
  Z.of_nat (foldr (λ '(k, v) n, String.length k + String.length v + n) 0 (map_to_list h)).

#[export] Instance gmap_header_ops : HeaderMapOps (gmap string string) := {
  hm_get h k := h !! k;
  hm_remove k h := delete k h;
  hm_add k v h := match h !! k with Some _ => h | None => <[k := v]> h end;
  hm_set k v h := <[k := v]> h;
  hm_byteSize := header_size
}.

#[export] Instance gmap_header_laws : HeaderMapLaws (gmap string string).
Proof. split; simpl; intros; repeat case_match; by simplify_map_eq. Qed.

(** Http::LowerCaseString: std::tolower on every character. *)
Definition to_lower_char (c : ascii) : ascii :=
  let n := N_of_ascii c in
  if (65 <=? n)%N && (n <=? 90)%N then ascii_of_N (n + 32) else c.

Fixpoint LowerCaseString (s : string) : string :=
  match s with "" => "" | String c s => String (to_lower_char c) (LowerCaseString s) end.

(** ** http_header_utils *)

Definition kHttpMethodOverrideHeader : string := "x-http-method-override".

Definition readHeaderEntry (entry : option string) : string := default "" entry.

Definition extractHeader `{HeaderMapOps H} (headers : H) (header : string) : string :=
  readHeaderEntry (hm_get headers header).

Definition getRequestHTTPMethodWithOverride `{HeaderMapOps H} (originalMethod : string)
    (headers : H) : string :=
  match hm_get headers kHttpMethodOverrideHeader with
  | Some entry => entry
  | None => originalMethod
  end.

(** ** Filter state *)

(** StreamInfo::FilterState restricted to string data: [fs_set] is setData with
    a read-only string, [None] when it throws; [fs_get] is hasData and
    getDataReadOnly. *)
Class FilterStateOps (F : Type) := {
  fs_set : string → string → F → option F;
  fs_get : F → string → option string
}.

Class FilterStateLaws (F : Type) `{FilterStateOps F} : Prop := {
  fs_set_fresh (f : F) k v : fs_get f k = None → is_Some (fs_set k v f);
  fs_set_twice (f : F) k v : is_Some (fs_get f k) → fs_set k v f = None;
  fs_get_set_eq (f f' : F) k v : fs_set k v f = Some f' → fs_get f' k = Some v;
  fs_get_set_ne (f f' : F) k k' v : fs_set k v f = Some f' → k ≠ k' → fs_get f' k' = fs_get f k'
}.

#[export] Instance gmap_filter_state_ops : FilterStateOps (gmap string string) := {
  fs_set k v f := match f !! k with Some _ => None | None => Some (<[k := v]> f) end;
  fs_get f k := f !! k
}.

#[export] Instance gmap_filter_state_laws : FilterStateLaws (gmap string string).
Proof. split; simpl; intros; case_match; simplify_eq; by simplify_map_eq. Qed.

(** filter_state_utils.h: the names the path matcher filter writes. *)
Definition kOperation : string := "envoy.filters.http.path_matcher.operation".
Definition kQueryParams : string := "envoy.filters.http.path_matcher.query_params".

Definition setStringFilterState `{FilterStateOps F} (data_name value : string) (f : F) : option F :=
  fs_set data_name value f.

Definition getStringFilterState `{FilterStateOps F} (f : F) (data_name : string) : string :=
  default "" (fs_get f data_name).

(** ** json_struct *)

(** google::protobuf::Struct: the top-level fields. *)
Abbreviation Struct := (gmap string Value).

Section json.
(** TimeUtil::FromString. *)
Context (FromString : string → option Timestamp).

(** The [value] argument is left alone unless the status is OK: [Some] is what
    is written. *)
Definition getString (fields : Struct) (key : string) : option string * Status :=
  match fields !! key with
  | None => (None, mkStatus Code.NOT_FOUND "Field not found")
  | Some (string_value s) => (Some s, Status_OK)
  | Some _ => (None, mkStatus Code.INVALID_ARGUMENT "Field is not a string")
  end.

Definition INT_MAX : Z := 2147483647.
Definition INT_MIN : Z := -2147483648.

Definition is_nan (d : double) : bool := match d with S754_nan => true | _ => false end.

(** static_cast<int>: truncation; [None] when the value does not fit, which is
    undefined behaviour. *)
Definition double_trunc (d : double) : option Z :=
  match d with
  | S754_zero _ => Some 0%Z
  | S754_finite s m e =>
      let v := match e with
               | Zneg k => (Z.pos m / 2 ^ Z.pos k)%Z
               | _ => (Z.pos m * 2 ^ e)%Z
               end in
      Some (if s then (- v)%Z else v)
  | _ => None
  end.

Definition double_to_int (d : double) : option Z :=
  z ← double_trunc d;
  if (INT_MIN <=? z)%Z && (z <=? INT_MAX)%Z then Some z else None.

(** getInteger: [None] outside is undefined behaviour in the cast. *)
Definition getInteger (fields : Struct) (key : string) : option (option Z * Status) :=
  match fields !! key with
  | None => Some (None, mkStatus Code.NOT_FOUND "Field not found")
  | Some (number_value d) =>
      if SFltb d (double_of_int INT_MIN) || SFltb (double_of_int INT_MAX) d || is_nan d
      then Some (None, mkStatus Code.INVALID_ARGUMENT "Field overflows an integer")
      else v ← double_to_int d; Some (Some v, Status_OK)
  | Some _ => Some (None, mkStatus Code.INVALID_ARGUMENT "Field is not a number")
  end.

Definition getTimestamp (fields : Struct) (key : string) : option Timestamp * Status :=
  let '(strValue, parse_status) := getString fields key in
  if negb (status_ok parse_status) then (None, parse_status)
  else match FromString (default "" strValue) with
       | Some t => (Some t, Status_OK)
       | None => (None, mkStatus Code.INVALID_ARGUMENT "Field is not a Timestamp")
       end.

End json.

(** A double that fits in 53 bits. *)
Lemma valid_mantissa s m e :
  valid_binary 53 1024 (S754_finite s m e) = true → (Z.pos m < 2 ^ 53)%Z.
Proof.
  simpl. unfold bounded, canonical_mantissa, fexp, emin. intros Hb.
  apply andb_true_iff in Hb as [Hc _]. apply Z.eqb_eq in Hc.
  assert (Z.pos (digits2_pos m) ≤ 53)%Z as Hd by lia.
  assert (∀ p, (Z.pos p < 2 ^ Z.pos (digits2_pos p))%Z) as Hdig.
  { clear. induction p as [p IH|p IH|]; simpl digits2_pos;
      rewrite ?Pos2Z.inj_succ, ?Z.pow_succ_r by lia; lia. }
  eapply Z.lt_le_trans; [apply Hdig|]. apply Z.pow_le_mono_r; lia.
Qed.

Lemma double_of_INT_MAX : double_of_int INT_MAX = S754_finite false 9007199250546688 (-22).
Proof. vm_compute. reflexivity. Qed.
Lemma double_of_INT_MIN : double_of_int INT_MIN = S754_finite true 4503599627370496 (-21).
Proof. vm_compute. reflexivity. Qed.

Lemma SFltb_negative m e m' e' :
  SFltb (S754_finite true m e) (S754_finite true m' e') = false →
  (e < e' ∨ (e = e' ∧ Z.pos m ≤ Z.pos m'))%Z.
Proof.
  unfold SFltb, SFcompare. destruct (Z.compare_spec e e') as [->|?|?]; try done; [|lia].
  change (PosDef.Pos.compare_cont Eq m m') with (Pos.compare m m').
  destruct (Pos.compare_spec m m'); try done; lia.
Qed.

Lemma SFltb_positive m e m' e' :
  SFltb (S754_finite false m' e') (S754_finite false m e) = false →
  (e < e' ∨ (e = e' ∧ Z.pos m ≤ Z.pos m'))%Z.
Proof.
  unfold SFltb, SFcompare. destruct (Z.compare_spec e' e) as [->|?|?]; try done; [|lia].
  change (PosDef.Pos.compare_cont Eq m' m) with (Pos.compare m' m).
  destruct (Pos.compare_spec m' m); try done; lia.
Qed.

(** The guard of getInteger keeps the cast in range. *)
Lemma getInteger_in_range d :
  valid_binary 53 1024 d = true →
  SFltb d (double_of_int INT_MIN) || SFltb (double_of_int INT_MAX) d || is_nan d = false →
  ∃ z, double_trunc d = Some z ∧ (INT_MIN ≤ z ≤ INT_MAX)%Z.
Proof.
  rewrite double_of_INT_MAX, double_of_INT_MIN. unfold INT_MIN, INT_MAX.
  destruct d as [s|s| |s m e]; try done.
  - intros. exists 0%Z. split; [done|lia].
  - by destruct s.
  - intros Hv%valid_mantissa Hg. eexists. split; [reflexivity|].
    assert (e < 0 ∧ (e ≤ -22 ∨ (e = -21 ∧ s = true ∧ Z.pos m ≤ 4503599627370496)) ∧
            (e = -22 → s = false → Z.pos m ≤ 9007199250546688))%Z as (He&Hc&Hm).
    { apply orb_false_iff in Hg as [[Hlo Hhi]%orb_false_iff _]. destruct s.
      - apply SFltb_negative in Hlo. lia.
      - apply SFltb_positive in Hhi. lia. }
    destruct e as [|e|k]; try lia.
    assert (0 ≤ Z.pos m / 2 ^ Z.pos k)%Z by (apply Z.div_pos; lia).
    assert (2 ^ 21 ≤ 2 ^ Z.pos k)%Z as H21 by (apply Z.pow_le_mono_r; lia).
    destruct s; cbn [double_trunc].
    + assert (Z.pos m / 2 ^ Z.pos k ≤ 2147483648)%Z; [|lia].
      apply Z.div_le_upper_bound; [lia|].
      destruct Hc as [Hc|(Hc&_&Hm')].
      * assert (2 ^ 22 ≤ 2 ^ Z.pos k)%Z by (apply Z.pow_le_mono_r; lia). lia.
      * lia.
    + assert (Z.pos m / 2 ^ Z.pos k ≤ 2147483647)%Z; [|lia].
      destruct Hc as [Hc|(_&[=]&_)]. destruct (Z.eq_dec (Z.neg k) (-22)%Z) as [E|E].
      * injection E as ->. specialize (Hm eq_refl eq_refl).
        apply Z.lt_succ_r, Z.div_lt_upper_bound; lia.
      * assert (2 ^ 23 ≤ 2 ^ Z.pos k)%Z by (apply Z.pow_le_mono_r; lia).
        apply Z.lt_succ_r, Z.div_lt_upper_bound; lia.
Qed.

Lemma getInteger_spec (fields : Struct) key :
  (∀ d, fields !! key = Some (number_value d) → valid_binary 53 1024 d = true) →
  ∃ v st, getInteger fields key = Some (v, st) ∧
    match v with
    | Some z => st = Status_OK ∧ (INT_MIN ≤ z ≤ INT_MAX)%Z ∧
        ∃ d, fields !! key = Some (number_value d) ∧ double_trunc d = Some z
    | None => status_ok st = false
    end.
Proof.
  intros Hv. unfold getInteger.
  destruct (fields !! key) as [x|] eqn:E; [|by eexists _, _].
  destruct x as [| |d| | | |]; try by eexists _, _.
  destruct (_ || _ || _) eqn:Hg; [by eexists _, _|].
  destruct (getInteger_in_range d (Hv d eq_refl) Hg) as (z&Hz&Hr).
  exists (Some z), Status_OK. unfold double_to_int. rewrite Hz. simpl.
  rewrite (proj2 (Z.leb_le _ _)), (proj2 (Z.leb_le _ _)) by lia. eauto 10.
Qed.

(** GetInteger never casts a double that does not fit: it reports a missing
    field, a field of another type, or a number out of the range of int (NaN and
    infinities included), and otherwise writes the truncated number. *)
Lemma getInteger_correct (fields : Struct) key :
  (∀ d, fields !! key = Some (number_value d) → valid_binary 53 1024 d = true) →
  ∃ v st, getInteger fields key = Some (v, st) ∧
    match v with
    | Some z => st = Status_OK ∧ (INT_MIN ≤ z ≤ INT_MAX)%Z ∧
        ∃ d, fields !! key = Some (number_value d) ∧ double_trunc d = Some z
    | None => status_ok st = false
    end.
Proof. apply getInteger_spec. Qed.

Lemma getInteger_correct_witness :
  getInteger {["expires_in" := number_value (ddiv (double_of_int 7001) (double_of_int 2))]} "expires_in"
  = Some (Some 3500%Z, Status_OK) ∧
  ∃ v st, getInteger {["n" := number_value (double_of_int 2147483648)]} "n" = Some (v, st).
Proof.
  split; [vm_compute; reflexivity|].
  destruct (getInteger_correct {["n" := number_value (double_of_int 2147483648)]} "n")
    as (v&st&E&_).
  - intros d Hd. rewrite lookup_singleton_eq in Hd. injection Hd as <-. vm_compute. reflexivity.
  - exists v, st. exact E.
Defined.
