(* ===== verification/RoutingFilters.v ===== *)
(** * Path matching and backend routing: src/envoy/http/path_matcher and
    src/envoy/http/backend_routing

    The path matcher filter finds the operation of a request and leaves it, and
    the query made of the path parameters, in the filter state; the backend
    routing filter reads them and rewrites the path.  [None] is a null pointer
    that is followed or an exception that nobody catches. *)
From S2P Require Import Prelude HttpTemplate TemplateGrammar PathMatcherNode PathMatcher RequestPath PathMatcherCorrect RequestInfo EnvoyUtils.

(** Http::FilterHeadersStatus. *)
Inductive FilterHeadersStatus := Continue | StopIteration.

(** What a decoder filter does to the stream besides the headers: the filter
    state, the local replies it sends (code, body, details), and whether it sets
    the response flag UnauthorizedExternalService. *)
Record LocalReply := mkLocalReply { reply_code : Z; reply_body : string; reply_details : string }.

Record Stream (F : Type) := mkStream {
  filter_state : F;
  replies : list LocalReply;
  unauthorized_flag : bool
}.
Arguments mkStream {F}.
Arguments filter_state {F}.
Arguments replies {F}.
Arguments unauthorized_flag {F}.

Section filters.
Context `{HeaderMapOps H} `{FilterStateOps F}.

(** sendLocalReply and setResponseFlag, as every rejection does. *)
Definition reject (code : Z) (body details : string) (s : Stream F) : Stream F :=
  mkStream (filter_state s) (replies s ++ [mkLocalReply code body details]) true.

Definition set_filter_state (f : F) (s : Stream F) : Stream F :=
  mkStream f (replies s) (unauthorized_flag s).

End filters.

(** ** Path matcher filter *)

Module PathMatcherFilter.

(** A rule of the configuration: google.api.envoy.http.path_matcher. *)
Record PathMatcherRule := mkPathMatcherRule {
  operation : string;
  pattern_http_method : string;
  pattern_uri_template : string;
  extract_path_parameters : bool
}.

Record ProtoConfig := mkProtoConfig {
  rules : list PathMatcherRule;
  segment_names : list (string * string)
}.

(** class FilterConfig. *)
Record FilterConfig := mkFilterConfig {
  path_matcher_ : PathMatcher string;
  snake_to_json_map_ : gmap string string;
  path_params_operations_ : gset string
}.

(** The loop of the constructor; [inl] is the exception. *)
Fixpoint register_rules (rs : list PathMatcherRule) (pmb : PathMatcher string)
    (path_params : gset string) : string + (PathMatcher string * gset string) :=
  match rs with
  | [] => inr (pmb, path_params)
  | rule :: rs =>
      let '(ok, pmb) :=
        Register (pattern_http_method rule) (pattern_uri_template rule) "" (operation rule) pmb in
      if negb ok then inl "Duplicated pattern"
      else register_rules rs pmb
             (if extract_path_parameters rule then {[operation rule]} ∪ path_params
              else path_params)
  end.

(** emplace keeps an entry that is there. *)
Definition emplace {V} (m : gmap string V) (kv : string * V) : gmap string V :=
  match m !! kv.1 with Some _ => m | None => <[kv.1 := kv.2]> m end.

(** FilterConfig(). *)
Definition new_FilterConfig (proto_config : ProtoConfig) : string + FilterConfig :=
  match register_rules (rules proto_config) new_builder ∅ with
  | inl e => inl e
  | inr (pmb, path_params) =>
      inr (mkFilterConfig (Build pmb) (foldl emplace ∅ (segment_names proto_config)) path_params)
  end.

Definition findOperation (config : FilterConfig) (http_method path : string) : option string :=
  PathMatcher.Lookup http_method path (path_matcher_ config).

Definition findOperation_bindings (config : FilterConfig) (http_method path : string)
    (bindings : list VariableBinding) : option (option string * list VariableBinding) :=
  Lookup_bindings http_method path bindings (path_matcher_ config).

Definition needParameterExtraction (config : FilterConfig) (operation : string) : bool :=
  bool_decide (operation ∈ path_params_operations_ config).

(** FilterStats. *)
Record FilterStats := mkFilterStats { allowed : Z; denied : Z }.

Section filter.
Context `{HeaderMapOps H} `{FilterStateOps F}.

Definition rejectRequest (code : Z) (error_msg : string) (stats : FilterStats) (s : Stream F)
  : FilterStats * Stream F :=
  (mkFilterStats (allowed stats) (denied stats + 1), reject code error_msg "path_not_defined" s).

(** Storing the query made of the bindings, unless there are none. *)
Definition store_query_params (config : FilterConfig) (variable_bindings : list VariableBinding)
    (s : Stream F) : option (Stream F) :=
  match variable_bindings with
  | [] => Some s
  | _ =>
      let query_params :=
        VariableBindingsToQueryParameters variable_bindings (snake_to_json_map_ config) in
      f ← setStringFilterState kQueryParams query_params (filter_state s);
      Some (set_filter_state f s)
  end.

(** Filter::decodeHeaders: the status, the stats and the stream after the call. *)
Definition decodeHeaders (config : FilterConfig) (headers : H) (stats : FilterStats) (s : Stream F)
  : option (FilterHeadersStatus * FilterStats * Stream F) :=
  original ← hm_Method headers;
  let method := getRequestHTTPMethodWithOverride original headers in
  path ← hm_Path headers;
  match findOperation config method path with
  | None =>
      let '(stats, s) :=
        rejectRequest 404 "Path does not match any requirement URI template." stats s in
      Some (StopIteration, stats, s)
  | Some operation =>
      f ← setStringFilterState kOperation operation (filter_state s);
      let s := set_filter_state f s in
      s ← (if needParameterExtraction config operation then
             '(_, variable_bindings) ← findOperation_bindings config method path [];
             store_query_params config variable_bindings s
           else Some s);
      Some (Continue, mkFilterStats (allowed stats + 1) (denied stats), s)
  end.

End filter.
End PathMatcherFilter.

(** ** Backend routing filter *)

Module BackendRouting.

(** BackendRoutingRule. *)
Record BackendRoutingRule := mkBackendRoutingRule {
  operation : string;
  is_const_address : bool;
  path_prefix : string
}.

(** FilterConfig: backend_routing_map_[rule.operation()] = &rule, for each rule. *)
Definition new_FilterConfig (rules : list BackendRoutingRule) : gmap string BackendRoutingRule :=
  foldl (λ m rule, <[operation rule := rule]> m) ∅ rules.

Definition findRule (config : gmap string BackendRoutingRule) (operation : string)
  : option BackendRoutingRule := config !! operation.

(** FilterStats. *)
Record FilterStats := mkFilterStats {
  append_path_to_address_request : Z;
  constant_address_request : Z
}.

(** The new path for a rule. *)
Definition new_path (rule : BackendRoutingRule) (original_path queryParamFromPathParam : string)
  : string :=
  if is_const_address rule then
    match find_first_of "?" original_path with
    | Some originalQueryParamPos =>
        let originalQueryParam := sdrop originalQueryParamPos original_path in
        let newPath := path_prefix rule +:+ originalQueryParam in
        if negb (is_empty queryParamFromPathParam)
        then newPath +:+ "&" +:+ queryParamFromPathParam else newPath
    | None =>
        if negb (is_empty queryParamFromPathParam)
        then path_prefix rule +:+ "?" +:+ queryParamFromPathParam else path_prefix rule
    end
  else path_prefix rule +:+ original_path.

Section filter.
Context `{HeaderMapOps H} `{FilterStateOps F}.

(** Filter::decodeHeaders: the headers and the stats after the call; the status
    is always Continue. *)
Definition decodeHeaders (config : gmap string BackendRoutingRule) (headers : H)
    (stats : FilterStats) (f : F) : FilterHeadersStatus * H * FilterStats :=
  let operation := getStringFilterState f kOperation in
  if is_empty operation then (Continue, headers, stats) else
  match findRule config operation with
  | None => (Continue, headers, stats)
  | Some rule =>
      match hm_Path headers with
      | None => (Continue, headers, stats)
      | Some original_path =>
          let newPath := new_path rule original_path (getStringFilterState f kQueryParams) in
          let stats :=
            if is_const_address rule
            then mkFilterStats (append_path_to_address_request stats)
                   (constant_address_request stats + 1)
            else mkFilterStats (append_path_to_address_request stats + 1)
                   (constant_address_request stats) in
          (Continue, hm_replace ":path" newPath headers, stats)
      end
  end.

End filter.
End BackendRouting.

(** ** Correctness *)

(** A rule of the configuration as a registration. *)
Definition rule_of (r : PathMatcherFilter.PathMatcherRule) : Rule string :=
  mkRule (PathMatcherFilter.pattern_http_method r) (PathMatcherFilter.pattern_uri_template r) ""
    (PathMatcherFilter.operation r).

Lemma register_rules_all rs pmb pp pmb' pp' :
  PathMatcherFilter.register_rules rs pmb pp = inr (pmb', pp') →
  register_all (rule_of <$> rs) pmb = Some pmb' ∧
  ∀ o, o ∈ pp' ↔ o ∈ pp ∨ ∃ r, r ∈ rs ∧ PathMatcherFilter.operation r = o ∧
                              PathMatcherFilter.extract_path_parameters r = true.
Proof.
  revert pmb pp. induction rs as [|r rs IH]; intros pmb pp Hr; simpl in Hr.
  - simplify_eq. split; [done|]. intros o. split; [by left|].
    intros [?|(r&Hin&_)]; [done|by apply not_elem_of_nil in Hin].
  - rewrite fmap_cons. cbn [register_all]. unfold rule_of at 1 2 3 4. simpl.
    destruct (Register _ _ _ _ pmb) as [ok pmb1]. destruct ok; [|done].
    destruct (IH _ _ Hr) as [-> Hpp]. split; [done|]. intros o. rewrite Hpp.
    assert (o ∈ (if PathMatcherFilter.extract_path_parameters r
                 then {[PathMatcherFilter.operation r]} ∪ pp else pp) ↔
      o ∈ pp ∨ (PathMatcherFilter.operation r = o ∧
                PathMatcherFilter.extract_path_parameters r = true)) as ->.
    { destruct (PathMatcherFilter.extract_path_parameters r);
        rewrite ?elem_of_union, ?elem_of_singleton; intuition congruence. }
    split.
    + intros [[?|?]|(r'&?&?&?)]; [by left|right; exists r|right; exists r'];
        rewrite elem_of_cons; auto.
    + intros [?|(r'&[->|?]%elem_of_cons&?&?)]; [by left; left|by left; right|right; eauto].
Qed.

Lemma store_query_params_spec `{FilterStateLaws F} config bs (s : Stream F) :
  fs_get (filter_state s) kQueryParams = None →
  ∃ s', PathMatcherFilter.store_query_params config bs s = Some s' ∧ replies s' = replies s ∧
    fs_get (filter_state s') kOperation = fs_get (filter_state s) kOperation ∧
    fs_get (filter_state s') kQueryParams
    = if bool_decide (bs = []) then None
      else Some (str_join "&" (query_param (PathMatcherFilter.snake_to_json_map_ config) <$> bs)).
Proof.
  intros Hq. destruct bs as [|b bs]; [by exists s|].
  rewrite (bool_decide_eq_false_2 (_ = [])) by done.
  unfold PathMatcherFilter.store_query_params, VariableBindingsToQueryParameters.
  rewrite bindings_params_join by done. rewrite app_nil_l_s. set (q := str_join "&" _).
  destruct (fs_set_fresh (filter_state s) kQueryParams q Hq) as [f Hf].
  unfold setStringFilterState. rewrite Hf. eexists. split_and!; [reflexivity|done| |]; simpl.
  - by rewrite (fs_get_set_ne _ _ _ kOperation _ Hf).
  - by rewrite (fs_get_set_eq _ _ _ _ Hf).
Qed.

Section path_matcher_filter.
Context `{HeaderMapOps H} `{FilterStateLaws F}.
Context (pc : PathMatcherFilter.ProtoConfig) (config : PathMatcherFilter.FilterConfig).
Hypothesis Hconfig : PathMatcherFilter.new_FilterConfig pc = inr config.
Hypothesis Hsmall :
  Forall (λ r, fits_int (PathMatcherFilter.pattern_uri_template r)) (PathMatcherFilter.rules pc).

#[local] Abbreviation matcher := (PathMatcherFilter.path_matcher_ config).
#[local] Abbreviation all_rules := (rule_of <$> PathMatcherFilter.rules pc).

(** The query the filter stores for a match, if it stores one. *)
Definition stored_query (op : string) (ht : HttpTemplate) (parts : list string) : option string :=
  if PathMatcherFilter.needParameterExtraction config op && negb (bool_decide (variables ht = []))
  then Some (str_join "&" (query_param (PathMatcherFilter.snake_to_json_map_ config) <$>
                           (binding_of parts <$> variables ht)))
  else None.

Lemma config_registered : register_all all_rules new_builder = Some matcher.
Proof using Hconfig.
  unfold PathMatcherFilter.new_FilterConfig in Hconfig.
  destruct (PathMatcherFilter.register_rules _ _ _) as [|[pmb pp]] eqn:E; [done|].
  injection Hconfig as <-. by apply register_rules_all in E as [? _].
Qed.

Lemma decodeHeaders_spec (headers : H) stats (s : Stream F) m0 path :
  hm_Method headers = Some m0 → hm_Path headers = Some path → fits_int path →
  fs_get (filter_state s) kOperation = None → fs_get (filter_state s) kQueryParams = None →
  let method := getRequestHTTPMethodWithOverride m0 headers in
  let parts := parts_of matcher path in
  ∃ status stats' s',
    PathMatcherFilter.decodeHeaders config headers stats s = Some (status, stats', s') ∧
    ((status = Continue ∧ replies s' = replies s ∧
      PathMatcherFilter.allowed stats' = (PathMatcherFilter.allowed stats + 1)%Z ∧
      ∃ r ht, entry all_rules r ht ∧ rule_matches r ht method parts ∧
        fs_get (filter_state s') kOperation = Some (rule_method r) ∧
        fs_get (filter_state s') kQueryParams = stored_query (rule_method r) ht parts) ∨
     (status = StopIteration ∧ filter_state s' = filter_state s ∧
      PathMatcherFilter.denied stats' = (PathMatcherFilter.denied stats + 1)%Z ∧
      reply_code <$> last (replies s') = Some 404%Z ∧
      ∀ r ht, entry all_rules r ht → ¬ rule_matches r ht method parts)).
Proof using All.
  intros Hm Hp Hpath Hop Hq method parts.
  pose proof (Lookup_bindings_spec all_rules matcher method path [] config_registered Hpath) as HL.
  assert (Forall (λ r, fits_int (rule_template r)) all_rules) as Hall
    by (apply Forall_fmap; eapply Forall_impl; [exact Hsmall|done]).
  specialize (HL Hall). fold parts in HL.
  destruct (lookup_rule all_rules matcher (register_all_registry _ _ config_registered) parts method)
    as [(r0&ht0&_&_&Hl&_)|[Hl Hno]].
  - assert (PathMatcher.Lookup method path (Build matcher) = Some (rule_method r0)) as E.
    { unfold PathMatcher.Lookup, Build. fold (parts_of matcher path). fold parts. by rewrite Hl. }
    rewrite E in HL. destruct HL as (r&ht&He&Hmatch&Hx&Hb).
    unfold PathMatcherFilter.decodeHeaders, PathMatcherFilter.findOperation,
      PathMatcherFilter.findOperation_bindings. rewrite Hm, Hp. simpl. fold method.
    unfold Build in E, Hb. rewrite E, Hb, Hx.
    destruct (fs_set_fresh (filter_state s) kOperation (rule_method r) Hop) as [f Hf].
    unfold setStringFilterState. rewrite Hf. simpl.
    pose proof (fs_get_set_eq _ _ _ _ Hf) as Hget.
    assert (fs_get f kQueryParams = None) as Hq'
      by (rewrite (fs_get_set_ne _ _ _ kQueryParams _ Hf); done).
    unfold stored_query.
    destruct (PathMatcherFilter.needParameterExtraction config (rule_method r)) eqn:Hneed; simpl.
    + destruct (store_query_params_spec config (binding_of parts <$> variables ht)
        (set_filter_state f s) Hq') as (s'&->&Hrep&Ho&Hqs). simpl in Ho. rewrite Hget in Ho.
      eexists _, _, s'. split; [reflexivity|]. left. split_and!; try done.
      exists r, ht. split_and!; try done. rewrite Hqs, Hneed.
      destruct (variables ht); [done|]. by rewrite !bool_decide_eq_false_2 by done.
    + eexists _, _, _. split; [reflexivity|]. left. split_and!; try done.
      exists r, ht. by rewrite Hneed.
  - unfold PathMatcherFilter.decodeHeaders, PathMatcherFilter.findOperation. rewrite Hm, Hp. simpl.
    fold method. unfold PathMatcher.Lookup. fold (parts_of matcher path). fold parts. rewrite Hl.
    simpl. eexists _, _, _. split; [reflexivity|]. right. split_and!; try done.
    simpl. by rewrite last_snoc.
Qed.

End path_matcher_filter.

(** The part of a path from the first question mark on. *)
Definition query_part (path : string) : string :=
  match find_first_of "?" path with Some i => sdrop i path | None => "" end.

(** The path a rule gives, when the path parameters make the query [q]. *)
Definition routed_path (rule : BackendRouting.BackendRoutingRule) (path : string)
    (q : option string) : string :=
  if BackendRouting.is_const_address rule then
    BackendRouting.path_prefix rule +:+ query_part path +:+
    match q with
    | Some q => (if is_empty (query_part path) then "?" else "&") +:+ q
    | None => ""
    end
  else BackendRouting.path_prefix rule +:+ path.

Lemma query_part_empty path : is_empty (query_part path) = true ↔ find_first_of "?" path = None.
Proof.
  unfold query_part. destruct (find_first_of "?" path) as [i|] eqn:E; [|done].
  split; [|done]. intros Hi. apply is_empty_true in Hi. exfalso.
  assert (i < String.length path) as Hlt.
  { clear Hi. revert i E. induction path as [|c path IH]; intros i E; [done|]. simpl in *.
    case_bool_decide; simplify_eq; [lia|].
    destruct (find_first_of "?" path) as [j|]; simplify_eq/=. specialize (IH j eq_refl). lia. }
  apply (f_equal String.length) in Hi. rewrite length_sdrop in Hi. simpl in Hi. lia.
Qed.

Lemma new_path_routed rule path q :
  is_empty q = false →
  BackendRouting.new_path rule path q = routed_path rule path (Some q) ∧
  BackendRouting.new_path rule path "" = routed_path rule path None.
Proof.
  intros Hq. unfold BackendRouting.new_path, routed_path.
  destruct (BackendRouting.is_const_address rule); [|done].
  destruct (is_empty (query_part path)) eqn:He.
  - apply query_part_empty in He as E. unfold query_part. rewrite E, Hq. simpl.
    by rewrite app_nil_r_s.
  - destruct (find_first_of "?" path) as [i|] eqn:E.
    + unfold query_part. rewrite E, Hq. simpl. by rewrite !app_assoc_s, app_nil_r_s.
    + apply query_part_empty in E. congruence.
Qed.

Lemma str_join_not_empty sep (ws : list string) w : is_empty w = false → is_empty (str_join sep (w :: ws)) = false.
Proof. intros Hw. destruct w; [done|]. by destruct ws. Qed.

Lemma query_param_not_empty sj b : is_empty (query_param sj b) = false.
Proof. unfold query_param. by destruct (str_join "." _). Qed.

Lemma stored_query_not_empty config op ht parts q :
  stored_query config op ht parts = Some q → is_empty q = false.
Proof.
  unfold stored_query. destruct (_ && _) eqn:E; [|done]. intros [= <-].
  apply andb_true_iff in E as [_ E]. destruct (variables ht) as [|v vs]; [done|].
  rewrite !fmap_cons. apply str_join_not_empty, query_param_not_empty.
Qed.

(** What the backend routing filter does for the operation and the query in the
    filter state. *)
Lemma routing_decode `{HeaderMapLaws H} `{FilterStateOps F} routing (headers : H) rstats (f : F) op q path :
  fs_get f kOperation = Some op → fs_get f kQueryParams = q → (∀ x, q = Some x → is_empty x = false) →
  hm_Path headers = Some path →
  let '(status, headers', _) := BackendRouting.decodeHeaders routing headers rstats f in
  status = Continue ∧ (∀ k, k ≠ ":path" → hm_get headers' k = hm_get headers k) ∧
  (op ≠ "" →
   hm_Path headers' = Some
     match BackendRouting.findRule routing op with
     | Some rule => routed_path rule path q
     | None => path
     end).
Proof.
  intros Ho Hqs Hq Hp. unfold BackendRouting.decodeHeaders, getStringFilterState. rewrite Ho, Hqs, Hp.
  cbn [default from_option id]. destruct (is_empty op) eqn:Hemp.
  { split_and!; try done. by apply is_empty_true in Hemp. }
  destruct (BackendRouting.findRule routing op) as [rule|]; simpl; [|by split_and!].
  split_and!; [done| |].
  - intros k Hk. by apply hm_get_replace_ne.
  - intros _. unfold hm_Path. rewrite hm_get_replace_eq. f_equal. destruct q as [q|]; simpl.
    + apply new_path_routed. by apply Hq.
    + by apply (new_path_routed rule path "x").
Qed.

Section claims.
Context `{HeaderMapLaws H} `{FilterStateLaws F}.

(** On a request with a method and a path, the path matcher filter never
    fails: it answers 404 exactly when no rule matches and leaves the filter
    state alone, and otherwise lets the request go on with the operation of a
    matching rule in the filter state, and, when that operation asks for it and
    its template has variables, the query made of the bindings. *)
Lemma path_matcher_filter_correct pc config (headers : H) stats (s : Stream F) m0 path :
  PathMatcherFilter.new_FilterConfig pc = inr config →
  Forall (λ r, fits_int (PathMatcherFilter.pattern_uri_template r)) (PathMatcherFilter.rules pc) →
  hm_Method headers = Some m0 → hm_Path headers = Some path → fits_int path →
  fs_get (filter_state s) kOperation = None → fs_get (filter_state s) kQueryParams = None →
  let method := getRequestHTTPMethodWithOverride m0 headers in
  let parts := parts_of (PathMatcherFilter.path_matcher_ config) path in
  let rules := rule_of <$> PathMatcherFilter.rules pc in
  ∃ status stats' s',
    PathMatcherFilter.decodeHeaders config headers stats s = Some (status, stats', s') ∧
    ((status = Continue ∧ replies s' = replies s ∧
      PathMatcherFilter.allowed stats' = (PathMatcherFilter.allowed stats + 1)%Z ∧
      ∃ r ht, entry rules r ht ∧ rule_matches r ht method parts ∧
        fs_get (filter_state s') kOperation = Some (rule_method r) ∧
        fs_get (filter_state s') kQueryParams = stored_query config (rule_method r) ht parts) ∨
     (status = StopIteration ∧ filter_state s' = filter_state s ∧
      PathMatcherFilter.denied stats' = (PathMatcherFilter.denied stats + 1)%Z ∧
      reply_code <$> last (replies s') = Some 404%Z ∧
      ∀ r ht, entry rules r ht → ¬ rule_matches r ht method parts)).
Proof. intros. by eapply decodeHeaders_spec. Qed.

(** C13: from the client's path to the backend's: after the path matcher filter
    let a request through, the backend routing filter lets it through as well
    and changes no header but the path, which becomes, for the rule of the
    matched operation, the rule's prefix before the whole path, or, for a
    constant address, the prefix, the original query, and the query of the path
    parameters joined with "&" or "?" as needed. *)
Theorem routing_end_to_end pc config routing (headers : H) stats rstats (s : Stream F) m0 path
    stats' s' :
  PathMatcherFilter.new_FilterConfig pc = inr config →
  Forall (λ r, fits_int (PathMatcherFilter.pattern_uri_template r)) (PathMatcherFilter.rules pc) →
  hm_Method headers = Some m0 → hm_Path headers = Some path → fits_int path →
  fs_get (filter_state s) kOperation = None → fs_get (filter_state s) kQueryParams = None →
  PathMatcherFilter.decodeHeaders config headers stats s = Some (Continue, stats', s') →
  let '(status, headers', _) :=
    BackendRouting.decodeHeaders routing headers rstats (filter_state s') in
  let parts := parts_of (PathMatcherFilter.path_matcher_ config) path in
  status = Continue ∧ (∀ k, k ≠ ":path" → hm_get headers' k = hm_get headers k) ∧
  ∃ r ht, entry (rule_of <$> PathMatcherFilter.rules pc) r ht ∧
    rule_matches r ht (getRequestHTTPMethodWithOverride m0 headers) parts ∧
    (rule_method r ≠ "" →
     hm_Path headers' = Some
       match BackendRouting.findRule routing (rule_method r) with
       | Some rule => routed_path rule path (stored_query config (rule_method r) ht parts)
       | None => path
       end).
Proof.
  intros Hc Hsmall Hm Hp Hpath Hop Hq Hd.
  destruct (decodeHeaders_spec pc config Hc Hsmall headers stats s m0 path Hm Hp Hpath Hop Hq)
    as (st&st'&s2&E&Hcase). rewrite Hd in E. injection E as <- <- <-.
  destruct Hcase as [(_&_&_&r&ht&He&Hr&Ho&Hqs)|([=]&_)].
  pose proof (routing_decode routing headers rstats (filter_state s') _ _ path Ho Hqs) as Hrd.
  specialize (Hrd ltac:(intros q; apply stored_query_not_empty) Hp).
  destruct (BackendRouting.decodeHeaders _ _ _ _) as [[status headers'] rstats'].
  destruct Hrd as (Hst&Hk&Hpath'). split_and!; [done|done|]. exists r, ht. by split_and!.
Qed.

End claims.

(** ** An instance to evaluate *)

Definition sample_proto : PathMatcherFilter.ProtoConfig :=
  PathMatcherFilter.mkProtoConfig
    [PathMatcherFilter.mkPathMatcherRule "GetBook" "GET" "/shelves/{shelf_id}/books/{book.name}" true;
     PathMatcherFilter.mkPathMatcherRule "ListBooks" "GET" "/books" false]
    [("shelf_id", "shelfId")].

Definition sample_config : PathMatcherFilter.FilterConfig :=
  Eval vm_compute in
    match PathMatcherFilter.new_FilterConfig sample_proto with
    | inr c => c
    | inl _ => PathMatcherFilter.mkFilterConfig new_builder ∅ ∅
    end.

Lemma sample_config_ok : PathMatcherFilter.new_FilterConfig sample_proto = inr sample_config.
Proof. vm_compute. reflexivity. Qed.

Definition sample_headers : gmap string string :=
  {[":method" := "GET"; ":path" := "/shelves/3/books/faust?lang=de"]}.

Definition sample_stream : Stream (gmap string string) := mkStream ∅ [] false.

Definition sample_routing : gmap string BackendRouting.BackendRoutingRule :=
  BackendRouting.new_FilterConfig [BackendRouting.mkBackendRoutingRule "GetBook" true "/get"].

Definition sample_after : Stream (gmap string string) :=
  mkStream {[kOperation := "GetBook"; kQueryParams := "shelfId=3&book.name=faust"]} [] false.

Lemma sample_decoded :
  PathMatcherFilter.decodeHeaders sample_config sample_headers (PathMatcherFilter.mkFilterStats 0 0)
    sample_stream
  = Some (Continue, PathMatcherFilter.mkFilterStats 1 0, sample_after).
Proof. vm_compute. reflexivity. Qed.

Lemma sample_small :
  Forall (λ r, fits_int (PathMatcherFilter.pattern_uri_template r))
    (PathMatcherFilter.rules sample_proto).
Proof. repeat (constructor; [vm_compute; reflexivity|]). constructor. Qed.

Lemma path_matcher_filter_correct_witness :
  ∃ status stats' s',
    PathMatcherFilter.decodeHeaders sample_config sample_headers
      (PathMatcherFilter.mkFilterStats 0 0) sample_stream = Some (status, stats', s').
Proof.
  destruct (path_matcher_filter_correct sample_proto sample_config sample_headers
    (PathMatcherFilter.mkFilterStats 0 0) sample_stream "GET" "/shelves/3/books/faust?lang=de"
    sample_config_ok sample_small) as (st&st'&s'&E&_);
    [reflexivity|reflexivity|vm_compute; reflexivity|reflexivity|reflexivity|].
  exists st, st', s'. exact E.
Defined.

Lemma routing_end_to_end_witness :
  hm_Path (BackendRouting.decodeHeaders sample_routing sample_headers
             (BackendRouting.mkFilterStats 0 0) (filter_state sample_after)).1.2
  = Some "/get?lang=de&shelfId=3&book.name=faust" ∧
  (BackendRouting.decodeHeaders sample_routing sample_headers
     (BackendRouting.mkFilterStats 0 0) (filter_state sample_after)).1.1 = Continue.
Proof.
  split; [vm_compute; reflexivity|].
  pose proof (routing_end_to_end sample_proto sample_config sample_routing sample_headers
    (PathMatcherFilter.mkFilterStats 0 0) (BackendRouting.mkFilterStats 0 0) sample_stream "GET"
    "/shelves/3/books/faust?lang=de" (PathMatcherFilter.mkFilterStats 1 0) sample_after
    sample_config_ok sample_small eq_refl eq_refl eq_refl eq_refl eq_refl sample_decoded) as R.
  destruct (BackendRouting.decodeHeaders _ _ _ _) as [[status headers'] rstats]. apply R.
Defined.
