(* ===== verification/ConfigMessages.v ===== *)
(** * Messages that configurations share: api/envoy/http/common/base.proto

    As far as the code reads them. *)
From S2P Require Import Prelude.

Module Common.

Record HttpUri := mkHttpUri { uri : string; cluster : string }.

(** The oneof specifier. *)
Inductive DataSource := filename (f : string) | inline_string (s : string) | SPECIFIER_NOT_SET.

(** inline_string(): empty when it is not the one that is set. *)
Definition get_inline_string (d : DataSource) : string :=
  match d with inline_string s => s | _ => "" end.

(** The oneof token_type. *)
Inductive AccessToken :=
  | remote_token (u : HttpUri)
  | service_account_secret (d : DataSource)
  | TOKEN_TYPE_NOT_SET.

Record IamTokenInfo := mkIamTokenInfo {
  iam_uri : HttpUri;
  access_token : AccessToken;
  delegates : list string
}.

(** google.protobuf.Any. *)
Record Any := mkAny { type_url : string; any_value : string }.

End Common.
