(* ===== verification/ConfigParser.v ===== *)
(** * Service control configuration:
    src/envoy/http/service_control/config_parser.{h,cc}

    The contexts of services and requirements the handler works with, and the
    conditions on a configuration. *)
From S2P Require Import Prelude ConfigMessages.

(** ** The configuration: api/envoy/http/service_control *)

Module Proto.

(** Service. *)
Record Service := mkService {
  service_name : string;
  service_config_id : string;
  producer_project_id : string;
  service_config : option Common.Any;
  backend_protocol : string;
  log_request_headers : list string;
  log_response_headers : list string;
  min_stream_report_interval_ms : Z;
  log_jwt_payloads : list string;
  jwt_payload_metadata_name : string
}.

(** ApiKeyLocation: the oneof key. *)
Inductive ApiKeyLocation :=
  | query (name : string)
  | header (name : string)
  | cookie (name : string)
  | KEY_NOT_SET.

(** Requirement, with its ApiKeyRequirement and its MetricCosts. *)
Record Requirement := mkRequirement {
  requirement_service_name : string;
  operation_name : string;
  api_key_locations : list ApiKeyLocation;
  allow_without_api_key : bool;
  api_name : string;
  api_version : string;
  skip_service_control : bool;
  metric_costs : list (string * Z)
}.

(** GcpAttributes: zone and platform. *)
Record GcpAttributes := mkGcpAttributes { zone : string; platform : string }.

(** ServiceControlCallingConfig: wrappers are null when they are not set. *)
Record ServiceControlCallingConfig := mkServiceControlCallingConfig {
  network_fail_open : option bool;
  check_timeout_ms : option Z;
  quota_timeout_ms : option Z;
  report_timeout_ms : option Z;
  check_retries : option Z;
  quota_retries : option Z;
  report_retries : option Z
}.

(** The oneof access_token. *)
Inductive FilterAccessToken :=
  | imds_token (u : Common.HttpUri)
  | service_account_secret (d : Common.DataSource)
  | iam_token (i : Common.IamTokenInfo)
  | ACCESS_TOKEN_NOT_SET.

Record FilterConfig := mkFilterConfig {
  services : list Service;
  requirements : list Requirement;
  gcp_attributes : option GcpAttributes;
  access_token : FilterAccessToken;
  sc_calling_config : option ServiceControlCallingConfig;
  service_control_uri : Common.HttpUri
}.

End Proto.

(** ** Contexts *)

Definition kDefaultMinStreamReportIntervalMs : Z := 10000.
Definition kUnrecognizedOperation : string := "<Unknown Operation Name>".

(** class ServiceContext: the call object is the one of its service. *)
Record ServiceContext := mkServiceContext {
  service_config : Proto.Service;
  min_stream_report_interval_ms_ : Z
}.

Definition new_ServiceContext (config : Proto.Service) : ServiceContext :=
  let min_stream_report_interval_ms := i64 (Proto.min_stream_report_interval_ms config) in
  mkServiceContext config
    (if (min_stream_report_interval_ms =? 0)%Z then kDefaultMinStreamReportIntervalMs
     else min_stream_report_interval_ms).

(** class RequirementContext: the costs are stored as int. *)
Record RequirementContext := mkRequirementContext {
  requirement_config : Proto.Requirement;
  service_ctx : ServiceContext;
  metric_costs_ : list (string * Z)
}.

Definition new_RequirementContext (config : Proto.Requirement) (ctx : ServiceContext)
  : RequirementContext :=
  mkRequirementContext config ctx
    ((λ '(name, cost), (name, i32 cost)) <$> Proto.metric_costs config).

(** class FilterConfigParser. *)
Record FilterConfigParser := mkFilterConfigParser {
  config_ : Proto.FilterConfig;
  requirements_map_ : gmap string RequirementContext;
  non_match_rqm_ctx_ : RequirementContext;
  service_map_ : gmap string ServiceContext;
  default_api_keys_ : list Proto.ApiKeyLocation
}.

(** emplace on a hash map: an entry that is there stays. *)
Definition emplace {V} (k : string) (v : V) (m : gmap string V) : gmap string V :=
  match m !! k with Some _ => m | None => <[k := v]> m end.

Definition add_service (m : gmap string ServiceContext) (s : Proto.Service)
  : gmap string ServiceContext := emplace (Proto.service_name s) (new_ServiceContext s) m.

(** The loop over requirements; [inl] is the exception. *)
Fixpoint add_requirements (rs : list Proto.Requirement) (service_map : gmap string ServiceContext)
    (m : gmap string RequirementContext) : string + gmap string RequirementContext :=
  match rs with
  | [] => inr m
  | requirement :: rs =>
      match service_map !! Proto.requirement_service_name requirement with
      | None => inl "Invalid service name"
      | Some ctx =>
          add_requirements rs service_map
            (emplace (Proto.operation_name requirement) (new_RequirementContext requirement ctx) m)
      end
  end.

(** FilterConfigParser(): the parser or the message of the exception. *)
Definition new_FilterConfigParser (config : Proto.FilterConfig) : string + FilterConfigParser :=
  match Proto.services config with
  | [] => inl "Empty services"
  | first :: _ =>
      let service_map := foldl add_service ∅ (Proto.services config) in
      if size service_map <? length (Proto.services config) then inl "Duplicated service names"
      else
        match add_requirements (Proto.requirements config) service_map ∅ with
        | inl e => inl e
        | inr requirements_map =>
            if size requirements_map <? length (Proto.requirements config)
            then inl "Duplicated operation names"
            else
              let first_srv_ctx := new_ServiceContext first in
              let non_match_rqm_cfg :=
                Proto.mkRequirement (Proto.service_name first) kUnrecognizedOperation [] false
                  "" "" false [] in
              inr (mkFilterConfigParser config requirements_map
                     (new_RequirementContext non_match_rqm_cfg first_srv_ctx) service_map
                     [Proto.query "key"; Proto.query "api_key"; Proto.header "x-api-key"])
        end
  end.

Definition FindRequirement (parser : FilterConfigParser) (operation : string)
  : option RequirementContext := requirements_map_ parser !! operation.

(** ** Correctness *)

Lemma foldl_emplace_spec {A V} (key : A → string) (val : A → V) (l : list A) :
  let m := foldl (λ m a, emplace (key a) (val a) m) ∅ l in
  size m ≤ length l ∧
  (size m = length l ↔ NoDup (key <$> l)) ∧
  (NoDup (key <$> l) → ∀ k v, m !! k = Some v ↔ ∃ a, a ∈ l ∧ key a = k ∧ val a = v) ∧
  (∀ k, is_Some (m !! k) ↔ k ∈ key <$> l).
Proof.
  simpl. induction l as [|a l IH] using rev_ind.
  { simpl. rewrite map_size_empty. split_and!; [done|split; [constructor|done]| |].
    - intros _ k v. rewrite lookup_empty. split; [done|]. intros (a&Ha&_).
      by apply not_elem_of_nil in Ha.
    - intros k. rewrite lookup_empty. split; [by intros []|]. intros Hk.
      by apply not_elem_of_nil in Hk. }
  rewrite foldl_app, length_app, fmap_app. simpl.
  set (m := foldl _ ∅ l) in *. destruct IH as (Hle&Hsz&Hlk&Hdom).
  assert (NoDup ((key <$> l) ++ [key a]) ↔ NoDup (key <$> l) ∧ key a ∉ key <$> l) as ->.
  { rewrite NoDup_app. split; [|]; intros.
    - destruct_and!. split; [done|]. set_solver.
    - destruct_and!. split_and!; [done|set_solver|apply NoDup_singleton]. }
  unfold emplace. destruct (m !! key a) as [v0|] eqn:E.
  - assert (key a ∈ key <$> l) as Hin by (apply Hdom; eauto).
    split_and!; [lia| | |].
    + split; [lia|tauto].
    + intros [_ ?]. done.
    + intros k. rewrite Hdom, elem_of_app, list_elem_of_singleton. naive_solver.
  - assert (key a ∉ key <$> l) as Hin by (intros [x Hx]%Hdom; congruence).
    rewrite map_size_insert_None by done. split_and!; [lia| | |].
    + split; [intros; split; [apply Hsz; lia|done]|intros [Hnd _]; apply Hsz in Hnd; lia].
    + intros [Hnd _] k v. destruct (decide (key a = k)) as [<-|Hne].
      * rewrite lookup_insert_eq. split.
        -- intros [= <-]. exists a. rewrite elem_of_app, list_elem_of_singleton. auto.
        -- intros (b&[Hb|Hb]%elem_of_app&Hk&Hv).
           ++ exfalso. apply Hin. rewrite <-Hk. by apply list_elem_of_fmap_2.
           ++ apply list_elem_of_singleton in Hb as ->. congruence.
      * rewrite lookup_insert_ne by done. rewrite (Hlk Hnd). split.
        -- intros (b&?&?&?). exists b. rewrite elem_of_app. auto.
        -- intros (b&[Hb|Hb]%elem_of_app&Hk&Hv); [eauto|].
           apply list_elem_of_singleton in Hb as ->. done.
    + intros k. rewrite elem_of_app, list_elem_of_singleton.
      destruct (decide (key a = k)) as [<-|Hne].
      * rewrite lookup_insert_eq. naive_solver.
      * rewrite lookup_insert_ne by done. rewrite Hdom. naive_solver.
Qed.

Section parser.
Context (config : Proto.FilterConfig).

Lemma add_requirements_spec rs sm (d : ServiceContext) m :
  add_requirements rs sm m
  = if bool_decide (Forall (λ r, is_Some (sm !! Proto.requirement_service_name r)) rs)
    then inr (foldl (λ m r, emplace (Proto.operation_name r)
                (new_RequirementContext r (default d (sm !! Proto.requirement_service_name r))) m) m rs)
    else inl "Invalid service name".
Proof.
  revert m. induction rs as [|r rs IH]; intros m; [done|]. simpl.
  destruct (sm !! Proto.requirement_service_name r) as [ctx|] eqn:E.
  - rewrite IH. simpl. rewrite (bool_decide_ext (Forall _ (r :: rs))
      (Forall (λ r, is_Some (sm !! Proto.requirement_service_name r)) rs)); [done|].
    rewrite Forall_cons, E. naive_solver.
  - rewrite bool_decide_eq_false_2; [done|]. rewrite Forall_cons, E. intros [[? ?] _]. done.
Qed.

Lemma service_map_spec :
  let sm := foldl add_service ∅ (Proto.services config) in
  size sm ≤ length (Proto.services config) ∧
  (size sm = length (Proto.services config) ↔ NoDup (Proto.service_name <$> Proto.services config)) ∧
  (NoDup (Proto.service_name <$> Proto.services config) → ∀ k v, sm !! k = Some v ↔
     ∃ s, s ∈ Proto.services config ∧ Proto.service_name s = k ∧ new_ServiceContext s = v) ∧
  (∀ k, is_Some (sm !! k) ↔ k ∈ Proto.service_name <$> Proto.services config).
Proof. apply (foldl_emplace_spec Proto.service_name new_ServiceContext). Qed.

(** The conditions on a configuration. *)
Definition config_ok : Prop :=
  Proto.services config ≠ [] ∧
  NoDup (Proto.service_name <$> Proto.services config) ∧
  Forall (λ r, Proto.requirement_service_name r ∈ Proto.service_name <$> Proto.services config)
    (Proto.requirements config) ∧
  NoDup (Proto.operation_name <$> Proto.requirements config).

(** The context of a requirement of the configuration. *)
Definition requirement_of (op : string) (ctx : RequirementContext) : Prop :=
  ∃ r s, r ∈ Proto.requirements config ∧ s ∈ Proto.services config ∧
    Proto.operation_name r = op ∧ Proto.service_name s = Proto.requirement_service_name r ∧
    ctx = new_RequirementContext r (new_ServiceContext s).

(** A configuration is accepted exactly when it has services, no two of the
    same name, every requirement names one of them, and no two requirements have
    the same operation; then an operation's requirement is found with the
    context of its own service, and the requirement for unmatched requests is
    reported to the first service. *)
Lemma new_FilterConfigParser_spec :
  match new_FilterConfigParser config with
  | inr parser => config_ok ∧
      (∀ op ctx, FindRequirement parser op = Some ctx ↔ requirement_of op ctx) ∧
      config_ parser = config ∧
      Proto.operation_name (requirement_config (non_match_rqm_ctx_ parser)) = kUnrecognizedOperation ∧
      Proto.skip_service_control (requirement_config (non_match_rqm_ctx_ parser)) = false ∧
      ∃ s, Proto.services config !! 0 = Some s ∧
        service_ctx (non_match_rqm_ctx_ parser) = new_ServiceContext s
  | inl _ => ¬ config_ok
  end.
Proof.
  unfold new_FilterConfigParser, config_ok. pose proof service_map_spec as Hs. cbv zeta in Hs.
  destruct (Proto.services config) as [|first rest] eqn:Eserv; [naive_solver|]. rewrite <-Eserv in *.
  set (sm := foldl add_service ∅ (Proto.services config)) in *.
  destruct Hs as (Hle&Hsz&Hlk&Hdom).
  destruct (Nat.ltb_spec (size sm) (length (Proto.services config))).
  { intros (_&Hnd&_). apply Hsz in Hnd. lia. }
  assert (NoDup (Proto.service_name <$> Proto.services config)) as Hnd by (apply Hsz; lia).
  rewrite (add_requirements_spec _ sm (new_ServiceContext first)).
  case_bool_decide as Hall.
  2: { intros (_&_&Hr&_). apply Hall. eapply Forall_impl; [exact Hr|]. intros r. by rewrite Hdom. }
  assert (Forall (λ r, Proto.requirement_service_name r ∈ Proto.service_name <$> Proto.services config)
            (Proto.requirements config)) as Hall'.
  { eapply Forall_impl; [exact Hall|]. intros r. by rewrite Hdom. }
  pose proof (foldl_emplace_spec Proto.operation_name
    (λ r, new_RequirementContext r (default (new_ServiceContext first)
            (sm !! Proto.requirement_service_name r))) (Proto.requirements config)) as Hr.
  cbv zeta in Hr. set (rm := foldl _ ∅ (Proto.requirements config)) in *.
  destruct Hr as (Hrle&Hrsz&Hrlk&_).
  destruct (Nat.ltb_spec (size rm) (length (Proto.requirements config))).
  { intros (_&_&_&Hnd'). apply Hrsz in Hnd'. lia. }
  assert (NoDup (Proto.operation_name <$> Proto.requirements config)) as Hnd' by (apply Hrsz; lia).
  split_and!; try done; [by rewrite Eserv| |exists first; by rewrite Eserv].
  intros op ctx. unfold FindRequirement, requirement_of. simpl. rewrite (Hrlk Hnd').
  rewrite Forall_forall in Hall. split.
  - intros (r&Hr&<-&<-). destruct (Hall r Hr) as [sctx Hsctx]. rewrite Hsctx. simpl.
    apply (Hlk Hnd) in Hsctx as (s&?&?&<-). exists r, s. done.
  - intros (r&s&Hr&Hsin&<-&Hname&->). exists r. split_and!; try done.
    rewrite (proj2 (Hlk Hnd _ (new_ServiceContext s))); eauto.
Qed.

End parser.
