(* ===== verification/HandlerUtils.v ===== *)
(** * Handler utilities: src/envoy/http/service_control/handler_utils.cc

    Where the API key is found, which headers and JWT payloads are logged, the
    latencies and the protocols of a request. *)
From S2P Require Import Prelude RequestInfo EnvoyUtils ConfigParser.

(** Http::Utility::parseQueryString and parseCookieValue. *)
Class HttpUtility (H : Type) := {
  parseQueryString : string → gmap string string;
  parseCookieValue : H → string → string
}.

(** StreamInfo::StreamInfo: what the handler reads.  Times are in nanoseconds;
    [jwt_metadata] is Config::Metadata::metadataValue of the JWT filter at a
    path, [None] for the default instance; [grpc_stats] the message counts. *)
Record StreamInfo := mkStreamInfo {
  requestComplete : option Z;
  firstUpstreamTxByteSent : option Z;
  lastUpstreamRxByteReceived : option Z;
  has_protocol : bool;
  responseCode : option Z;
  bytesReceived : Z;
  bytesSent : Z;
  startTime : Z;
  downstream_ip : string;
  jwt_metadata : list string → option Value;
  grpc_stats : option (Z * Z)
}.

Definition kJwtPayLoadsDelimeter : ascii := ".".
Definition kContentTypeApplicationGrpcPrefix : string := "application/grpc".
Definition kContentTypeHeader : string := "content-type".

(** duration_cast to milliseconds truncates. *)
Definition convertNsToMs (ns : Z) : Z := Z.quot ns 1000000.

(** ** The API key *)

Section api_key.
Context `{HeaderMapOps H} `{HttpUtility H}.

(** extractAPIKeyFromQuery: whether it was found, [were_params_parsed],
    [parsed_params] and [api_key] after the call. *)
Definition extractAPIKeyFromQuery (headers : H) (query : string) (were_params_parsed : bool)
    (parsed_params : gmap string string) (api_key : string)
  : bool * bool * gmap string string * string :=
  let look params :=
    match params !! query with
    | Some v => (true, true, params, v)
    | None => (false, true, params, api_key)
    end in
  if were_params_parsed then look parsed_params
  else match hm_Path headers with
       | None => (false, false, parsed_params, api_key)
       | Some path => look (parseQueryString path)
       end.

Definition extractAPIKeyFromHeader (headers : H) (header : string) (api_key : string)
  : bool * string :=
  match hm_get headers (LowerCaseString header) with
  | Some v => (true, v)
  | None => (false, api_key)
  end.

Definition extractAPIKeyFromCookie (headers : H) (cookie : string) (api_key : string)
  : bool * string :=
  let parsed_api_key := parseCookieValue headers cookie in
  if negb (is_empty parsed_api_key) then (true, parsed_api_key) else (false, api_key).

(** The loop of extractAPIKey. *)
Fixpoint extract_loop (headers : H) (locations : list Proto.ApiKeyLocation)
    (were_params_parsed : bool) (parsed_params : gmap string string) (api_key : string)
  : bool * string :=
  match locations with
  | [] => (false, api_key)
  | location :: locations =>
      match location with
      | Proto.query q =>
          let '(found, were_params_parsed, parsed_params, api_key) :=
            extractAPIKeyFromQuery headers q were_params_parsed parsed_params api_key in
          if found then (true, api_key)
          else extract_loop headers locations were_params_parsed parsed_params api_key
      | Proto.header h =>
          let '(found, api_key) := extractAPIKeyFromHeader headers h api_key in
          if found then (true, api_key)
          else extract_loop headers locations were_params_parsed parsed_params api_key
      | Proto.cookie c =>
          let '(found, api_key) := extractAPIKeyFromCookie headers c api_key in
          if found then (true, api_key)
          else extract_loop headers locations were_params_parsed parsed_params api_key
      | Proto.KEY_NOT_SET =>
          extract_loop headers locations were_params_parsed parsed_params api_key
      end
  end.

(** extractAPIKey. *)
Definition extractAPIKey (headers : H) (locations : list Proto.ApiKeyLocation) (api_key : string)
  : bool * string := extract_loop headers locations false ∅ api_key.

(** The key at one location, without the cache of parameters. *)
Definition key_at (headers : H) (location : Proto.ApiKeyLocation) : option string :=
  match location with
  | Proto.query q => path ← hm_Path headers; parseQueryString path !! q
  | Proto.header h => hm_get headers (LowerCaseString h)
  | Proto.cookie c =>
      if is_empty (parseCookieValue headers c) then None else Some (parseCookieValue headers c)
  | Proto.KEY_NOT_SET => None
  end.

(** The first location that has one. *)
Fixpoint first_key (headers : H) (locations : list Proto.ApiKeyLocation) : option string :=
  match locations with
  | [] => None
  | l :: locations =>
      match key_at headers l with Some k => Some k | None => first_key headers locations end
  end.

Lemma extract_loop_spec headers locations parsed params api_key :
  (parsed = true → ∃ path, hm_Path headers = Some path ∧ params = parseQueryString path) →
  extract_loop headers locations parsed params api_key
  = match first_key headers locations with Some k => (true, k) | None => (false, api_key) end.
Proof.
  revert parsed params. induction locations as [|l locations IH]; intros parsed params Hp; [done|].
  destruct l as [q|h|c|]; simpl; [| | |by apply IH].
  - unfold extractAPIKeyFromQuery. destruct parsed.
    + destruct (Hp eq_refl) as (path&Hpath&->). rewrite Hpath. simpl.
      destruct (parseQueryString path !! q); [done|]. apply IH. eauto.
    + destruct (hm_Path headers) as [path|]; simpl; [|by apply IH].
      destruct (parseQueryString path !! q); [done|]. apply IH. eauto.
  - unfold extractAPIKeyFromHeader. destruct (hm_get headers _); [done|by apply IH].
  - unfold extractAPIKeyFromCookie. destruct (is_empty _); simpl; [by apply IH|done].
Qed.

(** C34: the API key is the one at the first location that has one, although the
    query is parsed once at most; without one the key is left alone. *)
Theorem extractAPIKey_first headers locations api_key :
  extractAPIKey headers locations api_key
  = match first_key headers locations with Some k => (true, k) | None => (false, api_key) end.
Proof. by apply extract_loop_spec. Qed.

End api_key.

(** ** Logged headers, latency and protocols *)

Section info.
Context `{HeaderMapOps H}.

(** fillLoggedHeader: [info_header_field] after the call. *)
Definition fillLoggedHeader (headers : option H) (log_headers : list string)
    (info_header_field : string) : string :=
  match headers with
  | None => info_header_field
  | Some headers =>
      foldl (λ field log_header,
               match hm_get headers (LowerCaseString log_header) with
               | Some v => field +:+ log_header +:+ "=" +:+ v +:+ ";"
               | None => field
               end) info_header_field log_headers
  end.

Definition isGrpcRequest (content_type : string) : bool :=
  starts_with kContentTypeApplicationGrpcPrefix content_type.

Definition getFrontendProtocol (response_headers : option H) (stream_info : StreamInfo)
  : protocol.Protocol :=
  if match response_headers with
     | Some headers => isGrpcRequest (extractHeader headers kContentTypeHeader)
     | None => false
     end then protocol.GRPC
  else if has_protocol stream_info then protocol.HTTP else protocol.UNKNOWN.

End info.

Definition getBackendProtocol (service : Proto.Service) : protocol.Protocol :=
  let protocol := Proto.backend_protocol service in
  if bool_decide (protocol = "http1") || bool_decide (protocol = "http2") then protocol.HTTP
  else if bool_decide (protocol = "grpc") then protocol.GRPC
  else protocol.UNKNOWN.

Definition fillLatency (stream_info : StreamInfo) (latency : LatencyInfo) : LatencyInfo :=
  let request_time := match requestComplete stream_info with
                      | Some ns => convertNsToMs ns
                      | None => request_time_ms latency
                      end in
  let backend_time :=
    match firstUpstreamTxByteSent stream_info, lastUpstreamRxByteReceived stream_info with
    | Some start, Some end_ =>
        if (start <=? end_)%Z then convertNsToMs (end_ - start) else 0%Z
    | _, _ => 0%Z
    end in
  mkLatencyInfo request_time backend_time
    (if (backend_time <=? request_time)%Z then (request_time - backend_time)%Z
     else overhead_time_ms latency).

(** The latencies of a report: the backend's is never negative, the overhead
    is what the request took beyond the backend, and it is left unset exactly
    when the request took less than the backend or is not complete. *)
Lemma fillLatency_correct info :
  (∀ ns, requestComplete info = Some ns → (0 ≤ ns)%Z) →
  let l := fillLatency info new_LatencyInfo in
  (0 ≤ backend_time_ms l)%Z ∧
  ((0 ≤ overhead_time_ms l)%Z ↔ (backend_time_ms l ≤ request_time_ms l)%Z) ∧
  ((0 ≤ overhead_time_ms l)%Z →
     request_time_ms l = (backend_time_ms l + overhead_time_ms l)%Z ∧
     is_Some (requestComplete info)).
Proof.
  intros Hns. unfold fillLatency. simpl.
  set (b := match firstUpstreamTxByteSent info with Some _ => _ | None => _ end).
  assert (0 ≤ b)%Z as Hb.
  { unfold b, convertNsToMs. repeat case_match; try lia. bools. apply Z.quot_pos; lia. }
  destruct (requestComplete info) as [ns|] eqn:E.
  - specialize (Hns ns eq_refl). assert (0 ≤ convertNsToMs ns)%Z by (apply Z.quot_pos; lia).
    destruct (Z.leb_spec b (convertNsToMs ns)); split_and!; try lia; intros; split; eauto; lia.
  - destruct (Z.leb_spec b (-1)); split_and!; lia.
Qed.

Definition sample_times : StreamInfo :=
  mkStreamInfo (Some 9000000%Z) (Some 1000000%Z) (Some 6999999%Z) true None 0 0 0 ""
    (λ _, None) None.

Lemma fillLatency_correct_witness :
  fillLatency sample_times new_LatencyInfo = mkLatencyInfo 9 5 4 ∧
  (0 ≤ backend_time_ms (fillLatency sample_times new_LatencyInfo))%Z.
Proof.
  split; [vm_compute; reflexivity|].
  destruct (fillLatency_correct sample_times) as [Hb _]; [|exact Hb].
  intros ns [= <-]. lia.
Defined.

(** ** GCP attributes and JWT payloads *)

(** fillGCPInfo: location and compute platform of the info after the call. *)
Definition fillGCPInfo (filter_config : Proto.FilterConfig) (location compute_platform : string)
  : string * string :=
  match Proto.gcp_attributes filter_config with
  | None => (location, compute_platform)
  | Some a =>
      (if negb (is_empty (Proto.zone a)) then Proto.zone a else location,
       if negb (is_empty (Proto.platform a)) then Proto.platform a else compute_platform)
  end.

(** static_cast<long>: [None] when the number does not fit. *)
Definition double_to_long (d : double) : option Z :=
  z ← double_trunc d;
  if (- 2 ^ 63 <=? z)%Z && (z <=? 2 ^ 63 - 1)%Z then Some z else None.

(** extractJwtPayload: [info_jwt_payloads] after the call. *)
Definition extractJwtPayload (value : Value) (jwt_payload_path info_jwt_payloads : string)
  : option string :=
  match value with
  | null_value => Some (info_jwt_payloads +:+ jwt_payload_path +:+ "=;")
  | number_value d =>
      n ← double_to_long d;
      Some (info_jwt_payloads +:+ jwt_payload_path +:+ "=" +:+ pretty n +:+ ";")
  | bool_value b =>
      Some (info_jwt_payloads +:+ jwt_payload_path +:+ "=" +:+ (if b then "true" else "false") +:+ ";")
  | string_value s => Some (info_jwt_payloads +:+ jwt_payload_path +:+ "=" +:+ s +:+ ";")
  | _ => Some info_jwt_payloads
  end.

(** fillJwtPayloads. *)
Fixpoint fillJwtPayloads (metadata : list string → option Value) (jwt_payload_metadata_name : string)
    (jwt_payload_paths : list string) (info_jwt_payloads : string) : option string :=
  match jwt_payload_paths with
  | [] => Some info_jwt_payloads
  | jwt_payload_path :: jwt_payload_paths =>
      let steps := jwt_payload_metadata_name :: str_split kJwtPayLoadsDelimeter jwt_payload_path in
      payloads ← match metadata steps with
                 | Some value => extractJwtPayload value jwt_payload_path info_jwt_payloads
                 | None => Some info_jwt_payloads
                 end;
      fillJwtPayloads metadata jwt_payload_metadata_name jwt_payload_paths payloads
  end.

(** fillJwtPayload: string_value() of a value of another kind is empty. *)
Definition fillJwtPayload (metadata : list string → option Value)
    (jwt_payload_metadata_name jwt_payload_path info_iss_or_aud : string) : string :=
  match metadata [jwt_payload_metadata_name; jwt_payload_path] with
  | Some (string_value s) => info_iss_or_aud +:+ s
  | _ => info_iss_or_aud
  end.
