(* ===== verification/Handler.v ===== *)
(** * The service control handler:
    src/envoy/http/service_control/handler_impl.{h,cc}

    The handler of one request.  Its calls to service control and to the
    filter's callback are actions; an operation returns the handler after it and
    the actions in order.  [None] is undefined behaviour: a null requirement or
    an uninitialised member that is read, or a JWT number that does not fit a
    long.  The answers that calls give before they return are arguments. *)
From S2P Require Import Prelude RequestInfo EnvoyUtils ConfigParser HandlerUtils.

Definition kConsumerProjectId : string := "x-endpoint-api-project-id".
Definition kIosBundleIdHeader : string := "x-ios-bundle-identifier".
Definition kAndroidPackageHeader : string := "x-android-package".
Definition kAndroidCertHeader : string := "x-android-cert".
Definition kRefererHeader : string := "referer".
Definition JwtPayloadIssuerPath : string := "iss".
Definition JwtPayloadAuidencePath : string := "aud".

(** What the handler does to others: CheckDoneCallback::onCheckDone and the
    calls of the ServiceControlCall of a service. *)
Inductive Action :=
  | OnCheckDone (st : Status)
  | CallCheck (service : Proto.Service) (info : CheckRequestInfo)
  | CallQuota (service : Proto.Service) (info : QuotaRequestInfo)
  | CallReport (service : Proto.Service) (info : ReportRequestInfo).

(** class ServiceControlHandlerImpl.  [cancel_fn_] says whether there is a call
    to cancel; [frontend_protocol_] has no value until it is first written;
    times are in nanoseconds. *)
Record Handler := mkHandler {
  cfg_parser_ : FilterConfigParser;
  require_ctx_ : option RequirementContext;
  path_ : string;
  http_method_ : string;
  uuid_ : string;
  api_key_ : string;
  check_response_info_ : CheckResponseInfo;
  check_status_ : Status;
  cancel_fn_ : bool;
  request_header_size_ : Z;
  response_header_size_ : Z;
  frontend_protocol_ : option protocol.Protocol;
  is_grpc_ : bool;
  is_first_report_ : bool;
  last_reported_ : Z
}.

Definition set_check (info : CheckResponseInfo) (st : Status) (cancel : bool) (h : Handler)
  : Handler :=
  mkHandler (cfg_parser_ h) (require_ctx_ h) (path_ h) (http_method_ h) (uuid_ h) (api_key_ h)
    info st cancel (request_header_size_ h) (response_header_size_ h) (frontend_protocol_ h)
    (is_grpc_ h) (is_first_report_ h) (last_reported_ h).
Definition set_check_status (st : Status) (h : Handler) : Handler :=
  set_check (check_response_info_ h) st (cancel_fn_ h) h.
Definition set_cancel (cancel : bool) (h : Handler) : Handler :=
  set_check (check_response_info_ h) (check_status_ h) cancel h.
Definition set_require_ctx (ctx : option RequirementContext) (h : Handler) : Handler :=
  mkHandler (cfg_parser_ h) ctx (path_ h) (http_method_ h) (uuid_ h) (api_key_ h)
    (check_response_info_ h) (check_status_ h) (cancel_fn_ h) (request_header_size_ h)
    (response_header_size_ h) (frontend_protocol_ h) (is_grpc_ h) (is_first_report_ h)
    (last_reported_ h).
Definition set_response (size : Z) (p : protocol.Protocol) (h : Handler) : Handler :=
  mkHandler (cfg_parser_ h) (require_ctx_ h) (path_ h) (http_method_ h) (uuid_ h) (api_key_ h)
    (check_response_info_ h) (check_status_ h) (cancel_fn_ h) (request_header_size_ h) size
    (Some p) (is_grpc_ h) (is_first_report_ h) (last_reported_ h).
Definition set_reported (now : Z) (h : Handler) : Handler :=
  mkHandler (cfg_parser_ h) (require_ctx_ h) (path_ h) (http_method_ h) (uuid_ h) (api_key_ h)
    (check_response_info_ h) (check_status_ h) (cancel_fn_ h) (request_header_size_ h)
    (response_header_size_ h) (frontend_protocol_ h) (is_grpc_ h) false now.

(** ** Conditions *)

Definition isQuotaRequired (ctx : RequirementContext) : bool :=
  negb (Proto.skip_service_control (requirement_config ctx)) &&
  negb (bool_decide (Proto.metric_costs (requirement_config ctx) = [])).

Definition isCheckRequired (ctx : RequirementContext) : bool :=
  negb (Proto.allow_without_api_key (requirement_config ctx)) &&
  negb (Proto.skip_service_control (requirement_config ctx)).

Definition isReportRequired (ctx : RequirementContext) : bool :=
  negb (Proto.skip_service_control (requirement_config ctx)).

Definition hasApiKey (h : Handler) : bool := negb (is_empty (api_key_ h)).

(** ** Request info *)

(** fillOperationInfo on a new info, for the requirement [ctx]. *)
Definition fillOperationInfo (h : Handler) (ctx : RequirementContext) (stream_info : StreamInfo)
    (now : Z) : OperationInfo :=
  mkOperationInfo (uuid_ h) (Proto.operation_name (requirement_config ctx))
    (Proto.producer_project_id (service_config (service_ctx ctx)))
    (api_key_ h) "" now (downstream_ip stream_info) "".

Definition clear_api_key (info : OperationInfo) : OperationInfo :=
  mkOperationInfo (operation_id info) (operation_name info) (producer_project_id info) ""
    (referer info) (current_time info) (client_ip info) (client_host info).

Definition set_info_referer (r : string) (info : OperationInfo) : OperationInfo :=
  mkOperationInfo (operation_id info) (operation_name info) (producer_project_id info)
    (api_key info) r (current_time info) (client_ip info) (client_host info).

(** prepareReportRequest on a new info. *)
Definition prepareReportRequest (h : Handler) (ctx : RequirementContext) (stream_info : StreamInfo)
    (now : Z) : ReportRequestInfo :=
  let info := new_ReportRequestInfo in
  let op := fillOperationInfo h ctx stream_info now in
  let op := if negb (is_api_key_valid (check_response_info_ h)) ||
               negb (service_is_activated (check_response_info_ h))
            then clear_api_key op else op in
  let api_method := Proto.operation_name (requirement_config ctx) in
  let '(location, platform) :=
    fillGCPInfo (config_ (cfg_parser_ h)) (location info) (compute_platform info) in
  mkReportRequestInfo op (response_code info) (check_status_ h) (path_ h) location
    (Proto.api_name (requirement_config ctx)) (Proto.api_version (requirement_config ctx))
    api_method (request_size info) (response_size info) (latency info)
    (api_method +:+ " is called") (auth_issuer info) (auth_audience info)
    (frontend_protocol info) (backend_protocol info) (http_method_ h) platform
    (check_response_info_ h) (request_bytes info) (request_headers info) (response_bytes info)
    (response_headers info) (jwt_payloads info) (streaming_request_message_counts info)
    (streaming_response_message_counts info) (streaming_durations info) (is_first_report info)
    (is_final_report info).

Section handler.
Context `{HeaderMapOps H} `{HttpUtility H} `{FilterStateOps F}.
(** Grpc::Common::hasGrpcContentType. *)
Context (hasGrpcContentType : H → bool).

(** ServiceControlHandlerImpl(). *)
Definition new_Handler (headers : H) (filter_state : F) (uuid : string)
    (cfg_parser : FilterConfigParser) (now : Z) : Handler :=
  let original_http_method := readHeaderEntry (hm_Method headers) in
  let operation := getStringFilterState filter_state kOperation in
  let ctx := if is_empty operation then None else FindRequirement cfg_parser operation in
  let locations :=
    match ctx with
    | Some ctx =>
        match Proto.api_key_locations (requirement_config ctx) with
        | [] => default_api_keys_ cfg_parser
        | locations => locations
        end
    | None => default_api_keys_ cfg_parser
    end in
  mkHandler cfg_parser ctx (readHeaderEntry (hm_Path headers))
    (getRequestHTTPMethodWithOverride original_http_method headers) uuid
    (extractAPIKey headers locations "").2 new_CheckResponseInfo Status_OK false
    (hm_byteSize headers) 0 None (hasGrpcContentType headers) true now.

(** ServiceControlHandlerFactoryImpl::createHandler, with the id that [random_] gives
    and the time that the constructor takes. *)
Definition createHandler (cfg_parser : FilterConfigParser) (uuid : string) (now : Z) (headers : H)
    (filter_state : F) : Handler :=
  new_Handler headers filter_state uuid cfg_parser now.

(** callQuota, with the status the quota call answers at once, if it does. *)
Definition callQuota (h : Handler) (ctx : RequirementContext) (stream_info : StreamInfo) (now : Z)
    (answer : option Status) : Handler * list Action :=
  if negb (isQuotaRequired ctx) then (h, [OnCheckDone (check_status_ h)]) else
  let info := mkQuotaRequestInfo (fillOperationInfo h ctx stream_info now)
                (Proto.operation_name (requirement_config ctx)) (Some (metric_costs_ ctx)) in
  let call := CallQuota (service_config (service_ctx ctx)) info in
  match answer with
  | Some st => (set_check_status st h, [call; OnCheckDone st])
  | None => (h, [call])
  end.

(** onCheckResponse. *)
Definition onCheckResponse (h : Handler) (ctx : RequirementContext) (stream_info : StreamInfo)
    (now : Z) (headers : H) (st : Status) (response_info : CheckResponseInfo)
    (quota : option Status) : Handler * list Action * H :=
  let h := set_check response_info st (cancel_fn_ h) h in
  let headers := if negb (is_empty (consumer_project_id response_info))
                 then hm_set kConsumerProjectId (consumer_project_id response_info) headers
                 else headers in
  if negb (status_ok st) then (h, [OnCheckDone st], headers)
  else let '(h, actions) := callQuota h ctx stream_info now quota in (h, actions, headers).

Definition no_caller_status : Status :=
  mkStatus Code.UNAUTHENTICATED
    "Method doesn't allow unregistered callers (callers without established identity). Please use API Key or other form of API consumer identity to call this API.".

(** callCheck, with the answers that the check and the quota call give before
    they return. *)
Definition callCheck (h : Handler) (stream_info : StreamInfo) (now : Z) (headers : H)
    (check : option (Status * CheckResponseInfo)) (quota : option Status)
  : Handler * list Action * H :=
  match require_ctx_ h with
  | None => (h, [OnCheckDone (mkStatus Code.NOT_FOUND "Method does not exist.")], headers)
  | Some ctx =>
      if negb (isCheckRequired ctx) then
        let '(h, actions) := callQuota h ctx stream_info now quota in (h, actions, headers)
      else if negb (hasApiKey h) then
        (set_check_status no_caller_status h, [OnCheckDone no_caller_status], headers)
      else
        let info :=
          mkCheckRequestInfo
            (set_info_referer (extractHeader headers kRefererHeader)
               (fillOperationInfo h ctx stream_info now))
            (extractHeader headers kAndroidPackageHeader)
            (extractHeader headers kAndroidCertHeader)
            (extractHeader headers kIosBundleIdHeader) in
        let call := CallCheck (service_config (service_ctx ctx)) info in
        match check with
        | Some (st, response_info) =>
            let '(h, actions, headers) :=
              onCheckResponse (set_cancel false h) ctx stream_info now headers st response_info
                quota in
            (set_cancel false h, call :: actions, headers)
        | None => (set_cancel true h, [call], headers)
        end
  end.

(** The callback of a check that answers later: it clears [cancel_fn_] first. *)
Definition check_answer (h : Handler) (ctx : RequirementContext) (stream_info : StreamInfo)
    (now : Z) (headers : H) (st : Status) (response_info : CheckResponseInfo)
    (quota : option Status) : Handler * list Action * H :=
  onCheckResponse (set_cancel false h) ctx stream_info now headers st response_info quota.

(** onDestroy: whether the pending call is cancelled.  The cancel function may run
    the callback of the check, with [answer]; it is reset afterwards. *)
Definition onDestroy (h : Handler) (stream_info : StreamInfo) (now : Z) (headers : H)
    (answer : option (Status * CheckResponseInfo)) (quota : option Status)
  : Handler * bool * list Action * H :=
  if cancel_fn_ h then
    let '(h, actions, headers) :=
      match require_ctx_ h, answer with
      | Some ctx, Some (st, response_info) =>
          check_answer h ctx stream_info now headers st response_info quota
      | _, _ => (h, [], headers)
      end in
    (set_cancel false h, true, actions, headers)
  else (h, false, [], headers).

(** The callback of a quota call that answers later. *)
Definition quota_answer (h : Handler) (st : Status) : Handler * list Action :=
  (set_check_status st h, [OnCheckDone st]).

(** processResponseHeaders. *)
Definition processResponseHeaders (h : Handler) (stream_info : StreamInfo) (response_headers : H)
  : Handler :=
  set_response (hm_byteSize response_headers)
    (getFrontendProtocol (Some response_headers) stream_info) h.

(** callReport. *)
Definition callReport (h : Handler) (stream_info : StreamInfo)
    (request_headers response_headers response_trailers : option H) (now : Z)
  : option (Handler * list Action) :=
  let ctx := match require_ctx_ h with
             | Some ctx => ctx
             | None => non_match_rqm_ctx_ (cfg_parser_ h)
             end in
  let h := set_require_ctx (Some ctx) h in
  if negb (isReportRequired ctx) then Some (h, []) else
  let info := prepareReportRequest h ctx stream_info now in
  let service := service_config (service_ctx ctx) in
  let name := Proto.jwt_payload_metadata_name service in
  payloads ← fillJwtPayloads (jwt_metadata stream_info) name (Proto.log_jwt_payloads service)
               (jwt_payloads info);
  let op := match request_headers with
            | Some headers => set_info_referer (extractHeader headers kRefererHeader) info
            | None => info
            end in
  let request_size := i64 (u64 (bytesReceived stream_info + request_header_size_ h)) in
  let response_header_size :=
    u64 (from_option hm_byteSize 0%Z response_headers + from_option hm_byteSize 0%Z response_trailers) in
  let response_size := i64 (u64 (bytesSent stream_info + response_header_size)) in
  let '(request_messages, response_messages) :=
    default (streaming_request_message_counts info, streaming_response_message_counts info)
      (grpc_stats stream_info) in
  let info :=
    mkReportRequestInfo op (default 500%Z (responseCode stream_info)) (status info) (url info)
      (location info) (api_name info) (api_version info) (api_method info)
      request_size response_size (fillLatency stream_info (latency info)) (log_message info)
      (fillJwtPayload (jwt_metadata stream_info) name JwtPayloadIssuerPath (auth_issuer info))
      (fillJwtPayload (jwt_metadata stream_info) name JwtPayloadAuidencePath (auth_audience info))
      (getFrontendProtocol response_headers stream_info) (getBackendProtocol service)
      (http_method info) (compute_platform info) (check_response_info info) request_size
      (fillLoggedHeader request_headers (Proto.log_request_headers service) (RequestInfo.request_headers info))
      response_size
      (fillLoggedHeader response_headers (Proto.log_response_headers service)
         (RequestInfo.response_headers info))
      payloads request_messages response_messages
      (Z.quot (now - startTime stream_info) 1000) (is_first_report_ h) (is_final_report info) in
  Some (h, [CallReport service info]).

(** tryIntermediateReport. *)
Definition tryIntermediateReport (h : Handler) (stream_info : StreamInfo) (now : Z)
  : option (Handler * list Action) :=
  if negb (is_grpc_ h) then Some (h, []) else
  ctx ← require_ctx_ h;
  if (Z.quot (now - last_reported_ h) 1000000 <? min_stream_report_interval_ms_ (service_ctx ctx))%Z
  then Some (h, []) else
  let info := prepareReportRequest h ctx stream_info now in
  frontend ← frontend_protocol_ h;
  let info :=
    mkReportRequestInfo info (response_code info) (status info) (url info) (location info)
      (api_name info) (api_version info) (api_method info) (request_size info)
      (response_size info) (latency info) (log_message info) (auth_issuer info)
      (auth_audience info) frontend (backend_protocol info) (http_method info)
      (compute_platform info) (check_response_info info)
      (i64 (u64 (bytesReceived stream_info + request_header_size_ h))) (RequestInfo.request_headers info)
      (i64 (u64 (bytesSent stream_info + response_header_size_ h))) (RequestInfo.response_headers info)
      (jwt_payloads info) (streaming_request_message_counts info)
      (streaming_response_message_counts info) (streaming_durations info) (is_first_report_ h)
      false in
  Some (set_reported now h, [CallReport (service_config (service_ctx ctx)) info]).

End handler.
