(* ===== verification/ScFilter.v ===== *)
(** * The service control filter: src/envoy/http/service_control/filter.{h,cc}

    The filter of one request as a state machine: its own operations, the
    answers of service control that the handler waits for, and destruction are
    the steps.  Proved by rule induction: a request is forwarded or rejected at
    most once and never both, and while a call is pending nothing passes. *)
From S2P Require Import Prelude RequestInfo EnvoyUtils ConfigParser HandlerUtils Handler RoutingFilters.

(** enum State. *)
Inductive State := Init | Calling | Responded | Complete.

#[export] Instance State_eq_dec : EqDecision State.
Proof. solve_decision. Defined.

(** Http::FilterDataStatus, as far as it is returned. *)
Inductive FilterDataStatus := DataContinue | StopIterationAndWatermark.

(** class ServiceControlFilter, with its stats, how often it let decoding go on
    (Continue from decodeHeaders, or continueDecoding), and its local replies. *)
Record ScFilter := mkScFilter {
  handler_ : option Handler;
  state_ : State;
  stopped_ : bool;
  allowed_ : Z;
  denied_ : Z;
  forwarded : Z;
  rejections : list LocalReply
}.

Definition new_ScFilter : ScFilter := mkScFilter None Init false 0 0 0 [].

Definition set_handler (h : Handler) (f : ScFilter) : ScFilter :=
  mkScFilter (Some h) (state_ f) (stopped_ f) (allowed_ f) (denied_ f) (forwarded f) (rejections f).

Section filter.
Context `{HeaderMapOps H} `{HttpUtility H} `{FilterStateOps F}.
Context (hasGrpcContentType : H → bool).
(** Grpc::Utility::grpcToHttpStatus and Status::ToString. *)
Context (grpcToHttpStatus : Z → Z) (status_to_string : Status → string).

Definition rejectRequest (code : Z) (error_msg : string) (f : ScFilter) : ScFilter :=
  mkScFilter (handler_ f) Responded (stopped_ f) (allowed_ f) (denied_ f + 1) (forwarded f)
    (rejections f ++ [mkLocalReply code error_msg "rejected_by_service_control_check"]).

Definition onCheckDone (st : Status) (f : ScFilter) : ScFilter :=
  if negb (status_ok st) then
    rejectRequest (grpcToHttpStatus (error_code st)) (status_to_string st) f
  else
    mkScFilter (handler_ f) Complete (stopped_ f) (allowed_ f + 1) (denied_ f)
      (if stopped_ f then forwarded f + 1 else forwarded f) (rejections f).

(** The callbacks among the handler's actions. *)
Definition run_callbacks (actions : list Action) (f : ScFilter) : ScFilter :=
  foldl (λ f a, match a with OnCheckDone st => onCheckDone st f | _ => f end) f actions.

(** decodeHeaders, with the answers the handler's calls give at once. *)
Definition decodeHeaders (f : ScFilter) (headers : H) (filter_state : F) (stream_info : StreamInfo)
    (uuid : string) (parser : FilterConfigParser) (now : Z)
    (check : option (Status * CheckResponseInfo)) (quota : option Status)
  : FilterHeadersStatus * ScFilter * list Action * H :=
  let h := createHandler hasGrpcContentType parser uuid now headers filter_state in
  let f := mkScFilter (Some h) Calling false (allowed_ f) (denied_ f) (forwarded f) (rejections f) in
  let '(h, actions, headers) := callCheck h stream_info now headers check quota in
  let f := run_callbacks actions (set_handler h f) in
  if bool_decide (state_ f = Complete) then
    (Continue,
     mkScFilter (handler_ f) (state_ f) (stopped_ f) (allowed_ f) (denied_ f) (forwarded f + 1)
       (rejections f), actions, headers)
  else
    (StopIteration,
     mkScFilter (handler_ f) (state_ f) true (allowed_ f) (denied_ f) (forwarded f) (rejections f),
     actions, headers).

(** Intermediate reports while data flows; [None] is undefined behaviour. *)
Definition report_data (f : ScFilter) (stream_info : StreamInfo) (length : Z) (end_stream : bool)
    (now : Z) : option (ScFilter * list Action) :=
  if negb end_stream && (0 <? length)%Z then
    h ← handler_ f;
    '(h, actions) ← tryIntermediateReport h stream_info now;
    Some (set_handler h f, actions)
  else Some (f, []).

Definition decodeData (f : ScFilter) (stream_info : StreamInfo) (length : Z) (end_stream : bool)
    (now : Z) : option (FilterDataStatus * ScFilter * list Action) :=
  '(f, actions) ← report_data f stream_info length end_stream now;
  Some (if bool_decide (state_ f = Calling) then StopIterationAndWatermark else DataContinue,
        f, actions).

Definition decodeTrailers (f : ScFilter) : FilterHeadersStatus :=
  if bool_decide (state_ f = Calling) then StopIteration else Continue.

Definition encodeHeaders (f : ScFilter) (stream_info : StreamInfo) (response_headers : H)
  : FilterHeadersStatus * ScFilter :=
  (Continue,
   match handler_ f with
   | Some h => set_handler (processResponseHeaders h stream_info response_headers) f
   | None => f
   end).

Definition encodeData (f : ScFilter) (stream_info : StreamInfo) (length : Z) (end_stream : bool)
    (now : Z) : option (FilterDataStatus * ScFilter * list Action) :=
  '(f, actions) ← report_data f stream_info length end_stream now;
  Some (DataContinue, f, actions).

(** log: the final report; a handler is made when there is none. *)
Definition log (f : ScFilter) (filter_state : F) (stream_info : StreamInfo) (uuid : string)
    (parser : FilterConfigParser) (request_headers response_headers response_trailers : option H)
    (now : Z) : option (ScFilter * list Action) :=
  match handler_ f, request_headers with
  | None, None => Some (f, [])
  | None, Some headers =>
      let h := createHandler hasGrpcContentType parser uuid now headers filter_state in
      '(h, actions) ← callReport h stream_info request_headers response_headers response_trailers now;
      Some (set_handler h f, actions)
  | Some h, _ =>
      '(h, actions) ← callReport h stream_info request_headers response_headers response_trailers now;
      Some (set_handler h f, actions)
  end.

(** onDestroy, with the answer that the cancel function gives, if it does. *)
Definition filter_onDestroy (f : ScFilter) (stream_info : StreamInfo) (now : Z) (headers : H)
    (answer : option (Status * CheckResponseInfo)) (quota : option Status)
  : ScFilter * list Action * H :=
  match handler_ f with
  | None => (f, [], headers)
  | Some h =>
      let '(h, _, actions, headers) := onDestroy h stream_info now headers answer quota in
      (run_callbacks actions (set_handler h f), actions, headers)
  end.

(** ** The machine *)

(** The filter, the request headers, whether a quota call is pending, and
    whether the filter was destroyed; a pending check is the handler's
    [cancel_fn_]. *)
Record World := mkWorld {
  filter : ScFilter;
  headers : H;
  quota_pending : bool;
  destroyed : bool
}.

Definition check_pending (w : World) : bool :=
  match handler_ (filter w) with Some h => cancel_fn_ h | None => false end.

Definition is_callback (a : Action) : bool := match a with OnCheckDone _ => true | _ => false end.
Definition is_quota_call (a : Action) : bool := match a with CallQuota _ _ => true | _ => false end.

(** A quota call that was made and did not call back. *)
Definition leaves_quota (actions : list Action) : bool :=
  existsb is_quota_call actions && negb (existsb is_callback actions).

Inductive step : World → World → Prop :=
  | step_decodeHeaders f hs fs si uuid parser now check quota status f' actions hs' :
      state_ f = Init → handler_ f = None →
      decodeHeaders f hs fs si uuid parser now check quota = (status, f', actions, hs') →
      step (mkWorld f hs false false) (mkWorld f' hs' (leaves_quota actions) false)
  | step_check_answer f hs q h ctx si now st info quota h' actions hs' :
      handler_ f = Some h → cancel_fn_ h = true → require_ctx_ h = Some ctx →
      check_answer h ctx si now hs st info quota = (h', actions, hs') →
      step (mkWorld f hs q false)
           (mkWorld (run_callbacks actions (set_handler h' f)) hs' (leaves_quota actions) false)
  | step_quota_answer f hs h st h' actions :
      handler_ f = Some h → quota_answer h st = (h', actions) →
      step (mkWorld f hs true false)
           (mkWorld (run_callbacks actions (set_handler h' f)) hs false false)
  | step_decodeData f hs q si len end_stream now status f' actions :
      state_ f ≠ Init → decodeData f si len end_stream now = Some (status, f', actions) →
      step (mkWorld f hs q false) (mkWorld f' hs q false)
  | step_encodeHeaders f hs q si rh status f' :
      encodeHeaders f si rh = (status, f') →
      step (mkWorld f hs q false) (mkWorld f' hs q false)
  | step_encodeData f hs q si len end_stream now status f' actions :
      state_ f ≠ Init → encodeData f si len end_stream now = Some (status, f', actions) →
      step (mkWorld f hs q false) (mkWorld f' hs q false)
  | step_log f hs q fs si uuid parser rh rsh rt now f' actions :
      log f fs si uuid parser rh rsh rt now = Some (f', actions) →
      step (mkWorld f hs q false) (mkWorld f' hs q false)
  | step_destroy f hs q si now answer quota f' actions hs' :
      filter_onDestroy f si now hs answer quota = (f', actions, hs') →
      step (mkWorld f hs q false) (mkWorld f' hs' (q || leaves_quota actions) true).

Inductive reachable : World → Prop :=
  | reachable_init hs : reachable (mkWorld new_ScFilter hs false false)
  | reachable_step w w' : reachable w → step w w' → reachable w'.

(** ** The invariant *)

(** What the handler's actions end with: one callback, and nothing pending; or
    one call that has not answered. *)
Definition settled (h : Handler) (actions : list Action) : Prop :=
  cancel_fn_ h = false ∧ leaves_quota actions = false ∧
  ∃ pre st, actions = pre ++ [OnCheckDone st] ∧ Forall (λ a, is_callback a = false) pre.

Definition waiting (h : Handler) (actions : list Action) : Prop :=
  is_Some (require_ctx_ h) ∧ Forall (λ a, is_callback a = false) actions ∧
  leaves_quota actions = negb (cancel_fn_ h).

Lemma settled_cons a h actions :
  is_callback a = false → is_quota_call a = false → settled h actions → settled h (a :: actions).
Proof.
  intros Ha Hq (Hc&Hl&pre&st&->&Hpre). split_and!; [done| |].
  - unfold leaves_quota in *. simpl. by rewrite Ha, Hq.
  - exists (a :: pre), st. split; [done|]. by constructor.
Qed.

Lemma callQuota_ends h ctx si now answer :
  require_ctx_ h = Some ctx → cancel_fn_ h = false →
  let '(h', actions) := callQuota h ctx si now answer in
  settled h' actions ∨ (waiting h' actions ∧ cancel_fn_ h' = false).
Proof.
  intros Hctx Hc. unfold callQuota. destruct (isQuotaRequired ctx); simpl.
  - destruct answer as [st|]; [left|right].
    + split_and!; [done|done|]. eexists [_], st. by repeat constructor.
    + split; [|done]. split_and!; [by eexists|by repeat constructor|by rewrite Hc].
  - left. split_and!; [done|done|]. by eexists [], _.
Qed.

Lemma onCheckResponse_ends h ctx si now (hs : H) st info quota :
  require_ctx_ h = Some ctx → cancel_fn_ h = false →
  let '(h', actions, hs') := onCheckResponse h ctx si now hs st info quota in
  settled h' actions ∨ (waiting h' actions ∧ cancel_fn_ h' = false).
Proof.
  intros Hctx Hc. unfold onCheckResponse. destruct (status_ok st); simpl.
  - pose proof (callQuota_ends (set_check info st (cancel_fn_ h) h) ctx si now quota Hctx Hc) as Hq.
    by destruct (callQuota _ _ _ _ _).
  - left. split_and!; [done|done|]. by eexists [], _.
Qed.

Lemma callCheck_ends h si now (hs : H) check quota :
  cancel_fn_ h = false →
  let '(h', actions, hs') := callCheck h si now hs check quota in
  settled h' actions ∨ waiting h' actions.
Proof.
  intros Hc. unfold callCheck. destruct (require_ctx_ h) as [ctx|] eqn:Hctx.
  2: { left. split_and!; [done|done|]. by eexists [], _. }
  destruct (isCheckRequired ctx); simpl.
  2: { pose proof (callQuota_ends h ctx si now quota Hctx Hc) as Hq.
       destruct (callQuota _ _ _ _ _). naive_solver. }
  destruct (hasApiKey h); simpl.
  2: { left. split_and!; [done|done|]. by eexists [], _. }
  destruct check as [[st info]|]; [|right; split_and!; [by eexists|by repeat constructor|done]].
  pose proof (onCheckResponse_ends (set_cancel false h) ctx si now hs st info quota Hctx eq_refl) as Ho.
  destruct (onCheckResponse _ _ _ _ _ _ _ _) as [[h' actions] hs'].
  destruct Ho as [(Hc'&Hl&Hs)|[(Hctx'&Ha&Hl) Hc']]; [left|right].
  - apply settled_cons; [done|done|]. by split_and!.
  - split_and!; [done|by constructor|]. unfold leaves_quota in *. simpl. by rewrite Hc' in Hl.
Qed.

Lemma run_callbacks_none actions f :
  Forall (λ a, is_callback a = false) actions → run_callbacks actions f = f.
Proof.
  unfold run_callbacks. revert f. induction actions as [|a actions IH]; intros f Ha; [done|].
  apply Forall_cons in Ha as [Ha1 Ha]. simpl. rewrite IH by done. by destruct a.
Qed.

Lemma run_callbacks_settled h actions f :
  settled h actions → ∃ st, run_callbacks actions f = onCheckDone st f.
Proof.
  intros (_&_&pre&st&->&Hpre). exists st. unfold run_callbacks. rewrite foldl_app. simpl.
  f_equal. by apply run_callbacks_none.
Qed.

Definition invariant (w : World) : Prop :=
  let f := filter w in
  match state_ f with
  | Init => forwarded f = 0%Z ∧ rejections f = [] ∧ allowed_ f = 0%Z ∧ denied_ f = 0%Z ∧
            check_pending w = false ∧ quota_pending w = false
  | Calling => forwarded f = 0%Z ∧ rejections f = [] ∧ allowed_ f = 0%Z ∧ denied_ f = 0%Z ∧
            stopped_ f = true ∧
            (∃ h, handler_ f = Some h ∧ is_Some (require_ctx_ h)) ∧
            (destroyed w = false → quota_pending w = negb (check_pending w))
  | Responded => forwarded f = 0%Z ∧ length (rejections f) = 1 ∧ allowed_ f = 0%Z ∧
            denied_ f = 1%Z ∧ check_pending w = false ∧ quota_pending w = false
  | Complete => forwarded f = 1%Z ∧ rejections f = [] ∧ allowed_ f = 1%Z ∧ denied_ f = 0%Z ∧
            check_pending w = false ∧ quota_pending w = false
  end.

(** A step that changes the handler only, and neither its pending check nor the
    presence of a requirement. *)
Lemma invariant_handler f f' (hs : H) q :
  state_ f' = state_ f → forwarded f' = forwarded f → rejections f' = rejections f →
  allowed_ f' = allowed_ f → denied_ f' = denied_ f → stopped_ f' = stopped_ f →
  check_pending (mkWorld f' hs q false) = check_pending (mkWorld f hs q false) →
  (∀ h, handler_ f = Some h → is_Some (require_ctx_ h) →
     ∃ h', handler_ f' = Some h' ∧ is_Some (require_ctx_ h')) →
  invariant (mkWorld f hs q false) → invariant (mkWorld f' hs q false).
Proof.
  intros E1 E2 E3 E4 E5 E6 E7 E8. unfold invariant. simpl. rewrite E1, E2, E3, E4, E5, E6, E7.
  destruct (state_ f); try done. intros (?&?&?&?&?&(h&Hh&Hctx)&?). split_and!; try done.
  by eapply E8.
Qed.

(** Settling or waiting, from the state in which a call is out. *)
Lemma invariant_calling f (hs : H) h actions :
  state_ f = Calling → forwarded f = 0%Z → rejections f = [] → allowed_ f = 0%Z →
  denied_ f = 0%Z → stopped_ f = true → handler_ f = Some h →
  settled h actions ∨ waiting h actions →
  invariant (mkWorld (run_callbacks actions f) hs (leaves_quota actions) false).
Proof.
  intros Hs Hf Hr Ha Hd Hst Hh [Hset|(Hctx&Hcb&Hl)].
  - destruct (run_callbacks_settled h actions f Hset) as [st ->].
    destruct Hset as (Hc&Hl&_). rewrite Hl. unfold onCheckDone.
    destruct (status_ok st); unfold invariant, check_pending; simpl;
      rewrite ?Hst, ?Hf, ?Hr, ?Ha, ?Hd, ?Hh, ?Hc; by split_and!.
  - rewrite run_callbacks_none by done. unfold invariant, check_pending. simpl.
    rewrite Hs, Hh. split_and!; try done. by exists h.
Qed.

Lemma tryIntermediateReport_keeps h si now h' actions :
  tryIntermediateReport h si now = Some (h', actions) →
  cancel_fn_ h' = cancel_fn_ h ∧ require_ctx_ h' = require_ctx_ h.
Proof.
  unfold tryIntermediateReport. destruct (is_grpc_ h); simpl; [|by intros [= <- <-]].
  destruct (require_ctx_ h) as [ctx|] eqn:E; simpl; [|done].
  destruct (_ <? _)%Z; [by intros [= <- <-]|].
  destruct (frontend_protocol_ h); simpl; [|done]. by intros [= <- <-].
Qed.

Lemma callReport_keeps h si (rh rsh rt : option H) now h' actions :
  callReport h si rh rsh rt now = Some (h', actions) →
  cancel_fn_ h' = cancel_fn_ h ∧ is_Some (require_ctx_ h').
Proof.
  unfold callReport. cbv zeta. destruct (isReportRequired _); simpl.
  - destruct (fillJwtPayloads _ _ _ _); simpl; [|done].
    destruct (default _ _). intros [= <- <-]. by split; [|eexists].
  - intros [= <- <-]. by split; [|eexists].
Qed.

Lemma set_handler_invariant f (hs : H) q h h' :
  handler_ f = Some h → cancel_fn_ h' = cancel_fn_ h →
  (is_Some (require_ctx_ h) → is_Some (require_ctx_ h')) →
  invariant (mkWorld f hs q false) → invariant (mkWorld (set_handler h' f) hs q false).
Proof.
  intros Hh Hc Hctx. apply invariant_handler; try done.
  - unfold check_pending. simpl. by rewrite Hh, Hc.
  - intros h0 Hh0 Hs. exists h'. split; [done|]. apply Hctx. congruence.
Qed.

Lemma report_data_invariant f (hs : H) q si len es now f' actions :
  report_data f si len es now = Some (f', actions) →
  invariant (mkWorld f hs q false) → invariant (mkWorld f' hs q false).
Proof.
  unfold report_data. destruct (negb es && (0 <? len)%Z); [|by intros [= <- <-]].
  destruct (handler_ f) as [h|] eqn:Hh; simpl; [|done].
  destruct (tryIntermediateReport h si now) as [[h' acts]|] eqn:E; simpl; [|done].
  intros [= <- <-]. apply tryIntermediateReport_keeps in E as [Ec Er].
  eapply set_handler_invariant; [done|done|]. by rewrite Er.
Qed.

Lemma decodeHeaders_invariant f hs (fs : F) si uuid parser now check quota status f' actions hs' :
  state_ f = Init →
  decodeHeaders f hs fs si uuid parser now check quota = (status, f', actions, hs') →
  invariant (mkWorld f hs false false) →
  invariant (mkWorld f' hs' (leaves_quota actions) false).
Proof.
  intros Hinit Hd Hinv. unfold invariant in Hinv. simpl in Hinv. rewrite Hinit in Hinv.
  destruct Hinv as (Hf&Hr&Ha&Hdn&_&_). unfold decodeHeaders, createHandler in Hd.
  set (h0 := new_Handler _ _ _ _ _ _) in Hd.
  pose proof (callCheck_ends h0 si now hs check quota eq_refl) as He.
  destruct (callCheck h0 si now hs check quota) as [[h acts] hs1].
  destruct He as [Hset|(Hctx&Hcb&Hl)].
  - destruct (run_callbacks_settled h acts (set_handler h (mkScFilter (Some h0) Calling false
      (allowed_ f) (denied_ f) (forwarded f) (rejections f))) Hset) as [st E].
    destruct Hset as (Hc&Hlq&_). rewrite E in Hd.
    unfold onCheckDone in Hd. simpl in Hd. rewrite Hf, Hr, Ha, Hdn in Hd.
    destruct (status_ok st); simpl in Hd; injection Hd as <- <- <- <-;
      unfold invariant, check_pending; simpl; rewrite ?Hc, ?Hlq; by split_and!.
  - rewrite run_callbacks_none in Hd by done. simpl in Hd. rewrite Hf, Hr, Ha, Hdn in Hd.
    injection Hd as <- <- <- <-. unfold invariant, check_pending. simpl.
    split_and!; try done. by exists h.
Qed.

Lemma invariant_destroyed f (hs : H) q :
  invariant (mkWorld f hs q false) → invariant (mkWorld f hs q true).
Proof. unfold invariant. simpl. destruct (state_ f); try done. naive_solver. Qed.

Lemma set_cancel_false h : cancel_fn_ h = false → set_cancel false h = h.
Proof. destruct h. simpl. by intros ->. Qed.

Lemma destroy_invariant f hs q si now answer quota f' actions hs' :
  filter_onDestroy f si now hs answer quota = (f', actions, hs') →
  invariant (mkWorld f hs q false) → invariant (mkWorld f' hs' (q || leaves_quota actions) true).
Proof.
  unfold filter_onDestroy, onDestroy. destruct (handler_ f) as [h|] eqn:Hh.
  2: { intros [= <- <- <-]. rewrite orb_false_r. apply invariant_destroyed. }
  destruct (cancel_fn_ h) eqn:Hc.
  2: { intros [= <- <- <-] Hi. rewrite orb_false_r. apply invariant_destroyed.
       by eapply (set_handler_invariant f _ _ h h). }
  intros Hd Hi. assert (state_ f = Calling ∧ q = false) as [Hs ->].
  { unfold invariant, check_pending in Hi. simpl in Hi. rewrite Hh, Hc in Hi. simpl in Hi.
    destruct (state_ f); destruct_and!; try done. split; [done|]. auto. }
  pose proof Hi as Hi'. unfold invariant in Hi'. simpl in Hi'. rewrite Hs in Hi'.
  destruct Hi' as (Hf&Hr&Ha&Hdn&Hst&(h0&Hh0&[ctx Hctx])&_).
  rewrite Hh in Hh0. injection Hh0 as <-. rewrite Hctx in Hd. simpl. destruct answer as [[st info]|].
  - pose proof (onCheckResponse_ends (set_cancel false h) ctx si now hs st info quota Hctx eq_refl)
      as He. unfold check_answer in Hd. destruct (onCheckResponse _ _ _ _ _ _ _ _) as [[h1 acts] hs1].
    injection Hd as <- <- <-. apply invariant_destroyed.
    rewrite set_cancel_false by (destruct He as [(?&_)|[_ ?]]; done).
    eapply (invariant_calling _ _ h1); try done. destruct He as [?|[? _]]; auto.
  - injection Hd as <- <- <-. simpl. unfold invariant, check_pending. simpl. rewrite Hs.
    split_and!; try done. by exists (set_cancel false h).
Qed.

Lemma step_invariant w w' : invariant w → step w w' → invariant w'.
Proof.
  intros Hinv Hstep. destruct Hstep.
  - by eapply decodeHeaders_invariant.
  - unfold check_answer in *. unfold invariant in Hinv. simpl in Hinv. unfold check_pending in Hinv.
    simpl in Hinv. rewrite H3 in Hinv.
    destruct (state_ f) eqn:Hs; try (destruct_and!; congruence).
    destruct Hinv as (Hf&Hr&Ha&Hd&Hst&_&_).
    pose proof (onCheckResponse_ends (set_cancel false h) ctx si now hs st info quota H5 eq_refl)
      as He. rewrite H6 in He. eapply (invariant_calling _ _ h'); try done.
    destruct He as [?|[? _]]; auto.
  - unfold quota_answer in *. simplify_eq. unfold invariant in Hinv. simpl in Hinv.
    unfold check_pending in Hinv. simpl in Hinv. rewrite H3 in Hinv.
    destruct (state_ f) eqn:Hs; try (destruct_and!; congruence).
    destruct Hinv as (Hf&Hr&Ha&Hd&Hst&_&Hp). specialize (Hp eq_refl).
    change false with (leaves_quota [OnCheckDone st]) at 1.
    eapply (invariant_calling _ _ (set_check_status st h)); try done. left.
    split_and!; [simpl; by destruct (cancel_fn_ h)|done|by eexists [], _].
  - unfold decodeData in *. destruct (report_data _ _ _ _ _) as [[f1 a1]|] eqn:E; [|done].
    simplify_eq/=. by eapply report_data_invariant.
  - unfold encodeHeaders in *. destruct (handler_ f) as [h|] eqn:Hh; simplify_eq; [|done].
    by eapply set_handler_invariant.
  - unfold encodeData in *. destruct (report_data _ _ _ _ _) as [[f1 a1]|] eqn:E; [|done].
    simplify_eq/=. by eapply report_data_invariant.
  - unfold log in *. destruct (handler_ f) as [h|] eqn:Hh.
    + destruct (callReport _ _ _ _ _ _) as [[h' a']|] eqn:E; [|done]. simplify_eq/=.
      apply callReport_keeps in E as [Ec Er]. by eapply set_handler_invariant.
    + destruct rh as [rh|]; [|by simplify_eq].
      destruct (callReport _ _ _ _ _ _) as [[h' a']|] eqn:E; [|done]. simplify_eq/=.
      apply callReport_keeps in E as [Ec Er].
      apply (invariant_handler f); try done; [|by rewrite Hh].
      unfold check_pending. simpl. by rewrite Hh, Ec.
  - by eapply destroy_invariant.
Qed.

Lemma reachable_invariant w : reachable w → invariant w.
Proof. induction 1 as [hs|w w' _ IH Hs]; [by repeat split|]. by eapply step_invariant. Qed.

End filter.
