(* ===== verification/ServiceControlCorrect.v ===== *)
(** * The service control filter and handler: what they promise

    Over the machine of [ScFilter] and the operations of [Handler]: a request is
    answered once, it is admitted only when the check and the quota call allow
    it, and its reports form a stream as the request builder expects it. *)
From S2P Require Import Prelude RequestInfo SupportedMetrics SupportedLabels RequestBuilder RequestBuilderCorrect EnvoyUtils ConfigMessages ConfigParser HandlerUtils Handler RoutingFilters ScFilter.

(** ** Reports *)

(** A report: the service whose call object gets it, and its info. *)
Abbreviation Report := (Proto.Service * ReportRequestInfo)%type.

Definition report_of (a : Action) : option Report :=
  match a with CallReport service info => Some (service, info) | _ => None end.

(** The requirement a report is made for. *)
Definition report_ctx (h : Handler) : RequirementContext :=
  default (non_match_rqm_ctx_ (cfg_parser_ h)) (require_ctx_ h).

(** A report of the request of [h]. *)
Definition report_for (h : Handler) (r : Report) : Prop :=
  r.1 = service_config (service_ctx (report_ctx h)) ∧ operation_id r.2 = uuid_ h ∧
  operation_name r.2 = Proto.operation_name (requirement_config (report_ctx h)).

Lemma prepareReportRequest_operation h ctx si now :
  let info := prepareReportRequest h ctx si now in
  operation_id info = uuid_ h ∧
  operation_name info = Proto.operation_name (requirement_config ctx) ∧
  response_code info = 200%Z ∧ is_final_report info = true.
Proof.
  unfold prepareReportRequest. destruct (fillGCPInfo _ _ _). simpl.
  by destruct (is_api_key_valid _), (service_is_activated _).
Qed.

Section reports.
Context `{HeaderMapOps H}.

(** Intermediate reports at the given times. *)
Fixpoint run_intermediate (h : Handler) (events : list (StreamInfo * Z))
  : option (Handler * list Report) :=
  match events with
  | [] => Some (h, [])
  | (si, now) :: events =>
      '(h, actions) ← tryIntermediateReport h si now;
      '(h, reports) ← run_intermediate h events;
      Some (h, omap report_of actions ++ reports)
  end.

(** Then the final report. *)
Definition run_reports (h : Handler) (events : list (StreamInfo * Z)) (si : StreamInfo)
    (request_headers response_headers response_trailers : option H) (now : Z)
  : option (list Report) :=
  '(h, reports) ← run_intermediate h events;
  '(_, actions) ← callReport h si request_headers response_headers response_trailers now;
  Some (reports ++ omap report_of actions).

Lemma tryIntermediateReport_flags h si now h' actions :
  tryIntermediateReport h si now = Some (h', actions) →
  (actions = [] ∧ is_first_report_ h' = is_first_report_ h) ∨
  (∃ s info, actions = [CallReport s info] ∧ is_first_report info = is_first_report_ h ∧
     is_final_report info = false ∧ is_first_report_ h' = false ∧
     report_for h (s, info) ∧ response_code info = 200%Z).
Proof.
  unfold tryIntermediateReport. destruct (is_grpc_ h); simpl; [|intros [= <- <-]; by left].
  destruct (require_ctx_ h) as [ctx|] eqn:Hctx; simpl; [|done].
  destruct (_ <? _)%Z; [intros [= <- <-]; by left|].
  destruct (frontend_protocol_ h); simpl; [|done]. intros [= <- <-]. right.
  destruct (prepareReportRequest_operation h ctx si now) as (Hid&Hname&Hcode&_).
  eexists _, _. unfold report_for, report_ctx. rewrite Hctx. by split_and!.
Qed.

Lemma report_for_frame h h' r :
  require_ctx_ h' = require_ctx_ h ∧ cfg_parser_ h' = cfg_parser_ h ∧ uuid_ h' = uuid_ h →
  report_for h' r → report_for h r.
Proof. unfold report_for, report_ctx. by intros (->&->&->). Qed.

(** What the report operations never change. *)
Lemma tryIntermediateReport_frame h si now h' actions :
  tryIntermediateReport h si now = Some (h', actions) →
  (require_ctx_ h' = require_ctx_ h ∧ cfg_parser_ h' = cfg_parser_ h ∧ uuid_ h' = uuid_ h) ∧
  is_grpc_ h' = is_grpc_ h ∧ frontend_protocol_ h' = frontend_protocol_ h.
Proof.
  unfold tryIntermediateReport. destruct (is_grpc_ h) eqn:Eg; simpl; [|by intros [= <- <-]].
  destruct (require_ctx_ h) eqn:Er; simpl; [|done].
  destruct (_ <? _)%Z; [by intros [= <- <-]|].
  destruct (frontend_protocol_ h) eqn:Ef; simpl; [|done]. by intros [= <- <-].
Qed.

Lemma run_intermediate_frame h events h' reports :
  run_intermediate h events = Some (h', reports) →
  require_ctx_ h' = require_ctx_ h ∧ cfg_parser_ h' = cfg_parser_ h ∧ uuid_ h' = uuid_ h.
Proof.
  revert h reports. induction events as [|[si now] events IH]; intros h reports E1;
    simpl in E1; [by simplify_eq|].
  destruct (tryIntermediateReport h si now) as [[h0 acts]|] eqn:E; simpl in E1; [|done].
  destruct (run_intermediate h0 events) as [[h2 reports']|] eqn:E2; simpl in E1; [|done].
  injection E1 as <- _. destruct (IH _ _ E2) as (->&->&->).
  by destruct (tryIntermediateReport_frame _ _ _ _ _ E) as [? _].
Qed.

Lemma run_intermediate_flags h events h' reports :
  run_intermediate h events = Some (h', reports) →
  Forall (λ r, is_final_report r.2 = false ∧ report_for h r ∧ response_code r.2 = 200%Z) reports ∧
  (reports = [] → is_first_report_ h' = is_first_report_ h) ∧
  (reports ≠ [] → is_first_report_ h' = false) ∧
  (∀ i r, reports !! i = Some r →
     is_first_report r.2 = is_first_report_ h && bool_decide (i = 0)).
Proof.
  revert h reports. induction events as [|[si now] events IH]; intros h reports Hr; simpl in Hr.
  { injection Hr as <- <-. split_and!; done. }
  destruct (tryIntermediateReport h si now) as [[h1 acts]|] eqn:E; simpl in Hr; [|done].
  destruct (run_intermediate h1 events) as [[h2 reports']|] eqn:E2; simpl in Hr; [|done].
  injection Hr as <- <-. destruct (IH h1 reports' E2) as (Hfin&Hnil&Hne&Hfirst).
  destruct (tryIntermediateReport_frame _ _ _ _ _ E) as [Hframe _].
  apply (Forall_impl _ (λ r, is_final_report r.2 = false ∧ report_for h r ∧ response_code r.2 = 200%Z))
    in Hfin; [|intros r (?&?&?); split_and!; [done|by eapply report_for_frame|done]].
  destruct (tryIntermediateReport_flags _ _ _ _ _ E)
    as [[-> Hsame]|(s&info&->&Hf1&Hf2&Hf3&Hf4&Hf5)]; simpl.
  - rewrite Hsame in *. done.
  - split_and!; [by constructor|done| |].
    + intros _. destruct reports' as [|x reports']; [by rewrite Hnil, Hf3|by apply Hne].
    + intros [|i] x Hx; simpl in Hx.
      * injection Hx as <-. simpl. by rewrite Hf1, andb_true_r.
      * rewrite (Hfirst i x Hx), Hf3. simpl. by rewrite andb_false_r.
Qed.

Lemma callReport_flags h si (rh rsh rt : option H) now h' actions :
  callReport h si rh rsh rt now = Some (h', actions) →
  actions = [] ∨ ∃ s info, actions = [CallReport s info] ∧
    is_first_report info = is_first_report_ h ∧ is_final_report info = true ∧
    report_for h (s, info) ∧ response_code info = default 500%Z (responseCode si).
Proof.
  unfold callReport. cbv zeta.
  assert (match require_ctx_ h with Some ctx => ctx | None => non_match_rqm_ctx_ (cfg_parser_ h) end
          = report_ctx h) as -> by (unfold report_ctx; by destruct (require_ctx_ h)).
  destruct (isReportRequired _); simpl; [|intros [= <- <-]; by left].
  set (h0 := set_require_ctx _ h).
  destruct (prepareReportRequest_operation h0 (report_ctx h) si now) as (Hid&Hname&_&Hfin).
  destruct (fillJwtPayloads _ _ _ _); simpl; [|done].
  destruct (default _ _). intros [= <- <-]. right. eexists _, _. split; [reflexivity|].
  split_and!; [done|done| |done]. unfold report_for. simpl. by destruct rh.
Qed.

(** Nothing undefined is read once the response's protocol is known. *)
Lemma run_intermediate_total h events :
  (is_grpc_ h = true → is_Some (require_ctx_ h) ∧ is_Some (frontend_protocol_ h)) →
  is_Some (run_intermediate h events).
Proof.
  revert h. induction events as [|[si now] events IH]; intros h Hg; [by eexists|]. simpl.
  assert (is_Some (tryIntermediateReport h si now)) as [[h' acts] E].
  { unfold tryIntermediateReport. destruct (is_grpc_ h); simpl; [|by eexists].
    destruct (Hg eq_refl) as [[ctx ->] [p ->]]. simpl. by case_match; eexists. }
  rewrite E. simpl. destruct (tryIntermediateReport_frame _ _ _ _ _ E) as ((Er&_)&Eg&Ef).
  destruct (IH h') as [[h2 reports] ->]; [by rewrite Er, Eg, Ef|]. by eexists.
Qed.

Lemma callReport_sends h si (rh rsh rt : option H) now :
  let service := service_config (service_ctx (report_ctx h)) in
  isReportRequired (report_ctx h) = true →
  is_Some (fillJwtPayloads (jwt_metadata si) (Proto.jwt_payload_metadata_name service)
             (Proto.log_jwt_payloads service) "") →
  ∃ h' s info, callReport h si rh rsh rt now = Some (h', [CallReport s info]).
Proof.
  cbv zeta. intros Hreq [p Hp]. unfold callReport. cbv zeta.
  assert (match require_ctx_ h with Some ctx => ctx | None => non_match_rqm_ctx_ (cfg_parser_ h) end
          = report_ctx h) as -> by (unfold report_ctx; by destruct (require_ctx_ h)).
  rewrite Hreq. simpl. unfold prepareReportRequest. destruct (fillGCPInfo _ _ _). simpl.
  rewrite Hp. simpl. destruct (default _ _). eauto.
Qed.

(** The codes of the reports of a request that ended as in [si]. *)
Definition report_code (si : StreamInfo) (r : Report) : Prop :=
  response_code r.2 = if is_final_report r.2 then default 500%Z (responseCode si) else 200%Z.

Lemma run_reports_stream h events si (rh rsh rt : option H) now :
  let service := service_config (service_ctx (report_ctx h)) in
  is_first_report_ h = true → isReportRequired (report_ctx h) = true →
  (events ≠ [] → is_grpc_ h = true → is_Some (require_ctx_ h) ∧ is_Some (frontend_protocol_ h)) →
  is_Some (fillJwtPayloads (jwt_metadata si) (Proto.jwt_payload_metadata_name service)
             (Proto.log_jwt_payloads service) "") →
  ∃ reports, run_reports h events si rh rsh rt now = Some reports ∧ reports ≠ [] ∧
    stream_ok reports.*2 ∧ Forall (λ r, report_for h r ∧ report_code si r) reports.
Proof.
  cbv zeta. intros Hfirst Hreq Hg Hjwt. unfold run_reports.
  assert (is_Some (run_intermediate h events)) as [[h1 inter] E1].
  { destruct events as [|e events]; [by eexists|]. by apply run_intermediate_total, Hg. }
  rewrite E1. simpl.
  pose proof (run_intermediate_frame _ _ _ _ E1) as Hframe.
  assert (report_ctx h1 = report_ctx h) as Hctx.
  { unfold report_ctx. by destruct Hframe as (->&->&_). }
  rewrite <-Hctx in Hreq, Hjwt.
  destruct (callReport_sends h1 si rh rsh rt now Hreq Hjwt) as (h2&s&info&E2). rewrite E2. simpl.
  destruct (callReport_flags _ _ _ _ _ _ _ _ E2) as [|(?&?&[= <- <-]&Hi1&Hi2&Hi3&Hi4)]; [done|].
  destruct (run_intermediate_flags _ _ _ _ E1) as (Hall&Hnil&Hne&Hf).
  eexists. split; [done|]. split; [by destruct inter|]. split.
  - intros i x. rewrite fmap_app, length_app, length_fmap. simpl. intros Hx.
    apply lookup_app_Some in Hx as [Hx|[Hi Hx]].
    + apply list_lookup_fmap_Some in Hx as (r&->&Hx). rewrite (Hf i r Hx), Hfirst. split; [done|].
      rewrite Forall_lookup in Hall. destruct (Hall i r Hx) as [-> _].
      apply lookup_lt_Some in Hx. symmetry. apply bool_decide_eq_false. lia.
    + rewrite length_fmap in *. destruct (i - length inter) as [|j] eqn:Ej; simpl in Hx; [|done].
      injection Hx as <-. rewrite Hi1, Hi2. assert (i = length inter) as -> by lia. split.
      * destruct inter as [|y inter]; [by rewrite Hnil, Hfirst|]. rewrite Hne by done.
        symmetry. by apply bool_decide_eq_false.
      * symmetry. apply bool_decide_eq_true. lia.
  - apply Forall_app. split.
    + eapply Forall_impl; [exact Hall|]. intros r (Hr&?&?). split; [done|].
      unfold report_code. by rewrite Hr.
    + constructor; [|done]. split; [by eapply report_for_frame|]. unfold report_code. simpl.
      by rewrite Hi2.
Qed.

(** The reports of one request, the intermediate ones at any times and then
    the final one, are all made once the protocol of the response is known and
    the JWT payloads can be printed; they all carry the id and the operation of the
    request, go to the service of its requirement, and form a stream: only the first
    is marked first and only the last is marked final. *)
Lemma reports_form_stream h events si (rh rsh rt : option H) now :
  let service := service_config (service_ctx (report_ctx h)) in
  is_first_report_ h = true → isReportRequired (report_ctx h) = true →
  (is_grpc_ h = true → is_Some (require_ctx_ h) ∧ is_Some (frontend_protocol_ h)) →
  is_Some (fillJwtPayloads (jwt_metadata si) (Proto.jwt_payload_metadata_name service)
             (Proto.log_jwt_payloads service) "") →
  ∃ reports, run_reports h events si rh rsh rt now = Some reports ∧ reports ≠ [] ∧
    stream_ok reports.*2 ∧ Forall (report_for h) reports.
Proof.
  cbv zeta. intros Hfirst Hreq Hg Hjwt.
  destruct (run_reports_stream h events si rh rsh rt now Hfirst Hreq (λ _, Hg) Hjwt) as (reports&E&Hne&Hs&Hall).
  exists reports. split_and!; [done..|]. eapply Forall_impl; [exact Hall|]. by intros r [? _].
Qed.

(** The final report: none for an operation that skips service control, and
    otherwise one, to the service of the requirement (the first service for an
    unmatched request), with the status of the check, the response code or 500,
    and the API key only if the check found it valid and the service activated. *)
Lemma callReport_correct h si (rh rsh rt : option H) now :
  let ctx := default (non_match_rqm_ctx_ (cfg_parser_ h)) (require_ctx_ h) in
  match callReport h si rh rsh rt now with
  | None => Proto.log_jwt_payloads (service_config (service_ctx ctx)) ≠ []
  | Some (h', actions) => require_ctx_ h' = Some ctx ∧
      if Proto.skip_service_control (requirement_config ctx) then actions = []
      else ∃ info, actions = [CallReport (service_config (service_ctx ctx)) info] ∧
        status info = check_status_ h ∧
        response_code info = default 500%Z (responseCode si) ∧
        operation_name info = Proto.operation_name (requirement_config ctx) ∧
        api_key info
        = (if is_api_key_valid (check_response_info_ h) &&
              service_is_activated (check_response_info_ h) then api_key_ h else "") ∧
        check_response_info info = check_response_info_ h
  end.
Proof.
  cbv zeta. unfold callReport. cbv zeta.
  assert (match require_ctx_ h with Some ctx => ctx | None => non_match_rqm_ctx_ (cfg_parser_ h) end
          = default (non_match_rqm_ctx_ (cfg_parser_ h)) (require_ctx_ h)) as ->
    by (by destruct (require_ctx_ h)).
  set (ctx := default _ _). unfold isReportRequired.
  destruct (Proto.skip_service_control (requirement_config ctx)); simpl; [done|].
  destruct (fillJwtPayloads _ _ _ _) as [p|] eqn:E; simpl.
  - destruct (default _ (grpc_stats si)). split; [done|]. eexists. split; [reflexivity|]. simpl.
    unfold prepareReportRequest. destruct (fillGCPInfo _ _ _). simpl. split_and!; try done.
    + by destruct rh, (is_api_key_valid _), (service_is_activated _).
    + by destruct rh, (is_api_key_valid _), (service_is_activated _).
  - intros Hnil. by rewrite Hnil in E.
Qed.

End reports.

(** ** Admission *)

(** What a request is answered with, given what service control answers: the
    specification of the whole exchange. *)
Definition admission (ctx : option RequirementContext) (has_key : bool) (check quota : Status)
  : Status :=
  match ctx with
  | None => mkStatus Code.NOT_FOUND "Method does not exist."
  | Some ctx =>
      if isCheckRequired ctx && negb has_key then no_caller_status
      else if isCheckRequired ctx && negb (status_ok check) then check
      else if isQuotaRequired ctx then quota else if isCheckRequired ctx then check else Status_OK
  end.

Definition is_check_call (a : Action) : bool := match a with CallCheck _ _ => true | _ => false end.
Definition callback_of (a : Action) : option Status :=
  match a with OnCheckDone st => Some st | _ => None end.

Section admission.
Context `{HeaderMapOps H} `{HttpUtility H} `{FilterStateOps F}.
Context (hasGrpcContentType : H → bool) (grpcToHttpStatus : Z → Z) (status_to_string : Status → string).

(** The exchange to its end: [check_now] and [quota_now] say whether the calls
    answer before they return or later. *)
Definition exchange (h : Handler) (si : StreamInfo) (hs : H) (check_now quota_now : bool)
    (check : Status) (info : CheckResponseInfo) (quota : Status) (t0 t1 : Z)
  : Handler * list Action :=
  let quota_answer_now := if quota_now then Some quota else None in
  let '(h, actions, hs) :=
    callCheck h si t0 hs (if check_now then Some (check, info) else None) quota_answer_now in
  let '(h, actions) :=
    match require_ctx_ h with
    | Some ctx =>
        if cancel_fn_ h then
          let '(h, more, _) := check_answer h ctx si t1 hs check info quota_answer_now in
          (h, actions ++ more)
        else (h, actions)
    | None => (h, actions)
    end in
  if leaves_quota actions then let '(h, more) := quota_answer h quota in (h, actions ++ more)
  else (h, actions).

(** C5: however the answers of service control arrive, before the calls return
    or later, a new handler calls back exactly once, with the status the
    requirement, the API key and the two answers determine.  A check is made
    exactly when the operation needs one and the request has a key, and quota is
    allocated exactly when it is needed and the check let the request pass. *)
Theorem handler_admission (headers : H) (fs : F) uuid parser t0 si check_now quota_now check info
    quota t1 t2 :
  let h := new_Handler hasGrpcContentType headers fs uuid parser t0 in
  let '(h', actions) := exchange h si headers check_now quota_now check info quota t1 t2 in
  omap callback_of actions = [admission (require_ctx_ h) (hasApiKey h) check quota] ∧
  existsb is_check_call actions
  = match require_ctx_ h with Some ctx => isCheckRequired ctx && hasApiKey h | None => false end ∧
  existsb is_quota_call actions
  = match require_ctx_ h with
    | Some ctx => isQuotaRequired ctx && (negb (isCheckRequired ctx) || hasApiKey h && status_ok check)
    | None => false
    end ∧
  (is_Some (require_ctx_ h) →
     check_status_ h' = admission (require_ctx_ h) (hasApiKey h) check quota).
Proof.
  cbv zeta. set (h := new_Handler _ _ _ _ _ _).
  assert (check_status_ h = Status_OK ∧ cancel_fn_ h = false) as [Hst Hc] by done.
  clearbody h. unfold exchange, callCheck, admission.
  destruct (require_ctx_ h) as [ctx|] eqn:Hctx; simpl;
    [|rewrite Hctx; simpl; split_and!; try done; by intros [? ?]].
  unfold check_answer, onCheckResponse, callQuota.
  destruct (isCheckRequired ctx), (hasApiKey h), (isQuotaRequired ctx) eqn:Eq, check_now, quota_now,
    (status_ok check) eqn:Ec; simpl; rewrite ?Hctx; simpl; rewrite ?Hc; simpl;
    rewrite ?Ec; simpl; rewrite ?Eq; simpl; rewrite ?Hst; done.
Qed.

End admission.

(** ** The filter *)

Section machine.
Context `{HeaderMapOps H} `{HttpUtility H} `{FilterStateOps F}.
Context (hasGrpcContentType : H → bool) (grpcToHttpStatus : Z → Z) (status_to_string : Status → string).

Abbreviation step := (step (F := F) hasGrpcContentType grpcToHttpStatus status_to_string).
Abbreviation reachable := (reachable (F := F) hasGrpcContentType grpcToHttpStatus status_to_string).

(** C6: in every reachable state of the filter a request was forwarded or
    rejected, once in all: forwarded exactly in Complete, rejected exactly in
    Responded, counted once as allowed or denied; while a call is out it is
    neither, and body and trailers wait. *)
Theorem filter_once w :
  reachable w →
  let f := filter w in
  (forwarded f + Z.of_nat (length (rejections f))
   = if bool_decide (state_ f = Complete ∨ state_ f = Responded) then 1 else 0)%Z ∧
  (state_ f = Complete ↔ forwarded f = 1%Z) ∧
  (state_ f = Responded ↔ rejections f ≠ []) ∧
  allowed_ f = forwarded f ∧ denied_ f = Z.of_nat (length (rejections f)) ∧
  (state_ f = Calling → decodeTrailers f = StopIteration ∧
     ∀ si len es now status f' actions,
       decodeData f si len es now = Some (status, f', actions) → status = StopIterationAndWatermark).
Proof.
  intros Hr%reachable_invariant. cbv zeta. unfold invariant in Hr.
  destruct (state_ (filter w)) eqn:Hs; destruct Hr as (->&Hrej&->&->&_).
  - rewrite Hrej. by rewrite bool_decide_eq_false_2 by naive_solver.
  - rewrite Hrej, bool_decide_eq_false_2 by naive_solver. split_and!; try done. intros _. split.
    + unfold decodeTrailers. by rewrite Hs.
    + intros si len es now status f' actions. unfold decodeData, report_data.
      destruct (negb es && _); simpl; [|rewrite Hs; by intros [= <- _ _]].
      destruct (handler_ (filter w)); simpl; [|done].
      destruct (tryIntermediateReport _ _ _) as [[? ?]|]; simpl; [|done].
      rewrite Hs. by intros [= <- _ _].
  - rewrite Hrej, bool_decide_eq_true_2 by auto. split_and!; try done.
    split; [|done]. intros _ Hnil. by rewrite Hnil in Hrej.
  - rewrite Hrej, bool_decide_eq_true_2 by auto. by split_and!.
Qed.

Definition decided (st : Status) : State := if status_ok st then Complete else Responded.

(** C7: a filter that waits is never stuck: in a reachable state in which a call
    is out and the filter lives, exactly one answer is awaited, and taking it is
    a step.  The answer of the quota call decides the request; the answer of the
    check decides it too, unless quota is to be allocated and is not answered at
    once, when the filter waits for quota.  So two answers settle a request. *)
Theorem filter_answers w :
  reachable w → state_ (filter w) = Calling → destroyed w = false →
  ∃ h ctx, handler_ (filter w) = Some h ∧ require_ctx_ h = Some ctx ∧
  quota_pending w = negb (check_pending w) ∧
  if quota_pending w
  then ∀ st, let '(h', actions) := quota_answer h st in
    let w' := mkWorld (run_callbacks grpcToHttpStatus status_to_string actions
                         (set_handler h' (filter w))) (headers w) false false in
    step w w' ∧ state_ (filter w') = decided st
  else ∀ si now st info quota,
    let '(h', actions, hs') := check_answer h ctx si now (headers w) st info quota in
    let w' := mkWorld (run_callbacks grpcToHttpStatus status_to_string actions
                         (set_handler h' (filter w))) hs' (leaves_quota actions) false in
    step w w' ∧ check_pending w' = false ∧
    state_ (filter w')
    = if negb (status_ok st) then Responded
      else if isQuotaRequired ctx then from_option decided Calling quota else Complete.
Proof.
  intros Hr%reachable_invariant Hs Hd. unfold invariant in Hr. rewrite Hs in Hr.
  destruct Hr as (_&_&_&_&_&(h&Hh&[ctx Hctx])&Hp). specialize (Hp Hd).
  destruct w as [f hs q d]. cbn in Hs, Hh, Hp, Hd |- *. subst d. exists h, ctx. split_and!; [done..|].
  destruct q.
  - intros st. split; [by apply (step_quota_answer _ _ _ f hs h st _ [OnCheckDone st])|].
    simpl. unfold onCheckDone, decided. by destruct (status_ok st).
  - assert (cancel_fn_ h = true) as Hc.
    { unfold check_pending in Hp. simpl in Hp. rewrite Hh in Hp. by destruct (cancel_fn_ h). }
    intros si now st info quota.
    destruct (check_answer h ctx si now hs st info quota) as [[h' actions] hs'] eqn:E.
    split; [by eapply step_check_answer|].
    unfold check_answer, onCheckResponse, callQuota in E. unfold check_pending.
    destruct (status_ok st) eqn:Est; simpl in E; [destruct (isQuotaRequired ctx); simpl in E;
      [destruct quota as [qst|]|]|]; simplify_eq; simpl; unfold onCheckDone, decided; simpl;
      rewrite ?Est, ?Hs; simpl; try done.
    by destruct (status_ok qst).
Qed.

End machine.

(** ** Where reports and costs differ from the configuration *)

Section limits.
Context `{HeaderMapOps H} `{HttpUtility H} `{FilterStateOps F}.
Context (hasGrpcContentType : H → bool).

(** The time since the last report, in milliseconds. *)
Definition report_due (h : Handler) (ctx : RequirementContext) (now : Z) : bool :=
  (min_stream_report_interval_ms_ (service_ctx ctx)
     <=? Z.quot (now - last_reported_ h) 1000000)%Z.

(** C37: an operation that skips service control is not reported at its end, but
    its gRPC streams are reported in between: tryIntermediateReport does not ask
    whether a report is required. *)
Theorem intermediate_ignores_skip h ctx p si now (rh rsh rt : option H) :
  require_ctx_ h = Some ctx → frontend_protocol_ h = Some p → is_grpc_ h = true →
  Proto.skip_service_control (requirement_config ctx) = true → report_due h ctx now = true →
  (∃ h' info, tryIntermediateReport h si now
     = Some (h', [CallReport (service_config (service_ctx ctx)) info])) ∧
  ∃ h', callReport h si rh rsh rt now = Some (h', []).
Proof.
  intros Hctx Hp Hg Hskip Hdue%Z.leb_le. split.
  - unfold tryIntermediateReport. rewrite Hg, Hctx. simpl.
    rewrite (proj2 (Z.ltb_ge _ _) Hdue), Hp. simpl. eauto.
  - unfold callReport. cbv zeta. rewrite Hctx. unfold isReportRequired. rewrite Hskip. simpl. eauto.
Qed.

(** C38: a gRPC request that streams for longer than the report interval before
    its response headers arrive makes tryIntermediateReport read
    [frontend_protocol_], which neither the constructor nor the declaration of
    the member gives a value. *)
Theorem intermediate_reads_unset_protocol (headers : H) (fs : F) uuid parser t0 ctx si now :
  let h := new_Handler hasGrpcContentType headers fs uuid parser t0 in
  require_ctx_ h = Some ctx → is_grpc_ h = true → report_due h ctx now = true →
  frontend_protocol_ h = None ∧ tryIntermediateReport h si now = None.
Proof.
  cbv zeta. intros Hctx Hg Hdue%Z.leb_le. split; [done|].
  unfold tryIntermediateReport. rewrite Hg, Hctx. cbn [negb mbind option_bind].
  by rewrite (proj2 (Z.ltb_ge _ _) Hdue).
Qed.

End limits.

Lemma i32_fits z : i32 z = z ↔ (- 2 ^ 31 ≤ z < 2 ^ 31)%Z.
Proof.
  split; [|apply i32_id]. intros <-. unfold i32, wrap_signed.
  pose proof (Z.mod_pos_bound (z + 2 ^ (32 - 1)) (2 ^ 32)). lia.
Qed.

(** C39: a requirement keeps the metric costs of its configuration exactly when
    each fits in 32 bits: a cost is an int64 in the configuration and an int in
    RequirementContext.  A cost that is a multiple of 2^32 becomes 0. *)
Theorem metric_costs_kept r s :
  (metric_costs_ (new_RequirementContext r s) = Proto.metric_costs r ↔
   Forall (λ c, (- 2 ^ 31 ≤ c.2 < 2 ^ 31)%Z) (Proto.metric_costs r)) ∧
  ∀ name k, (name, (k * 2 ^ 32)%Z) ∈ Proto.metric_costs r →
    (name, 0%Z) ∈ metric_costs_ (new_RequirementContext r s).
Proof.
  split.
  - simpl. induction (Proto.metric_costs r) as [|[n c] l IH]; [done|].
    rewrite fmap_cons, Forall_cons, <-IH. simpl. rewrite <-i32_fits. split.
    + by intros [= Hc Hl].
    + by intros [-> ->].
  - intros name k Hin. simpl. apply list_elem_of_fmap. exists (name, (k * 2 ^ 32)%Z).
    split; [|done]. f_equal. unfold i32, wrap_signed. by rewrite Z.add_comm, Z_mod_plus_full.
Qed.

(** ** A sample service, and the witnesses *)

Module Sample.

Abbreviation Headers := (gmap string string).

Definition service : Proto.Service :=
  Proto.mkService "bookstore" "2024" "project" None "grpc" [] [] 0 [] "".

(** An operation that needs an API key and quota, and one that skips service
    control. *)
Definition guarded : Proto.Requirement :=
  Proto.mkRequirement "bookstore" "GetShelf" [] false "api" "v1" false [("reads", 2%Z)].
Definition open : Proto.Requirement :=
  Proto.mkRequirement "bookstore" "Health" [] false "api" "v1" true [].

Definition context (r : Proto.Requirement) : RequirementContext :=
  new_RequirementContext r (new_ServiceContext service).

Definition config : Proto.FilterConfig :=
  Proto.mkFilterConfig [service] [guarded; open] None
    (Proto.imds_token (Common.mkHttpUri "http://metadata/token" "metadata")) None
    (Common.mkHttpUri "https://sc/v1/services/" "sc").

(** The parser of a configuration that is accepted. *)
Definition parser : FilterConfigParser :=
  match new_FilterConfigParser config with
  | inr p => p
  | inl _ => mkFilterConfigParser config ∅ (context open) ∅ []
  end.

#[local] Instance utility : HttpUtility Headers := {
  parseQueryString _ := ∅;
  parseCookieValue _ _ := ""
}.

Definition headers : Headers :=
  <["x-api-key" := "k"]> (<["content-type" := "application/grpc"]> ∅).
Definition grpc (hs : Headers) : bool := bool_decide (hs !! "content-type" = Some "application/grpc").
Definition state (operation : string) : gmap string string := {[kOperation := operation]}.

Definition info : StreamInfo :=
  mkStreamInfo (Some 9000000%Z) None None true (Some 200%Z) 10 20 0 "1.2.3.4" (λ _, None) None.

Definition handler (operation : string) : Handler :=
  new_Handler grpc headers (state operation) "uuid" parser 0.

Definition response : Headers := {["content-type" := "application/grpc"]}.

(** Two intermediate reports ten seconds apart, with one try too early, and the
    final report. *)
Lemma reports_form_stream_witness :
  ∃ reports, run_reports (processResponseHeaders (handler "GetShelf") info response)
               [(info, 10000000000%Z); (info, 15000000000%Z); (info, 20000000000%Z)] info
               (Some headers) (Some response) None 21000000000 = Some reports ∧
    reports ≠ [] ∧ stream_ok reports.*2 ∧
    Forall (report_for (processResponseHeaders (handler "GetShelf") info response)) reports.
Proof.
  apply reports_form_stream; try (vm_compute; reflexivity).
  - intros _. split; vm_compute; eexists; reflexivity.
  - vm_compute. eexists. reflexivity.
Defined.

(** The filter after decodeHeaders, with the check on its way. *)
Definition waiting_world : World :=
  let '(_, f, actions, hs) :=
    decodeHeaders grpc (λ c, c) error_message new_ScFilter headers (state "GetShelf") info "uuid"
      parser 0 None None in
  mkWorld f hs (leaves_quota actions) false.

Lemma waiting_reachable : reachable grpc (λ c, c) error_message (F := gmap string string) waiting_world.
Proof.
  eapply reachable_step; [apply (reachable_init _ _ _ headers)|]. unfold waiting_world.
  destruct (decodeHeaders _ _ _ _ _ _ _ _ _ _ _ _) as [[[status f] actions] hs] eqn:E.
  by eapply step_decodeHeaders.
Qed.

Lemma filter_once_witness :
  state_ (filter waiting_world) = Calling ∧ forwarded (filter waiting_world) = 0%Z ∧
  denied_ (filter waiting_world) = Z.of_nat (length (rejections (filter waiting_world))).
Proof.
  split; [vm_compute; reflexivity|]. split; [vm_compute; reflexivity|].
  apply (filter_once grpc (λ c, c) error_message waiting_world waiting_reachable).
Defined.

Lemma filter_answers_witness :
  ∃ h ctx, handler_ (filter waiting_world) = Some h ∧ require_ctx_ h = Some ctx ∧
    quota_pending waiting_world = negb (check_pending waiting_world).
Proof.
  destruct (filter_answers grpc (λ c, c) error_message waiting_world waiting_reachable)
    as (h&ctx&Hh&Hctx&Hq&_); [vm_compute; reflexivity|vm_compute; reflexivity|].
  exists h, ctx. split; [exact Hh|]. split; [exact Hctx|exact Hq].
Defined.

Lemma intermediate_ignores_skip_witness :
  ∃ h' i, tryIntermediateReport (processResponseHeaders (handler "Health") info response) info
    10000000000 = Some (h', [CallReport service i]).
Proof.
  refine (proj1 (intermediate_ignores_skip _ (context open) protocol.GRPC info 10000000000
    (Some headers) None None _ _ _ _ _)); vm_compute; reflexivity.
Defined.

Lemma intermediate_reads_unset_protocol_witness :
  tryIntermediateReport (handler "GetShelf") info 10000000000 = None.
Proof.
  apply (intermediate_reads_unset_protocol grpc headers (state "GetShelf") "uuid" parser 0
    (context guarded)); vm_compute; reflexivity.
Defined.

End Sample.
