(* ===== verification/Verdict.v ===== *)
(** * What is answered and what is reported:
    src/envoy/http/service_control/{filter,handler_impl}.cc

    The filter answers a request with the status that the handler calls back with,
    and the report of the request carries the status that the handler keeps.  Over
    the machine of [ScFilter], the two agree but in one case. *)
From S2P Require Import Prelude RequestInfo EnvoyUtils RoutingFilters ConfigMessages ConfigParser HandlerUtils Handler ScFilter ServiceControlCorrect.

(** A handler that found no requirement; the first report gives it the one for
    unmatched requests. *)
Definition unmatched (h : Handler) : Prop :=
  require_ctx_ h = None ∨ require_ctx_ h = Some (non_match_rqm_ctx_ (cfg_parser_ h)).

Definition no_method_status : Status := mkStatus Code.NOT_FOUND "Method does not exist.".

(** The status called back and the one kept. *)
Definition kept (h : Handler) (st : Status) : Prop :=
  check_status_ h = st ∨ (st = no_method_status ∧ check_status_ h = Status_OK ∧ unmatched h).

(** The actions of the handler end with a callback, whose status is kept; or there
    is none, and no failure is kept. *)
Definition concludes (h : Handler) (actions : list Action) : Prop :=
  (∃ pre st, actions = pre ++ [OnCheckDone st] ∧ Forall (λ a, is_callback a = false) pre ∧ kept h st) ∨
  (Forall (λ a, is_callback a = false) actions ∧ status_ok (check_status_ h) = true).

Lemma concludes_cons a h actions :
  is_callback a = false → concludes h actions → concludes h (a :: actions).
Proof.
  intros Ha [(pre&st&->&Hpre&Hk)|[Hc Hs]]; [left|right].
  - exists (a :: pre), st. split_and!; [done|by constructor|done].
  - split; [by constructor|done].
Qed.

Section verdict.
Context `{HeaderMapOps H} `{HttpUtility H} `{FilterStateOps F}.
Context (hasGrpcContentType : H → bool).
Context (grpcToHttpStatus : Z → Z) (status_to_string : Status → string).

#[local] Abbreviation run_callbacks := (run_callbacks grpcToHttpStatus status_to_string).
#[local] Abbreviation onCheckDone := (onCheckDone grpcToHttpStatus status_to_string).
#[local] Abbreviation reachable := (reachable (F := F) hasGrpcContentType grpcToHttpStatus status_to_string).
#[local] Abbreviation step := (step (F := F) hasGrpcContentType grpcToHttpStatus status_to_string).

Lemma callQuota_concludes h ctx si now answer :
  status_ok (check_status_ h) = true →
  let '(h', actions) := callQuota h ctx si now answer in concludes h' actions.
Proof.
  intros Hok. unfold callQuota. destruct (isQuotaRequired ctx); simpl.
  - destruct answer as [st|]; [left; eexists [_], st|right]; by repeat constructor.
  - left. exists [], (check_status_ h). repeat constructor.
Qed.

Lemma onCheckResponse_concludes h ctx si now (hs : H) st info quota :
  let '(h', actions, _) := onCheckResponse h ctx si now hs st info quota in concludes h' actions.
Proof.
  unfold onCheckResponse. destruct (status_ok st) eqn:Est; simpl.
  - pose proof (callQuota_concludes (set_check info st (cancel_fn_ h) h) ctx si now quota Est) as Hq.
    by destruct (callQuota _ _ _ _ _).
  - left. exists [], st. repeat constructor.
Qed.

Lemma concludes_cancel b h actions : concludes h actions → concludes (set_cancel b h) actions.
Proof. by destruct h. Qed.

Lemma callCheck_concludes h si now (hs : H) check quota :
  check_status_ h = Status_OK →
  let '(h', actions, _) := callCheck h si now hs check quota in concludes h' actions.
Proof.
  intros Hok. unfold callCheck. destruct (require_ctx_ h) as [ctx|] eqn:Hctx.
  2: { left. exists [], no_method_status. split_and!; [done|constructor|]. right.
       split_and!; [done|done|by left]. }
  destruct (isCheckRequired ctx); simpl.
  2: { pose proof (callQuota_concludes h ctx si now quota) as Hq. rewrite Hok in Hq.
       specialize (Hq eq_refl). by destruct (callQuota _ _ _ _ _). }
  destruct (hasApiKey h); simpl.
  2: { left. exists [], no_caller_status. repeat constructor. }
  destruct check as [[st info]|].
  - pose proof (onCheckResponse_concludes (set_cancel false h) ctx si now hs st info quota) as Ho.
    destruct (onCheckResponse _ _ _ _ _ _ _ _) as [[h' actions] hs'].
    apply concludes_cons; [done|]. by apply concludes_cancel.
  - right. split; [by repeat constructor|]. simpl. by rewrite Hok.
Qed.

(** ** The invariant *)

Definition reply_of (st : Status) : LocalReply :=
  mkLocalReply (grpcToHttpStatus (error_code st)) (status_to_string st)
    "rejected_by_service_control_check".

(** What the filter did, from what the handler keeps. *)
Definition told (f : ScFilter) : Prop :=
  match handler_ f with
  | None => state_ f = Init
  | Some h =>
      match state_ f with
      | Responded => ∃ st, rejections f = [reply_of st] ∧ status_ok st = false ∧ kept h st
      | _ => status_ok (check_status_ h) = true
      end
  end.

(** A step that leaves the answer alone, and of the handler what is compared. *)
Definition keeps (h h' : Handler) : Prop :=
  check_status_ h' = check_status_ h ∧ cfg_parser_ h' = cfg_parser_ h ∧ api_key_ h' = api_key_ h ∧
  (require_ctx_ h' = require_ctx_ h ∨
   (unmatched h → require_ctx_ h' = Some (non_match_rqm_ctx_ (cfg_parser_ h)))).

Lemma kept_keeps h h' st : keeps h h' → kept h st → kept h' st.
Proof.
  intros (Hs&Hp&_&Hc) [Hk|(Hst&Hk&Hu)]; [left|right]; rewrite Hs; [done|]. split_and!; [done..|].
  unfold unmatched in *. rewrite Hp. destruct Hc as [->|Hc]; auto.
Qed.

Lemma told_handler f h h' : handler_ f = Some h → keeps h h' → told f → told (set_handler h' f).
Proof.
  unfold told. intros Hh Hk. rewrite Hh. simpl. pose proof Hk as (Hs&_). rewrite Hs.
  destruct (state_ f); [done..| |done]. intros (st&?&?&?). exists st. split_and!; [done..|].
  by eapply kept_keeps.
Qed.

Lemma tryIntermediateReport_same h si now h' actions :
  tryIntermediateReport h si now = Some (h', actions) → keeps h h'.
Proof.
  unfold tryIntermediateReport. destruct (is_grpc_ h); simpl;
    [|intros [= <- <-]; split_and!; auto].
  destruct (require_ctx_ h) as [ctx|]; simpl; [|done].
  destruct (_ <? _)%Z; [intros [= <- <-]; split_and!; auto|].
  destruct (frontend_protocol_ h); simpl; [|done]. intros [= <- <-]. split_and!; auto.
Qed.

Lemma callReport_same h si (rh rsh rt : option H) now h' actions :
  callReport h si rh rsh rt now = Some (h', actions) → keeps h h'.
Proof.
  unfold callReport. cbv zeta.
  assert (keeps h (set_require_ctx (Some match require_ctx_ h with
    | Some ctx => ctx | None => non_match_rqm_ctx_ (cfg_parser_ h) end) h)) as Hk.
  { split_and!; [done..|]. simpl. right. by intros [->| ->]. }
  destruct (isReportRequired _); simpl; [|by intros [= <- <-]].
  destruct (fillJwtPayloads _ _ _ _); simpl; [|done]. destruct (default _ _). by intros [= <- <-].
Qed.

(** From a state in which a call is out. *)
Lemma told_calling f h actions :
  state_ f = Calling → rejections f = [] → handler_ f = Some h → concludes h actions →
  told (run_callbacks actions f).
Proof.
  intros Hs Hr Hh [(pre&st&->&Hpre&Hk)|[Hc Hok]].
  - unfold run_callbacks. rewrite foldl_app. simpl. fold (run_callbacks pre f).
    rewrite run_callbacks_none by done. unfold told, onCheckDone.
    destruct (status_ok st) eqn:Est; simpl; rewrite Hh.
    + destruct Hk as [->|(->&->&_)]; done.
    + exists st. rewrite Hr. by split_and!.
  - rewrite run_callbacks_none by done. unfold told. by rewrite Hh, Hs.
Qed.

Lemma decodeHeaders_told f hs (fs : F) si uuid parser now check quota status f' actions hs' :
  state_ f = Init → rejections f = [] →
  ScFilter.decodeHeaders hasGrpcContentType grpcToHttpStatus status_to_string f hs fs si uuid parser now
    check quota = (status, f', actions, hs') →
  told f'.
Proof.
  intros Hinit Hr Hd. unfold ScFilter.decodeHeaders, createHandler in Hd.
  set (h0 := new_Handler _ _ _ _ _ _) in Hd.
  pose proof (callCheck_concludes h0 si now hs check quota eq_refl) as Hc.
  destruct (callCheck h0 si now hs check quota) as [[h acts] hs1].
  set (f1 := set_handler h _) in Hd.
  pose proof (told_calling f1 h acts eq_refl Hr eq_refl Hc) as Ht.
  destruct (bool_decide _); injection Hd as <- <- <- <-; exact Ht.
Qed.

Lemma destroy_told f (hs : H) q si now answer quota f' actions hs' :
  filter_onDestroy grpcToHttpStatus status_to_string f si now hs answer quota = (f', actions, hs') →
  invariant (mkWorld f hs q false) → told f → told f'.
Proof.
  unfold filter_onDestroy, onDestroy. destruct (handler_ f) as [h|] eqn:Hh; [|by intros [= <- <- <-]].
  assert (keeps h h) as Hsame by (split_and!; auto).
  destruct (cancel_fn_ h) eqn:Hc; [|intros [= <- <- <-] _; by apply (told_handler f h)].
  intros Hd Hi Ht. unfold invariant, check_pending in Hi. simpl in Hi. rewrite Hh, Hc in Hi. simpl in Hi.
  destruct (state_ f) eqn:Hs; try (destruct_and!; done). destruct Hi as (_&Hr&_).
  destruct (require_ctx_ h) as [ctx|], answer as [[st info]|].
  1: { pose proof (onCheckResponse_concludes (set_cancel false h) ctx si now hs st info quota) as Ho.
       unfold check_answer in Hd. destruct (onCheckResponse _ _ _ _ _ _ _ _) as [[h1 acts] hs1].
       injection Hd as <- <- <-. by apply (told_calling _ (set_cancel false h1)), concludes_cancel. }
  all: injection Hd as <- <- <-; unfold run_callbacks; simpl;
    apply (told_handler f h); [done|split_and!; auto|done].
Qed.

Lemma report_data_told f si len es now f' actions :
  report_data f si len es now = Some (f', actions) → told f → told f'.
Proof.
  unfold report_data. destruct (negb es && (0 <? len)%Z); [|by intros [= <- <-]].
  destruct (handler_ f) as [h|] eqn:Hh; simpl; [|done].
  destruct (tryIntermediateReport h si now) as [[h' acts]|] eqn:E; simpl; [|done].
  intros [= <- <-]. apply (told_handler f h); [done|]. by eapply tryIntermediateReport_same.
Qed.

Lemma log_told f (fs : F) si uuid parser (rh rsh rt : option H) now f' actions :
  log hasGrpcContentType f fs si uuid parser rh rsh rt now = Some (f', actions) → told f → told f'.
Proof.
  unfold log, createHandler. destruct (handler_ f) as [h|] eqn:Hh.
  - destruct (callReport _ _ _ _ _ _) as [[h' a]|] eqn:E; simpl; [|done]. intros [= <- <-].
    apply (told_handler f h); [done|]. by eapply callReport_same.
  - destruct rh as [hs|]; [|by intros [= <- <-]].
    destruct (callReport _ _ _ _ _ _) as [[h' a]|] eqn:E; simpl; [|done]. intros [= <- <-].
    apply callReport_same in E as (Hk&_). unfold told. rewrite Hh. simpl. intros ->. by rewrite Hk.
Qed.

Lemma step_told w w' : invariant w → told (filter w) → step w w' → told (filter w').
Proof.
  intros Hi Ht Hstep. destruct Hstep; simpl in *.
  - unfold invariant in Hi. simpl in Hi. rewrite H3 in Hi. destruct Hi as (_&Hr&_).
    by eapply decodeHeaders_told.
  - unfold invariant, check_pending in Hi. simpl in Hi. rewrite H3, H4 in Hi.
    destruct (state_ f) eqn:Hs; try (destruct_and!; done). destruct Hi as (_&Hr&_).
    pose proof (onCheckResponse_concludes (set_cancel false h) ctx si now hs st info quota) as Ho.
    unfold check_answer in *. rewrite H6 in Ho. by apply (told_calling _ h').
  - unfold quota_answer in *. simplify_eq. unfold invariant in Hi. simpl in Hi.
    destruct (state_ f) eqn:Hs; try (destruct_and!; done). destruct Hi as (_&Hr&_).
    apply (told_calling _ (set_check_status st h)); [done..|]. left. exists [], st.
    split_and!; [done|constructor|by left].
  - unfold decodeData in *. destruct (report_data _ _ _ _ _) as [[f1 a1]|] eqn:E; [|done].
    simplify_eq/=. by eapply report_data_told.
  - unfold encodeHeaders in *. destruct (handler_ f) as [h|] eqn:Hh; simplify_eq; [|done].
    apply (told_handler f h); [done|split_and!; auto|done].
  - unfold encodeData in *. destruct (report_data _ _ _ _ _) as [[f1 a1]|] eqn:E; [|done].
    simplify_eq/=. by eapply report_data_told.
  - by eapply log_told.
  - by eapply destroy_told.
Qed.

Lemma reachable_told w : reachable w → told (filter w).
Proof.
  induction 1 as [hs|w w' Hr IH Hs]; [done|]. eapply step_told; [|done|done].
  by eapply reachable_invariant.
Qed.

(** The answer that a filter gave, and the status of the report of its request. *)
Definition agrees (f : ScFilter) (ctx unknown : RequirementContext) (info : ReportRequestInfo) : Prop :=
  match state_ f with
  | Responded => ∃ st, rejections f = [reply_of st] ∧ forwarded f = 0%Z ∧ status_ok st = false ∧
      (status info = st ∨ (st = no_method_status ∧ status info = Status_OK ∧ ctx = unknown))
  | Complete => rejections f = [] ∧ forwarded f = 1%Z ∧ status_ok (status info) = true
  | _ => rejections f = [] ∧ forwarded f = 0%Z ∧ status_ok (status info) = true
  end.

Lemma told_agrees (w : World (H := H)) h info :
  invariant w → told (filter w) → handler_ (filter w) = Some h → status info = check_status_ h →
  agrees (filter w) (report_ctx h) (non_match_rqm_ctx_ (cfg_parser_ h)) info.
Proof.
  unfold invariant, told, agrees. intros Hi Ht Hh ->. rewrite Hh in Ht.
  destruct (state_ (filter w)); destruct_and!; try done. destruct Ht as (st&Hr&Hs&Hk).
  exists st. split_and!; [done..|]. destruct Hk as [?|(?&?&Hu)]; [by left|right].
  split_and!; [done..|]. unfold report_ctx. by destruct Hu as [->| ->].
Qed.

(** The report that callReport makes, if it makes one. *)
Definition reports_for (h h' : Handler) (si : StreamInfo) (actions : list Action)
    (P : ReportRequestInfo → Prop) : Prop :=
  require_ctx_ h' = Some (report_ctx h) ∧
  if Proto.skip_service_control (requirement_config (report_ctx h)) then actions = []
  else ∃ info, actions = [CallReport (service_config (service_ctx (report_ctx h))) info] ∧
    response_code info = default 500%Z (responseCode si) ∧
    operation_name info = Proto.operation_name (requirement_config (report_ctx h)) ∧
    api_key info
    = (if is_api_key_valid (check_response_info info) &&
          service_is_activated (check_response_info info) then api_key_ h' else "") ∧
    P info.

Lemma callReport_reports h si (rh rsh rt : option H) now h' actions (P : ReportRequestInfo → Prop) :
  callReport h si rh rsh rt now = Some (h', actions) →
  (∀ info, status info = check_status_ h → P info) → reports_for h h' si actions P.
Proof.
  intros E HP. pose proof (callReport_correct h si rh rsh rt now) as Hc. rewrite E in Hc.
  destruct (callReport_same _ _ _ _ _ _ _ _ E) as (_&_&Hkey&_). destruct Hc as [Hctx Hc].
  split; [exact Hctx|]. unfold report_ctx. destruct (Proto.skip_service_control _); [done|].
  destruct Hc as (info&->&Hst&Hcode&Hop&Hk&Hci). exists info. rewrite Hkey, Hci. by split_and!; auto.
Qed.

(** C11: the final report of a stream tells what its request was answered.  Whatever
    happened to the stream, log(), where it is defined, sends nothing for an operation
    that skips service control, nor for a stream without request headers that was never decoded;
    otherwise it sends one report, for the requirement of the operation, with the
    response code or 500 and the API key only if the check found it valid.  Its
    status is OK if the request was let through or not decided, and if it was rejected
    the status it was rejected with; but a request without a requirement, which is
    rejected with NOT_FOUND, may be reported with OK. *)
Theorem final_report_agrees (w : World (H := H)) (fs : F) si uuid parser (rh rsh rt : option H) now f' actions :
  reachable w →
  log hasGrpcContentType (filter w) fs si uuid parser rh rsh rt now = Some (f', actions) →
  match handler_ f' with
  | None => handler_ (filter w) = None ∧ rh = None ∧ actions = []
  | Some h => ∃ ctx, require_ctx_ h = Some ctx ∧
      if Proto.skip_service_control (requirement_config ctx) then actions = []
      else ∃ info, actions = [CallReport (service_config (service_ctx ctx)) info] ∧
        response_code info = default 500%Z (responseCode si) ∧
        operation_name info = Proto.operation_name (requirement_config ctx) ∧
        api_key info
        = (if is_api_key_valid (check_response_info info) &&
              service_is_activated (check_response_info info) then api_key_ h else "") ∧
        agrees (filter w) ctx (non_match_rqm_ctx_ (cfg_parser_ h)) info
  end.
Proof.
  intros Hr. pose proof (reachable_invariant _ _ _ _ Hr) as Hi. pose proof (reachable_told _ Hr) as Ht.
  assert (∀ h h', handler_ (filter w) = Some h ∨ (handler_ (filter w) = None ∧ check_status_ h = Status_OK) →
    callReport h si rh rsh rt now = Some (h', actions) →
    reports_for h h' si actions
      (agrees (filter w) (report_ctx h) (non_match_rqm_ctx_ (cfg_parser_ h')))) as Hrep.
  { intros h h' Hh E. destruct (callReport_same _ _ _ _ _ _ _ _ E) as (_&->&_).
    eapply callReport_reports; [exact E|]. intros info Hst. destruct Hh as [Hh|[Hh Hok]].
    - by apply told_agrees.
    - unfold told in Ht. rewrite Hh in Ht. unfold invariant in Hi. unfold agrees. rewrite Ht in *.
      rewrite Hst, Hok. by destruct_and!. }
  unfold log, createHandler. destruct (handler_ (filter w)) as [h|] eqn:Hh; [|destruct rh as [hs|]].
  - destruct (callReport _ _ _ _ _ _) as [[h' a]|] eqn:E; simpl; [|done]. intros [= <- <-]. simpl.
    destruct (Hrep h h' (or_introl eq_refl) E) as [Hctx Hc]. eauto.
  - destruct (callReport _ _ _ _ _ _) as [[h' a]|] eqn:E; simpl; [|done]. intros [= <- <-]. simpl.
    destruct (Hrep (new_Handler hasGrpcContentType hs fs uuid parser now) h') as [Hctx Hc]; eauto.
  - intros [= <- <-]. by rewrite Hh.
Qed.

End verdict.

(** ** A sample: a request without a requirement *)

#[local] Existing Instance Sample.utility.

Definition unknown_decoded :=
  ScFilter.decodeHeaders Sample.grpc (λ c, c) error_message new_ScFilter Sample.headers
    (Sample.state "Nothing") Sample.info "uuid" Sample.parser 0 None None.

Definition unknown_world : World :=
  mkWorld unknown_decoded.1.1.2 unknown_decoded.2 (leaves_quota unknown_decoded.1.2) false.

Lemma unknown_reachable :
  reachable (F := gmap string string) Sample.grpc (λ c, c) error_message unknown_world.
Proof.
  eapply reachable_step; [apply (reachable_init _ _ _ Sample.headers)|].
  unfold unknown_world. destruct unknown_decoded as [[[status f] actions] hs] eqn:E.
  by eapply step_decodeHeaders.
Qed.

(** It is rejected with NOT_FOUND, and reported with OK. *)
Lemma final_report_agrees_witness :
  reply_code <$> rejections (filter unknown_world) = [Code.NOT_FOUND] ∧
  ∃ f' service info,
    log Sample.grpc (filter unknown_world) (Sample.state "Nothing") Sample.info "uuid" Sample.parser
      (Some Sample.headers) None None 5 = Some (f', [CallReport service info]) ∧
    status info = Status_OK ∧ response_code info = 200%Z.
Proof.
  split; [vm_compute; reflexivity|].
  destruct (log Sample.grpc (filter unknown_world) (Sample.state "Nothing") Sample.info "uuid"
    Sample.parser (Some Sample.headers) None None 5) as [[f' actions]|] eqn:E.
  2: { vm_compute in E. discriminate E. }
  pose proof (final_report_agrees Sample.grpc (λ c, c) error_message unknown_world _ _ _ _ _ _ _ _ _ _
    unknown_reachable E) as Hf.
  exists f'. vm_compute in E. injection E as <- <-. do 2 eexists. split; [reflexivity|].
  destruct Hf as (ctx&[= <-]&info&[= <-]&Hcode&_). split; [reflexivity|exact Hcode].
Defined.
