(* ===== verification/HttpCall.v ===== *)
(** * HTTP calls to service control: src/envoy/http/service_control/http_call.cc

    One call is a POST with a bearer token that is sent again after a failure,
    as often as [retries_] allows, until its callback runs once.  The client may
    answer a request inside send() or later.  The factory keeps the calls that
    are not done and cancels them when it goes. *)
From S2P Require Import Prelude RequestInfo.

Definition KApplicationProto : string := "application/x-protobuf".

(** What Http::AsyncClient::Callbacks receives: onSuccess with the status of the
    response ([None] when getResponseStatus throws) and its body, or onFailure. *)
Inductive Answer :=
  | Success (status_code : option Z) (body : string)
  | Failure.

(** Http::RequestMessage, as prepareHeaders fills it. *)
Record RequestMessage := mkRequestMessage {
  msg_path : string;
  msg_host : string;
  msg_method : string;
  msg_body : string;
  msg_content_length : Z;
  msg_authorization : string;
  msg_content_type : string
}.

(** class HttpCallImpl: what changes.  A request of the client is named by the
    number of the attempt. *)
Record HttpCallImpl := mkHttpCallImpl {
  request_ : option Z;
  retries_ : Z;
  request_count_ : Z;
  cancelled : bool
}.

(** HttpCallImpl(). *)
Definition new_HttpCallImpl (retries : Z) : HttpCallImpl := mkHttpCallImpl None retries 0 false.

Definition set_request (r : option Z) (c : HttpCallImpl) : HttpCallImpl :=
  mkHttpCallImpl r (retries_ c) (request_count_ c) (cancelled c).

(** reset. *)
Definition reset (c : HttpCallImpl) : HttpCallImpl := set_request None c.

(** What a call does to others, in order.  [Send] says whether the client answers
    inside send(). *)
Inductive Effect :=
  | Send (n : Z) (span : string) (message : RequestMessage) (answered : bool)
  | CancelRequest (n : Z)
  | OnDone (st : Status) (body : string)
  | DeferredDelete.

Definition call_failed : Status := mkStatus Code.INTERNAL "Failed to call service control".
Definition missing_token : Status :=
  mkStatus Code.INTERNAL "Missing access token for service control call".
Definition call_cancelled : Status := mkStatus Code.CANCELLED "Request cancelled".

(** HTTP status codes 400 to 499 are not retried. *)
Definition client_error (status_code : Z) : bool := (400 <=? status_code)%Z && (status_code <? 500)%Z.

Section call.
(** [host_], [path_] and [str_body_] of the call, its operation name, and for
    each attempt the token of token_fn_ and the answer inside send(), if any. *)
Context (host_ path_ str_body_ trace_operation_name_ : string).
Context (token_fn_ : Z → string) (answer_now : Z → option Answer).

Definition prepareHeaders (token : string) : RequestMessage :=
  mkRequestMessage path_ host_ "POST" str_body_ (Z.of_nat (String.length str_body_))
    ("Bearer " +:+ token) KApplicationProto.

(** The name of the span of an attempt. *)
Definition span_name (request_count : Z) : string :=
  if (request_count =? 1)%Z then trace_operation_name_
  else trace_operation_name_ +:+ " - Retry " +:+ pretty (u32 (request_count - 1)).

Section callbacks.
Context (makeOneCall : HttpCallImpl → option (HttpCallImpl * list Effect)).

(** attemptRetry: whether another attempt was made. *)
Definition attemptRetry (status_code : Z) (c : HttpCallImpl)
  : option (bool * HttpCallImpl * list Effect) :=
  if client_error status_code then Some (false, c, [])
  else if (retries_ c <=? 0)%Z then Some (false, c, [])
  else
    let c := mkHttpCallImpl (request_ c) (u32 (retries_ c - 1)) (request_count_ c) (cancelled c) in
    '(c, effects) ← makeOneCall (reset c);
    Some (true, c, effects).

(** onSuccess. *)
Definition onSuccess (status_code : option Z) (body : string) (c : HttpCallImpl)
  : option (HttpCallImpl * list Effect) :=
  match status_code with
  | None => Some (reset c, [OnDone call_failed ""; DeferredDelete])
  | Some status_code =>
      if (status_code =? 200)%Z then Some (reset c, [OnDone Status_OK body; DeferredDelete])
      else
        '(retried, c, effects) ← attemptRetry status_code c;
        if retried : bool then Some (c, effects)
        else Some (reset c, effects ++ [OnDone call_failed body; DeferredDelete])
  end.

(** onFailure. *)
Definition onFailure (c : HttpCallImpl) : option (HttpCallImpl * list Effect) :=
  '(retried, c, effects) ← attemptRetry 0 c;
  if retried : bool then Some (c, effects)
  else Some (reset c, effects ++ [OnDone call_failed ""; DeferredDelete]).

Definition on_answer (a : Answer) (c : HttpCallImpl) : option (HttpCallImpl * list Effect) :=
  match a with
  | Success status_code body => onSuccess status_code body c
  | Failure => onFailure c
  end.

End callbacks.

(** makeOneCall.  send() may run the callbacks, which may make the next attempt;
    [request_] is assigned when send() returns, and that is null for a request
    that was answered.  [None] is fuel spent. *)
Fixpoint makeOneCall (fuel : nat) (c : HttpCallImpl) : option (HttpCallImpl * list Effect) :=
  match fuel with
  | 0 => None
  | S fuel =>
      let n := u32 (request_count_ c + 1) in
      let c := mkHttpCallImpl (request_ c) (retries_ c) n (cancelled c) in
      let token := token_fn_ n in
      if is_empty token then Some (c, [OnDone missing_token ""; DeferredDelete]) else
      let send := Send n (span_name n) (prepareHeaders token) in
      match answer_now n with
      | None => Some (set_request (Some n) c, [send false])
      | Some a =>
          '(c, effects) ← on_answer (makeOneCall fuel) a c;
          Some (set_request None c, send true :: effects)
      end
  end.

(** A call of which [retries_] attempts are left makes one more at most. *)
Definition enough (c : HttpCallImpl) : nat := S (Z.to_nat (retries_ c)).

(** call. *)
Definition call (c : HttpCallImpl) : option (HttpCallImpl * list Effect) :=
  makeOneCall (enough c) c.

(** The callback of a request that the client answers later. *)
Definition answer (a : Answer) (c : HttpCallImpl) : option (HttpCallImpl * list Effect) :=
  on_answer (makeOneCall (enough c)) a c.

(** cancel. *)
Definition cancel (c : HttpCallImpl) : HttpCallImpl * list Effect :=
  if cancelled c then (c, []) else
  let c := mkHttpCallImpl (request_ c) (retries_ c) (request_count_ c) true in
  let '(c, effects) :=
    match request_ c with
    | Some n => (reset c, [CancelRequest n])
    | None => (c, [])
    end in
  (c, effects ++ [OnDone call_cancelled ""; DeferredDelete]).

End call.

(** Attempts end: the retries left are fuel enough. *)
Lemma makeOneCall_total host path body trace token now fuel : ∀ c,
  Z.to_nat (retries_ c) < fuel → (0 ≤ retries_ c < 2 ^ 32)%Z →
  is_Some (makeOneCall host path body trace token now fuel c).
Proof.
  induction fuel as [|fuel IH]; intros c Hf Hr; [lia|]. simpl.
  set (n := u32 (request_count_ c + 1)). destruct (is_empty (token n)); [by eexists|].
  destruct (now n) as [a|]; [|by eexists].
  set (c1 := mkHttpCallImpl (request_ c) (retries_ c) n (cancelled c)).
  assert (∀ code, is_Some (attemptRetry (makeOneCall host path body trace token now fuel) code c1))
    as Hretry.
  { intros code. unfold attemptRetry. destruct (client_error code); [by eexists|]. simpl.
    destruct (Z.leb_spec (retries_ c) 0); [by eexists|].
    destruct (IH (reset (mkHttpCallImpl (request_ c) (u32 (retries_ c - 1)) n (cancelled c))))
      as [[c2 e2] E]; simpl; [..|rewrite E; by eexists];
      unfold u32, wrap_unsigned; rewrite Z.mod_small; lia. }
  assert (is_Some (on_answer (makeOneCall host path body trace token now fuel) a c1)) as [[c2 e2] ->];
    [|by eexists].
  unfold on_answer, onSuccess, onFailure. destruct a as [[code|] b|].
  - destruct (code =? 200)%Z; [by eexists|]. destruct (Hretry code) as [[[[] c2] e2] ->]; by eexists.
  - by eexists.
  - destruct (Hretry 0%Z) as [[[[] c2] e2] ->]; by eexists.
Qed.

(** ** Specification *)

Definition done_of (e : Effect) : option (Status * string) :=
  match e with OnDone st body => Some (st, body) | _ => None end.
Definition sent_of (e : Effect) : option Z := match e with Send n _ _ _ => Some n | _ => None end.
Definition awaited_of (e : Effect) : option Z :=
  match e with Send n _ _ false => Some n | _ => None end.
Definition deleted_of (e : Effect) : option unit :=
  match e with DeferredDelete => Some () | _ => None end.

(** What an answer that is not retried ends the call with. *)
Definition final (a : Answer) : option (Status * string) :=
  match a with
  | Success None _ => Some (call_failed, "")
  | Success (Some code) body =>
      if (code =? 200)%Z then Some (Status_OK, body)
      else if client_error code then Some (call_failed, body) else None
  | Failure => None
  end.

(** What an answer ends the call with when no retry is left. *)
Definition retries_spent (a : Answer) : Status * string :=
  match a with Success _ body => (call_failed, body) | Failure => (call_failed, "") end.

Section spec.
Context (host path body trace : string) (token_fn : Z → string).
(** The answers to the attempts, and which of them come inside send(). *)
Context (answers : Z → Answer) (inside : Z → bool).

Definition answer_now (n : Z) : option Answer := if inside n then Some (answers n) else None.

#[local] Abbreviation makeOneCall := (makeOneCall host path body trace token_fn answer_now).
#[local] Abbreviation call := (call host path body trace token_fn answer_now).
#[local] Abbreviation answer := (answer host path body trace token_fn answer_now).

(** The result of the attempts from the [n]-th on with [r] retries left. *)
Fixpoint http_result (r : nat) (n : Z) : Status * string :=
  if is_empty (token_fn n) then (missing_token, "") else
  match final (answers n), r with
  | Some res, _ => res
  | None, 0 => retries_spent (answers n)
  | None, S r => http_result r (n + 1)
  end.

(** The attempts that are made. *)
Fixpoint http_attempts (r : nat) (n : Z) : list Z :=
  if is_empty (token_fn n) then [] else
  n :: match final (answers n), r with
       | None, S r => http_attempts r (n + 1)
       | _, _ => []
       end.

(** The same after attempt [n] was sent. *)
Definition result_after (r : nat) (n : Z) : Status * string :=
  match final (answers n), r with
  | Some res, _ => res
  | None, 0 => retries_spent (answers n)
  | None, S r => http_result r (n + 1)
  end.
Definition attempts_after (r : nat) (n : Z) : list Z :=
  match final (answers n), r with
  | None, S r => http_attempts r (n + 1)
  | _, _ => []
  end.

Lemma http_result_eq r n :
  http_result r n = if is_empty (token_fn n) then (missing_token, "") else result_after r n.
Proof. by destruct r. Qed.

Lemma http_attempts_eq r n :
  http_attempts r n = if is_empty (token_fn n) then [] else n :: attempts_after r n.
Proof. unfold attempts_after. by destruct r; simpl; destruct (is_empty _), (final (answers n)). Qed.

(** The call is over with [result] after [attempts], or it waits for the answer
    of an attempt that leads there. *)
Definition over (result : Status * string) (attempts : list Z) (c : HttpCallImpl)
    (effects : list Effect) : Prop :=
  omap done_of effects = [result] ∧ omap sent_of effects = attempts ∧
  omap awaited_of effects = [] ∧ omap deleted_of effects = [()] ∧ request_ c = None.

Definition waits (lo total : Z) (result : Status * string) (attempts : list Z) (k : Z) (r : nat)
    (c : HttpCallImpl) (effects : list Effect) : Prop :=
  omap done_of effects = [] ∧ omap awaited_of effects = [k] ∧ omap deleted_of effects = [] ∧
  retries_ c = Z.of_nat r ∧ request_count_ c = k ∧ (k + Z.of_nat r = total)%Z ∧ (lo < k)%Z ∧
  result = result_after r k ∧ attempts = omap sent_of effects ++ attempts_after r k.

Definition goes lo total result attempts c effects : Prop :=
  over result attempts c effects ∨ ∃ k r, waits lo total result attempts k r c effects.

(** What an answer does, when further attempts go as they should. *)
Lemma on_answer_spec (mk : HttpCallImpl → option (HttpCallImpl * list Effect)) c k r total :
  retries_ c = Z.of_nat r → request_count_ c = k → (Z.of_nat r < 2 ^ 32)%Z →
  (∀ r' c', r = S r' → retries_ c' = Z.of_nat r' → request_count_ c' = k → request_ c' = None →
     ∃ c'' effects, mk c' = Some (c'', effects) ∧
       goes k total (http_result r' (k + 1)) (http_attempts r' (k + 1)) c'' effects) →
  ∃ c' effects, on_answer mk (answers k) c = Some (c', effects) ∧
    goes k total (result_after r k) (attempts_after r k) c' effects.
Proof.
  intros Hr Hk Hr32 Hmk. unfold on_answer, onSuccess, onFailure, attemptRetry, result_after,
    attempts_after.
  assert (∀ st b, over (st, b) [] (reset c) [OnDone st b; DeferredDelete]) as Hover by done.
  assert (∀ r', r = S r' → ∃ c'' effects,
    mk (reset (mkHttpCallImpl (request_ c) (u32 (retries_ c - 1)) (request_count_ c) (cancelled c)))
      = Some (c'', effects) ∧
    goes k total (http_result r' (k + 1)) (http_attempts r' (k + 1)) c'' effects) as Hretry.
  { intros r' ->. apply Hmk; try done. simpl. unfold u32, wrap_unsigned. rewrite Z.mod_small; lia. }
  destruct (answers k) as [[code|] b|]; simpl.
  - destruct (code =? 200)%Z; simpl; [eexists _, _; split; [done|]; by left|].
    destruct (client_error code); simpl; [eexists _, _; split; [done|]; by left|].
    rewrite Hr. destruct r as [|r']; simpl; [eexists _, _; split; [done|]; by left|].
    destruct (Hretry r' eq_refl) as (c''&effects&Hm&Hg). rewrite Hr in Hm. rewrite Hm. simpl. eauto.
  - eexists _, _. split; [done|]. by left.
  - rewrite Hr. destruct r as [|r']; simpl; [eexists _, _; split; [done|]; by left|].
    destruct (Hretry r' eq_refl) as (c''&effects&Hm&Hg). rewrite Hr in Hm. rewrite Hm. simpl. eauto.
Qed.

Lemma goes_send lo total result attempts c n span msg effects :
  goes (lo + 1) total result attempts c effects →
  goes lo total result (n :: attempts) (set_request None c) (Send n span msg true :: effects).
Proof.
  intros [(Hd&Hs&Ha&Hx&Hq)|(k&r&Hd&Ha&Hx&Hr&Hk&Ht&Hp&Hres&Hat)]; [left|right].
  - split_and!; simpl; try done. by subst attempts.
  - exists k, r. split_and!; simpl; try done; [lia|by subst attempts].
Qed.

Lemma makeOneCall_spec r : ∀ fuel c n,
  r < fuel → retries_ c = Z.of_nat r → (request_count_ c + 1 = n)%Z → (0 < n)%Z →
  (n + Z.of_nat r < 2 ^ 32)%Z → request_ c = None →
  ∃ c' effects, makeOneCall fuel c = Some (c', effects) ∧
    goes (n - 1) (n + Z.of_nat r) (http_result r n) (http_attempts r n) c' effects.
Proof.
  induction (lt_wf r) as [r _ IH]. intros [|fuel] c n Hf Hr Hn Hpos H32 Hq; [lia|].
  simpl HttpCall.makeOneCall.
  assert (u32 (request_count_ c + 1) = n) as ->
    by (unfold u32, wrap_unsigned; rewrite Z.mod_small; lia).
  rewrite http_result_eq, http_attempts_eq.
  destruct (is_empty (token_fn n)); [eexists _, _; split; [done|]; by left|].
  unfold answer_now at 1. destruct (inside n) eqn:Ein.
  - edestruct (on_answer_spec (makeOneCall fuel)
      (mkHttpCallImpl (request_ c) (retries_ c) n (cancelled c)) n r (n + Z.of_nat r))
      as (c'&effects&Ha&Hg); [done|done|lia| |].
    + intros r' c' -> Hr' Hk Hq'.
      destruct (IH r' ltac:(lia) fuel c' (n + 1)%Z) as (c''&effects&Hm&Hg); try lia; try done.
      exists c'', effects. split; [done|].
      replace (n + 1 - 1)%Z with n in Hg by lia.
      by replace (n + Z.of_nat (S r'))%Z with (n + 1 + Z.of_nat r')%Z by lia.
    + rewrite Ha. simpl. eexists _, _. split; [done|]. apply goes_send.
      by replace (n - 1 + 1)%Z with n by lia.
  - eexists _, _. split; [done|]. right. exists n, r. split_and!; try done. lia.
Qed.

(** The rest of a call: the awaited answers arrive, one after the other. *)
Fixpoint drive (fuel : nat) (s : HttpCallImpl * list Effect) : option (HttpCallImpl * list Effect) :=
  let '(c, effects) := s in
  match omap awaited_of effects with
  | [] => Some (c, effects)
  | n :: _ =>
      match fuel with
      | 0 => None
      | S fuel =>
          s ← answer (answers n) c;
          '(c, rest) ← drive fuel s;
          Some (c, effects ++ rest)
      end
  end.

Lemma drive_spec fuel : ∀ lo total result attempts c effects,
  (0 ≤ lo)%Z → (total < 2 ^ 32)%Z → (total - lo ≤ Z.of_nat fuel)%Z →
  goes lo total result attempts c effects →
  ∃ c' effects', drive fuel (c, effects) = Some (c', effects') ∧
    omap done_of effects' = [result] ∧ omap sent_of effects' = attempts ∧
    omap deleted_of effects' = [()] ∧ request_ c' = None.
Proof.
  induction fuel as [|fuel IH]; intros lo total result attempts c effects Hlo H32 Hfuel Hg;
    (destruct Hg as [(Hd&Hs&Ha&Hx&Hq)|(k&r&Hd&Ha&Hx&Hr&Hk&Ht&Hp&Hres&Hat)];
     [eexists _, _; simpl; rewrite Ha; by split_and!|]); [lia|].
  simpl. rewrite Ha.
  destruct (on_answer_spec (makeOneCall (enough c)) c k r total Hr Hk ltac:(lia))
    as (c'&more&Han&Hg).
  { intros r' c' -> Hr' Hk' Hq'.
    destruct (makeOneCall_spec r' (enough c) c' (k + 1)) as (c''&e&Hm&Hg); try done; try lia.
    - unfold enough. lia.
    - exists c'', e. split; [done|]. replace (k + 1 - 1)%Z with k in Hg by lia.
      by replace total with (k + 1 + Z.of_nat r')%Z by lia. }
  unfold HttpCall.answer. rewrite Han. simpl.
  destruct (IH k total _ _ c' more ltac:(lia) H32 ltac:(lia) Hg) as (c2&rest&Hdr&Hd2&Hs2&Hx2&Hq2).
  rewrite Hdr. simpl. eexists _, _. split; [done|].
  rewrite !omap_app, Hd, Hx, Hd2, Hs2, Hx2. by rewrite Hres, Hat.
Qed.

(** The whole call. *)
Definition run_call (retries : Z) : option (HttpCallImpl * list Effect) :=
  s ← call (new_HttpCallImpl retries); drive (S (Z.to_nat retries)) s.

Lemma http_attempts_bound r n : length (http_attempts r n) ≤ S r.
Proof.
  revert n. induction r as [|r IH]; intros n; rewrite http_attempts_eq; unfold attempts_after;
    destruct (is_empty _), (final (answers n)); simpl; try lia. specialize (IH (n + 1)%Z). lia.
Qed.

Lemma run_call_spec retries :
  (0 ≤ retries < 2 ^ 32 - 1)%Z →
  ∃ c effects, run_call retries = Some (c, effects) ∧
    omap done_of effects = [http_result (Z.to_nat retries) 1] ∧
    omap sent_of effects = http_attempts (Z.to_nat retries) 1 ∧
    (Z.of_nat (length (omap sent_of effects)) ≤ retries + 1)%Z ∧
    omap deleted_of effects = [()] ∧ request_ c = None.
Proof.
  intros Hr. unfold run_call, HttpCall.call.
  destruct (makeOneCall_spec (Z.to_nat retries) (enough (new_HttpCallImpl retries))
    (new_HttpCallImpl retries) 1) as (c&effects&Hm&Hg);
    [unfold enough; simpl; lia|simpl; lia|done|lia|lia|done|].
  rewrite Hm. cbn [mbind option_bind].
  destruct (drive_spec (S (Z.to_nat retries)) (1 - 1) (1 + Z.of_nat (Z.to_nat retries))
    _ _ c effects ltac:(lia) ltac:(lia) ltac:(lia) Hg) as (c'&effects'&->&Hd&Hs&Hx&Hq).
  exists c', effects'. split_and!; try done. rewrite Hs.
  pose proof (http_attempts_bound (Z.to_nat retries) 1). lia.
Qed.

(** Every request carries the token of its attempt, which is not empty. *)
Definition well_sent (e : Effect) : Prop :=
  match e with
  | Send n span message _ =>
      is_empty (token_fn n) = false ∧ message = prepareHeaders host path body (token_fn n) ∧
      span = span_name trace n
  | _ => True
  end.

Lemma on_answer_sends (mk : HttpCallImpl → option (HttpCallImpl * list Effect)) a c c' effects :
  (∀ c c' effects, mk c = Some (c', effects) → Forall well_sent effects) →
  on_answer mk a c = Some (c', effects) → Forall well_sent effects.
Proof.
  intros Hmk. unfold on_answer, onSuccess, onFailure, attemptRetry.
  assert (∀ st b, Forall well_sent [OnDone st b; DeferredDelete]) as Hdone
    by (intros; by repeat constructor).
  intros Ha. repeat (case_match; simplify_option_eq; try done); try by eapply Hmk.
Qed.

Lemma makeOneCall_sends fuel : ∀ c c' effects,
  makeOneCall fuel c = Some (c', effects) → Forall well_sent effects.
Proof.
  induction fuel as [|fuel IH]; intros c c' effects; [done|]. simpl HttpCall.makeOneCall.
  set (n := u32 (request_count_ c + 1)). destruct (is_empty (token_fn n)) eqn:Et.
  { intros [= <- <-]. by repeat constructor. }
  destruct (answer_now n) as [a|]; [|intros [= <- <-]; by repeat constructor].
  destruct (on_answer _ a _) as [[c2 e2]|] eqn:Ea; simpl; [|done]. intros [= <- <-].
  constructor; [done|]. by eapply on_answer_sends.
Qed.

Lemma drive_sends fuel : ∀ c effects c' effects',
  Forall well_sent effects → drive fuel (c, effects) = Some (c', effects') →
  Forall well_sent effects'.
Proof.
  induction fuel as [|fuel IH]; intros c effects c' effects' He; simpl;
    (destruct (omap awaited_of effects) as [|n ns]; [by intros [= <- <-]|]); [done|].
  destruct (answer (answers n) c) as [[c2 e2]|] eqn:Ea; simpl; [|done].
  destruct (drive fuel (c2, e2)) as [[c3 e3]|] eqn:Ed; simpl; [|done]. intros [= <- <-].
  apply Forall_app. split; [done|]. eapply IH; [|exact Ed].
  eapply on_answer_sends; [apply makeOneCall_sends|exact Ea].
Qed.

Lemma run_call_sends retries c effects :
  run_call retries = Some (c, effects) → Forall well_sent effects.
Proof.
  unfold run_call. destruct (call _) as [[c2 e2]|] eqn:Ec; cbn [mbind option_bind]; [|done].
  apply drive_sends. by eapply makeOneCall_sends.
Qed.

(** C14: a call that is not cancelled is over after at most [retries] + 1 answers,
    whichever of them come inside send(): its callback runs once, with the first
    answer that is final (200, a client error, a malformed response), or with a
    failure when the retries are spent or the token is missing; the attempts are
    exactly those up to that answer, and the call deletes itself once. *)
Theorem http_call_correct retries :
  (0 ≤ retries < 2 ^ 32 - 1)%Z →
  ∃ c effects, run_call retries = Some (c, effects) ∧
    omap done_of effects = [http_result (Z.to_nat retries) 1] ∧
    omap sent_of effects = http_attempts (Z.to_nat retries) 1 ∧
    (Z.of_nat (length (omap sent_of effects)) ≤ retries + 1)%Z ∧
    omap deleted_of effects = [()] ∧ request_ c = None.
Proof. apply run_call_spec. Qed.

End spec.

(** The third attempt succeeds; the second fails inside send(). *)
Lemma http_call_correct_witness :
  let answers n := if (n =? 3)%Z then Success (Some 200%Z) "ok" else Success (Some 503%Z) "" in
  ∃ c effects, run_call "h" "/p" "b" "Check" (λ _, "token") answers (λ n, (n =? 2)%Z) 5
    = Some (c, effects) ∧ omap done_of effects = [(Status_OK, "ok")] ∧
    omap sent_of effects = [1%Z; 2%Z; 3%Z].
Proof.
  intros answers.
  destruct (http_call_correct "h" "/p" "b" "Check" (λ _, "token") answers (λ n, (n =? 2)%Z) 5)
    as (c&effects&Hr&Hd&Hs&_); [lia|].
  exists c, effects. split; [exact Hr|]. split; [exact Hd|exact Hs].
Defined.

(** ** Calls and their factory *)

(** A call in the world: the requests in flight, the callbacks that ran, whether
    it was called and deleted, and whether the outermost send() of the last
    operation that sent was answered before it returned. *)
Record World := mkWorld {
  impl : HttpCallImpl;
  live : list Z;
  dones : list (Status * string);
  started : bool;
  deleted : bool;
  inside_send : bool
}.

Definition new_World (retries : Z) : World :=
  mkWorld (new_HttpCallImpl retries) [] [] false false false.

Definition answered_of (e : Effect) : option bool :=
  match e with Send _ _ _ answered => Some answered | _ => None end.

Definition cancelled_of (e : Effect) : option Z :=
  match e with CancelRequest n => Some n | _ => None end.

(** The world after an operation of the call, while [in_flight] are out. *)
Definition after (w : World) (in_flight : list Z) (s : HttpCallImpl * list Effect) : World :=
  let '(c, effects) := s in
  mkWorld c (filter (λ n, n ∉ omap cancelled_of effects) in_flight ++ omap awaited_of effects)
    (dones w ++ omap done_of effects) true
    (deleted w || negb (bool_decide (omap deleted_of effects = [])))
    (default (inside_send w) (head (omap answered_of effects))).

(** class HttpCallFactory: the calls it made, by number, and [active_calls_]. *)
Record HttpCallFactory := mkHttpCallFactory {
  calls : gmap nat World;
  active_calls_ : gset nat;
  destruct_mode_ : bool
}.

Definition new_HttpCallFactory : HttpCallFactory := mkHttpCallFactory ∅ ∅ false.

(** createHttpCall. *)
Definition createHttpCall (id : nat) (retries : Z) (f : HttpCallFactory) : HttpCallFactory :=
  mkHttpCallFactory (<[id := new_World retries]> (calls f)) ({[id]} ∪ active_calls_ f)
    (destruct_mode_ f).

(** The done function that createHttpCall sets: a call that is done leaves
    [active_calls_], except in the destructor. *)
Definition update (id : nat) (w : World) (f : HttpCallFactory) : HttpCallFactory :=
  mkHttpCallFactory (<[id := w]> (calls f))
    (if destruct_mode_ f || bool_decide (dones w = []) then active_calls_ f
     else active_calls_ f ∖ {[id]}) (destruct_mode_ f).

Definition cancel_call (id : nat) (f : HttpCallFactory) : HttpCallFactory :=
  match calls f !! id with
  | Some w => update id (after w (live w) (cancel (impl w))) f
  | None => f
  end.

(** ~HttpCallFactory. *)
Definition destroy_HttpCallFactory (f : HttpCallFactory) : HttpCallFactory :=
  foldr cancel_call (mkHttpCallFactory (calls f) (active_calls_ f) true) (elements (active_calls_ f)).

Section machine.
Context (host path trace : string).

(** What can happen to the factory.  The client answers any attempts inside send()
    and accepts the others; an answer to a deleted call, which the object is no
    longer there to receive, is not a step. *)
Inductive step : HttpCallFactory → HttpCallFactory → Prop :=
  | step_create f id retries :
      calls f !! id = None → (0 ≤ retries < 2 ^ 32)%Z → step f (createHttpCall id retries f)
  | step_call f id w body token now s :
      calls f !! id = Some w → started w = false → deleted w = false →
      call host path body trace token now (impl w) = Some s →
      step f (update id (after w (live w) s) f)
  | step_answer f id w n a body token now s :
      calls f !! id = Some w → deleted w = false → n ∈ live w →
      answer host path body trace token now a (impl w) = Some s →
      step f (update id (after w (filter (λ m, m ≠ n) (live w)) s) f)
  | step_cancel f id w :
      calls f !! id = Some w → deleted w = false → step f (cancel_call id f).

Inductive reachable : HttpCallFactory → Prop :=
  | reachable_new : reachable new_HttpCallFactory
  | reachable_step f f' : reachable f → step f f' → reachable f'.

(** An operation that ends the call, or leaves one request out: [request_] names
    it when the outermost send() accepted it, and is null when that send() was
    answered and the request is a retry made inside it. *)
Definition settled (c : HttpCallImpl) (effects : list Effect) : Prop :=
  length (omap done_of effects) = 1 ∧ omap awaited_of effects = [] ∧
  omap deleted_of effects = [()] ∧ omap cancelled_of effects = [].

Definition pending (c : HttpCallImpl) (effects : list Effect) : Prop :=
  omap done_of effects = [] ∧ omap deleted_of effects = [] ∧ omap cancelled_of effects = [] ∧
  ∃ n (answered : bool), omap awaited_of effects = [n] ∧
    head (omap answered_of effects) = Some answered ∧
    request_ c = if answered then None else Some n.

Lemma on_answer_ends (mk : HttpCallImpl → option (HttpCallImpl * list Effect)) a c c' effects :
  on_answer mk a c = Some (c', effects) →
  (settled c' effects ∧ cancelled c' = cancelled c) ∨
  ∃ c0, mk c0 = Some (c', effects) ∧ cancelled c0 = cancelled c.
Proof.
  unfold on_answer, onSuccess, onFailure, attemptRetry.
  destruct a as [[code|] b|]; simpl.
  - destruct (code =? 200)%Z; simpl; [intros [= <- <-]; by left|].
    destruct (client_error code); simpl; [intros [= <- <-]; by left|].
    destruct (retries_ c <=? 0)%Z; simpl; [intros [= <- <-]; by left|].
    destruct (mk _) as [[c1 e1]|] eqn:E; simpl; [|done]. intros [= <- <-]. right. by eexists.
  - intros [= <- <-]. by left.
  - destruct (retries_ c <=? 0)%Z; simpl; [intros [= <- <-]; by left|].
    destruct (mk _) as [[c1 e1]|] eqn:E; simpl; [|done]. intros [= <- <-]. right. by eexists.
Qed.

Section ends.
Context (body : string) (token : Z → string) (now : Z → option Answer).

Lemma makeOneCall_ends fuel : ∀ c c' effects,
  makeOneCall host path body trace token now fuel c = Some (c', effects) →
  (settled c' effects ∨ pending c' effects) ∧ cancelled c' = cancelled c.
Proof.
  induction fuel as [|fuel IH]; intros c c' effects Hm; [done|]. simpl in Hm.
  destruct (is_empty _); [simplify_eq; split; [by left|done]|].
  destruct (now _) as [a|].
  - destruct (on_answer _ a _) as [[c1 e1]|] eqn:E; simpl in Hm; [|done]. injection Hm as <- <-.
    apply on_answer_ends in E as [[Hs Hc]|(c0&Hm&Hc)]; [split; [by left|done]|].
    destruct (IH c0 c1 e1 Hm) as [Hs Hc1]. split; [|simpl in *; congruence].
    destruct Hs as [Hs|(H1&H2&H3&n&b&H4&_)]; [by left|right].
    split_and!; try done. by exists n, true.
  - injection Hm as <- <-. split; [right|done]. split_and!; try done. by eexists _, false.
Qed.

Lemma answer_ends a c c' effects :
  answer host path body trace token now a c = Some (c', effects) →
  (settled c' effects ∨ pending c' effects) ∧ cancelled c' = cancelled c.
Proof.
  intros [[? ?]|(c0&Hm&Hc)]%on_answer_ends; [auto|].
  apply makeOneCall_ends in Hm as [? ?]. split; [done|congruence].
Qed.

End ends.

(** What holds of every call.  A call whose request was accepted inside another
    send() is [lost]: cancel() does not know the request. *)
Definition lost (w : World) : bool := cancelled (impl w) && inside_send w.

Definition call_ok (w : World) : Prop :=
  if deleted w then length (dones w) = 1 ∧ length (live w) = (if lost w then 1 else 0)
  else dones w = [] ∧ cancelled (impl w) = false ∧
    if started w
    then ∃ n, live w = [n] ∧ request_ (impl w) = if inside_send w then None else Some n
    else live w = [] ∧ request_ (impl w) = None ∧ inside_send w = false.

Definition factory_ok (f : HttpCallFactory) : Prop :=
  ∀ id, match calls f !! id with
        | Some w => call_ok w ∧
            (destruct_mode_ f = false → id ∈ active_calls_ f ↔ deleted w = false)
        | None => id ∉ active_calls_ f
        end.

Lemma after_ok w c effects :
  dones w = [] → deleted w = false → cancelled c = false →
  settled c effects ∨ pending c effects →
  call_ok (after w [] (c, effects)) ∧
  (dones (after w [] (c, effects)) = [] ↔ deleted (after w [] (c, effects)) = false).
Proof.
  intros Hd Hdel Hc Hs. unfold call_ok, after, lost. simpl. rewrite Hdel, Hd, Hc. simpl.
  destruct Hs as [(H1&H2&H3&H4)|(H1&H2&H3&n&b&H4&H5&H6)].
  - rewrite H2, H3. simpl. split; [done|]. split; [|done]. intros Hn. by rewrite Hn in H1.
  - rewrite H1, H2, H4, H5. simpl. split_and!; try done. by exists n.
Qed.

(** cancel() of a live call: the callback runs with CANCELLED, and the request is
    cancelled unless it was accepted inside another send(). *)
Lemma cancel_ok w :
  call_ok w → deleted w = false →
  let w' := after w (live w) (cancel (impl w)) in
  call_ok w' ∧ deleted w' = true ∧ dones w' = [(call_cancelled, "")] ∧
  live w' = if inside_send w then live w else [].
Proof.
  unfold call_ok at 1. intros Hok Hdel. rewrite Hdel in Hok. destruct Hok as (Hd&Hc&Hl).
  unfold cancel. rewrite Hc. unfold call_ok, after, lost. rewrite Hdel.
  destruct (started w).
  - destruct Hl as (n&->&Hq). simpl. rewrite Hq, Hd. destruct (inside_send w); simpl; [done|].
    rewrite filter_cons_False by (rewrite list_elem_of_singleton; naive_solver). done.
  - destruct Hl as (->&Hq&Hi). simpl. by rewrite Hq, Hd, Hi.
Qed.

Lemma update_ok f id w w' :
  factory_ok f → calls f !! id = Some w → deleted w = false → call_ok w' →
  (dones w' = [] ↔ deleted w' = false) → factory_ok (update id w' f).
Proof.
  intros Hf Hw Hdel Hw' Hiff id'. pose proof (Hf id') as Hid. unfold update. simpl.
  destruct (decide (id = id')) as [<-|Hne].
  - rewrite lookup_insert_eq. rewrite Hw in Hid. destruct Hid as [_ Hact]. split; [done|].
    intros Hmode. rewrite Hmode. simpl. case_bool_decide as Hd.
    + rewrite (Hact Hmode), Hdel. by rewrite (proj1 Hiff Hd).
    + split; [set_solver|]. intros Hx. by apply Hiff in Hx.
  - rewrite lookup_insert_ne by done. destruct (calls f !! id') as [w0|].
    + destruct Hid as [? Hact]. split; [done|]. intros Hmode. rewrite Hmode. simpl.
      rewrite <-(Hact Hmode). case_bool_decide; [done|]. set_solver.
    + case_match; [done|]. set_solver.
Qed.

Lemma step_ok f f' : destruct_mode_ f = false → factory_ok f → step f f' →
  factory_ok f' ∧ destruct_mode_ f' = false.
Proof.
  intros Hmode Hf Hs. destruct Hs as [f id retries Hid Hr|f id w body token now [c e] Hw Hst Hdel Hc
    |f id w n a body token now [c e] Hw Hdel Hn Hc|f id w Hw Hdel].
  - split; [|done]. intros id'. pose proof (Hf id') as H'. simpl.
    destruct (decide (id = id')) as [<-|Hne].
    + rewrite lookup_insert_eq. split; [done|]. intros _. simpl. set_solver.
    + rewrite lookup_insert_ne by done. destruct (calls f !! id'); [|set_solver].
      destruct H' as [? Hact]. split; [done|]. intros Hm. rewrite <-(Hact Hm). set_solver.
  - pose proof (Hf id) as Hid. rewrite Hw in Hid. destruct Hid as [Hok _].
    unfold call in Hc. apply makeOneCall_ends in Hc as [He Hcc].
    assert (dones w = [] ∧ live w = [] ∧ cancelled (impl w) = false) as (Hd&->&Hcan).
    { unfold call_ok in Hok. rewrite Hdel, Hst in Hok. naive_solver. }
    destruct (after_ok w c e) as [? ?]; try done; [by rewrite Hcc|].
    split; [by eapply update_ok|done].
  - pose proof (Hf id) as Hid. rewrite Hw in Hid. destruct Hid as [Hok _].
    apply answer_ends in Hc as [He Hcc].
    assert (dones w = [] ∧ filter (λ m, m ≠ n) (live w) = [] ∧ cancelled (impl w) = false)
      as (Hd&->&Hcan).
    { unfold call_ok in Hok. rewrite Hdel in Hok. destruct Hok as (?&?&Hl). split_and!; try done.
      destruct (started w); [destruct Hl as (m&Hl&_)|destruct Hl as [Hl _]];
        rewrite Hl in Hn |- *; [|set_solver].
      apply list_elem_of_singleton in Hn as ->. by rewrite filter_cons_False by auto. }
    destruct (after_ok w c e) as [? ?]; try done; [by rewrite Hcc|].
    split; [by eapply update_ok|done].
  - pose proof (Hf id) as Hid. rewrite Hw in Hid. destruct Hid as [Hok _].
    unfold cancel_call. rewrite Hw. destruct (cancel_ok w Hok Hdel) as (H1&H2&H3&_).
    split; [|done]. eapply update_ok; try done. by rewrite H2, H3.
Qed.

Lemma reachable_ok f : reachable f → factory_ok f ∧ destruct_mode_ f = false.
Proof.
  induction 1 as [|f f' _ [IH Hm] Hs]; [|by eapply step_ok].
  split; [|done]. intros id. simpl. rewrite lookup_empty. set_solver.
Qed.

Lemma cancel_calls f ids id :
  NoDup ids →
  calls (foldr cancel_call f ids) !! id
  = if bool_decide (id ∈ ids) then (λ w, after w (live w) (cancel (impl w))) <$> calls f !! id
    else calls f !! id.
Proof.
  induction ids as [|i ids IH]; intros Hnd; [done|]. apply NoDup_cons in Hnd as [Hi Hnd].
  specialize (IH Hnd). simpl. unfold cancel_call at 1.
  destruct (decide (i = id)) as [->|Hne].
  - rewrite (bool_decide_eq_false_2 (id ∈ ids)) in IH by done.
    rewrite bool_decide_eq_true_2 by (left). rewrite IH. destruct (calls f !! id) as [w|]; simpl.
    + by rewrite lookup_insert_eq.
    + by rewrite IH.
  - rewrite (bool_decide_ext (id ∈ i :: ids) (id ∈ ids)) by (rewrite elem_of_cons; naive_solver).
    rewrite <-IH. destruct (calls (foldr cancel_call f ids) !! i); simpl; [|done].
    by rewrite lookup_insert_ne.
Qed.

(** What the destructor leaves. *)
Lemma destroyed_calls f id w :
  factory_ok f → destruct_mode_ f = false → calls (destroy_HttpCallFactory f) !! id = Some w →
  deleted w = true ∧ call_ok w ∧
  ∃ w0, calls f !! id = Some w0 ∧
    if deleted w0 then w = w0
    else dones w = [(call_cancelled, "")] ∧ live w = if inside_send w0 then live w0 else [].
Proof.
  intros Hf Hm. unfold destroy_HttpCallFactory.
  rewrite cancel_calls by apply NoDup_elements. simpl. pose proof (Hf id) as Hid.
  destruct (calls f !! id) as [w0|] eqn:Hw; [|by case_bool_decide].
  destruct Hid as [Hok Hact]. rewrite (bool_decide_ext _ (deleted w0 = false))
    by (rewrite elem_of_elements; by apply Hact).
  case_bool_decide as Hdel; simpl; intros [= <-].
  - destruct (cancel_ok w0 Hok Hdel) as (Hok'&H2&H3&H4). split_and!; try done.
    exists w0. by rewrite Hdel.
  - destruct (deleted w0) eqn:E; [|done]. split_and!; try done. exists w0. by rewrite E.
Qed.

Lemma destroyed_active f id w :
  factory_ok f → destruct_mode_ f = false → calls f !! id = Some w → deleted w = false →
  ∃ w', calls (destroy_HttpCallFactory f) !! id = Some w' ∧ dones w' = [(call_cancelled, "")] ∧
    live w' = if inside_send w then live w else [].
Proof.
  intros Hf Hm Hw Hdel. unfold destroy_HttpCallFactory.
  pose proof (Hf id) as Hid. rewrite Hw in Hid. destruct Hid as [Hok Hact].
  rewrite cancel_calls by apply NoDup_elements. simpl.
  rewrite bool_decide_eq_true_2 by (rewrite elem_of_elements; by apply Hact). rewrite Hw.
  eexists. split; [done|]. by destruct (cancel_ok w Hok Hdel) as (_&_&?&?).
Qed.

(** A call that is done before stays as it is. *)
Lemma destroyed_done f id w :
  factory_ok f → destruct_mode_ f = false → calls f !! id = Some w → deleted w = true →
  calls (destroy_HttpCallFactory f) !! id = Some w.
Proof.
  intros Hf Hm Hw Hdel. unfold destroy_HttpCallFactory.
  pose proof (Hf id) as Hid. rewrite Hw in Hid. destruct Hid as [Hok Hact].
  rewrite cancel_calls by apply NoDup_elements. simpl.
  rewrite bool_decide_eq_false_2; [done|]. rewrite elem_of_elements, (Hact Hm). by rewrite Hdel.
Qed.

(** C15: whatever the client answers inside send() or later, in every reachable
    state of a factory each call ran its callback once if it was deleted and not
    at all otherwise.  A live call that was called has exactly one request out;
    [request_] names it, unless the outermost send() was answered before it
    returned, and is null then.  A deleted call has no request out, so that no
    answer reaches it, except one that was cancelled while [request_] was null in
    that way: its request is still out.  [active_calls_] are the calls that are
    not done: the destructor runs the callback of exactly those, with CANCELLED,
    and takes back their requests with the same exception. *)
Theorem http_calls_safe f :
  reachable f →
  (∀ id w, calls f !! id = Some w →
     (id ∈ active_calls_ f ↔ deleted w = false) ∧
     length (dones w) = (if deleted w then 1 else 0) ∧
     (if deleted w
      then length (live w) = if cancelled (impl w) && inside_send w then 1 else 0
      else if started w
      then ∃ n, live w = [n] ∧ request_ (impl w) = if inside_send w then None else Some n
      else live w = [])) ∧
  ∀ id w, calls (destroy_HttpCallFactory f) !! id = Some w →
    deleted w = true ∧
    ∃ w0, calls f !! id = Some w0 ∧
      if deleted w0 then w = w0
      else dones w = [(call_cancelled, "")] ∧ live w = if inside_send w0 then live w0 else [].
Proof.
  intros [Hf Hm]%reachable_ok. split.
  - intros id w Hw. pose proof (Hf id) as Hid. rewrite Hw in Hid. destruct Hid as [Hok Hact].
    split; [by apply Hact|]. unfold call_ok in Hok. destruct (deleted w); [done|].
    destruct Hok as (->&_&Hl). split; [done|]. by destruct (started w); [|destruct Hl].
  - intros id w Hw. destruct (destroyed_calls f id w Hf Hm Hw) as (H1&_&H3). by split.
Qed.

End machine.

(** C36: when the client fails a request inside send() and accepts the retry, the
    assignment after the outer send() overwrites [request_] with null: cancel()
    then leaves the retry out and deletes the call that will receive its answer. *)
Theorem retry_inside_send_is_lost host path body trace token now retries :
  (0 < retries < 2 ^ 32)%Z → is_empty (token 1%Z) = false → is_empty (token 2%Z) = false →
  now 1%Z = Some Failure → now 2%Z = None →
  ∃ c effects, call host path body trace token now (new_HttpCallImpl retries) = Some (c, effects) ∧
    omap awaited_of effects = [2%Z] ∧ request_ c = None ∧
    (cancel c).2 = [OnDone call_cancelled ""; DeferredDelete].
Proof.
  intros Hr H1 H2 N1 N2. unfold call, enough. simpl.
  change (u32 (0 + 1)) with 1%Z. rewrite H1, N1. simpl. unfold onFailure, attemptRetry. simpl.
  rewrite (proj2 (Z.leb_gt retries 0)) by lia.
  destruct (Z.to_nat retries) as [|k] eqn:E; [lia|]. simpl.
  change (u32 (1 + 1)) with 2%Z. rewrite H2, N2. simpl. eexists _, _. by split_and!.
Qed.

Lemma retry_inside_send_is_lost_witness :
  ∃ c effects, call "h" "/p" "b" "Check" (λ _, "t") (λ n, if (n =? 1)%Z then Some Failure else None)
    (new_HttpCallImpl 3) = Some (c, effects) ∧ omap awaited_of effects = [2%Z] ∧ request_ c = None ∧
    (cancel c).2 = [OnDone call_cancelled ""; DeferredDelete].
Proof. apply retry_inside_send_is_lost; [lia|reflexivity..]. Defined.

(** A factory with two calls: one is not called; the client fails the first
    attempt of the other inside send() and accepts the second. *)
Definition fails_first (n : Z) : option Answer := if (n =? 1)%Z then Some Failure else None.

Definition sample_factory : HttpCallFactory :=
  let f := createHttpCall 1 3 (createHttpCall 0 3 new_HttpCallFactory) in
  match call "h" "/p" "b" "Check" (λ _, "t") fails_first (new_HttpCallImpl 3) with
  | Some s => update 1 (after (new_World 3) [] s) f
  | None => f
  end.

Lemma http_calls_safe_witness :
  live <$> calls sample_factory !! 1 = Some [2%Z] ∧
  live <$> calls (destroy_HttpCallFactory sample_factory) !! 1 = Some [2%Z] ∧
  ∀ id w, calls (destroy_HttpCallFactory sample_factory) !! id = Some w → deleted w = true.
Proof.
  split; [vm_compute; reflexivity|]. split; [vm_compute; reflexivity|]. intros id w Hw.
  refine (proj1 (proj2 (http_calls_safe "h" "/p" "Check" sample_factory _) id w Hw)).
  eapply reachable_step; [eapply reachable_step; [eapply reachable_step; [apply reachable_new|]|]|].
  - apply (step_create _ _ _ _ 0 3); [reflexivity|lia].
  - apply (step_create _ _ _ _ 1 3); [reflexivity|lia].
  - apply (step_call _ _ _ _ 1 (new_World 3) "b" (λ _, "t") fails_first); reflexivity.
Defined.
