(* ===== verification/Token.v ===== *)
(** * Access and identity tokens: src/envoy/token

    The requests for tokens and the parsing of the answers of the metadata server
    and of IAM, and the subscriber that fetches a token, hands it on, and fetches
    the next one before it expires.  Parsing of URIs, JSON and timestamps is the
    proxy's and the library's: parameters. *)
From S2P Require Import Prelude RequestInfo EnvoyUtils.

(** ** Token info *)

Record TokenResult := mkTokenResult { token : string; expiry_duration : Z }.

(** Body values that IamTokenInfo writes. *)
Inductive BodyValue := StringList (l : list string) | BoolValue (b : bool).

(** Http::RequestMessage: method, host, path, one more header, and the fields of
    the JSON body, if there is one. *)
Record TokenRequest := mkTokenRequest {
  tr_method : string;
  tr_host : string;
  tr_path : string;
  tr_header : string * string;
  tr_body : option (gmap string BodyValue)
}.

(** class TokenInfo: null is [None] for a request; a parser gives a result or
    false, and its outer [None] is undefined behaviour. *)
Record TokenInfo := mkTokenInfo {
  prepareRequest : string → option TokenRequest;
  parseAccessToken : string → option (option TokenResult);
  parseIdentityToken : string → option (option TokenResult)
}.

Definition kMetadataFlavorKey : string := LowerCaseString "Metadata-Flavor".
Definition kMetadataFlavor : string := "Google".
Definition kDefaultTokenExpiry : Z := 3599.
Definition kDelegatesField : string := "delegates".
Definition kDelegatePrefix : string := "projects/-/serviceAccounts/".
Definition kIncludeEmail : string := "includeEmail".
Definition kScopesField : string := "scope".
Definition kAuthorizationKey : string := LowerCaseString "Authorization".

Section info.
(** Http::Utility::extractHostPathFromUri, JsonStringToMessage,
    TimeUtil::FromString and TimeUtil::GetCurrentTime. *)
Context (extractHostPathFromUri : string → string * string).
Context (JsonStringToMessage : string → option Struct).
Context (FromString : string → option Timestamp) (now : Timestamp).

Definition imds_prepareRequest (token_url : string) : option TokenRequest :=
  let '(host, path) := extractHostPathFromUri token_url in
  Some (mkTokenRequest "GET" host path (kMetadataFlavorKey, kMetadataFlavor) None).

Definition imds_parseAccessToken (response : string) : option (option TokenResult) :=
  match JsonStringToMessage response with
  | None => Some None
  | Some fields =>
      let '(token, parse_status) := getString fields "access_token" in
      if negb (status_ok parse_status) then Some None else
      '(expires_seconds, parse_status) ← getInteger fields "expires_in";
      if negb (status_ok parse_status) then Some None
      else expires_seconds ← expires_seconds;
           Some (Some (mkTokenResult (default "" token) expires_seconds))
  end.

Definition imds_parseIdentityToken (response : string) : option (option TokenResult) :=
  Some (Some (mkTokenResult response kDefaultTokenExpiry)).

(** class ImdsTokenInfo. *)
Definition ImdsTokenInfo : TokenInfo :=
  mkTokenInfo imds_prepareRequest imds_parseAccessToken imds_parseIdentityToken.

(** insertStrListToProto. *)
Definition insertStrListToProto (key : string) (val_list : list string) (val_prefix : string)
    (body : gmap string BodyValue) : gmap string BodyValue :=
  <[key := StringList ((λ val, val_prefix +:+ val) <$> val_list)]> body.

(** [access_token] is what access_token_fn_ returns. *)
Definition iam_prepareRequest (delegates scopes : list string) (include_email : bool)
    (access_token token_url : string) : option TokenRequest :=
  if is_empty access_token then None else
  let '(host, path) := extractHostPathFromUri token_url in
  let body : gmap string BodyValue := ∅ in
  let body := match delegates with
              | [] => body
              | _ => insertStrListToProto kDelegatesField delegates kDelegatePrefix body
              end in
  let body := match scopes with
              | [] => body
              | _ => insertStrListToProto kScopesField scopes "" body
              end in
  let body := if include_email then <[kIncludeEmail := BoolValue true]> body else body in
  let has_body := match delegates, scopes with
                  | [], [] => include_email
                  | _, _ => true
                  end in
  Some (mkTokenRequest "POST" host path (kAuthorizationKey, "Bearer " +:+ access_token)
          (if has_body then Some body else None)).

(** The difference of two timestamps in whole seconds: a Duration has seconds
    and nanoseconds of the same sign. *)
Definition duration_seconds (t t' : Timestamp) : Z :=
  Z.quot ((seconds t - seconds t') * 1000000000 + (nanos t - nanos t')) 1000000000.

Definition iam_parseAccessToken (response : string) : option (option TokenResult) :=
  match JsonStringToMessage response with
  | None => Some None
  | Some fields =>
      let '(token, parse_status) := getString fields "accessToken" in
      if negb (status_ok parse_status) then Some None else
      let '(expireTime, parse_status) := getTimestamp FromString fields "expireTime" in
      if negb (status_ok parse_status) then Some None
      else expireTime ← expireTime;
           Some (Some (mkTokenResult (default "" token) (duration_seconds expireTime now)))
  end.

Definition iam_parseIdentityToken (response : string) : option (option TokenResult) :=
  match JsonStringToMessage response with
  | None => Some None
  | Some fields =>
      let '(token, parse_status) := getString fields "token" in
      if negb (status_ok parse_status) then Some None
      else Some (Some (mkTokenResult (default "" token) kDefaultTokenExpiry))
  end.

(** class IamTokenInfo. *)
Definition IamTokenInfo (delegates scopes : list string) (include_email : bool)
    (access_token : string) : TokenInfo :=
  mkTokenInfo (iam_prepareRequest delegates scopes include_email access_token)
    iam_parseAccessToken iam_parseIdentityToken.

End info.

(** ** Token subscriber *)

Inductive TokenType := AccessToken | IdentityToken.

Definition kRequestTimeoutMs : Z := 5000.
Definition kFailedRequestRetryTime : Z := 2.
Definition kRefreshBuffer : Z := 5.

(** class TokenSubscriber: whether [active_request_] is set. *)
Record TokenSubscriber := mkTokenSubscriber { active_request_ : bool }.

Definition new_TokenSubscriber : TokenSubscriber := mkTokenSubscriber false.

(** What the client answers: onSuccess with the status code ([None] when there is
    none) and the body, or onFailure. *)
Inductive TokenAnswer :=
  | TokenResponse (status_code : option Z) (body : string)
  | TokenFailure.

(** What the subscriber does to others.  [SendRequest] says whether the client
    answers inside send(). *)
Inductive TokenEffect :=
  | CancelActive
  | SendRequest (message : TokenRequest) (answered : bool)
  | UpdateToken (token : string)
  | EnableTimer (delay : Z)
  | InitReady.

(** ~TokenSubscriber. *)
Definition destroy_TokenSubscriber (s : TokenSubscriber) : list TokenEffect :=
  if active_request_ s then [CancelActive] else [].

Section subscriber.
Context (token_type_ : TokenType) (token_url_ : string) (info : TokenInfo).

Definition handleFailResponse (s : TokenSubscriber) : TokenSubscriber * list TokenEffect :=
  (mkTokenSubscriber false, [EnableTimer kFailedRequestRetryTime]).

Section callbacks.
Context (refresh : TokenSubscriber → option (TokenSubscriber * list TokenEffect)).

Definition handleSuccessResponse (token : string) (expires_in : Z) (s : TokenSubscriber)
  : option (TokenSubscriber * list TokenEffect) :=
  let s := mkTokenSubscriber false in
  '(s, effects) ← (if (expires_in <=? kRefreshBuffer)%Z then refresh s
                   else Some (s, [EnableTimer (expires_in - kRefreshBuffer)]));
  Some (s, UpdateToken token :: effects ++ [InitReady]).

Definition processResponse (status_code : option Z) (body : string) (s : TokenSubscriber)
  : option (TokenSubscriber * list TokenEffect) :=
  if negb (bool_decide (status_code = Some 200%Z)) then Some (handleFailResponse s) else
  result ← match token_type_ with
           | IdentityToken => parseIdentityToken info body
           | AccessToken => parseAccessToken info body
           end;
  match result with
  | None => Some (handleFailResponse s)
  | Some result => handleSuccessResponse (token result) (expiry_duration result) s
  end.

(** onSuccess and onFailure. *)
Definition on_answer (a : TokenAnswer) (s : TokenSubscriber)
  : option (TokenSubscriber * list TokenEffect) :=
  match a with
  | TokenResponse status_code body => processResponse status_code body s
  | TokenFailure => Some (handleFailResponse s)
  end.

End callbacks.

(** refresh.  [inside] are the answers inside send(), for this and the following
    requests; [active_request_] is assigned when send() returns, with null for a
    request that was answered. *)
Fixpoint refresh (inside : list (option TokenAnswer)) (s : TokenSubscriber)
  : option (TokenSubscriber * list TokenEffect) :=
  let cancelled := if active_request_ s then [CancelActive] else [] in
  match prepareRequest info token_url_ with
  | None => let '(s, effects) := handleFailResponse s in Some (s, cancelled ++ effects)
  | Some message =>
      match inside with
      | Some a :: inside =>
          '(_, effects) ← on_answer (refresh inside) a s;
          Some (mkTokenSubscriber false, cancelled ++ SendRequest message true :: effects)
      | _ => Some (mkTokenSubscriber true, cancelled ++ [SendRequest message false])
      end
  end.

End subscriber.

(** ** The subscriber in the world *)

(** Whether a request is out, the timer, the tokens handed on and whether the init
    manager was told. *)
Record World := mkWorld {
  sub : TokenSubscriber;
  started : bool;
  in_flight : bool;
  timer : option Z;
  tokens : list string;
  ready : bool
}.

Definition new_World : World := mkWorld new_TokenSubscriber false false None [] false.

Definition apply_effect (w : World) (e : TokenEffect) : World :=
  match e with
  | CancelActive => mkWorld (sub w) (started w) false (timer w) (tokens w) (ready w)
  | SendRequest _ answered =>
      mkWorld (sub w) (started w) (negb answered) (timer w) (tokens w) (ready w)
  | UpdateToken t => mkWorld (sub w) (started w) (in_flight w) (timer w) (tokens w ++ [t]) (ready w)
  | EnableTimer d => mkWorld (sub w) (started w) (in_flight w) (Some d) (tokens w) (ready w)
  | InitReady => mkWorld (sub w) (started w) (in_flight w) (timer w) (tokens w) true
  end.

(** The world after an operation that started with request and timer as given. *)
Definition after (w : World) (request : bool) (t : option Z)
    (s : TokenSubscriber * list TokenEffect) : World :=
  foldl apply_effect (mkWorld s.1 true request t (tokens w) (ready w)) s.2.

(** Answers inside send() are failures: no connection, or a local reply that is
    not 200. *)
Definition fails (a : TokenAnswer) : Prop :=
  match a with TokenResponse code _ => code ≠ Some 200%Z | TokenFailure => True end.
Definition fails_inside (inside : list (option TokenAnswer)) : Prop :=
  Forall (λ o, from_option fails True o) inside.

(** The parsers are defined on every response. *)
Definition info_total (info : TokenInfo) : Prop :=
  ∀ body, is_Some (parseAccessToken info body) ∧ is_Some (parseIdentityToken info body).

Section machine.
Context (token_type : TokenType) (token_url : string).

Inductive step : World → World → Prop :=
  | step_init w info inside s :
      started w = false → fails_inside inside →
      refresh token_type token_url info inside (sub w) = Some s →
      step w (after w (in_flight w) (timer w) s)
  | step_timer w d info inside s :
      timer w = Some d → fails_inside inside →
      refresh token_type token_url info inside (sub w) = Some s →
      step w (after w (in_flight w) None s)
  | step_answer w a info inside s :
      in_flight w = true → fails_inside inside →
      on_answer token_type info (refresh token_type token_url info inside) a (sub w) = Some s →
      step w (after w false (timer w) s).

Inductive reachable : World → Prop :=
  | reachable_new : reachable new_World
  | reachable_step w w' : reachable w → step w w' → reachable w'.

(** Either a request is out, and the subscriber knows it, or the timer runs. *)
Definition scheduled (w : World) : Prop :=
  active_request_ (sub w) = in_flight w ∧
  match timer w with
  | Some d => in_flight w = false ∧ (0 < d)%Z
  | None => in_flight w = true
  end.

Definition invariant (w : World) : Prop :=
  (ready w = true ↔ tokens w ≠ []) ∧
  if started w then scheduled w
  else active_request_ (sub w) = false ∧ in_flight w = false ∧ timer w = None ∧ tokens w = [].

Lemma refresh_total info inside s :
  fails_inside inside → is_Some (refresh token_type token_url info inside s).
Proof.
  intros Hin. destruct inside as [|[a|] inside]; simpl; destruct (prepareRequest _ _); simpl;
    try by eexists.
  apply Forall_cons in Hin as [Ha _]. simpl in Ha.
  destruct a as [code body|]; simpl; [|by eexists]. unfold processResponse. simpl in Ha.
  rewrite bool_decide_eq_false_2 by done. simpl. by eexists.
Qed.

(** A refresh that starts with nothing out and no timer leaves one of them. *)
Lemma refresh_schedules w info inside s s' effects :
  fails_inside inside → active_request_ s = false →
  refresh token_type token_url info inside s = Some (s', effects) →
  scheduled (after w false None (s', effects)) ∧
  tokens (after w false None (s', effects)) = tokens w ∧
  ready (after w false None (s', effects)) = ready w ∧
  started (after w false None (s', effects)) = true.
Proof.
  intros Hin Hs. destruct inside as [|[a|] inside]; simpl; rewrite Hs;
    (destruct (prepareRequest _ _); simpl; [|by intros [= <- <-]]); try by intros [= <- <-].
  apply Forall_cons in Hin as [Ha _]. simpl in Ha.
  destruct a as [code body|]; simpl; [|by intros [= <- <-]]. unfold processResponse. simpl in Ha.
  rewrite bool_decide_eq_false_2 by done. simpl. by intros [= <- <-].
Qed.

Lemma after_app w request t s e1 e2 :
  after w request t (s, e1 ++ e2) = foldl apply_effect (after w request t (s, e1)) e2.
Proof. unfold after. simpl. apply foldl_app. Qed.

Lemma answer_schedules w info inside a s s' effects :
  fails_inside inside →
  on_answer token_type info (refresh token_type token_url info inside) a s = Some (s', effects) →
  let w' := after w false None (s', effects) in
  scheduled w' ∧ started w' = true ∧
  ((tokens w' = tokens w ∧ ready w' = ready w) ∨ (tokens w' ≠ [] ∧ ready w' = true)).
Proof.
  intros Hin. unfold on_answer, processResponse, handleSuccessResponse.
  destruct a as [code body|]; simpl; [|intros [= <- <-]; split_and!; auto; done].
  destruct (bool_decide _); simpl; [|intros [= <- <-]; split_and!; auto; done].
  destruct (match token_type with AccessToken => _ | IdentityToken => _ end) as [[r|]|]; simpl;
    [|intros [= <- <-]; split_and!; auto; done|done].
  destruct (expiry_duration r <=? kRefreshBuffer)%Z eqn:Ee; simpl.
  - destruct (refresh _ _ _ _ _) as [[s1 e1]|] eqn:E; simpl; [|done]. intros [= <- <-].
    set (w1 := mkWorld (sub w) (started w) (in_flight w) (timer w) (tokens w ++ [token r]) (ready w)).
    destruct (refresh_schedules w1 _ _ (mkTokenSubscriber false) _ _ Hin eq_refl E) as (Hs&Ht&Hr&Hst).
    change (after w false None (s1, UpdateToken (token r) :: e1 ++ [InitReady]))
      with (after w1 false None (s1, e1 ++ [InitReady])).
    rewrite after_app. simpl. split; [done|]. split; [done|]. right. rewrite Ht. simpl.
    split; [|done]. by destruct (tokens w).
  - intros [= <- <-]. apply Z.leb_gt in Ee. unfold kRefreshBuffer, scheduled in *. simpl.
    split_and!; try done.
    + simpl. lia.
    + right. split; [|done]. by destruct (tokens w).
Qed.

Lemma subscriber_step_ok w w' : invariant w → step w w' → invariant w'.
Proof.
  intros [Hr Hi] Hs. destruct Hs as [w info inside [s e] Hst Hin E|w d info inside [s e] Ht Hin E
    |w a info inside [s e] Hf Hin E].
  - rewrite Hst in Hi. destruct Hi as (Ha&Hfl&Htm&Htk). rewrite Hfl, Htm.
    destruct (refresh_schedules w _ _ _ _ _ Hin Ha E) as (Hs&Htok&Hrdy&Hstd).
    split; [by rewrite Htok, Hrdy|]. by rewrite Hstd.
  - assert (started w = true) as Hst.
    { destruct (started w); [done|]. destruct Hi as (_&_&?&_). congruence. }
    rewrite Hst in Hi. unfold scheduled in Hi. rewrite Ht in Hi. destruct Hi as (Ha&Hfl&_).
    rewrite Hfl in *. destruct (refresh_schedules w _ _ _ _ _ Hin Ha E) as (Hs&Htok&Hrdy&Hstd).
    split; [by rewrite Htok, Hrdy|]. by rewrite Hstd.
  - assert (started w = true) as Hst.
    { destruct (started w); [done|]. destruct Hi as (_&?&_). congruence. }
    rewrite Hst in Hi. destruct Hi as [Ha Ht]. rewrite Hf in Ht.
    destruct (timer w); [by destruct Ht|].
    destruct (answer_schedules w _ _ _ _ _ _ Hin E) as (Hs&Hstd&Hcase).
    split; [|by rewrite Hstd]. destruct Hcase as [[-> ->]|[? ->]]; [done|]. by split.
Qed.

Lemma destroyed_subscriber w :
  invariant w → in_flight (foldl apply_effect w (destroy_TokenSubscriber (sub w))) = false.
Proof.
  intros [_ Hi]. unfold destroy_TokenSubscriber.
  assert (active_request_ (sub w) = in_flight w) as ->.
  { destruct (started w); [by destruct Hi|]. by destruct Hi as (->&->&_). }
  by destruct (in_flight w) eqn:E.
Qed.

Lemma subscriber_reachable_ok w : reachable w → invariant w.
Proof. induction 1 as [|w w' _ IH Hs]; [by repeat split|]. by eapply subscriber_step_ok. Qed.

(** C16: a subscriber never stalls: once started, it always has either one request
    out or a timer with a positive delay, never both; its destructor leaves no
    request out that could call it back; every event that can happen is handled;
    and the init manager is told exactly when a first token was handed on. *)
Theorem token_subscriber_live w :
  reachable w →
  (started w = true → scheduled w) ∧
  in_flight (foldl apply_effect w (destroy_TokenSubscriber (sub w))) = false ∧
  (ready w = true ↔ tokens w ≠ []) ∧
  ∀ info inside, info_total info → fails_inside inside →
    (started w = false → ∃ s, refresh token_type token_url info inside (sub w) = Some s ∧
       step w (after w (in_flight w) (timer w) s)) ∧
    (∀ d, timer w = Some d → ∃ s, refresh token_type token_url info inside (sub w) = Some s ∧
       step w (after w (in_flight w) None s)) ∧
    (in_flight w = true → ∀ a, ∃ s,
       on_answer token_type info (refresh token_type token_url info inside) a (sub w) = Some s ∧
       step w (after w false (timer w) s)).
Proof.
  intros [Hr Hi]%subscriber_reachable_ok. split; [intros Hst; by rewrite Hst in Hi|].
  split; [by apply destroyed_subscriber|]. split; [done|].
  intros info inside Htot Hin. destruct (refresh_total info inside (sub w) Hin) as [s E].
  split_and!.
  - intros Hst. exists s. split; [done|]. by eapply step_init.
  - intros d Hd. exists s. split; [done|]. by eapply step_timer.
  - intros Hf a.
    assert (is_Some (on_answer token_type info (refresh token_type token_url info inside) a (sub w)))
      as [s' E'].
    { unfold on_answer, processResponse, handleSuccessResponse. destruct a as [code body|]; [|by eexists].
      destruct (bool_decide _); simpl; [|by eexists]. destruct (Htot body) as [[ra Ea] [ri Ei]].
      assert (∃ r, match token_type with AccessToken => parseAccessToken info body
                | IdentityToken => parseIdentityToken info body end = Some r) as [r Er]
        by (destruct token_type; eauto).
      rewrite Er. simpl. destruct r as [r|]; [|by eexists]. simpl.
      destruct (_ <=? _)%Z; simpl; [|by eexists].
      destruct (refresh_total info inside (mkTokenSubscriber false) Hin) as [[? ?] ->]. by eexists. }
    exists s'. split; [done|]. by eapply step_answer.
Qed.

End machine.

(** ** The token infos *)

Section parsing.
Context (extractHostPathFromUri : string → string * string).
Context (JsonStringToMessage : string → option Struct).
Context (FromString : string → option Timestamp) (now : Timestamp).

(** The JSON parser makes doubles of binary64. *)
Definition json_valid : Prop :=
  ∀ response fields key d, JsonStringToMessage response = Some fields →
    fields !! key = Some (number_value d) → valid_binary 53 1024 d = true.

Lemma getString_cases fields key :
  (∃ s, fields !! key = Some (string_value s) ∧ getString fields key = (Some s, Status_OK)) ∨
  ((∀ s, fields !! key ≠ Some (string_value s)) ∧
   (getString fields key).1 = None ∧ status_ok (getString fields key).2 = false).
Proof using.
  unfold getString. destruct (fields !! key) as [[]|]; (by left; eexists) || (right; by split_and!).
Qed.

Lemma imds_parseAccessToken_spec response :
  json_valid →
  ∃ result, imds_parseAccessToken JsonStringToMessage response = Some result ∧
    ∀ r, result = Some r ↔
      ∃ fields d st, JsonStringToMessage response = Some fields ∧
        fields !! "access_token" = Some (string_value (token r)) ∧
        fields !! "expires_in" = Some (number_value d) ∧
        getInteger fields "expires_in" = Some (Some (expiry_duration r), st).
Proof using JsonStringToMessage.
  intros Hv. unfold imds_parseAccessToken.
  destruct (JsonStringToMessage response) as [fields|] eqn:Ej;
    [|eexists; split; [done|]; intros r; split; [done|]; by intros (?&?&?&?&_)].
  destruct (getString_cases fields "access_token") as [(s&Hs&->)|(Hs&H1&H2)]; simpl.
  2: { destruct (getString fields "access_token") as [t st]. simpl in *. rewrite H2. simpl.
       eexists. split; [done|]. intros r. split; [done|]. intros (f&d&st'&[= <-]&Ht&_).
       by apply Hs in Ht. }
  destruct (getInteger_spec fields "expires_in") as (v&st&E&Hcase); [by intros; eapply Hv|].
  rewrite E. simpl. destruct v as [z|].
  - destruct Hcase as (->&Hz&d&Hd&_). simpl. eexists. split; [done|]. intros r. split.
    + intros [= <-]. simpl. exists fields, d, Status_OK. done.
    + intros (f&d'&st'&[= <-]&Ht&_&Hg). rewrite E in Hg. destruct r as [tk ex]. simpl in *. congruence.
  - rewrite Hcase. simpl. eexists. split; [done|]. intros r. split; [done|].
    intros (f&d'&st'&[= <-]&_&_&Hg). by rewrite E in Hg.
Qed.

Lemma imds_total : json_valid → info_total (ImdsTokenInfo extractHostPathFromUri JsonStringToMessage).
Proof using extractHostPathFromUri JsonStringToMessage.
  intros Hv body. split; [|by eexists].
  destruct (imds_parseAccessToken_spec body Hv) as (r&E&_). by eexists.
Qed.

Lemma iam_total delegates scopes email access :
  info_total (IamTokenInfo extractHostPathFromUri JsonStringToMessage FromString now
                delegates scopes email access).
Proof.
  intros body. simpl. unfold iam_parseAccessToken, iam_parseIdentityToken.
  destruct (JsonStringToMessage body) as [fields|]; [|by split; eexists]. split.
  - destruct (getString_cases fields "accessToken") as [(s&_&->)|(_&H1&H2)]; simpl.
    2: { destruct (getString fields "accessToken"). simpl in *. rewrite H2. by eexists. }
    unfold getTimestamp. destruct (getString fields "expireTime") as [t st].
    destruct (status_ok st) eqn:Es; simpl; [|rewrite Es; by eexists].
    destruct (FromString _); by eexists.
  - destruct (getString fields "token") as [t st]. destruct (status_ok st); by eexists.
Qed.

End parsing.

(** Parsing the answers for tokens never reads an unset number: an access
    token from the metadata server is taken exactly when the JSON has a string
    "access_token" and a number "expires_in" in the range of int, with that token
    and the number truncated to seconds; and the subscriber's requirement on its
    token info holds for the metadata server and for IAM. *)
Lemma token_info_correct extract json parse_time now response delegates scopes email access :
  json_valid json →
  (∃ result, imds_parseAccessToken json response = Some result ∧
     ∀ r, result = Some r ↔
       ∃ fields d st, json response = Some fields ∧
         fields !! "access_token" = Some (string_value (token r)) ∧
         fields !! "expires_in" = Some (number_value d) ∧
         getInteger fields "expires_in" = Some (Some (expiry_duration r), st)) ∧
  info_total (ImdsTokenInfo extract json) ∧
  info_total (IamTokenInfo extract json parse_time now delegates scopes email access).
Proof.
  intros Hv. split; [by apply imds_parseAccessToken_spec|].
  split; [by apply imds_total|apply iam_total].
Qed.

Definition sample_json (response : string) : option Struct :=
  if bool_decide (response = "{}") then Some ∅
  else Some (<["access_token" := string_value "t"]> {["expires_in" := number_value (double_of_int 3599)]}).

Lemma sample_json_valid : json_valid sample_json.
Proof.
  unfold json_valid, sample_json. intros response fields key d. case_bool_decide; intros [= <-].
  - by rewrite lookup_empty.
  - rewrite lookup_insert_Some, lookup_singleton_Some. intros [[_ ?]|(_&_&[= <-])]; [done|].
    vm_compute. reflexivity.
Qed.

Lemma token_info_correct_witness :
  imds_parseAccessToken sample_json "x" = Some (Some (mkTokenResult "t" 3599)) ∧
  info_total (ImdsTokenInfo (λ u, (u, "")) sample_json).
Proof.
  split; [vm_compute; reflexivity|].
  apply (token_info_correct (λ u, (u, "")) sample_json (λ _, None) (mkTimestamp 0 0) "x" [] [] true ""
    sample_json_valid).
Defined.

Definition sample_info : TokenInfo := ImdsTokenInfo (λ u, (u, "")) sample_json.

(** The first request is out. *)
Definition sample_world : World :=
  from_option (after new_World false None) new_World
    (refresh AccessToken "url" sample_info [] new_TokenSubscriber).

Lemma token_subscriber_live_witness :
  in_flight sample_world = true ∧ timer sample_world = None ∧ scheduled sample_world ∧
  ∃ s, on_answer AccessToken sample_info (refresh AccessToken "url" sample_info []) TokenFailure
    (sub sample_world) = Some s.
Proof.
  split; [vm_compute; reflexivity|]. split; [vm_compute; reflexivity|].
  assert (reachable AccessToken "url" sample_world) as Hr.
  { eapply reachable_step; [apply reachable_new|].
    apply (step_init AccessToken "url" new_World sample_info []); [reflexivity|constructor|reflexivity]. }
  destruct (token_subscriber_live AccessToken "url" sample_world Hr) as (Hs&_&_&Hp).
  split; [apply Hs; vm_compute; reflexivity|].
  destruct (Hp sample_info [] (imds_total _ _ sample_json_valid) (Forall_nil_2 _)) as (_&_&Ha).
  destruct (Ha eq_refl TokenFailure) as (s&Hs'&_). exists s. exact Hs'.
Defined.
