(* ===== verification/TokenClock.v ===== *)
(** * Tokens and time: src/envoy/token/token_subscriber.cc

    The subscriber of [Token] with a clock, in milliseconds: when it refreshes its
    token, and for how long a token that has expired can stay in use. *)
From S2P Require Import Prelude Token.

#[local] Open Scope Z_scope.

Section clock.
Context (token_type : TokenType) (token_url : string).

(** The subscriber in its world, the time, the time of its last event, when it was
    started, the last token with the time it came, and how many attempts to get one
    have failed since. *)
Record Clocked := mkClocked {
  world : World;
  now : Z;
  since : Z;
  begun : Z;
  fetched : option (Z * TokenResult);
  failures : Z
}.

Definition new_Clocked (t : Z) : Clocked := mkClocked new_World t t t None 0.

(** How long it can wait for its next event: a request is answered, with a failure
    at the latest, when its timeout ends; a timer fires when its delay is over. *)
Definition wait (w : World) : option Z :=
  if in_flight w then Some kRequestTimeoutMs
  else match timer w with Some d => Some (1000 * d) | None => None end.

(** The token that an answer carries. *)
Definition granted (info : TokenInfo) (a : TokenAnswer) : option TokenResult :=
  match a with
  | TokenFailure => None
  | TokenResponse code body =>
      if bool_decide (code = Some 200) then
        match token_type with
        | AccessToken => mjoin (parseAccessToken info body)
        | IdentityToken => mjoin (parseIdentityToken info body)
        end
      else None
  end.

(** The failures of one refresh: it is not prepared, or fails inside send(). *)
Definition refresh_failures (info : TokenInfo) (inside : list (option TokenAnswer)) : Z :=
  match prepareRequest info token_url, inside with
  | None, _ => 1
  | Some _, Some _ :: _ => 1
  | _, _ => 0
  end.

(** After an answer, the last token and the failures since. *)
Definition count_answer (info : TokenInfo) (inside : list (option TokenAnswer)) (a : TokenAnswer)
    (c : Clocked) : option (Z * TokenResult) * Z :=
  match granted info a with
  | None => (fetched c, failures c + 1)
  | Some r => (Some (now c, r),
      if expiry_duration r <=? kRefreshBuffer then refresh_failures info inside else 0)
  end.

Inductive clock_step : Clocked → Clocked → Prop :=
  | clock_elapse c d :
      0 < d → (∀ t, wait (world c) = Some t → now c + d ≤ since c + t) →
      clock_step c (mkClocked (world c) (now c + d) (since c) (begun c) (fetched c) (failures c))
  | clock_init c info inside s :
      started (world c) = false → fails_inside inside →
      refresh token_type token_url info inside (sub (world c)) = Some s →
      clock_step c
        (mkClocked (after (world c) (in_flight (world c)) (timer (world c)) s) (now c) (now c) (now c)
           (fetched c) (refresh_failures info inside))
  | clock_timer c d info inside s :
      timer (world c) = Some d → now c = since c + 1000 * d → fails_inside inside →
      refresh token_type token_url info inside (sub (world c)) = Some s →
      clock_step c
        (mkClocked (after (world c) (in_flight (world c)) None s) (now c) (now c) (begun c)
           (fetched c) (failures c + refresh_failures info inside))
  | clock_answer c a info inside s :
      in_flight (world c) = true → fails_inside inside →
      on_answer token_type info (refresh token_type token_url info inside) a (sub (world c)) = Some s →
      clock_step c
        (mkClocked (after (world c) false (timer (world c)) s) (now c) (now c) (begun c)
           (count_answer info inside a c).1 (count_answer info inside a c).2).

Inductive clock_reachable : Clocked → Prop :=
  | clock_new t : clock_reachable (new_Clocked t)
  | clock_more c c' : clock_reachable c → clock_step c c' → clock_reachable c'.

(** When the next token is due to be asked for: kRefreshBuffer before the last one
    expires, and not before it came. *)
Definition due (c : Clocked) : Z :=
  match fetched c with
  | Some (t, r) => t + 1000 * Z.max 0 (expiry_duration r - kRefreshBuffer)
  | None => begun c
  end.

(** The clock only restricts the steps of the subscriber. *)
Lemma clock_step_world c c' :
  clock_step c c' → world c' = world c ∨ step token_type token_url (world c) (world c').
Proof.
  destruct 1; simpl; [by left|right..].
  - by eapply step_init.
  - by eapply step_timer.
  - by eapply step_answer.
Qed.

Lemma clock_world_reachable c : clock_reachable c → reachable token_type token_url (world c).
Proof.
  induction 1 as [t|c c' _ IH Hs]; [constructor|].
  apply clock_step_world in Hs as [->|Hs]; [done|]. by eapply reachable_step.
Qed.

(** The wait after a refresh: for the answer, or for the next attempt when this one
    has failed. *)
Definition refresh_wait (failed : Z) : Z :=
  if failed =? 0 then kRequestTimeoutMs else 1000 * kFailedRequestRetryTime.

Lemma refresh_waits w info inside s s' effects :
  fails_inside inside → active_request_ s = false →
  refresh token_type token_url info inside s = Some (s', effects) →
  let w' := after w false None (s', effects) in
  let failed := refresh_failures info inside in
  wait w' = Some (refresh_wait failed) ∧ failed = (if in_flight w' then 0 else 1) ∧
  tokens w' = tokens w ∧ started w' = true.
Proof.
  intros Hin Hs. unfold refresh_failures, refresh_wait.
  destruct inside as [|[a|] inside]; simpl; rewrite Hs;
    (destruct (prepareRequest _ _); simpl; [|by intros [= <- <-]]); try by intros [= <- <-].
  apply Forall_cons in Hin as [Ha _]. simpl in Ha.
  destruct a as [code body|]; simpl; [|by intros [= <- <-]]. unfold processResponse. simpl in Ha.
  rewrite bool_decide_eq_false_2 by done. simpl. by intros [= <- <-].
Qed.

(** The wait for the next event ends, with [late] at most, when a token is due; an
    answer may take its timeout more. *)
Definition on_time (c : Clocked) : Prop :=
  0 ≤ failures c ∧
  ∃ t, wait (world c) = Some t ∧ now c ≤ since c + t ∧
    since c + t ≤ due c + 7000 * failures c + (if in_flight (world c) then kRequestTimeoutMs else 0).

Definition clock_invariant (c : Clocked) : Prop :=
  last (tokens (world c)) = (λ x, token x.2) <$> fetched c ∧
  if started (world c) then on_time c else fetched c = None.

(** A refresh now, when it was due before. *)
Lemma refresh_on_time w info inside s s' effects t b fs fl :
  fails_inside inside → active_request_ s = false →
  refresh token_type token_url info inside s = Some (s', effects) →
  let w' := after w false None (s', effects) in
  let c := mkClocked w' t t b fs (fl + refresh_failures info inside) in
  0 ≤ fl → t ≤ due c + 7000 * fl → on_time c.
Proof.
  intros Hin Hs E. destruct (refresh_waits w info inside s s' effects Hin Hs E) as (Hw&Hf&_&_).
  cbv zeta in *. intros Hfl Ht. unfold on_time. cbn [failures world now since]. rewrite Hw.
  unfold refresh_wait in *. rewrite Hf in *. unfold kRequestTimeoutMs, kFailedRequestRetryTime in *.
  unfold due in *. cbn [fetched begun] in *.
  destruct (in_flight _); (split; [lia|]); eexists; (split; [done|]); simpl; lia.
Qed.

Lemma answer_cases info rf a s s' :
  on_answer token_type info rf a s = Some s' →
  (granted info a = None ∧ s' = handleFailResponse s) ∨
  ∃ r, granted info a = Some r ∧
    handleSuccessResponse rf (token r) (expiry_duration r) s = Some s'.
Proof.
  unfold on_answer, granted, processResponse. destruct a as [code body|]; [|intros [= <-]; by left].
  case_bool_decide; simpl; [|intros [= <-]; by left].
  destruct token_type; [destruct (parseAccessToken info body) as [[r|]|]
    |destruct (parseIdentityToken info body) as [[r|]|]]; simpl; try done.
  all: first [intros [= <-]; by left|right; by eexists].
Qed.

(** A token that came at [t]. *)
Lemma success_on_time w info inside r s' effects t b :
  fails_inside inside →
  handleSuccessResponse (refresh token_type token_url info inside) (token r) (expiry_duration r)
    (sub w) = Some (s', effects) →
  clock_invariant
    (mkClocked (after w false None (s', effects)) t t b (Some (t, r))
       (if expiry_duration r <=? kRefreshBuffer then refresh_failures info inside else 0)).
Proof.
  intros Hin. unfold handleSuccessResponse. destruct (Z.leb_spec (expiry_duration r) kRefreshBuffer).
  - destruct (refresh _ _ _ _ _) as [[s1 e1]|] eqn:E; simpl; [|done]. intros [= <- <-].
    set (w1 := mkWorld (sub w) (started w) (in_flight w) (timer w) (tokens w ++ [token r]) (ready w)).
    change (after w false None (s1, UpdateToken (token r) :: e1 ++ [InitReady]))
      with (after w1 false None (s1, e1 ++ [InitReady])). rewrite after_app.
    destruct (refresh_waits w1 info inside (mkTokenSubscriber false) _ _ Hin eq_refl E) as (_&_&Htok&Hst).
    pose proof (refresh_on_time w1 info inside (mkTokenSubscriber false) _ _ t b (Some (t, r)) 0
      Hin eq_refl E) as Hot.
    unfold clock_invariant. simpl. rewrite Htok, Hst. simpl. rewrite last_snoc. split; [done|].
    apply Hot; [lia|]. unfold due. simpl. lia.
  - intros [= <- <-]. unfold clock_invariant. simpl. rewrite last_snoc. split; [done|].
    unfold on_time, wait, due. simpl. split; [lia|]. eexists. split; [done|]. lia.
Qed.

Lemma answer_on_time c a info inside s :
  in_flight (world c) = true → timer (world c) = None → clock_invariant c →
  started (world c) = true → fails_inside inside →
  on_answer token_type info (refresh token_type token_url info inside) a (sub (world c)) = Some s →
  clock_invariant
    (mkClocked (after (world c) false None s) (now c) (now c) (begun c)
       (count_answer info inside a c).1 (count_answer info inside a c).2).
Proof.
  intros Hf Ht [Hl Hc] Hst Hin E. rewrite Hst in Hc. destruct Hc as (Hfl&t&Hw&Hnow&Hdue).
  unfold wait in Hw. rewrite Hf in Hw, Hdue. injection Hw as <-. unfold kRequestTimeoutMs in *.
  unfold count_answer. apply answer_cases in E as [[Hg ->]|(r&Hg&E)]; rewrite Hg; simpl.
  - split; [done|]. unfold on_time. cbn [failures world]. split; [lia|].
    exists 2000. split; [done|]. unfold due in *. cbn -[Z.mul Z.add]. lia.
  - destruct s as [s' effects]. by apply success_on_time.
Qed.

Lemma clock_step_ok c c' :
  invariant (world c) → clock_invariant c → clock_step c c' → clock_invariant c'.
Proof.
  intros [_ Hi] Hc Hs.
  destruct Hs as [c d Hd Hw|c info inside [s e] Hst Hin E|c d info inside [s e] Ht Hnow Hin E
    |c a info inside s Hf Hin E].
  - destruct Hc as [Hl Hc]. split; [done|]. simpl. destruct (started (world c)); [|done].
    destruct Hc as (Hfl&t&Ht&_&Hdue). split; [done|]. exists t. by auto.
  - destruct Hc as [Hl Hc]. rewrite Hst in Hi, Hc. destruct Hi as (Ha&->&->&_).
    destruct (refresh_waits (world c) _ _ _ _ _ Hin Ha E) as (_&_&Htok&Hst').
    split; [cbn [world]; by rewrite Htok|]. cbn [world]. rewrite Hst', Hc.
    apply (refresh_on_time (world c) info inside _ _ _ (now c) (now c) None 0 Hin Ha E); [lia|].
    unfold due. simpl. lia.
  - destruct Hc as [Hl Hc]. destruct (started (world c)); [|destruct Hi as (_&_&?&_); congruence].
    unfold scheduled in Hi. rewrite Ht in Hi. destruct Hi as (Ha&Hf&_). rewrite Hf in *.
    destruct (refresh_waits (world c) _ _ _ _ _ Hin Ha E) as (_&_&Htok&Hst').
    split; [cbn [world]; by rewrite Htok|]. cbn [world]. rewrite Hst'.
    destruct Hc as (Hfl&t&Hw&_&Hdue). unfold wait in Hw. rewrite Hf, Ht in *. injection Hw as <-.
    apply (refresh_on_time (world c) info inside _ _ _ (now c) (begun c) (fetched c) (failures c)
      Hin Ha E); [done|]. unfold due in *. simpl. lia.
  - destruct (started (world c)) eqn:Hst; [|destruct Hi as (_&?&_); congruence].
    destruct Hi as [_ Ht]. rewrite Hf in Ht.
    destruct (timer (world c)) eqn:Htm; [by destruct Ht|]. by eapply answer_on_time.
Qed.

Lemma clock_reachable_ok c : clock_reachable c → clock_invariant c.
Proof.
  intros Hc. assert (reachable token_type token_url (world c) ∧ clock_invariant c) as [_ ?]; [|done].
  induction Hc as [t|c c' Hc [IHr IH] Hs]; [split; [constructor|done]|].
  split; [apply clock_world_reachable; by eapply clock_more|].
  eapply clock_step_ok; [|done|done]. by eapply subscriber_reachable_ok.
Qed.

(** C17: how stale a token can be.  Timers that fire on time and requests that end
    with their timeout given, a started subscriber asks for a token kRefreshBuffer
    before the last one expires, at once when it has less left, and has the answer
    within kRequestTimeoutMs; each attempt that fails costs at most seven seconds.
    So a token that is granted kRefreshBuffer seconds or more is not used after it has
    expired unless an attempt has failed since, and then for at most seven seconds a
    failure; one that is granted less, and so asked for again at once, may be used
    until kRefreshBuffer seconds after it came, and seven seconds a failure more.  The
    token in use is the last one handed on. *)
Theorem token_staleness c :
  clock_reachable c → started (world c) = true →
  0 ≤ failures c ∧
  now c ≤ due c + kRequestTimeoutMs + 7000 * failures c ∧
  last (tokens (world c)) = (λ x, token x.2) <$> fetched c ∧
  ∀ t r, fetched c = Some (t, r) →
    now c ≤ t + 1000 * Z.max kRefreshBuffer (expiry_duration r) + 7000 * failures c.
Proof.
  intros [Hl Hc]%clock_reachable_ok Hst. rewrite Hst in Hc. destruct Hc as (Hfl&w&Hw&Hnow&Hdue).
  assert (now c ≤ due c + kRequestTimeoutMs + 7000 * failures c) as Hb.
  { unfold kRequestTimeoutMs in *. destruct (in_flight (world c)); lia. }
  split_and!; [done|done|done|]. intros t r Hf. unfold due in Hb. rewrite Hf in Hb.
  unfold kRequestTimeoutMs, kRefreshBuffer in *. lia.
Qed.

End clock.

(** ** A sample: the first token, and the request for the second one *)

Definition sample_request : TokenRequest :=
  mkTokenRequest "GET" "url" "" (kMetadataFlavorKey, kMetadataFlavor) None.

(** After the answer to the first request, and after the timer's refresh. *)
Definition second_world : World := mkWorld (mkTokenSubscriber false) true false (Some 3594) ["t"] true.
Definition third_world : World := mkWorld (mkTokenSubscriber true) true true None ["t"] true.

Lemma sample_answered :
  clock_step AccessToken "url" (mkClocked sample_world 100 0 0 None 0)
    (mkClocked second_world 100 100 0 (Some (100, mkTokenResult "t" 3599)) 0).
Proof.
  pose proof (clock_answer AccessToken "url" (mkClocked sample_world 100 0 0 None 0)
    (TokenResponse (Some 200) "x") sample_info []
    (mkTokenSubscriber false, [UpdateToken "t"; EnableTimer 3594; InitReady])) as Hs.
  assert (count_answer AccessToken "url" sample_info [] (TokenResponse (Some 200) "x")
    (mkClocked sample_world 100 0 0 None 0) = (Some (100, mkTokenResult "t" 3599), 0)) as Hc
    by (vm_compute; reflexivity).
  rewrite Hc in Hs. apply Hs; [vm_compute; reflexivity|constructor|vm_compute; reflexivity].
Qed.

Definition sample_clock : Clocked :=
  mkClocked third_world (100 + 3594000 + 4000) (100 + 3594000) 0 (Some (100, mkTokenResult "t" 3599)) 0.

Lemma sample_clock_reachable : clock_reachable AccessToken "url" sample_clock.
Proof.
  eapply clock_more; [|apply (clock_elapse _ _
    (mkClocked third_world (100 + 3594000) (100 + 3594000) 0 (Some (100, mkTokenResult "t" 3599)) 0) 4000);
    [lia|intros t [= <-]; cbn [now since]; unfold kRequestTimeoutMs; lia]].
  eapply clock_more; [|apply (clock_timer _ _
    (mkClocked second_world (100 + 3594000) 100 0 (Some (100, mkTokenResult "t" 3599)) 0) 3594 sample_info []
    (mkTokenSubscriber true, [SendRequest sample_request false])); [reflexivity|reflexivity|constructor|reflexivity]].
  eapply clock_more; [|apply (clock_elapse _ _
    (mkClocked second_world 100 100 0 (Some (100, mkTokenResult "t" 3599)) 0) 3594000);
    [lia|intros t [= <-]; cbn [now since]; unfold kRequestTimeoutMs; lia]].
  eapply clock_more; [|apply sample_answered].
  eapply clock_more; [|apply (clock_elapse _ _ (mkClocked sample_world 0 0 0 None 0) 100);
    [lia|intros t [= <-]; cbn [now since]; unfold kRequestTimeoutMs; lia]].
  eapply clock_more; [apply (clock_new _ _ 0)|].
  apply (clock_init _ _ (new_Clocked 0) sample_info []
    (mkTokenSubscriber true, [SendRequest sample_request false])); [reflexivity|constructor|reflexivity].
Qed.

Lemma token_staleness_witness :
  started (world sample_clock) = true ∧ last (tokens (world sample_clock)) = Some "t" ∧
  now sample_clock ≤ 100 + 1000 * 3599.
Proof.
  split; [vm_compute; reflexivity|].
  destruct (token_staleness AccessToken "url" sample_clock sample_clock_reachable eq_refl)
    as (_&_&Hl&Hs).
  split; [exact Hl|]. specialize (Hs 100 (mkTokenResult "t" 3599) eq_refl).
  rewrite Z.mul_0_r, Z.add_0_r in Hs. exact Hs.
Defined.
