(* ===== verification/JsonUtil.v ===== *)
(** * JSON of gRPC core: src/api_proxy/auth/json_util.cc

    Properties of a parsed document, which is a tree, and documents that are put
    together in place, whose nodes are linked in a store.  [None] outside is
    undefined behaviour: strcmp on a null key. *)
From S2P Require Import Prelude.

(** grpc_json_type. *)
Inductive JsonType :=
  | GRPC_JSON_OBJECT | GRPC_JSON_ARRAY | GRPC_JSON_STRING | GRPC_JSON_NUMBER
  | GRPC_JSON_TRUE | GRPC_JSON_FALSE | GRPC_JSON_NULL.

#[export] Instance JsonType_eq_dec : EqDecision JsonType.
Proof. solve_decision. Defined.

(** grpc_json, as the parser of gRPC returns it: the elements of an array have no
    key, and objects and arrays no value. *)
Inductive GrpcJson := mkGrpcJson {
  json_key : option string;
  json_type : JsonType;
  json_value : option string;
  json_children : list GrpcJson
}.

Definition kJwtPayloadsDelimeter : ascii := ".".

(** c_str() of a string: what C reads of it. *)
Fixpoint c_str (s : string) : string :=
  match s with
  | EmptyString => EmptyString
  | String c s => if bool_decide (c = "000"%char) then EmptyString else String c (c_str s)
  end.

(** ** Properties *)

(** The loop of GetProperty. *)
Fixpoint find_child (children : list GrpcJson) (key : string) : option (option GrpcJson) :=
  match children with
  | [] => Some None
  | cur :: children =>
      cur_key ← json_key cur;
      if bool_decide (cur_key = key) then Some (Some cur) else find_child children key
  end.

(** GetProperty: null is [None] inside. *)
Definition GetProperty (json : option GrpcJson) (key : option string) : option (option GrpcJson) :=
  match json, key with
  | Some json, Some key => find_child (json_children json) key
  | _, _ => Some None
  end.

(** GetPropertyValue.  For a node of another type the code also logs its value with
    %s; the value is null for an object, an array, true, false and null, which the C
    library must not be given there and glibc prints as "(null)".  Logging is not
    modelled: both are [None] inside. *)
Definition GetPropertyValue (json : option GrpcJson) (key : string) (type : JsonType)
  : option (option string) :=
  cur ← GetProperty json (Some key);
  match cur with
  | Some cur => if negb (bool_decide (json_type cur = type)) then Some None else Some (json_value cur)
  | None => Some None
  end.

Definition GetStringValue (json : option GrpcJson) (key : string) : option (option string) :=
  GetPropertyValue json key GRPC_JSON_STRING.

Definition GetNumberValue (json : option GrpcJson) (key : string) : option (option string) :=
  GetPropertyValue json key GRPC_JSON_NUMBER.

(** Split: the loop of getline, where [item] is what was read of the line. *)
Fixpoint Split_loop (s : string) (delim : ascii) (item : string) : list string :=
  match s with
  | EmptyString => if is_empty item then [] else [item]
  | String c s =>
      if bool_decide (c = delim) then item :: Split_loop s delim ""
      else Split_loop s delim (item +:+ str1 c)
  end.

Definition Split (s : string) (delim : ascii) : list string := Split_loop s delim "".

(** The loop over the fields of a path. *)
Fixpoint walk (json : option GrpcJson) (path_fields : list string) : option (option GrpcJson) :=
  match path_fields with
  | [] => Some json
  | path_field :: path_fields =>
      json ← GetProperty json (Some (c_str path_field));
      walk json path_fields
  end.

(** The switch on the type of the node that was found; [None] inside is false. *)
Definition primitive_value (json : GrpcJson) : option (option string) :=
  match json_type json with
  | GRPC_JSON_STRING | GRPC_JSON_NUMBER => value ← json_value json; Some (Some value)
  | GRPC_JSON_TRUE => Some (Some "true")
  | GRPC_JSON_FALSE => Some (Some "false")
  | _ => Some None
  end.

(** GetPrimitiveFieldValue: the value, or [None] for false;
    [parse] is grpc_json_parse_string_with_len. *)
Definition GetPrimitiveFieldValue (parse : string → option GrpcJson) (json_str payload_path : string)
  : option (option string) :=
  match parse (c_str json_str) with
  | None => Some None
  | Some json_root =>
      json ← walk (Some json_root) (Split payload_path kJwtPayloadsDelimeter);
      match json with
      | None => Some None
      | Some json => primitive_value json
      end
  end.

(** ** Documents built in place *)

(** A node in the store; a node without an entry is not initialised. *)
Record Node := mkNode {
  node_next : option nat;
  node_child : option nat;
  node_key : string;
  node_value : string;
  node_type : JsonType
}.

Abbreviation Store := (gmap nat Node).

Definition set_next (n : option nat) (x : Node) : Node :=
  mkNode n (node_child x) (node_key x) (node_value x) (node_type x).
Definition set_child (n : option nat) (x : Node) : Node :=
  mkNode (node_next x) n (node_key x) (node_value x) (node_type x).

(** isNullOrEmpty. *)
Definition isNullOrEmpty (str : option string) : bool :=
  match str with None => true | Some s => is_empty s end.

(** FillChild, for the nodes [child], [brother] and [parent] of the store.  The
    link of a brother that was never initialised is written too, and nothing
    reads it. *)
Definition FillChild (child : nat) (brother : option nat) (parent : nat) (key value : option string)
    (type : JsonType) (st : Store) : Store :=
  if isNullOrEmpty key || isNullOrEmpty value then st else
  let st := <[child := mkNode None None (default "" key) (default "" value) type]> st in
  let st := match brother with
            | Some brother => alter (set_next (Some child)) brother st
            | None => st
            end in
  alter (λ p, match node_child p with None => set_child (Some child) p | Some _ => p end) parent st.

(** The children of a node, along [node_next]; each is met once, so that the size
    of the store is enough fuel. *)
Fixpoint follow (fuel : nat) (n : option nat) (st : Store) : list Node :=
  match fuel, n with
  | S fuel, Some i =>
      match st !! i with
      | Some x => x :: follow fuel (node_next x) st
      | None => []
      end
  | _, _ => []
  end.

Definition fields_of (parent : nat) (st : Store) : list (string * string * JsonType) :=
  match st !! parent with
  | Some p => (λ x, (node_key x, node_value x, node_type x)) <$> follow (size st) (node_child p) st
  | None => []
  end.

(** memset of the top node, then its type. *)
Definition new_top : Store := {[0 := mkNode None None "" "" GRPC_JSON_OBJECT]}.

(** ** What a chain of FillChild links *)

Abbreviation Field := (string * string * JsonType)%type.

(** The calls FillChild(&x_i, &x_(i-1), &top, ...), from the [i]-th node on. *)
Fixpoint fill_from (i : nat) (fields : list Field) (st : Store) : Store :=
  match fields with
  | [] => st
  | (k, v, t) :: fields =>
      fill_from (S i) fields
        (FillChild i (if bool_decide (i = 1) then None else Some (pred i)) 0 (Some k) (Some v) t st)
  end.

Definition filled (f : Field) : bool := negb (is_empty f.1.1 || is_empty f.1.2).

Fixpoint take_filled (fields : list Field) : list Field :=
  match fields with
  | f :: fields => if filled f then f :: take_filled fields else []
  | [] => []
  end.

(** The fields that are linked: from the first that is filled to the next that is
    not. *)
Fixpoint linked (fields : list Field) : list Field :=
  match fields with
  | f :: fields => if filled f then f :: take_filled fields else linked fields
  | [] => []
  end.

(** The segment of nodes from [a] on that holds [xs] and ends there. *)
Definition field_node (next : option nat) (f : Field) : Node := mkNode next None f.1.1 f.1.2 f.2.

Definition segment (st : Store) (a : nat) (xs : list Field) : Prop :=
  ∀ j x, xs !! j = Some x →
    st !! (a + j) = Some (field_node (if S j <? length xs then Some (S (a + j)) else None) x).

Definition top_is (st : Store) (c : option nat) : Prop :=
  st !! 0 = Some (mkNode None c "" "" GRPC_JSON_OBJECT).

Lemma follow_segment st xs : ∀ a fuel,
  xs ≠ [] → segment st a xs → length xs ≤ fuel →
  (λ x, (node_key x, node_value x, node_type x)) <$> follow fuel (Some a) st = xs.
Proof.
  induction xs as [|[[k v] t] xs IH]; intros a fuel Hne Hseg Hf; [done|].
  destruct fuel as [|fuel]; simpl in *; [lia|].
  pose proof (Hseg 0 _ eq_refl) as H0. rewrite Nat.add_0_r in H0. rewrite H0. simpl.
  destruct xs as [|y xs]; simpl.
  - by destruct fuel.
  - f_equal. apply IH; [done| |simpl in *; lia]. intros j x Hx.
    specialize (Hseg (S j) x Hx). rewrite Nat.add_succ_r in Hseg. exact Hseg.
Qed.

Lemma segment_size st a xs : segment st a xs → length xs ≤ size st.
Proof.
  intros Hseg. rewrite <-(length_seq (length xs) a).
  rewrite <-(size_list_to_set (C := gset nat)) by apply NoDup_seq.
  rewrite <-size_dom. apply subseteq_size. intros i Hi. apply elem_of_list_to_set in Hi.
  apply elem_of_seq in Hi as [Hlo Hhi]. apply elem_of_dom.
  destruct (lookup_lt_is_Some_2 xs (i - a)) as [x Hx]; [lia|].
  rewrite <-(Nat.sub_add a i) by lia. rewrite Nat.add_comm. rewrite (Hseg _ _ Hx). by eexists.
Qed.

Lemma fields_of_segment st a xs :
  xs ≠ [] → top_is st (Some a) → segment st a xs → fields_of 0 st = xs.
Proof.
  intros Hne Htop Hseg. unfold fields_of. rewrite Htop. simpl.
  apply follow_segment; [done|done|]. by eapply segment_size.
Qed.

Lemma FillChild_skip i b p k v t st : filled (k, v, t) = false →
  FillChild i b p (Some k) (Some v) t st = st.
Proof. unfold FillChild, filled. simpl. by intros ->%negb_false_iff. Qed.

Lemma FillChild_lookup i b k v t st j :
  filled (k, v, t) = true → i ≠ 0 → b ≠ Some 0 → j ≠ 0 →
  FillChild i b 0 (Some k) (Some v) t st !! j
  = (if bool_decide (b = Some j) then set_next (Some i) else id) <$>
      (if bool_decide (i = j) then Some (mkNode None None k v t) else st !! j).
Proof.
  unfold FillChild, filled. simpl. intros ->%negb_true_iff Hi Hb Hj.
  rewrite lookup_alter_ne by done. destruct b as [b|].
  - destruct (decide (b = j)) as [->|Hbj].
    + rewrite lookup_alter_eq, (bool_decide_eq_true_2 (Some j = Some j)) by done.
      destruct (decide (i = j)) as [->|]; [by rewrite lookup_insert_eq, bool_decide_eq_true_2|].
      by rewrite lookup_insert_ne, (bool_decide_eq_false_2 (i = j)).
    + rewrite lookup_alter_ne, (bool_decide_eq_false_2 (Some b = Some j)) by congruence.
      rewrite option_fmap_id.
      destruct (decide (i = j)) as [->|]; [by rewrite lookup_insert_eq, bool_decide_eq_true_2|].
      by rewrite lookup_insert_ne, (bool_decide_eq_false_2 (i = j)).
  - rewrite option_fmap_id.
    destruct (decide (i = j)) as [->|]; [by rewrite lookup_insert_eq, bool_decide_eq_true_2|].
    by rewrite lookup_insert_ne, (bool_decide_eq_false_2 (i = j)).
Qed.

Lemma FillChild_top i b k v t st c :
  filled (k, v, t) = true → i ≠ 0 → b ≠ Some 0 → top_is st c →
  top_is (FillChild i b 0 (Some k) (Some v) t st) (Some (default i c)).
Proof.
  unfold FillChild, filled, top_is. simpl. intros ->%negb_true_iff Hi Hb Htop.
  rewrite lookup_alter_eq. destruct b as [b|].
  - rewrite lookup_alter_ne, lookup_insert_ne, Htop by congruence. by destruct c.
  - rewrite lookup_insert_ne, Htop by done. by destruct c.
Qed.

Definition brother_of (i : nat) : option nat := if bool_decide (i = 1) then None else Some (pred i).

Lemma brother_of_ne i : 0 < i → brother_of i ≠ Some 0.
Proof. unfold brother_of. case_bool_decide; [done|]. intros ? [=]. lia. Qed.

(** Past the end of the segment nothing reaches it. *)
Lemma fill_closed fields : ∀ i st a xs,
  0 < a → a + length xs < i → top_is st (Some a) → segment st a xs →
  top_is (fill_from i fields st) (Some a) ∧ segment (fill_from i fields st) a xs.
Proof.
  induction fields as [|[[k v] t] fields IH]; intros i st a xs Ha Hi Htop Hseg; [done|]. simpl.
  change (if bool_decide (i = 1) then None else Some (pred i)) with (brother_of i).
  apply IH; [done|lia| |].
  - destruct (filled (k, v, t)) eqn:Ef; [|by rewrite FillChild_skip].
    apply (FillChild_top _ _ _ _ _ _ (Some a)); [done|lia|apply brother_of_ne; lia|done].
  - destruct (filled (k, v, t)) eqn:Ef; [|by rewrite FillChild_skip].
    intros j x Hx. pose proof (lookup_lt_Some _ _ _ Hx).
    rewrite FillChild_lookup by (done || lia || (apply brother_of_ne; lia)).
    rewrite (bool_decide_eq_false_2 (i = a + j)) by lia.
    rewrite (bool_decide_eq_false_2 (brother_of i = _))
      by (unfold brother_of; case_bool_decide; [done|intros [=]; lia]).
    rewrite option_fmap_id. by apply Hseg.
Qed.

Lemma segment_extend st a xs i k v t :
  0 < a → a + length xs = i → xs ≠ [] → filled (k, v, t) = true → segment st a xs →
  segment (FillChild i (brother_of i) 0 (Some k) (Some v) t st) a (xs ++ [(k, v, t)]).
Proof.
  intros Ha Hi Hne Hf Hseg j x Hx. destruct xs as [|y xs]; [done|]. simpl in Hi.
  rewrite FillChild_lookup by (done || lia || (apply brother_of_ne; lia)).
  assert (brother_of i = Some (pred i)) as -> by (unfold brother_of; by rewrite bool_decide_eq_false_2 by lia).
  rewrite length_app. cbn [length]. apply lookup_app_Some in Hx as [Hx|[Hj Hx]].
  - pose proof (lookup_lt_Some _ _ _ Hx) as Hlt. simpl in Hlt.
    rewrite (bool_decide_eq_false_2 (i = a + j)) by lia. rewrite (Hseg j x Hx). cbn [length].
    rewrite (proj2 (Nat.ltb_lt (S j) (S (length xs) + 1))) by lia.
    case_bool_decide as E; simpl.
    + injection E as E. f_equal. unfold field_node, set_next. simpl. f_equal. f_equal. lia.
    + rewrite (proj2 (Nat.ltb_lt (S j) _)); [done|].
      assert (j ≠ length xs) by (intros ->; apply E; f_equal; lia). lia.
  - cbn [length] in Hj, Hx. destruct (j - S (length xs)) as [|z] eqn:Ez; simpl in Hx; [|done].
    injection Hx as <-. rewrite (bool_decide_eq_true_2 (i = a + j)) by lia.
    rewrite (bool_decide_eq_false_2 (Some (pred i) = _)) by (intros [=]; lia).
    rewrite (proj2 (Nat.ltb_ge (S j) _)) by lia. done.
Qed.

Lemma fill_open fields : ∀ i st a xs,
  0 < a → a + length xs = i → xs ≠ [] → top_is st (Some a) → segment st a xs →
  top_is (fill_from i fields st) (Some a) ∧
  segment (fill_from i fields st) a (xs ++ take_filled fields).
Proof.
  induction fields as [|[[k v] t] fields IH]; intros i st a xs Ha Hi Hne Htop Hseg.
  { simpl. by rewrite app_nil_r. }
  simpl. change (if bool_decide (i = 1) then None else Some (pred i)) with (brother_of i).
  destruct (filled (k, v, t)) eqn:Ef.
  - destruct (IH (S i) (FillChild i (brother_of i) 0 (Some k) (Some v) t st) a (xs ++ [(k, v, t)]))
      as [Ht Hs]; [done| | | | |].
    + rewrite length_app. simpl. lia.
    + by destruct xs.
    + apply (FillChild_top _ _ _ _ _ _ (Some a)); [done|lia|apply brother_of_ne; lia|done].
    + by apply segment_extend.
    + split; [done|]. by rewrite <-app_assoc in Hs.
  - rewrite FillChild_skip by done. rewrite app_nil_r. apply fill_closed; [done|lia|done|done].
Qed.

Lemma fill_start fields : ∀ i st,
  0 < i → top_is st None →
  match linked fields with
  | [] => top_is (fill_from i fields st) None
  | xs => ∃ a, top_is (fill_from i fields st) (Some a) ∧ segment (fill_from i fields st) a xs
  end.
Proof.
  induction fields as [|[[k v] t] fields IH]; intros i st Hi Htop; [done|]. simpl.
  change (if bool_decide (i = 1) then None else Some (pred i)) with (brother_of i).
  destruct (filled (k, v, t)) eqn:Ef; [|rewrite FillChild_skip by done; apply IH; [lia|done]].
  exists i. apply (fill_open fields (S i) _ i [(k, v, t)]); [lia|simpl; lia|done| |].
  - apply (FillChild_top _ _ _ _ _ _ None); [done|lia|by apply brother_of_ne|done].
  - intros [|j] x; simpl; [|done]. intros [= <-]. rewrite Nat.add_0_r.
    rewrite FillChild_lookup by (done || lia || by apply brother_of_ne).
    rewrite (bool_decide_eq_true_2 (i = i)) by done. rewrite (bool_decide_eq_false_2 (brother_of i = _)).
    + done.
    + unfold brother_of. case_bool_decide; [done|]. intros [=]. lia.
Qed.

(** What a document that FillChild puts together contains. *)
Lemma fill_from_fields fields : fields_of 0 (fill_from 1 fields new_top) = linked fields.
Proof.
  pose proof (fill_start fields 1 new_top ltac:(lia) eq_refl) as Hf.
  destruct (linked fields) as [|x xs] eqn:E.
  - unfold fields_of. rewrite Hf. simpl. by destruct (size _).
  - destruct Hf as (a&Ht&Hs). by apply (fields_of_segment _ a).
Qed.

Lemma take_filled_all fields : forallb filled fields = true → take_filled fields = fields.
Proof.
  induction fields as [|f fields IH]; [done|]. simpl. intros [-> H]%andb_true_iff.
  by rewrite IH.
Qed.

Lemma linked_all fields : forallb filled fields = true → linked fields = fields.
Proof.
  destruct fields as [|f fields]; [done|]. simpl. intros [-> H]%andb_true_iff.
  by rewrite take_filled_all.
Qed.

(** ** Paths in a document *)

Definition has_key (j : GrpcJson) : bool := match json_key j with Some _ => true | None => false end.
Definition has_value (j : GrpcJson) : bool := match json_value j with Some _ => true | None => false end.

(** What the parser of gRPC makes: the members of an object have keys, the elements
    of an array have none, strings and numbers have a value, and only objects and
    arrays have children. *)
Fixpoint json_wf (j : GrpcJson) : bool :=
  match json_type j with
  | GRPC_JSON_OBJECT => forallb has_key (json_children j)
  | GRPC_JSON_ARRAY => forallb (λ c, negb (has_key c)) (json_children j)
  | GRPC_JSON_STRING | GRPC_JSON_NUMBER => has_value j && bool_decide (length (json_children j) = 0)
  | _ => bool_decide (length (json_children j) = 0)
  end && (match j with mkGrpcJson _ _ _ children => forallb json_wf children end).

(** The member of an object with a key: the first one. *)
Fixpoint member (children : list GrpcJson) (key : string) : option GrpcJson :=
  match children with
  | [] => None
  | c :: children => if bool_decide (json_key c = Some key) then Some c else member children key
  end.

(** The node at a path. *)
Fixpoint reach (j : GrpcJson) (fields : list string) : option GrpcJson :=
  match fields with
  | [] => Some j
  | f :: fields => c ← member (json_children j) (c_str f); reach c fields
  end.

Lemma find_child_member children key :
  forallb has_key children = true → find_child children key = Some (member children key).
Proof.
  induction children as [|c children IH]; [done|]. simpl. intros [Hc Hr]%andb_true_iff.
  unfold has_key in Hc. destruct (json_key c) as [k|] eqn:E; [|done]. simpl.
  rewrite (bool_decide_ext (Some k = Some key) (k = key)) by naive_solver.
  destruct (bool_decide (k = key)); [done|]. by apply IH.
Qed.

Lemma member_wf children key c :
  forallb json_wf children = true → member children key = Some c → json_wf c = true.
Proof.
  induction children as [|x children IH]; [done|]. simpl. intros [Hx Hr]%andb_true_iff.
  case_bool_decide; [by intros [= <-]|by apply IH].
Qed.

Lemma member_no_keys children key :
  forallb (λ c, negb (has_key c)) children = true → member children key = None.
Proof.
  induction children as [|c children IH]; [done|]. simpl. intros [Hc Hr]%andb_true_iff.
  unfold has_key in Hc. destruct (json_key c); [done|]. by apply IH.
Qed.

(** One step of the walk: defined except on an array with elements. *)
Lemma GetProperty_step j f :
  json_wf j = true →
  (json_type j = GRPC_JSON_ARRAY ∧ json_children j ≠ [] ∧
   GetProperty (Some j) (Some (c_str f)) = None) ∨
  GetProperty (Some j) (Some (c_str f)) = Some (member (json_children j) (c_str f)).
Proof.
  intros Hwf. destruct j as [k t v cs]. simpl in *. apply andb_true_iff in Hwf as [Ht _].
  destruct t.
  - right. by apply find_child_member.
  - destruct cs as [|c cs]; [by right|]. left. split_and!; [done|done|]. simpl in *.
    apply andb_true_iff in Ht as [Hc _]. unfold has_key in Hc. by destruct (json_key c).
  - apply andb_true_iff in Ht as [_ Ht]. bools. destruct cs; [by right|done].
  - apply andb_true_iff in Ht as [_ Ht]. bools. destruct cs; [by right|done].
  - bools. destruct cs; [by right|done].
  - bools. destruct cs; [by right|done].
  - bools. destruct cs; [by right|done].
Qed.

Lemma walk_null fields : walk None fields = Some None.
Proof. by induction fields. Qed.

(** An array with elements on the way, with a field still to go. *)
Definition array_on_path (root : GrpcJson) (fields : list string) : Prop :=
  ∃ pre f post arr, fields = pre ++ f :: post ∧ reach root pre = Some arr ∧
    json_type arr = GRPC_JSON_ARRAY ∧ json_children arr ≠ [].

Lemma walk_spec fields : ∀ j,
  json_wf j = true →
  (walk (Some j) fields = None ∧ array_on_path j fields) ∨ walk (Some j) fields = Some (reach j fields).
Proof.
  induction fields as [|f fields IH]; intros j Hwf; [by right|].
  destruct (GetProperty_step j f Hwf) as [(Ht&Hc&E)|E]; cbn [walk reach]; rewrite E; simpl.
  { left. split; [done|]. by exists [], f, fields, j. }
  destruct (member (json_children j) (c_str f)) as [c|] eqn:Em; simpl.
  2: { right. apply walk_null. }
  assert (json_wf c = true) as Hc.
  { destruct j as [k t v cs]. simpl in Hwf. apply andb_true_iff in Hwf as [_ Hcs].
    by eapply member_wf. }
  destruct (IH c Hc) as [[-> (pre&f'&post&arr&->&Hr&Harr)]| ->]; [left|by right].
  split; [done|]. exists (f :: pre), f', post, arr. split; [done|]. split; [|done].
  simpl. by rewrite Em.
Qed.

Lemma reach_wf fields : ∀ j c, json_wf j = true → reach j fields = Some c → json_wf c = true.
Proof.
  induction fields as [|f fields IH]; intros j c Hwf Hr; simpl in Hr; [by simplify_eq|].
  destruct (member (json_children j) (c_str f)) as [c'|] eqn:Em; [|done]. apply (IH c'); [|done].
  destruct j as [k t v cs]. simpl in Hwf. apply andb_true_iff in Hwf as [_ Hcs].
  by eapply member_wf.
Qed.

(** The text of a primitive value. *)
Definition primitive_text (j : GrpcJson) : option string :=
  match json_type j with
  | GRPC_JSON_STRING | GRPC_JSON_NUMBER => json_value j
  | GRPC_JSON_TRUE => Some "true"
  | GRPC_JSON_FALSE => Some "false"
  | _ => None
  end.

(** The pieces between delimiters, without an empty last one. *)
Fixpoint drop_last_empty (ws : list string) : list string :=
  match ws with
  | [] => []
  | [w] => if is_empty w then [] else [w]
  | w :: ws => w :: drop_last_empty ws
  end.

Definition prefix_first (item : string) (ws : list string) : list string :=
  match ws with [] => [item] | w :: ws => (item +:+ w) :: ws end.

Lemma str_split_ne c s : str_split c s ≠ [].
Proof. destruct s as [|d s]; simpl; [done|]. by repeat case_match. Qed.

Lemma Split_loop_spec s delim item :
  Split_loop s delim item = drop_last_empty (prefix_first item (str_split delim s)).
Proof.
  revert item. induction s as [|c s IH]; intros item; simpl.
  { by rewrite app_nil_r_s. }
  pose proof (str_split_ne delim s) as Hne. case_bool_decide as E.
  - rewrite IH. simpl. rewrite app_nil_r_s. by destruct (str_split delim s).
  - rewrite IH. destruct (str_split delim s) as [|w ws]; [done|]. simpl.
    by rewrite app_assoc_s.
Qed.

Lemma Split_spec s delim : Split s delim = drop_last_empty (str_split delim s).
Proof.
  unfold Split. rewrite Split_loop_spec. pose proof (str_split_ne delim s).
  by destruct (str_split delim s).
Qed.

(** C24: GetPrimitiveFieldValue, on a document as the parser makes it, gives the
    text of the string, number or boolean at the dotted path (a dot at its end is
    ignored), where a path names the first member with each key, and false when there is nothing or something
    else; it compares a null key, which is undefined, only when the path goes on
    after an array with elements. *)
Theorem GetPrimitiveFieldValue_correct parse json_str path :
  (∀ root, parse (c_str json_str) = Some root → json_wf root = true) →
  let fields := drop_last_empty (str_split "." path) in
  match GetPrimitiveFieldValue parse json_str path with
  | Some result => result = (root ← parse (c_str json_str); j ← reach root fields; primitive_text j)
  | None => ∃ root, parse (c_str json_str) = Some root ∧ array_on_path root fields
  end.
Proof.
  intros Hwf. cbv zeta. unfold GetPrimitiveFieldValue. rewrite <-Split_spec.
  destruct (parse (c_str json_str)) as [root|]; [|done]. simpl.
  destruct (walk_spec (Split path kJwtPayloadsDelimeter) root (Hwf root eq_refl)) as [[-> Ha]| ->]; simpl.
  { by exists root. }
  destruct (reach root _) as [j|] eqn:Er; simpl; [|done].
  apply reach_wf in Er; [|by apply Hwf]. unfold primitive_value, primitive_text.
  destruct j as [k t v cs]. simpl in *. apply andb_true_iff in Er as [Er _].
  destruct t; simpl; try done; apply andb_true_iff in Er as [Hv _]; unfold has_value in Hv;
    by destruct v.
Qed.

Definition sample_document : GrpcJson :=
  mkGrpcJson None GRPC_JSON_OBJECT None
    [mkGrpcJson (Some "a") GRPC_JSON_OBJECT None [mkGrpcJson (Some "b") GRPC_JSON_NUMBER (Some "7") []];
     mkGrpcJson (Some "l") GRPC_JSON_ARRAY None [mkGrpcJson None GRPC_JSON_TRUE None []]].

Lemma GetPrimitiveFieldValue_correct_witness :
  GetPrimitiveFieldValue (λ _, Some sample_document) "" "a.b" = Some (Some "7") ∧
  GetPrimitiveFieldValue (λ _, Some sample_document) "" "l.x" = None ∧
  ∃ root, Some sample_document = Some root ∧ array_on_path root ["l"; "x"].
Proof.
  split; [reflexivity|]. split; [reflexivity|].
  apply (GetPrimitiveFieldValue_correct (λ _, Some sample_document) "" "l.x").
  intros root [= <-]. reflexivity.
Defined.
