(* ===== verification/AuthToken.v ===== *)
(** * Tokens signed with a service account: src/api_proxy/auth/auth_token.cc

    A JWT with an HMAC signature, when the secret is a symmetric key, or one that
    gRPC makes of a service account key.  Null is [None]; [None] outside is
    undefined behaviour (a null key in the JSON of the secret). *)
From S2P Require Import Prelude JsonUtil.
From stdpp Require Import pretty.

(** gRPC core and OpenSSL: the JSON parser and printer (of an object with the given
    members), URL-safe base64, SHA-256 HMAC with key and data, the clock with
    addition, and the signing of a service account key ([None] when the type of
    the key is invalid). *)
Class GrpcCore := {
  grpc_json_parse_string : string → option GrpcJson;
  grpc_json_dump_to_string : list (string * string * JsonType) → string;
  grpc_base64_encode : string → string;
  grpc_base64_decode : string → string;
  HMAC : string → string → string;
  gpr_time_add : Z → Z → Z;
  auth_json_key : string → bool;
  grpc_jwt_encode_and_sign : string → string → Z → option string
}.

(** TOKEN_LIFETIME, in seconds. *)
Definition TOKEN_LIFETIME : Z := 3600.

Section token.
Context `{GrpcCore}.

Definition DotConcat (str1 str2 : string) : string := str1 +:+ "." +:+ str2.

(** The members of the JOSE header: the nodes are json_top, json_algorithm and
    json_type. *)
Definition jose_store (algorithm : string) : Store :=
  let st := new_top in
  let st := FillChild 1 None 0 (Some "alg") (Some algorithm) GRPC_JSON_STRING st in
  FillChild 2 (Some 1) 0 (Some "typ") (Some "JWT") GRPC_JSON_STRING st.

Definition GenerateJoseHeader (algorithm : string) : string :=
  grpc_base64_encode (grpc_json_dump_to_string (fields_of 0 (jose_store algorithm))).

(** The members of the claims: json_top, json_issuer, json_subject, json_audience,
    json_now and json_expiration. *)
Definition claim_store (issuer subject audience : string) (now token_lifetime : Z) : Store :=
  let expiration := gpr_time_add now token_lifetime in
  let st := new_top in
  let st := FillChild 1 None 0 (Some "iss") (Some issuer) GRPC_JSON_STRING st in
  let st := FillChild 2 (Some 1) 0 (Some "sub") (Some subject) GRPC_JSON_STRING st in
  let st := FillChild 3 (Some 2) 0 (Some "aud") (Some audience) GRPC_JSON_STRING st in
  let st := FillChild 4 (Some 3) 0 (Some "iat") (Some (pretty now)) GRPC_JSON_NUMBER st in
  FillChild 5 (Some 4) 0 (Some "exp") (Some (pretty expiration)) GRPC_JSON_NUMBER st.

Definition GenerateJwtClaim (issuer subject audience : string) (now token_lifetime : Z) : string :=
  grpc_base64_encode
    (grpc_json_dump_to_string (fields_of 0 (claim_store issuer subject audience now token_lifetime))).

(** GenerateSignatueHs256. *)
Definition GenerateSignatueHs256 (data key : string) : option string :=
  let key_buffer := grpc_base64_decode key in
  if is_empty key_buffer then None else
  let res := HMAC key_buffer data in
  if is_empty res then None else Some (grpc_base64_encode res).

(** The encoder of gRPC returns no null, so that header and claims are there. *)
Definition GenerateTokenSymmetricKey (json : option GrpcJson) (audience : string) (now : Z)
  : option (option string) :=
  issuer ← GetStringValue json "issuer";
  match issuer with
  | None => Some None
  | Some issuer =>
      subject ← GetStringValue json "subject";
      match subject with
      | None => Some None
      | Some subject =>
          let header := GenerateJoseHeader "HS256" in
          let claims := GenerateJwtClaim issuer subject audience now TOKEN_LIFETIME in
          let signed_data := DotConcat header claims in
          secret ← GetStringValue json "client_secret";
          secret ← secret;
          match GenerateSignatueHs256 (c_str signed_data) secret with
          | None => Some None
          | Some signature => Some (Some (c_str (DotConcat signed_data signature)))
          end
      end
  end.

Definition get_auth_token (json_secret audience : string) (now : Z) : option (option string) :=
  let json := grpc_json_parse_string json_secret in
  client_secret ← GetStringValue json "client_secret";
  match client_secret with
  | Some _ => GenerateTokenSymmetricKey json audience now
  | None =>
      if auth_json_key json_secret
      then Some (grpc_jwt_encode_and_sign json_secret audience TOKEN_LIFETIME)
      else Some None
  end.

(** ** Correctness *)

Lemma jose_fields algorithm :
  fields_of 0 (jose_store algorithm)
  = linked [("alg", algorithm, GRPC_JSON_STRING); ("typ", "JWT", GRPC_JSON_STRING)].
Proof. rewrite <-fill_from_fields. reflexivity. Qed.

Lemma claim_fields issuer subject audience now lifetime :
  fields_of 0 (claim_store issuer subject audience now lifetime)
  = linked [("iss", issuer, GRPC_JSON_STRING); ("sub", subject, GRPC_JSON_STRING);
            ("aud", audience, GRPC_JSON_STRING); ("iat", pretty now, GRPC_JSON_NUMBER);
            ("exp", pretty (gpr_time_add now lifetime), GRPC_JSON_NUMBER)].
Proof. rewrite <-fill_from_fields. reflexivity. Qed.

Lemma pretty_N_go_ge x : ∀ s, String.length s ≤ String.length (pretty_N_go x s).
Proof.
  induction (N.lt_wf_0 x) as [x _ IH]. intros s.
  destruct (decide (x = 0%N)) as [->|Hne]; [by rewrite pretty_N_go_0|].
  rewrite pretty_N_go_step by lia. etrans; [|apply IH; apply N.div_lt; lia]. simpl. lia.
Qed.

Lemma pretty_Z_not_empty (z : Z) : is_empty (pretty z) = false.
Proof.
  assert (∀ p, is_empty (pretty (N.pos p)) = false) as Hp.
  { intros p. unfold pretty, pretty_N. case_decide; [done|].
    rewrite pretty_N_go_step by lia. apply is_empty_false.
    pose proof (pretty_N_go_ge (N.pos p `div` 10) (String (pretty_N_char (N.pos p `mod` 10)) "")) as Hl.
    intros E. rewrite E in Hl. simpl in Hl. lia. }
  destruct z as [|p|p]; [done|apply Hp|done].
Qed.

(** C25: the claims of a token: with an issuer, a subject and an audience they are
    iss, sub, aud, iat and exp, in this order.  An empty string is left out, and
    it cuts the chain of members when one came before it: a token with an issuer
    and an empty subject has no audience, no issue time and no expiration. *)
Theorem jwt_claims_correct issuer subject audience now lifetime :
  let str k v : string * string * JsonType := (k, v, GRPC_JSON_STRING) in
  let times := [("iat", pretty now, GRPC_JSON_NUMBER);
                ("exp", pretty (gpr_time_add now lifetime), GRPC_JSON_NUMBER)] in
  fields_of 0 (claim_store issuer subject audience now lifetime)
  = match is_empty issuer, is_empty subject, is_empty audience with
    | false, false, false => str "iss" issuer :: str "sub" subject :: str "aud" audience :: times
    | false, false, true => [str "iss" issuer; str "sub" subject]
    | false, true, _ => [str "iss" issuer]
    | true, false, false => str "sub" subject :: str "aud" audience :: times
    | true, false, true => [str "sub" subject]
    | true, true, false => str "aud" audience :: times
    | true, true, true => times
    end.
Proof.
  cbv zeta. rewrite claim_fields.
  pose proof (pretty_Z_not_empty now) as H1.
  pose proof (pretty_Z_not_empty (gpr_time_add now lifetime)) as H2.
  unfold linked, take_filled, filled. simpl. rewrite H1, H2. simpl.
  by destruct (is_empty issuer), (is_empty subject), (is_empty audience).
Qed.

(** The string members of the secret. *)
Definition string_member (json : option GrpcJson) (key : string) : option string :=
  j ← json; c ← member (json_children j) key;
  if bool_decide (json_type c = GRPC_JSON_STRING) then json_value c else None.

(** A secret whose top level is not an array with elements. *)
Definition secret_ok (json : option GrpcJson) : Prop :=
  match json with
  | Some j => json_wf j = true ∧ (json_type j = GRPC_JSON_ARRAY → json_children j = [])
  | None => True
  end.

Lemma c_str_app s t : c_str s = s → c_str (s +:+ t) = s +:+ c_str t.
Proof.
  induction s as [|c s IH]; [done|]. rewrite !app_cons_s. simpl.
  case_bool_decide as E; [done|]. intros [= Hs]. by rewrite IH.
Qed.

Lemma c_str_dot s t : c_str s = s → c_str t = t → c_str (DotConcat s t) = DotConcat s t.
Proof.
  intros Hs Ht. unfold DotConcat. rewrite c_str_app by done. by rewrite (c_str_app "." t), Ht.
Qed.

Lemma GetStringValue_member json key :
  secret_ok json → c_str key = key → GetStringValue json key = Some (string_member json key).
Proof.
  intros Hok Hk. unfold GetStringValue, GetPropertyValue, string_member.
  destruct json as [j|]; [|done]. destruct Hok as [Hwf Harr]. rewrite <-Hk.
  destruct (GetProperty_step j key Hwf) as [(Ht&Hc&_)| ->]; [by rewrite (Harr Ht) in Hc|].
  simpl. destruct (member _ _) as [c|]; simpl; [|done]. by case_bool_decide.
Qed.

(** The token for a symmetric key. *)
Definition symmetric_token (issuer subject secret audience : string) (now : Z) : option string :=
  let data := DotConcat (GenerateJoseHeader "HS256")
                (GenerateJwtClaim issuer subject audience now TOKEN_LIFETIME) in
  let key := grpc_base64_decode secret in
  if is_empty key || is_empty (HMAC key data) then None
  else Some (DotConcat data (grpc_base64_encode (HMAC key data))).

(** C23: get_auth_token, for a secret that is no array of elements: a secret with a
    string "client_secret" gives a JWT of header, claims and the HMAC of these
    two, exactly when issuer and subject are there, the key decodes and the HMAC
    is computed, and null otherwise; another secret gives what gRPC signs, or
    null when it is no service account key.  Nothing undefined is read. *)
Theorem get_auth_token_correct secret audience now :
  (∀ s, c_str (grpc_base64_encode s) = grpc_base64_encode s) →
  let json := grpc_json_parse_string secret in
  secret_ok json →
  get_auth_token secret audience now
  = Some (match string_member json "client_secret" with
          | Some client_secret =>
              issuer ← string_member json "issuer";
              subject ← string_member json "subject";
              symmetric_token issuer subject client_secret audience now
          | None => if auth_json_key secret
                    then grpc_jwt_encode_and_sign secret audience TOKEN_LIFETIME else None
          end).
Proof.
  intros Hb json Hok. unfold get_auth_token. fold json.
  rewrite (GetStringValue_member json "client_secret") by done. cbn [mbind option_bind].
  destruct (string_member json "client_secret") as [cs|] eqn:Ecs; [|by destruct (auth_json_key secret)].
  unfold GenerateTokenSymmetricKey. rewrite (GetStringValue_member json "issuer") by done. cbn [mbind option_bind].
  destruct (string_member json "issuer") as [i|]; [|done].
  rewrite (GetStringValue_member json "subject") by done. cbn [mbind option_bind].
  destruct (string_member json "subject") as [sub|]; [|done].
  rewrite (GetStringValue_member json "client_secret") by done. cbn [mbind option_bind].
  rewrite Ecs. cbn [mbind option_bind]. unfold symmetric_token, GenerateSignatueHs256.
  set (data := DotConcat (GenerateJoseHeader "HS256") _).
  assert (c_str data = data) as -> by (apply c_str_dot; apply Hb).
  destruct (is_empty (grpc_base64_decode cs)); [done|]. simpl.
  destruct (is_empty (HMAC _ data)); [done|]. simpl. do 2 f_equal.
  apply c_str_dot; [by apply c_str_dot; apply Hb|apply Hb].
Qed.

End token.

(** A core whose base64 and HMAC keep the text. *)
Definition sample_core : GrpcCore := {|
  grpc_json_parse_string _ :=
    Some (mkGrpcJson None GRPC_JSON_OBJECT None
      [mkGrpcJson (Some "issuer") GRPC_JSON_STRING (Some "i") [];
       mkGrpcJson (Some "subject") GRPC_JSON_STRING (Some "s") [];
       mkGrpcJson (Some "client_secret") GRPC_JSON_STRING (Some "k") []]);
  grpc_json_dump_to_string fields := foldr (λ f s, f.1.1 +:+ ":" +:+ f.1.2 +:+ "," +:+ s) "" fields;
  grpc_base64_encode := c_str;
  grpc_base64_decode := id;
  HMAC key data := key +:+ "#";
  gpr_time_add := Z.add;
  auth_json_key _ := false;
  grpc_jwt_encode_and_sign _ _ _ := None
|}.

Lemma get_auth_token_correct_witness :
  @get_auth_token sample_core "{}" "a" 1000
  = Some (Some "alg:HS256,typ:JWT,.iss:i,sub:s,aud:a,iat:1000,exp:4600,.k#").
Proof.
  rewrite (@get_auth_token_correct sample_core "{}" "a" 1000).
  - reflexivity.
  - intros s. simpl. induction s as [|c s IH]; simpl; [done|]. case_bool_decide as E; simpl; [done|].
    rewrite bool_decide_eq_false_2 by done. by rewrite IH.
  - by split.
Defined.
