(* ===== verification/TokenFactory.v ===== *)
(** * Construction of token sources: src/envoy/token
    (token_subscriber_factory_impl.h, sa_token_generator.cc)

    The factory makes subscribers for the metadata server and for IAM, and
    generators that sign tokens with a service account key. *)
From S2P Require Import Prelude RequestInfo EnvoyUtils Token JsonUtil AuthToken.

(** ** Subscribers *)

(** The TokenInfo of a subscriber. *)
Inductive InfoKind :=
  | ImdsInfo
  | IamInfo (delegates scopes : list string) (include_email : bool).

(** What a TokenSubscriber is made with; its callback is the client's. *)
Record Subscription := mkSubscription {
  sub_token_type : TokenType;
  sub_cluster : string;
  sub_url : string;
  sub_info : InfoKind
}.

Definition createImdsTokenSubscriber (token_type : TokenType) (token_cluster token_url : string)
  : Subscription := mkSubscription token_type token_cluster token_url ImdsInfo.

Definition createIamTokenSubscriber (token_type : TokenType) (token_cluster token_url : string)
    (delegates scopes : list string) : Subscription :=
  mkSubscription token_type token_cluster token_url
    (IamInfo delegates scopes (match token_type with IdentityToken => true | AccessToken => false end)).

Section subscriptions.
Context (extractHostPathFromUri : string → string * string).
Context (JsonStringToMessage : string → option Struct).
Context (FromString : string → option Timestamp).

(** The TokenInfo at a time, with what the access token function returns then. *)
Definition info_of (s : Subscription) (now : Timestamp) (access_token : string) : TokenInfo :=
  match sub_info s with
  | ImdsInfo => ImdsTokenInfo extractHostPathFromUri JsonStringToMessage
  | IamInfo delegates scopes include_email =>
      IamTokenInfo extractHostPathFromUri JsonStringToMessage FromString now delegates scopes
        include_email access_token
  end.

(** refresh of the subscriber. *)
Definition subscription_refresh (s : Subscription) (now : Timestamp) (access_token : string)
    (inside : list (option TokenAnswer)) (t : TokenSubscriber) :=
  refresh (sub_token_type s) (sub_url s) (info_of s now access_token) inside t.

End subscriptions.

(** ** Service account tokens *)

Definition kRefresherDefaultTokenExpiry : Z := 3600 - 5.

(** class ServiceAccountTokenGenerator, with the delay of its timer when it runs.  In
    the source [service_account_key_] is a reference to the string of the filter's
    configuration, which is shared, not changed, and kept as long as the generator. *)
Record ServiceAccountTokenGenerator := mkServiceAccountTokenGenerator {
  service_account_key_ : string;
  audience_ : string;
  refresh_timer_ : option Z
}.

Definition new_ServiceAccountTokenGenerator (service_account_key audience : string)
  : ServiceAccountTokenGenerator :=
  mkServiceAccountTokenGenerator service_account_key audience None.

Definition createServiceAccountTokenGenerator (service_account_key audience : string)
  : ServiceAccountTokenGenerator := new_ServiceAccountTokenGenerator service_account_key audience.

Section generator.
Context `{GrpcCore}.

(** refresh, which the constructor posts and the timer runs: the generator after it
    and the token for the callback.  [None] is undefined behaviour: a null token
    makes no string. *)
Definition generator_refresh (g : ServiceAccountTokenGenerator) (now : Z)
  : option (ServiceAccountTokenGenerator * string) :=
  token ← get_auth_token (c_str (service_account_key_ g)) (c_str (audience_ g)) now;
  token ← token;
  Some (mkServiceAccountTokenGenerator (service_account_key_ g) (audience_ g)
          (Some kRefresherDefaultTokenExpiry), token).

End generator.
