(* ===== verification/GeneratorClock.v ===== *)
(** * Signed tokens and time: src/envoy/token/sa_token_generator.cc

    The token generator of [TokenFactory] with a clock, in seconds: its first
    refresh is posted by the constructor, the others are run by its timer. *)
From S2P Require Import Prelude Token JsonUtil AuthToken TokenFactory.

#[local] Open Scope Z_scope.

Section clock.
Context `{GrpcCore}.

(** The generator, the time, whether the posted refresh is still to run, the last
    token with the time it was signed at, and the tokens handed on. *)
Record GeneratorClock := mkGeneratorClock {
  generator : ServiceAccountTokenGenerator;
  clock : Z;
  posted : bool;
  signed : option (Z * string);
  handed : list string
}.

Definition new_GeneratorClock (key audience : string) (t : Z) : GeneratorClock :=
  mkGeneratorClock (createServiceAccountTokenGenerator key audience) t true None [].

(** After a refresh at the time of the clock. *)
Definition refreshed (c : GeneratorClock) (r : ServiceAccountTokenGenerator * string) : GeneratorClock :=
  mkGeneratorClock r.1 (clock c) false (Some (clock c, r.2)) (handed c ++ [r.2]).

(** Time does not pass the end of the timer. *)
Inductive generator_step : GeneratorClock → GeneratorClock → Prop :=
  | generator_elapse c d :
      0 < d →
      (∀ t token delay, signed c = Some (t, token) → refresh_timer_ (generator c) = Some delay →
         clock c + d ≤ t + delay) →
      generator_step c (mkGeneratorClock (generator c) (clock c + d) (posted c) (signed c) (handed c))
  | generator_posted c r :
      posted c = true → generator_refresh (generator c) (clock c) = Some r →
      generator_step c (refreshed c r)
  | generator_timer c t token delay r :
      signed c = Some (t, token) → refresh_timer_ (generator c) = Some delay → clock c = t + delay →
      generator_refresh (generator c) (clock c) = Some r →
      generator_step c (refreshed c r).

Inductive generator_reachable (key audience : string) : GeneratorClock → Prop :=
  | generator_new t : generator_reachable key audience (new_GeneratorClock key audience t)
  | generator_more c c' :
      generator_reachable key audience c → generator_step c c' → generator_reachable key audience c'.

(** What a token was signed for, and that it is renewed in time. *)
Definition generator_invariant (key audience : string) (c : GeneratorClock) : Prop :=
  service_account_key_ (generator c) = key ∧ audience_ (generator c) = audience ∧
  last (handed c) = snd <$> signed c ∧
  match signed c with
  | None => refresh_timer_ (generator c) = None ∧ posted c = true
  | Some (t, token) =>
      get_auth_token (c_str key) (c_str audience) t = Some (Some token) ∧ posted c = false ∧
      refresh_timer_ (generator c) = Some kRefresherDefaultTokenExpiry ∧
      clock c ≤ t + kRefresherDefaultTokenExpiry
  end.

Lemma generator_refresh_spec g now g' token :
  generator_refresh g now = Some (g', token) →
  get_auth_token (c_str (service_account_key_ g)) (c_str (audience_ g)) now = Some (Some token) ∧
  g' = mkServiceAccountTokenGenerator (service_account_key_ g) (audience_ g)
         (Some kRefresherDefaultTokenExpiry).
Proof.
  unfold generator_refresh. destruct (get_auth_token _ _ _) as [[t|]|]; simpl; [|done..].
  by intros [= <- <-].
Qed.

Lemma refreshed_ok key audience c r :
  generator_invariant key audience c → generator_refresh (generator c) (clock c) = Some r →
  generator_invariant key audience (refreshed c r).
Proof.
  intros (Hk&Ha&_) E. destruct r as [g token]. apply generator_refresh_spec in E as [E ->].
  rewrite Hk, Ha in *. unfold generator_invariant, kRefresherDefaultTokenExpiry. simpl.
  rewrite last_snoc. split_and!; [done..|lia].
Qed.

Lemma generator_reachable_ok key audience c :
  generator_reachable key audience c → generator_invariant key audience c.
Proof.
  induction 1 as [t|c c' _ IH Hs]; [done|].
  destruct Hs as [c d Hd Hw|c r _ E|c t token delay r _ _ _ E]; [|by apply refreshed_ok..].
  destruct IH as (Hk&Ha&Hl&Hc). split_and!; [done..|]. simpl.
  destruct (signed c) as [[t token]|] eqn:Es; [|done]. destruct Hc as (?&?&Ht&_).
  split_and!; [done..|]. by apply (Hw t token).
Qed.

(** C18: a signed token is renewed before it expires.  With a timer that fires on time,
    and as long as signing does not fail, the token that was handed on last was signed
    with the key, for the audience, at a time at most kRefresherDefaultTokenExpiry
    ago, so that at least kRefreshBuffer seconds of its lifetime are left; before the
    first one the posted refresh is still to run. *)
Theorem signed_token_fresh key audience c :
  generator_reachable key audience c →
  match last (handed c) with
  | None => signed c = None ∧ posted c = true
  | Some token => ∃ t, signed c = Some (t, token) ∧
      get_auth_token (c_str key) (c_str audience) t = Some (Some token) ∧
      clock c + kRefreshBuffer ≤ t + TOKEN_LIFETIME
  end.
Proof.
  intros (_&_&->&Hc)%generator_reachable_ok. destruct (signed c) as [[t token]|]; simpl; [|by destruct Hc].
  exists t. unfold kRefresherDefaultTokenExpiry, kRefreshBuffer, TOKEN_LIFETIME in *.
  destruct Hc as (?&_&_&?). split_and!; [done..|lia].
Qed.

End clock.

(** ** A sample: half an hour after the first token *)

#[local] Existing Instance sample_core.

Definition sample_refreshed : option (ServiceAccountTokenGenerator * string) :=
  generator_refresh (createServiceAccountTokenGenerator "{}" "a") 1000.

Definition sample_generator : GeneratorClock :=
  match sample_refreshed with
  | Some r => mkGeneratorClock r.1 (1000 + 1800) false (Some (1000, r.2)) [r.2]
  | None => new_GeneratorClock "{}" "a" 1000
  end.

Lemma signed_token_fresh_witness :
  clock sample_generator = 2800 ∧
  match last (handed sample_generator) with
  | None => False
  | Some token => ∃ t, signed sample_generator = Some (t, token) ∧ 2800 + 5 ≤ t + 3600
  end.
Proof.
  destruct sample_refreshed as [[g token]|] eqn:E; [|vm_compute in E; discriminate E].
  unfold sample_generator. rewrite E. split; [reflexivity|]. cbn [fst snd].
  destruct (signed_token_fresh "{}" "a"
    (mkGeneratorClock g (1000 + 1800) false (Some (1000, token)) [token])) as (t&Hs&_&Hle).
  - apply (generator_more "{}" "a" (mkGeneratorClock g 1000 false (Some (1000, token)) [token])).
    + apply (generator_more "{}" "a" (new_GeneratorClock "{}" "a" 1000)); [constructor|].
      apply (generator_posted (new_GeneratorClock "{}" "a" 1000) (g, token)); [reflexivity|exact E].
    + apply (generator_elapse (mkGeneratorClock g 1000 false (Some (1000, token)) [token]) 1800); [lia|].
      intros t0 token0 delay [= <- <-] Hd. apply generator_refresh_spec in E as [_ ->].
      injection Hd as <-. unfold kRefresherDefaultTokenExpiry. cbn [clock]. lia.
  - exists t. split; [exact Hs|exact Hle].
Defined.
