(* ===== verification/BackendAuth.v ===== *)
(** * Backend authentication: src/envoy/http/backend_auth

    For every audience of the configuration a subscriber keeps an identity token;
    the filter puts the token of the audience of a request's operation into the
    Authorization header, or rejects the request while there is none. *)
From S2P Require Import Prelude RequestInfo EnvoyUtils ConfigMessages RoutingFilters Token TokenFactory.

(** ** Configuration *)

(** BackendAuthRule. *)
Record BackendAuthRule := mkBackendAuthRule { rule_operation : string; jwt_audience : string }.

(** The oneof id_token_info. *)
Inductive IdTokenInfo :=
  | ImdsToken (u : Common.HttpUri)
  | IamToken (i : Common.IamTokenInfo)
  | ID_TOKEN_INFO_NOT_SET.

Record AuthConfig := mkAuthConfig { auth_rules : list BackendAuthRule; id_token_info : IdTokenInfo }.

(** class AudienceContext: its subscriber, and the token in the thread's cache. *)
Record AudienceContext := mkAudienceContext {
  audience_sub : option Subscription;
  token_ : option string
}.

Definition new_AudienceContext (rule : BackendAuthRule) (config : AuthConfig) : AudienceContext :=
  match id_token_info config with
  | IamToken iam_token =>
      mkAudienceContext
        (Some (createIamTokenSubscriber IdentityToken (Common.cluster (Common.iam_uri iam_token))
                 (Common.uri (Common.iam_uri iam_token) +:+ "?audience=" +:+ jwt_audience rule)
                 (Common.delegates iam_token) [])) None
  | ImdsToken u =>
      mkAudienceContext
        (Some (createImdsTokenSubscriber IdentityToken (Common.cluster u)
                 (Common.uri u +:+ "?format=standard&audience=" +:+ jwt_audience rule))) None
  | ID_TOKEN_INFO_NOT_SET => mkAudienceContext None None
  end.

(** class FilterConfigParserImpl. *)
Record AuthConfigParser := mkAuthConfigParser {
  access_token_ : string;
  access_token_sub : option Subscription;
  operation_map_ : gmap string string;
  audience_map_ : gmap string AudienceContext
}.

(** One turn of the loop over the rules. *)
Definition add_rule (config : AuthConfig) (p : AuthConfigParser) (rule : BackendAuthRule)
  : AuthConfigParser :=
  mkAuthConfigParser (access_token_ p) (access_token_sub p)
    (<[rule_operation rule := jwt_audience rule]> (operation_map_ p))
    (match audience_map_ p !! jwt_audience rule with
     | Some _ => audience_map_ p
     | None => <[jwt_audience rule := new_AudienceContext rule config]> (audience_map_ p)
     end).

(** FilterConfigParserImpl(): without a remote access token for IAM it returns
    before the rules. *)
Definition new_AuthConfigParser (config : AuthConfig) : AuthConfigParser :=
  match id_token_info config with
  | IamToken iam_token =>
      match Common.access_token iam_token with
      | Common.remote_token remote =>
          foldl (add_rule config)
            (mkAuthConfigParser ""
               (Some (createImdsTokenSubscriber AccessToken (Common.cluster remote) (Common.uri remote)))
               ∅ ∅)
            (auth_rules config)
      | _ => mkAuthConfigParser "" None ∅ ∅
      end
  | _ => foldl (add_rule config) (mkAuthConfigParser "" None ∅ ∅) (auth_rules config)
  end.

Definition getAudience (p : AuthConfigParser) (operation : string) : string :=
  default "" (operation_map_ p !! operation).

Definition getJwtToken (p : AuthConfigParser) (audience : string) : option string :=
  ctx ← audience_map_ p !! audience; token_ ctx.

(** The callback of an audience's subscriber, once it ran on the thread. *)
Definition update_token (p : AuthConfigParser) (update : string * string) : AuthConfigParser :=
  let '(audience, token) := update in
  mkAuthConfigParser (access_token_ p) (access_token_sub p) (operation_map_ p)
    (alter (λ ctx, mkAudienceContext (audience_sub ctx) (Some token)) audience (audience_map_ p)).

(** The callback of the access token's subscriber. *)
Definition update_access_token (p : AuthConfigParser) (access_token : string) : AuthConfigParser :=
  mkAuthConfigParser access_token (access_token_sub p) (operation_map_ p) (audience_map_ p).

(** ** The filter *)

Definition kBearer : string := "Bearer ".

Section filter.
Context `{HeaderMapOps H} `{FilterStateOps F}.

(** Filter::decodeHeaders: status, headers, [token_added_] and stream after it. *)
Definition auth_decodeHeaders (p : AuthConfigParser) (headers : H) (token_added : Z) (s : Stream F)
  : FilterHeadersStatus * H * Z * Stream F :=
  let operation := getStringFilterState (filter_state s) kOperation in
  if is_empty operation then (Continue, headers, token_added, s) else
  let audience := getAudience p operation in
  if is_empty audience then (Continue, headers, token_added, s) else
  match getJwtToken p audience with
  | None => (StopIteration, headers, token_added, reject 500 "missing tokens" "missing_backend_token" s)
  | Some jwt_token =>
      (Continue, hm_replace "authorization" (kBearer +:+ jwt_token) headers, (token_added + 1)%Z, s)
  end.

End filter.

(** ** Correctness *)

(** The audience the configuration gives an operation: the last rule counts. *)
Fixpoint audience_of (rules : list BackendAuthRule) (operation : string) : option string :=
  match rules with
  | [] => None
  | r :: rules =>
      match audience_of rules operation with
      | Some a => Some a
      | None => if bool_decide (rule_operation r = operation) then Some (jwt_audience r) else None
      end
  end.

(** The last token an audience was sent. *)
Fixpoint last_token (updates : list (string * string)) (audience : string) : option string :=
  match updates with
  | [] => None
  | (a, t) :: updates =>
      match last_token updates audience with
      | Some t => Some t
      | None => if bool_decide (a = audience) then Some t else None
      end
  end.

(** The configurations the parser accepts. *)
Definition supported (config : AuthConfig) : bool :=
  match id_token_info config with
  | IamToken i => match Common.access_token i with Common.remote_token _ => true | _ => false end
  | _ => true
  end.

Definition rules_of (config : AuthConfig) : list BackendAuthRule :=
  if supported config then auth_rules config else [].

Lemma add_rules_operation config rules p operation :
  operation_map_ (foldl (add_rule config) p rules) !! operation
  = match audience_of rules operation with Some a => Some a | None => operation_map_ p !! operation end.
Proof.
  revert p. induction rules as [|r rules IH]; intros p; [done|]. simpl. rewrite IH.
  destruct (audience_of rules operation); [done|]. simpl. case_bool_decide as E.
  - subst. by rewrite lookup_insert_eq.
  - by rewrite lookup_insert_ne.
Qed.

Lemma add_rules_audience config rules p audience :
  audience_map_ (foldl (add_rule config) p rules) !! audience
  = match audience_map_ p !! audience with
    | Some c => Some c
    | None => if bool_decide (audience ∈ jwt_audience <$> rules)
              then Some (new_AudienceContext (mkBackendAuthRule "" audience) config) else None
    end.
Proof.
  revert p. induction rules as [|r rules IH]; intros p; simpl.
  { by destruct (audience_map_ p !! audience). }
  rewrite IH. simpl. destruct (decide (jwt_audience r = audience)) as [<-|Hne].
  - rewrite (bool_decide_eq_true_2 (jwt_audience r ∈ jwt_audience r :: _)) by left.
    destruct (audience_map_ p !! jwt_audience r) eqn:E; [by rewrite E|]. rewrite lookup_insert_eq.
    by destruct (id_token_info config) eqn:Ei; unfold new_AudienceContext; rewrite Ei.
  - rewrite (bool_decide_ext (audience ∈ jwt_audience r :: _) (audience ∈ jwt_audience <$> rules))
      by (rewrite elem_of_cons; naive_solver).
    destruct (audience_map_ p !! jwt_audience r); [done|]. by rewrite lookup_insert_ne.
Qed.

Lemma new_AuthConfigParser_spec config :
  let p := new_AuthConfigParser config in
  (∀ operation, operation_map_ p !! operation = audience_of (rules_of config) operation) ∧
  (∀ audience, audience_map_ p !! audience
     = if bool_decide (audience ∈ jwt_audience <$> rules_of config)
       then Some (new_AudienceContext (mkBackendAuthRule "" audience) config) else None).
Proof.
  cbv zeta. unfold new_AuthConfigParser, rules_of, supported.
  destruct (id_token_info config) as [u|[u [r|d|] ds]|]; simpl;
    (split; [intros op; rewrite ?add_rules_operation; by try destruct (audience_of _ _)|]);
    intros a; rewrite ?add_rules_audience; done.
Qed.

Lemma update_tokens_spec updates p :
  let p' := foldl update_token p updates in
  operation_map_ p' = operation_map_ p ∧
  ∀ audience, audience_map_ p' !! audience
    = (λ ctx, mkAudienceContext (audience_sub ctx)
                (match last_token updates audience with Some t => Some t | None => token_ ctx end))
      <$> audience_map_ p !! audience.
Proof.
  cbv zeta. revert p. induction updates as [|[a t] updates IH]; intros p; simpl.
  { split; [done|]. intros audience. by destruct (audience_map_ p !! audience) as [[]|]. }
  destruct (IH (update_token p (a, t))) as [Hop Hau]. split; [done|]. intros audience. rewrite Hau.
  simpl. destruct (decide (a = audience)) as [<-|Hne].
  - rewrite lookup_alter_eq, bool_decide_eq_true_2 by done.
    destruct (audience_map_ p !! a); simpl; [|done]. by destruct (last_token updates a).
  - rewrite lookup_alter_ne, bool_decide_eq_false_2 by done.
    destruct (audience_map_ p !! audience); simpl; [|done]. by destruct (last_token updates audience).
Qed.

Lemma audience_of_elem rules operation a :
  audience_of rules operation = Some a → a ∈ jwt_audience <$> rules.
Proof.
  induction rules as [|r rules IH]; [done|]. simpl. destruct (audience_of rules operation).
  - intros [= ->]. right. by apply IH.
  - case_bool_decide; [|done]. intros [= <-]. left.
Qed.

(** The token a request's backend gets: the operation's audience, and its token. *)
Definition backend_token (config : AuthConfig) (updates : list (string * string)) (operation : string)
  : option (option string) :=
  match audience_of (rules_of config) operation with
  | None => None
  | Some audience => if is_empty audience then None else Some (last_token updates audience)
  end.

Lemma getJwtToken_spec config updates operation audience :
  audience_of (rules_of config) operation = Some audience →
  getJwtToken (foldl update_token (new_AuthConfigParser config) updates) audience
  = last_token updates audience.
Proof.
  intros Ha. unfold getJwtToken.
  destruct (update_tokens_spec updates (new_AuthConfigParser config)) as [_ Hau]. rewrite Hau.
  destruct (new_AuthConfigParser_spec config) as [_ Hm]. rewrite Hm.
  rewrite bool_decide_eq_true_2 by by eapply audience_of_elem. simpl.
  unfold new_AudienceContext. by destruct (id_token_info config), (last_token updates audience).
Qed.

Lemma getAudience_spec config updates operation :
  getAudience (foldl update_token (new_AuthConfigParser config) updates) operation
  = default "" (audience_of (rules_of config) operation).
Proof.
  unfold getAudience. destruct (update_tokens_spec updates (new_AuthConfigParser config)) as [-> _].
  destruct (new_AuthConfigParser_spec config) as [-> _]. done.
Qed.

Section claims.
Context `{HeaderMapLaws H} `{FilterStateOps F}.

Lemma auth_decodeHeaders_spec config updates (headers : H) n (s : Stream F) :
  let operation := getStringFilterState (filter_state s) kOperation in
  let '(status, headers', n', s') :=
    auth_decodeHeaders (foldl update_token (new_AuthConfigParser config) updates) headers n s in
  match (if is_empty operation then None else backend_token config updates operation) with
  | None => status = Continue ∧ headers' = headers ∧ n' = n ∧ s' = s
  | Some None => status = StopIteration ∧ headers' = headers ∧ n' = n ∧
      replies s' = replies s ++ [mkLocalReply 500 "missing tokens" "missing_backend_token"]
  | Some (Some t) => status = Continue ∧ n' = (n + 1)%Z ∧ s' = s ∧
      hm_get headers' "authorization" = Some ("Bearer " +:+ t) ∧
      ∀ k, k ≠ "authorization" → hm_get headers' k = hm_get headers k
  end.
Proof.
  cbv zeta. set (op := getStringFilterState (filter_state s) kOperation).
  unfold auth_decodeHeaders, backend_token. fold op. destruct (is_empty op); [by split_and!|].
  rewrite getAudience_spec.
  destruct (audience_of (rules_of config) op) as [a|] eqn:Ea; simpl; [|by split_and!].
  destruct (is_empty a) eqn:Eempty; [by split_and!|]. rewrite (getJwtToken_spec _ _ _ _ Ea).
  destruct (last_token updates a) as [t|]; split_and!; try done.
  - apply hm_get_replace_eq.
  - intros k Hk. by apply hm_get_replace_ne.
Qed.

(** C19: after any token updates, a request of an operation that has an audience
    goes on with the last token of that audience as its only change, in the
    Authorization header, or is rejected with 500 when the audience has no token
    yet; every other request goes on unchanged.  Each audience of the rules has a
    subscriber of its own, for an identity token with that audience.  All this is
    for configurations with a remote access token: without one the rules are
    dropped, and every request goes on without a token. *)
Theorem backend_auth_correct config updates (headers : H) n (s : Stream F) :
  let p := foldl update_token (new_AuthConfigParser config) updates in
  let operation := getStringFilterState (filter_state s) kOperation in
  let '(status, headers', n', s') := auth_decodeHeaders p headers n s in
  match (if is_empty operation then None else backend_token config updates operation) with
  | None => status = Continue ∧ headers' = headers ∧ n' = n ∧ s' = s
  | Some None => status = StopIteration ∧ headers' = headers ∧ n' = n ∧
      replies s' = replies s ++ [mkLocalReply 500 "missing tokens" "missing_backend_token"]
  | Some (Some t) => status = Continue ∧ n' = (n + 1)%Z ∧ s' = s ∧
      hm_get headers' "authorization" = Some ("Bearer " +:+ t) ∧
      ∀ k, k ≠ "authorization" → hm_get headers' k = hm_get headers k
  end ∧
  (∀ audience ctx, audience_map_ p !! audience = Some ctx →
     audience ∈ jwt_audience <$> auth_rules config ∧
     audience_sub ctx = audience_sub (new_AudienceContext (mkBackendAuthRule "" audience) config)) ∧
  (supported config = false → status = Continue ∧ headers' = headers).
Proof.
  cbv zeta. set (op := getStringFilterState (filter_state s) kOperation).
  assert (∀ audience ctx,
    audience_map_ (foldl update_token (new_AuthConfigParser config) updates) !! audience = Some ctx →
    audience ∈ jwt_audience <$> auth_rules config ∧
    audience_sub ctx = audience_sub (new_AudienceContext (mkBackendAuthRule "" audience) config))
    as Hsub.
  { intros audience ctx.
    destruct (update_tokens_spec updates (new_AuthConfigParser config)) as [_ ->].
    destruct (new_AuthConfigParser_spec config) as [_ ->]. case_bool_decide as Hin; simpl; [|done].
    intros [= <-]. split; [|done]. unfold rules_of in Hin. destruct (supported config); [done|].
    by apply not_elem_of_nil in Hin. }
  pose proof (auth_decodeHeaders_spec config updates headers n s) as Hspec. cbv zeta in Hspec.
  fold op in Hspec. destruct (auth_decodeHeaders _ _ _ _) as [[[status headers'] n'] s'].
  split_and!; [done|done|]; intros Hs; unfold backend_token, rules_of in Hspec; rewrite Hs in Hspec;
    by destruct (is_empty op); destruct Hspec as (?&?&_).
Qed.

End claims.

(** Two operations with one audience, and its token. *)
Definition sample_auth : AuthConfig :=
  mkAuthConfig [mkBackendAuthRule "Get" "aud"; mkBackendAuthRule "Put" "aud"]
    (ImdsToken (Common.mkHttpUri "http://m" "c")).
Definition sample_auth_stream : Stream (gmap string string) :=
  mkStream {[kOperation := "Put"]} [] false.

Lemma backend_auth_correct_witness :
  let '(status, headers', _, _) :=
    auth_decodeHeaders (foldl update_token (new_AuthConfigParser sample_auth) [("aud", "t1"); ("aud", "t2")])
      ({["accept" := "x"]} : gmap string string) 0 sample_auth_stream in
  status = Continue ∧ hm_get headers' "authorization" = Some "Bearer t2" ∧
  hm_get headers' "accept" = Some "x".
Proof.
  destruct (backend_auth_correct sample_auth [("aud", "t1"); ("aud", "t2")]
    ({["accept" := "x"]} : gmap string string) 0 sample_auth_stream) as [(Hs&_&_&Ha&Hk) _].
  exact (conj Hs (conj Ha (Hk "accept" ltac:(discriminate)))).
Defined.
