(* ===== verification/ClientCache.v ===== *)
(** * The client cache: src/envoy/http/service_control/client_cache.{h,cc}

    Check, quota and report calls of one thread.  The client library, which is not
    part of the repository, keeps the cache: it answers a check from it, or runs
    the transport it is given and passes the result on.  What it answers is an
    argument.  A check that fails to reach service control is admitted or not as
    network_fail_open says. *)
From S2P Require Import Prelude RequestInfo SupportedMetrics SupportedLabels RequestBuilder RequestBuilderCorrect ConfigMessages ConfigParser HttpCall.

(** ** Constants *)

Definition kCheckAggregationEntries : Z := 10000.
Definition kCheckAggregationFlushIntervalMs : Z := 60000.
Definition kCheckAggregationExpirationMs : Z := 300000.
Definition kQuotaAggregationEntries : Z := 10000.
Definition kQuotaAggregationFlushIntervalMs : Z := 1000.
Definition kReportAggregationEntries : Z := 10000.
Definition kReportAggregationFlushIntervalMs : Z := 1000.
Definition kCheckDefaultTimeoutInMs : Z := 1000.
Definition kAllocateQuotaDefaultTimeoutInMs : Z := 1000.
Definition kReportDefaultTimeoutInMs : Z := 2000.
Definition kCheckDefaultNumberOfRetries : Z := 3.
Definition kAllocateQuotaDefaultNumberOfRetries : Z := 1.
Definition kReportDefaultNumberOfRetries : Z := 5.
Definition kDefaultNetworkFailOpen : bool := true.

(** CheckAggregationOptions, QuotaAggregationOptions and ReportAggregationOptions of
    the library: entries, flush interval, and expiration for checks. *)
Record AggregationOptions := mkAggregationOptions {
  num_entries : Z;
  flush_interval_ms : Z;
  expiration_ms : option Z
}.

Definition getCheckAggregationOptions : AggregationOptions :=
  mkAggregationOptions kCheckAggregationEntries kCheckAggregationFlushIntervalMs
    (Some kCheckAggregationExpirationMs).
Definition getQuotaAggregationOptions : AggregationOptions :=
  mkAggregationOptions kQuotaAggregationEntries kQuotaAggregationFlushIntervalMs None.
Definition getReportAggregationOptions : AggregationOptions :=
  mkAggregationOptions kReportAggregationEntries kReportAggregationFlushIntervalMs None.

(** ** The timer of the library *)

(** class EnvoyPeriodicTimer: [timer_] is null ([None]), or a timer with the delay it
    is enabled for, if it is. *)
Record EnvoyPeriodicTimer := mkEnvoyPeriodicTimer { interval_ms_ : Z; timer_ : option (option Z) }.

Definition new_EnvoyPeriodicTimer (interval_ms : Z) : EnvoyPeriodicTimer :=
  mkEnvoyPeriodicTimer interval_ms (Some (Some interval_ms)).

Definition Stop (t : EnvoyPeriodicTimer) : EnvoyPeriodicTimer :=
  mkEnvoyPeriodicTimer (interval_ms_ t) None.

(** call, which the timer runs, no longer enabled then; [callback] is what the
    callback does to this object.  [None] is a null timer that is enabled. *)
Definition timer_call (callback : EnvoyPeriodicTimer → EnvoyPeriodicTimer) (t : EnvoyPeriodicTimer)
  : option EnvoyPeriodicTimer :=
  let t := callback (mkEnvoyPeriodicTimer (interval_ms_ t) ((λ _, None) <$> timer_ t)) in
  _ ← timer_ t;
  Some (mkEnvoyPeriodicTimer (interval_ms_ t) (Some (Some (interval_ms_ t)))).

(** ** Settings *)

(** The members that InitHttpRequestSetting writes. *)
Record HttpRequestSetting := mkHttpRequestSetting {
  network_fail_open_ : bool;
  check_timeout_ms_ : Z;
  quota_timeout_ms_ : Z;
  report_timeout_ms_ : Z;
  check_retries_ : Z;
  quota_retries_ : Z;
  report_retries_ : Z
}.

Definition InitHttpRequestSetting (filter_config : Proto.FilterConfig) : HttpRequestSetting :=
  match Proto.sc_calling_config filter_config with
  | None =>
      mkHttpRequestSetting kDefaultNetworkFailOpen kCheckDefaultTimeoutInMs
        kAllocateQuotaDefaultTimeoutInMs kReportDefaultTimeoutInMs kCheckDefaultNumberOfRetries
        kAllocateQuotaDefaultNumberOfRetries kReportDefaultNumberOfRetries
  | Some sc_calling_config =>
      mkHttpRequestSetting
        (default true (Proto.network_fail_open sc_calling_config))
        (default kCheckDefaultTimeoutInMs (Proto.check_timeout_ms sc_calling_config))
        (default kAllocateQuotaDefaultTimeoutInMs (Proto.quota_timeout_ms sc_calling_config))
        (default kReportDefaultTimeoutInMs (Proto.report_timeout_ms sc_calling_config))
        (default kCheckDefaultNumberOfRetries (Proto.check_retries sc_calling_config))
        (default kAllocateQuotaDefaultNumberOfRetries (Proto.quota_retries sc_calling_config))
        (default kReportDefaultNumberOfRetries (Proto.report_retries sc_calling_config))
  end.

(** ** Construction *)

(** The token functions that the constructor is given. *)
Inductive TokenFn := sc_token_fn | quota_token_fn.

(** What a HttpCallFactory is made with. *)
Record CallFactory := mkCallFactory {
  factory_uri : Common.HttpUri;
  suffix_url_ : string;
  factory_token_fn : TokenFn;
  timeout_ms_ : Z;
  factory_retries : Z;
  factory_trace : string
}.

Record ClientCache := mkClientCache {
  client_service : Proto.Service;
  setting : HttpRequestSetting;
  check_call_factory_ : CallFactory;
  quota_call_factory_ : CallFactory;
  report_call_factory_ : CallFactory;
  client_options : AggregationOptions * AggregationOptions * AggregationOptions
}.

Definition new_ClientCache (config : Proto.Service) (filter_config : Proto.FilterConfig)
  : ClientCache :=
  let s := InitHttpRequestSetting filter_config in
  let uri := Proto.service_control_uri filter_config in
  mkClientCache config s
    (mkCallFactory uri (Proto.service_name config +:+ ":check") sc_token_fn (check_timeout_ms_ s)
       (check_retries_ s) "Service Control remote call: Check")
    (mkCallFactory uri (Proto.service_name config +:+ ":allocateQuota") quota_token_fn
       (quota_timeout_ms_ s) (quota_retries_ s) "Service Control remote call: Allocate Quota")
    (mkCallFactory uri (Proto.service_name config +:+ ":report") sc_token_fn (report_timeout_ms_ s)
       (report_retries_ s) "Service Control remote call: Report")
    (getCheckAggregationOptions, getQuotaAggregationOptions, getReportAggregationOptions).

(** ** Transports *)

Definition invalid_response : Status := mkStatus Code.INVALID_ARGUMENT "Invalid response".

(** The callback of a transport's HTTP call: the status for the library and the
    response.  ParseFromString writes the response and says whether it could. *)
Definition transport_done {R} (ParseFromString : string → R * bool) (response : R) (st : Status)
    (body : string) : Status * R :=
  if status_ok st then
    let '(response, parsed) := ParseFromString body in
    if negb parsed then (invalid_response, response) else (st, response)
  else (st, response).

(** The tokens at each attempt of a call. *)
Abbreviation Tokens := (Z → TokenFn → string).

Section calls.
Context {Distribution : Type}.
(** Http::Utility::extractHostPathFromUri, and protobuf. *)
Context (extractHostPathFromUri : string → string * string).
Context (serialize_check : CheckRequest Distribution → string).
Context (serialize_quota : AllocateQuotaRequest Distribution → string).
Context (serialize_report : ReportRequest Distribution → string).
Context (parse_check : string → CheckResponse * bool).

(** createHttpCall and call(). *)
Definition factory_call (f : CallFactory) (str_body : string) (tokens : Tokens)
    (now : Z → option Answer) : option (HttpCallImpl * list Effect) :=
  let '(host, path) := extractHostPathFromUri (Common.uri (factory_uri f) +:+ suffix_url_ f) in
  call host path str_body (factory_trace f) (λ n, tokens n (factory_token_fn f)) now
    (new_HttpCallImpl (factory_retries f)).

Definition check_transport (cc : ClientCache) (request : CheckRequest Distribution) :=
  factory_call (check_call_factory_ cc) (serialize_check request).
Definition quota_transport (cc : ClientCache) (request : AllocateQuotaRequest Distribution) :=
  factory_call (quota_call_factory_ cc) (serialize_quota request).
Definition report_transport (cc : ClientCache) (request : ReportRequest Distribution) :=
  factory_call (report_call_factory_ cc) (serialize_report request).

(** ** Checks *)

Definition new_CheckResponse : CheckResponse := mkCheckResponse 0 [].

(** The callback that callCheck gives the library: what its own caller gets. *)
Definition check_done (cc : ClientCache) (st : Status) (response : CheckResponse)
  : option (Status * CheckResponseInfo) :=
  let response_info := new_CheckResponseInfo in
  if status_ok st then
    '(response_info, converted_status) ←
      ConvertCheckResponse response (Proto.service_name (client_service cc)) (Some response_info);
    response_info ← response_info;
    Some (converted_status, response_info)
  else if network_fail_open_ (setting cc) then Some (Status_OK, response_info)
  else Some (st, response_info).

(** What reaches the caller while a HTTP call does [effects]. *)
Definition deliver (cc : ClientCache) (effects : list Effect)
  : option (list (Status * CheckResponseInfo)) :=
  mapM (λ '(st, body),
          let '(st, response) := transport_done parse_check new_CheckResponse st body in
          check_done cc st response) (omap done_of effects).

(** callCheck, with the library's answer from its cache, if it has one: the answers
    before it returns, the HTTP call that the returned function cancels, if there
    is one, and what that call did so far. *)
Definition callCheck (cc : ClientCache) (request : CheckRequest Distribution)
    (cached : option (Status * CheckResponse)) (tokens : Tokens) (now : Z → option Answer)
  : option (list (Status * CheckResponseInfo) * option HttpCallImpl * list Effect) :=
  match cached with
  | Some (st, response) =>
      answer ← check_done cc st response;
      Some ([answer], None, [])
  | None =>
      '(c, effects) ← check_transport cc request tokens now;
      answers ← deliver cc effects;
      Some (answers, Some c, effects)
  end.

(** The function that callCheck returns. *)
Definition cancel_fn (cc : ClientCache) (c : HttpCallImpl)
  : option (HttpCallImpl * list Effect * list (Status * CheckResponseInfo)) :=
  let '(c, effects) := cancel c in
  answers ← deliver cc effects;
  Some (c, effects, answers).

(** ** Quota and reports *)

(** callQuota, with what the library answers. *)
Definition quota_done (cc : ClientCache) (st : Status) (response : AllocateQuotaResponse) : Status :=
  if status_ok st then
    ConvertAllocateQuotaResponse response (Proto.service_name (client_service cc))
  else mkStatus (error_code st) (error_message st).

(** What the cache asks of the library. *)
Inductive LibraryCall :=
  | LibraryQuota (request : AllocateQuotaRequest Distribution)
  | LibraryReport (request : ReportRequest Distribution).

Definition callQuota (cc : ClientCache) (request : AllocateQuotaRequest Distribution)
    (answer : Status * AllocateQuotaResponse) : LibraryCall * Status :=
  (LibraryQuota request, quota_done cc answer.1 answer.2).

Definition callReport (cc : ClientCache) (request : ReportRequest Distribution) : LibraryCall :=
  LibraryReport request.

End calls.

(** ** Correctness *)

Section attempts.
Context (token_fn : Z → string) (answers : Z → Answer).

#[local] Abbreviation http_result := (http_result token_fn answers).
#[local] Abbreviation http_attempts := (http_attempts token_fn answers).

(** An attempt that is answered with 200 is the last one, and gives the result. *)
Lemma http_result_200 r : ∀ n k body,
  k ∈ http_attempts r n → answers k = Success (Some 200%Z) body → http_result r n = (Status_OK, body).
Proof.
  induction r as [|r IH]; intros n k body Hk Ha; rewrite http_attempts_eq in Hk;
    rewrite http_result_eq; destruct (is_empty (token_fn n)); try by apply not_elem_of_nil in Hk.
  - unfold attempts_after, result_after in *.
    assert (k = n) as ->.
    { destruct (final (answers n)); by apply list_elem_of_singleton in Hk. }
    by rewrite Ha.
  - unfold attempts_after, result_after in *. apply elem_of_cons in Hk as [->|Hk]; [by rewrite Ha|].
    destruct (final (answers n)); [by apply not_elem_of_nil in Hk|]. by eapply IH.
Qed.

Lemma result_ok_now n st body :
  final (answers n) = Some (st, body) → status_ok st = true →
  answers n = Success (Some 200%Z) body.
Proof.
  unfold final. destruct (answers n) as [[code|] b|]; [|by intros [= <- <-]|done].
  destruct (code =? 200)%Z eqn:E.
  - apply Z.eqb_eq in E as ->. by intros [= <- <-].
  - destruct (client_error code); [by intros [= <- <-]|done].
Qed.

(** A result that is OK is the body of an attempt that was answered with 200. *)
Lemma http_result_ok r : ∀ n,
  status_ok (http_result r n).1 = true →
  ∃ k, k ∈ http_attempts r n ∧ answers k = Success (Some 200%Z) (http_result r n).2.
Proof.
  induction r as [|r IH]; intros n; rewrite http_attempts_eq, http_result_eq;
    (destruct (is_empty (token_fn n)); [done|]); unfold attempts_after, result_after;
    destruct (final (answers n)) as [[st body]|] eqn:Ef.
  - intros Hok. exists n. split; [left|]. by eapply result_ok_now.
  - by destruct (answers n).
  - intros Hok. exists n. split; [left|]. by eapply result_ok_now.
  - intros (k&Hk&Ha)%IH. exists k. split; [by right|done].
Qed.

End attempts.

Section check.
Context {Distribution : Type}.
Context (extractHostPathFromUri : string → string * string).
Context (serialize_check : CheckRequest Distribution → string).
Context (parse_check : string → CheckResponse * bool).
(** The answers of the HTTP client to the attempts, which of them come inside
    send(), and the tokens at the attempts. *)
Context (answers : Z → Answer) (inside : Z → bool) (tokens : Tokens).

#[local] Abbreviation deliver := (deliver parse_check).

Lemma ConvertCheckResponse_info response svc i :
  ∃ i' st, ConvertCheckResponse response svc (Some i) = Some (Some i', st).
Proof.
  unfold ConvertCheckResponse, store_consumer_project.
  destruct (0 <? project_number response)%Z; simpl;
    (destruct (check_errors response) as [|e es]; [by eexists _, _|]); destruct e; by eexists _, _.
Qed.

Lemma check_done_total cc st response : is_Some (check_done cc st response).
Proof.
  unfold check_done. destruct (status_ok st).
  - destruct (ConvertCheckResponse_info response (Proto.service_name (client_service cc))
      new_CheckResponseInfo) as (i'&st'&->). by eexists.
  - by destruct (network_fail_open_ (setting cc)); eexists.
Qed.

(** The rest of a check whose request has [str_body]: the answers to its attempts;
    what reaches the caller and what was done. *)
Definition finish_check (cc : ClientCache) (str_body : string)
    (s : list (Status * CheckResponseInfo) * option HttpCallImpl * list Effect)
  : option (list (Status * CheckResponseInfo) * list Effect) :=
  let f := check_call_factory_ cc in
  let '(host, path) := extractHostPathFromUri (Common.uri (factory_uri f) +:+ suffix_url_ f) in
  let '(got, c, effects) := s in
  match c with
  | None => Some (got, effects)
  | Some c =>
      '(_, effects) ← drive host path str_body (factory_trace f)
                        (λ n, tokens n (factory_token_fn f)) answers inside
                        (S (Z.to_nat (factory_retries f))) (c, effects);
      got ← deliver cc effects;
      Some (got, effects)
  end.

(** A check to its end. *)
Definition run_check (cc : ClientCache) (request : CheckRequest Distribution)
    (cached : option (Status * CheckResponse))
  : option (list (Status * CheckResponseInfo) * list Effect) :=
  callCheck extractHostPathFromUri serialize_check parse_check cc request cached tokens
    (answer_now answers inside) ≫= finish_check cc (serialize_check request).

(** The response that a check receives: from the cache, or as the body of an attempt. *)
Definition received (cc : ClientCache) (cached : option (Status * CheckResponse))
    (response : CheckResponse) : Prop :=
  match cached with
  | Some (st, r) => status_ok st = true ∧ r = response
  | None =>
      let f := check_call_factory_ cc in
      ∃ n body,
        n ∈ http_attempts (λ n, tokens n (factory_token_fn f)) answers
              (Z.to_nat (factory_retries f)) 1 ∧
        answers n = Success (Some 200%Z) body ∧ parse_check body = (response, true)
  end.

(** The response decides if there is one, and the setting otherwise. *)
Definition decided (cc : ClientCache) (cached : option (Status * CheckResponse)) (st : Status)
    (info : CheckResponseInfo) : Prop :=
  (∃ response, received cc cached response ∧
     ConvertCheckResponse response (Proto.service_name (client_service cc))
       (Some new_CheckResponseInfo) = Some (Some info, st)) ∨
  ((∀ response, ¬ received cc cached response) ∧ info = new_CheckResponseInfo ∧
     status_ok st = network_fail_open_ (setting cc)).

Lemma check_done_decided cc cached st response st' info :
  (status_ok st = true → received cc cached response) →
  (status_ok st = false → ∀ r, ¬ received cc cached r) →
  check_done cc st response = Some (st', info) → decided cc cached st' info.
Proof.
  intros Hyes Hno. unfold check_done. destruct (status_ok st) eqn:Est.
  - destruct (ConvertCheckResponse_info response (Proto.service_name (client_service cc))
      new_CheckResponseInfo) as (i'&st2&Hc). rewrite Hc. simpl. intros [= <- <-]. left.
    exists response. split; [by apply Hyes|done].
  - intros Hd. right. split; [by apply Hno|].
    destruct (network_fail_open_ (setting cc)) eqn:Ef; by injection Hd as <- <-.
Qed.

(** The library is told OK with the response exactly when one was received. *)
Lemma transport_received cc st response :
  let f := check_call_factory_ cc in
  let result := http_result (λ n, tokens n (factory_token_fn f)) answers
                  (Z.to_nat (factory_retries f)) 1 in
  transport_done parse_check new_CheckResponse result.1 result.2 = (st, response) →
  (status_ok st = true → received cc None response) ∧
  (status_ok st = false → ∀ r, ¬ received cc None r).
Proof.
  cbv zeta. set (tk := λ n, tokens n _). set (rt := Z.to_nat _). unfold transport_done.
  destruct (status_ok (http_result tk answers rt 1).1) eqn:Eok.
  - destruct (http_result_ok tk answers rt 1 Eok) as (k&Hk&Ha).
    destruct (parse_check _) as [resp [|]] eqn:Ep; simpl; intros [= <- <-]; (split; [|]); try done.
    + intros _. by exists k, (http_result tk answers rt 1).2.
    + by rewrite Eok.
    + intros _ r (k'&body&Hk'&Ha'&Hp). rewrite (http_result_200 tk answers rt 1 k' body) in Ep by done.
      simpl in Ep. congruence.
  - intros [= <- <-]. rewrite Eok. split; [done|]. intros _ r (k&body&Hk&Ha&Hp).
    by rewrite (http_result_200 tk answers rt 1 k body) in Eok.
Qed.

Lemma deliver_single cc effects st body :
  omap done_of effects = [(st, body)] →
  ∃ answer, deliver cc effects = Some [answer] ∧
    check_done cc (transport_done parse_check new_CheckResponse st body).1
      (transport_done parse_check new_CheckResponse st body).2 = Some answer.
Proof.
  intros Hd. unfold ClientCache.deliver. rewrite Hd. simpl.
  destruct (transport_done parse_check new_CheckResponse st body) as [st' response]. simpl.
  destruct (check_done_total cc st' response) as [answer Ha]. exists answer. by rewrite Ha.
Qed.

Lemma deliver_some cc effects : is_Some (deliver cc effects).
Proof.
  unfold ClientCache.deliver. apply mapM_is_Some. apply Forall_forall. intros [st body] _. unfold compose. cbv beta iota.
  destruct (transport_done parse_check new_CheckResponse st body) as [st' response]. apply check_done_total.
Qed.

(** The requests of a call are POSTs with the token of their attempt. *)
Definition request_of (f : CallFactory) (str_body : string) (n : Z) : RequestMessage :=
  let '(host, path) := extractHostPathFromUri (Common.uri (factory_uri f) +:+ suffix_url_ f) in
  prepareHeaders host path str_body (tokens n (factory_token_fn f)).

Definition requests_well (f : CallFactory) (str_body : string) (effects : list Effect) : Prop :=
  Forall (λ e, match e with
               | Send n _ message _ =>
                   message = request_of f str_body n ∧
                   is_empty (tokens n (factory_token_fn f)) = false
               | _ => True
               end) effects.

Lemma run_check_spec cc request cached :
  (0 ≤ factory_retries (check_call_factory_ cc) < 2 ^ 32 - 1)%Z →
  ∃ st info effects, run_check cc request cached = Some ([(st, info)], effects) ∧
    decided cc cached st info ∧
    requests_well (check_call_factory_ cc) (serialize_check request) effects ∧
    (Z.of_nat (length (omap sent_of effects)) ≤
       match cached with Some _ => 0 | None => factory_retries (check_call_factory_ cc) + 1 end)%Z.
Proof.
  intros Hr. set (f := check_call_factory_ cc) in *. unfold run_check, finish_check, requests_well,
    request_of. fold f. destruct (extractHostPathFromUri _) as [host path] eqn:Eh. unfold callCheck.
  destruct cached as [[st response]|].
  { destruct (check_done_total cc st response) as [[st' info] Hd]. rewrite Hd. simpl.
    exists st', info, []. split_and!; [done| |done|simpl; lia].
    eapply check_done_decided; [| |exact Hd]; simpl; [done|]. intros E r [E' _]. congruence. }
  unfold check_transport, factory_call. fold f. rewrite Eh.
  destruct (run_call_spec host path (serialize_check request) (factory_trace f)
    (λ n, tokens n (factory_token_fn f)) answers inside (factory_retries f) Hr)
    as (c&effects&Hrun&Hdone&_&Hlen&_). pose proof Hrun as Hsend. apply run_call_sends in Hsend.
  unfold run_call in Hrun. destruct (call _ _ _ _ _ _ _) as [[c1 e1]|]; [|done].
  cbn [mbind option_bind] in Hrun |- *.
  destruct (deliver_some cc e1) as [got1 Hgot1]. rewrite Hgot1. cbn [mbind option_bind].
  rewrite Hrun. cbn [mbind option_bind].
  destruct (http_result _ _ _ _) as [st body] eqn:Eres.
  destruct (deliver_single cc effects st body Hdone) as ([st' info]&Hdel&Hcd). rewrite Hdel.
  exists st', info, effects. split_and!; [done| | |done].
  - destruct (transport_done parse_check new_CheckResponse st body) as [st2 resp2] eqn:Et.
    pose proof (transport_received cc st2 resp2) as Htr. cbv zeta in Htr. fold f in Htr.
    rewrite Eres in Htr. destruct (Htr Et) as [Hyes Hno].
    by eapply check_done_decided.
  - eapply Forall_impl; [exact Hsend|]. intros [n span msg now| | |]; simpl; [|done..].
    by intros (Ht&Hm&_).
Qed.

(** A check gives its caller exactly one answer, whichever attempts are answered
    inside send().  A response decides it when one was received (from the cache, or
    the body of an attempt that was answered with 200 and parses): status and info
    are its conversion.  Without a response the answer is OK exactly when
    network_fail_open is set, which it is by default.  No request is sent for a
    cached answer, and at most retries + 1 otherwise, each a POST of the check to
    the service's :check with the service control token of that moment, never an
    empty one. *)
Lemma client_check_correct config filter_config request cached :
  let cc := new_ClientCache config filter_config in
  (0 ≤ check_retries_ (setting cc) < 2 ^ 32 - 1)%Z →
  ∃ st info effects, run_check cc request cached = Some ([(st, info)], effects) ∧
    ((∃ response, received cc cached response ∧
        ConvertCheckResponse response (Proto.service_name config) (Some new_CheckResponseInfo)
        = Some (Some info, st)) ∨
     ((∀ response, ¬ received cc cached response) ∧ info = new_CheckResponseInfo ∧
        status_ok st = default true (c ← Proto.sc_calling_config filter_config;
                                     Proto.network_fail_open c))) ∧
    Forall (λ e, match e with
                 | Send n _ message _ =>
                     let '(host, path) :=
                       extractHostPathFromUri
                         (Common.uri (Proto.service_control_uri filter_config) +:+
                            Proto.service_name config +:+ ":check") in
                     message = prepareHeaders host path (serialize_check request)
                                 (tokens n sc_token_fn) ∧
                     is_empty (tokens n sc_token_fn) = false
                 | _ => True
                 end) effects ∧
    (Z.of_nat (length (omap sent_of effects)) ≤
       match cached with Some _ => 0 | None => check_retries_ (setting cc) + 1 end)%Z.
Proof.
  intros cc Hr. destruct (run_check_spec cc request cached Hr) as (st&info&effects&Hrun&Hd&Hs&Hl).
  exists st, info, effects. split; [done|]. split; [|split; [|done]].
  - destruct Hd as [Hd|(Hno&Hi&Hst)]; [by left|]. right. split_and!; [done|done|]. rewrite Hst.
    subst cc. unfold new_ClientCache, InitHttpRequestSetting. simpl.
    by destruct (Proto.sc_calling_config filter_config).
  - eapply Forall_impl; [exact Hs|]. intros [n span msg now| | |]; simpl; [|done..].
    unfold request_of. subst cc. simpl. by destruct (extractHostPathFromUri _).
Qed.

(** The cancel function answers the check once more, as the setting says. *)
Lemma cancel_fn_answers cc c :
  cancelled c = false →
  ∃ c' effects, cancel_fn parse_check cc c
    = Some (c', effects, [(if network_fail_open_ (setting cc) then Status_OK else call_cancelled,
                           new_CheckResponseInfo)]).
Proof.
  intros Hc. unfold cancel_fn, cancel, ClientCache.deliver. rewrite Hc. cbn [HttpCall.request_].
  destruct (HttpCall.request_ c); simpl; unfold check_done; simpl;
    destruct (network_fail_open_ (setting cc)); simpl; by eexists _, _.
Qed.

End check.

(** Leaving out the calling configuration is leaving out all its fields. *)
Lemma InitHttpRequestSetting_default filter_config :
  Proto.sc_calling_config filter_config = None →
  InitHttpRequestSetting filter_config
  = InitHttpRequestSetting
      (Proto.mkFilterConfig (Proto.services filter_config) (Proto.requirements filter_config)
         (Proto.gcp_attributes filter_config) (Proto.access_token filter_config)
         (Some (Proto.mkServiceControlCallingConfig None None None None None None None))
         (Proto.service_control_uri filter_config)).
Proof. intros H. unfold InitHttpRequestSetting. by rewrite H. Qed.

Module CheckSample.

Definition service : Proto.Service :=
  Proto.mkService "bookstore" "2024" "project" None "grpc" [] [] 0 [] "".
Definition config : Proto.FilterConfig :=
  Proto.mkFilterConfig [service] [] None Proto.ACCESS_TOKEN_NOT_SET None
    (Common.mkHttpUri "https://sc/v1/services/" "sc").

(** A server that is busy at first, and then knows no such key. *)
Definition answers (n : Z) : Answer :=
  if (n =? 1)%Z then Success (Some 503%Z) "" else Success (Some 200%Z) "no key".
Definition parse (body : string) : CheckResponse * bool :=
  (mkCheckResponse 0 (if bool_decide (body = "no key") then [CE_API_KEY_NOT_FOUND] else []), true).
Definition request : CheckRequest unit := mkCheckRequest "bookstore" "2024" new_Operation.

Definition run : option (list (Status * CheckResponseInfo) * list Effect) :=
  run_check (λ uri, ("sc", uri)) (λ _, "body") parse answers (λ n, (n =? 1)%Z) (λ _ _, "t")
    (new_ClientCache service config) request None.

End CheckSample.

Lemma client_check_correct_witness :
  (r ← CheckSample.run; (λ a, error_code a.1) <$> head r.1)
  = Some Code.INVALID_ARGUMENT ∧
  ∃ st info effects, CheckSample.run = Some ([(st, info)], effects) ∧
    (Z.of_nat (length (omap sent_of effects)) ≤ 4)%Z.
Proof.
  split; [reflexivity|].
  destruct (client_check_correct (λ uri, ("sc", uri)) (λ _, "body") CheckSample.parse
    CheckSample.answers (λ n, (n =? 1)%Z) (λ _ _, "t") CheckSample.service CheckSample.config
    CheckSample.request None) as (st&info&effects&Hrun&_&_&Hlen); [vm_compute; by split|].
  exists st, info, effects. split; [exact Hrun|exact Hlen].
Defined.
