(* ===== verification/ServiceControlCall.v ===== *)
(** * Calls of a service: src/envoy/http/service_control/service_control_call_impl.{h,cc}

    The call object of a service: its tokens, from the metadata server, from IAM or
    signed with a service account key, in a cache per thread, and the requests it
    builds for the client cache of the thread.  Then checks from the call object to
    their answer, and what the destruction of a waiting stream does. *)
From S2P Require Import Prelude RequestInfo SupportedMetrics SupportedLabels RequestBuilder RequestBuilderCorrect LogsMetricsLoader EnvoyUtils RoutingFilters ConfigMessages ConfigParser HandlerUtils Handler ScFilter ServiceControlCorrect HttpCall Token JsonUtil AuthToken TokenFactory ClientCache.

Definition kServiceControlService : string := "/google.api.servicecontrol.v1.ServiceController".
Definition kQuotaControlService : string := "/google.api.servicecontrol.v1.QuotaController".
Definition kServiceControlScope : string := "https://www.googleapis.com/auth/servicecontrol".

(** ** The cache of a thread *)

Record ThreadLocalCache := mkThreadLocalCache {
  sc_token_ : option string;
  quota_token_ : option string;
  client_cache_ : ClientCache
}.

Definition new_ThreadLocalCache (config : Proto.Service) (filter_config : Proto.FilterConfig)
  : ThreadLocalCache := mkThreadLocalCache None None (new_ClientCache config filter_config).

Definition empty_token : string := "".

Definition set_sc_token (sc_token : string) (t : ThreadLocalCache) : ThreadLocalCache :=
  mkThreadLocalCache (Some sc_token) (quota_token_ t) (client_cache_ t).
Definition sc_token (t : ThreadLocalCache) : string :=
  match sc_token_ t with Some token => token | None => empty_token end.

Definition set_quota_token (quota_token : string) (t : ThreadLocalCache) : ThreadLocalCache :=
  mkThreadLocalCache (sc_token_ t) (Some quota_token) (client_cache_ t).
Definition quota_token (t : ThreadLocalCache) : string :=
  match quota_token_ t with Some token => token | None => empty_token end.

(** The token functions that the client cache is given. *)
Definition thread_token (t : ThreadLocalCache) (f : TokenFn) : string :=
  match f with sc_token_fn => sc_token t | quota_token_fn => quota_token t end.

(** ** Token sources *)

Record TokenSources := mkTokenSources {
  imds_token_sub_ : option Subscription;
  access_token_sub_ : option Subscription;
  iam_token_sub_ : option Subscription;
  sc_token_gen_ : option ServiceAccountTokenGenerator;
  quota_token_gen_ : option ServiceAccountTokenGenerator
}.

Definition no_sources : TokenSources := mkTokenSources None None None None None.

Definition createImdsTokenSub (imds_token : Common.HttpUri) (s : TokenSources) : TokenSources :=
  mkTokenSources
    (Some (createImdsTokenSubscriber AccessToken (Common.cluster imds_token) (Common.uri imds_token)))
    (access_token_sub_ s) (iam_token_sub_ s) (sc_token_gen_ s) (quota_token_gen_ s).

Definition createTokenGen (service_control_uri : Common.HttpUri) (secret : Common.DataSource)
    (s : TokenSources) : TokenSources :=
  let key := Common.get_inline_string secret in
  mkTokenSources (imds_token_sub_ s) (access_token_sub_ s) (iam_token_sub_ s)
    (Some (createServiceAccountTokenGenerator key
             (Common.uri service_control_uri +:+ kServiceControlService)))
    (Some (createServiceAccountTokenGenerator key
             (Common.uri service_control_uri +:+ kQuotaControlService))).

(** [inl] is the exception. *)
Definition createIamTokenSub (iam_token : Common.IamTokenInfo) (s : TokenSources)
  : string + TokenSources :=
  match Common.access_token iam_token with
  | Common.remote_token remote =>
      inr (mkTokenSources (imds_token_sub_ s)
             (Some (createImdsTokenSubscriber AccessToken (Common.cluster remote) (Common.uri remote)))
             (Some (createIamTokenSubscriber AccessToken
                      (Common.cluster (Common.iam_uri iam_token))
                      (Common.uri (Common.iam_uri iam_token))
                      (Common.delegates iam_token) [kServiceControlScope]))
             (sc_token_gen_ s) (quota_token_gen_ s))
  | _ => inl "Not support getting access token for iam server by service account file"
  end.

(** The switch on the access token of the configuration. *)
Definition create_sources (filter_config : Proto.FilterConfig) : string + TokenSources :=
  match Proto.access_token filter_config with
  | Proto.imds_token u => inr (createImdsTokenSub u no_sources)
  | Proto.service_account_secret secret =>
      inr (createTokenGen (Proto.service_control_uri filter_config) secret no_sources)
  | Proto.iam_token i => createIamTokenSub i no_sources
  | Proto.ACCESS_TOKEN_NOT_SET => inr no_sources
  end.

(** The tokens that the sources hand on: the callbacks of the subscribers and of
    the generators. *)
Inductive TokenUpdate :=
  | ImdsUpdate (token : string)
  | AccessUpdate (token : string)
  | IamUpdate (token : string)
  | ScGenUpdate (token : string)
  | QuotaGenUpdate (token : string).

(** Whether there is a source for an update. *)
Definition has_source (s : TokenSources) (u : TokenUpdate) : Prop :=
  match u with
  | ImdsUpdate _ => is_Some (imds_token_sub_ s)
  | AccessUpdate _ => is_Some (access_token_sub_ s)
  | IamUpdate _ => is_Some (iam_token_sub_ s)
  | ScGenUpdate _ => is_Some (sc_token_gen_ s)
  | QuotaGenUpdate _ => is_Some (quota_token_gen_ s)
  end.

(** ** The call object *)

Section impl.
Context `{DH : DistributionHelper} `{LE : LabelEnv}.
(** UnpackTo of a google.api.Service. *)
Context (UnpackTo : Common.Any → option LogsMetricsLoader.Service).

Record ServiceControlCallImpl := mkServiceControlCallImpl {
  request_builder_ : RequestBuilder;
  sources : TokenSources;
  access_token_for_iam_ : string;
  tls_ : list ThreadLocalCache
}.

(** The builder of a service. *)
Definition create_builder (config : Proto.Service) : string + RequestBuilder :=
  match Proto.service_config config with
  | Some any =>
      match UnpackTo any with
      | None => inl "Invalid service config"
      | Some origin_service =>
          let '(logs, metrics, labels, _) := Load origin_service ∅ ∅ ∅ in
          inr (RequestBuilder_select logs metrics labels (Proto.service_name config)
                 (Proto.service_config_id config))
      end
  | None =>
      inr (RequestBuilder_all {["endpoints_log"]} (Proto.service_name config)
             (Proto.service_config_id config))
  end.

(** ServiceControlCallImpl(), for a process with [threads] threads. *)
Definition new_ServiceControlCallImpl (proto_config : Proto.FilterConfig) (config : Proto.Service)
    (threads : nat) : string + ServiceControlCallImpl :=
  match create_sources proto_config with
  | inl e => inl e
  | inr s =>
      match create_builder config with
      | inl e => inl e
      | inr rb =>
          inr (mkServiceControlCallImpl rb s ""
                 (replicate threads (new_ThreadLocalCache config proto_config)))
      end
  end.

(** ServiceControlCallFactoryImpl::create. *)
Definition create (proto_config : Proto.FilterConfig) (threads : nat) (config : Proto.Service)
  : string + ServiceControlCallImpl := new_ServiceControlCallImpl proto_config config threads.

Definition runOnAllThreads (f : ThreadLocalCache → ThreadLocalCache) (c : ServiceControlCallImpl)
  : ServiceControlCallImpl :=
  mkServiceControlCallImpl (request_builder_ c) (sources c) (access_token_for_iam_ c) (f <$> tls_ c).

(** The callbacks, once they ran on all threads: runOnAllThreads posts the update to
    the dispatcher of each thread, which runs it later; here all have run. *)
Definition update_token (c : ServiceControlCallImpl) (u : TokenUpdate) : ServiceControlCallImpl :=
  match u with
  | ImdsUpdate token | IamUpdate token =>
      runOnAllThreads (λ t, set_quota_token token (set_sc_token token t)) c
  | AccessUpdate token =>
      mkServiceControlCallImpl (request_builder_ c) (sources c) token (tls_ c)
  | ScGenUpdate token => runOnAllThreads (set_sc_token token) c
  | QuotaGenUpdate token => runOnAllThreads (set_quota_token token) c
  end.

Definition empty_CheckRequest : CheckRequest Distribution := mkCheckRequest "" "" new_Operation.
Definition empty_AllocateQuotaRequest : AllocateQuotaRequest Distribution :=
  mkAllocateQuotaRequest "" "" (mkQuotaOperation "" "" "" QuotaMode_UNSPECIFIED ∅ []).
Definition empty_ReportRequest : ReportRequest Distribution := mkReportRequest "" "" [].

Section calls.
Context (extractHostPathFromUri : string → string * string).
Context (serialize_check : CheckRequest Distribution → string).
Context (parse_check : string → CheckResponse * bool).

(** callCheck on the thread of [t], whose cache at each attempt is [later]. *)
Definition callCheck (c : ServiceControlCallImpl) (t : ThreadLocalCache)
    (request_info : CheckRequestInfo) (cached : option (Status * CheckResponse))
    (later : Z → ThreadLocalCache) (now : Z → option Answer) :=
  let '(request, _) := FillCheckRequest (request_builder_ c) request_info empty_CheckRequest in
  ClientCache.callCheck extractHostPathFromUri serialize_check parse_check (client_cache_ t) request
    cached (λ n, thread_token (later n)) now.

(** callQuota, with what the library answers. *)
Definition callQuota (c : ServiceControlCallImpl) (t : ThreadLocalCache)
    (request_info : QuotaRequestInfo) (answer : Status * AllocateQuotaResponse)
  : LibraryCall * Status :=
  let '(request, _) :=
    FillAllocateQuotaRequest (request_builder_ c) request_info empty_AllocateQuotaRequest in
  ClientCache.callQuota (client_cache_ t) request answer.

(** callReport. *)
Definition callReport (c : ServiceControlCallImpl) (t : ThreadLocalCache)
    (request_info : ReportRequestInfo) : option LibraryCall :=
  '(request, _) ← FillReportRequest (request_builder_ c) request_info empty_ReportRequest;
  Some (ClientCache.callReport (client_cache_ t) request).

End calls.

(** ** Tokens *)

Definition sc_update (u : TokenUpdate) : option string :=
  match u with ImdsUpdate t | IamUpdate t | ScGenUpdate t => Some t | _ => None end.
Definition quota_update (u : TokenUpdate) : option string :=
  match u with ImdsUpdate t | IamUpdate t | QuotaGenUpdate t => Some t | _ => None end.
Definition access_update (u : TokenUpdate) : option string :=
  match u with AccessUpdate t => Some t | _ => None end.

(** The last update, or the value before. *)
Definition latest (f : TokenUpdate → option string) (updates : list TokenUpdate) (before : string)
  : string := default before (last (omap f updates)).

Lemma latest_cons f u updates before :
  latest f (u :: updates) before = latest f updates (default before (f u)).
Proof.
  unfold latest. cbn [omap list_omap]. fold (omap (M := list) f updates).
  destruct (f u) as [t|]; [|done]. rewrite last_cons. by destruct (last _).
Qed.

Lemma update_token_fields c u :
  request_builder_ (update_token c u) = request_builder_ c ∧
  sources (update_token c u) = sources c ∧
  access_token_for_iam_ (update_token c u) = default (access_token_for_iam_ c) (access_update u) ∧
  ∃ f, tls_ (update_token c u) = f <$> tls_ c ∧
    ∀ t, sc_token (f t) = default (sc_token t) (sc_update u) ∧
         quota_token (f t) = default (quota_token t) (quota_update u) ∧
         client_cache_ (f t) = client_cache_ t.
Proof.
  destruct u as [token|token|token|token|token]; (split; [done|]); (split; [done|]);
    (split; [done|]).
  - by exists (λ t, set_quota_token token (set_sc_token token t)).
  - exists id. by rewrite list_fmap_id.
  - by exists (λ t, set_quota_token token (set_sc_token token t)).
  - by exists (set_sc_token token).
  - by exists (set_quota_token token).
Qed.

Lemma update_tokens_threads updates : ∀ c,
  let c' := foldl update_token c updates in
  request_builder_ c' = request_builder_ c ∧ sources c' = sources c ∧
  access_token_for_iam_ c' = latest access_update updates (access_token_for_iam_ c) ∧
  ∃ f, tls_ c' = f <$> tls_ c ∧
    ∀ t, sc_token (f t) = latest sc_update updates (sc_token t) ∧
         quota_token (f t) = latest quota_update updates (quota_token t) ∧
         client_cache_ (f t) = client_cache_ t.
Proof.
  induction updates as [|u updates IH]; intros c; cbv zeta.
  { split_and!; [done..|]. exists id. by rewrite list_fmap_id. }
  destruct (update_token_fields c u) as (Hb&Hs&Ha&g&Hg&Hgt).
  destruct (IH (update_token c u)) as (Hb'&Hs'&Ha'&f&Hf&Hft). cbn [foldl].
  rewrite Hb', Hs', Ha', Hb, Hs, Ha, latest_cons. split_and!; [done..|].
  exists (λ t, f (g t)). rewrite Hf, Hg, <-list_fmap_compose. split; [done|]. intros t.
  destruct (Hgt t) as (H1&H2&H3), (Hft (g t)) as (H4&H5&H6).
  by rewrite H4, H5, H6, H1, H2, H3, !latest_cons.
Qed.

Lemma created_tls proto_config config threads c :
  new_ServiceControlCallImpl proto_config config threads = inr c →
  create_sources proto_config = inr (sources c) ∧ create_builder config = inr (request_builder_ c) ∧
  access_token_for_iam_ c = "" ∧ tls_ c = replicate threads (new_ThreadLocalCache config proto_config).
Proof.
  unfold new_ServiceControlCallImpl. destruct (create_sources proto_config); [done|].
  destruct (create_builder config); [done|]. by intros [= <-].
Qed.

(** Without generators the two tokens are handed on together. *)
Lemma updates_together (s : TokenSources) updates :
  sc_token_gen_ s = None → quota_token_gen_ s = None → Forall (has_source s) updates →
  omap sc_update updates = omap quota_update updates.
Proof.
  intros H1 H2. induction updates as [|u updates IH]; [done|]. intros [Hu Hr]%Forall_cons.
  specialize (IH Hr). destruct u as [t|t|t|t|t]; cbn in Hu |- *.
  - by f_equal.
  - done.
  - by f_equal.
  - rewrite H1 in Hu. by destruct Hu.
  - rewrite H2 in Hu. by destruct Hu.
Qed.

Definition with_service_account (proto_config : Proto.FilterConfig) : bool :=
  match Proto.access_token proto_config with Proto.service_account_secret _ => true | _ => false end.

Lemma sources_generators proto_config s :
  create_sources proto_config = inr s → with_service_account proto_config = false →
  sc_token_gen_ s = None ∧ quota_token_gen_ s = None.
Proof.
  unfold create_sources, with_service_account.
  destruct (Proto.access_token proto_config) as [u|d|[u [r|d|] ds]|]; simpl; try done;
    by intros [= <-].
Qed.

(** C10: the tokens of the calls.  However the sources hand on tokens, every thread
    has its client cache and the same two tokens: for checks and reports the last
    one handed on for service control, for quota the last one for quota, and an
    empty one before the first.  Unless tokens are signed with a service account
    key, the two are the same.  The access token that IAM is asked with is the last
    one of its own subscriber. *)
Theorem service_control_tokens proto_config config threads c updates :
  new_ServiceControlCallImpl proto_config config threads = inr c →
  Forall (has_source (sources c)) updates →
  let c' := foldl update_token c updates in
  length (tls_ c') = threads ∧
  access_token_for_iam_ c' = latest access_update updates "" ∧
  ∀ t, t ∈ tls_ c' →
    client_cache_ t = new_ClientCache config proto_config ∧
    sc_token t = latest sc_update updates "" ∧ quota_token t = latest quota_update updates "" ∧
    (with_service_account proto_config = false → quota_token t = sc_token t).
Proof.
  intros (Hsrc&_&Ha&Htls)%created_tls Hup. cbv zeta.
  destruct (update_tokens_threads updates c) as (_&_&Ha'&f&Hf&Hft). rewrite Hf, Htls.
  rewrite length_fmap, length_replicate, Ha', Ha. split_and!; [done..|].
  intros t (t0&->&[-> _]%elem_of_replicate)%list_elem_of_fmap.
  destruct (Hft (new_ThreadLocalCache config proto_config)) as (Hsc&Hq&Hcc).
  rewrite Hcc, Hsc, Hq. split_and!; [done..|]. intros Hno. unfold latest.
  destruct (sources_generators proto_config _ Hsrc Hno) as [H1 H2].
  by rewrite (updates_together (sources c)).
Qed.

(** ** Construction *)

Definition iam_without_remote (proto_config : Proto.FilterConfig) : bool :=
  match Proto.access_token proto_config with
  | Proto.iam_token i =>
      match Common.access_token i with Common.remote_token _ => false | _ => true end
  | _ => false
  end.

Definition config_not_unpacked (config : Proto.Service) : bool :=
  match Proto.service_config config with
  | Some any => match UnpackTo any with None => true | Some _ => false end
  | None => false
  end.

Lemma create_sources_error proto_config :
  match create_sources proto_config with
  | inl _ => iam_without_remote proto_config = true
  | inr _ => iam_without_remote proto_config = false
  end.
Proof.
  unfold create_sources, iam_without_remote.
  by destruct (Proto.access_token proto_config) as [u|d|[u [r|d|] ds]|].
Qed.

Lemma create_builder_spec config :
  match create_builder config with
  | inl _ => config_not_unpacked config = true
  | inr rb => config_not_unpacked config = false ∧ service_name_ rb = Proto.service_name config ∧
              service_config_id_ rb = Proto.service_config_id config
  end.
Proof.
  unfold create_builder, config_not_unpacked. destruct (Proto.service_config config) as [any|]; [|done].
  destruct (UnpackTo any) as [origin|]; [|done].
  by destruct (Load origin ∅ ∅ ∅) as [[[logs metrics] labels] st].
Qed.

(** The call object of a service is made, with a builder for that service,
    except in two cases, which throw: tokens from IAM without a remote access
    token, and a service configuration that does not unpack.  With tokens from IAM
    the subscriber sends no request before it has an access token, and then asks
    for the service control scope on behalf of the configured delegates, and for
    no email. *)
Lemma ServiceControlCall_created proto_config config threads extract parse from_string now access :
  match new_ServiceControlCallImpl proto_config config threads with
  | inl _ => iam_without_remote proto_config = true ∨ config_not_unpacked config = true
  | inr c =>
      iam_without_remote proto_config = false ∧ config_not_unpacked config = false ∧
      service_name_ (request_builder_ c) = Proto.service_name config ∧
      service_config_id_ (request_builder_ c) = Proto.service_config_id config ∧
      ∀ i sub, Proto.access_token proto_config = Proto.iam_token i →
        iam_token_sub_ (sources c) = Some sub →
        match prepareRequest (info_of extract parse from_string sub now access) (sub_url sub) with
        | None => access = ""
        | Some message =>
            access ≠ "" ∧ tr_header message = ("authorization", "Bearer " +:+ access) ∧
            ∃ body, tr_body message = Some body ∧
              body !! "scope" = Some (StringList [kServiceControlScope]) ∧
              body !! "includeEmail" = None ∧
              body !! "delegates" =
                match Common.delegates i with
                | [] => None
                | ds => Some (StringList ((λ d, "projects/-/serviceAccounts/" +:+ d) <$> ds))
                end
        end
  end.
Proof.
  unfold new_ServiceControlCallImpl. pose proof (create_sources_error proto_config) as Hs.
  destruct (create_sources proto_config) as [e|s] eqn:Es; [by left|].
  pose proof (create_builder_spec config) as Hb.
  destruct (create_builder config) as [e|rb]; [by right|]. destruct Hb as (Hb1&Hb2&Hb3).
  split_and!; [done..|]. intros i sub Hi Hsub. simpl in Hsub. unfold create_sources in Es.
  rewrite Hi in Es. unfold createIamTokenSub in Es.
  destruct (Common.access_token i); [|done..]. injection Es as <-. simpl in Hsub.
  injection Hsub as <-. simpl. unfold iam_prepareRequest. destruct (is_empty access) eqn:Ea.
  { by apply is_empty_true in Ea. }
  apply is_empty_false in Ea. destruct (extract _) as [host path]. simpl.
  split_and!; [done..|]. destruct (Common.delegates i) as [|d ds]; simpl; (eexists; split; [done|]);
    unfold insertStrListToProto; by simplify_map_eq.
Qed.

(** ** Checks *)

Section check.
Context (extractHostPathFromUri : string → string * string).
Context (serialize_check : CheckRequest Distribution → string).
Context (parse_check : string → CheckResponse * bool).
(** The answers to the attempts, which of them come inside send(), and the cache of
    the thread at each attempt. *)
Context (answers : Z → Answer) (inside : Z → bool) (later : Z → ThreadLocalCache).

(** The request that is built. *)
Definition check_request (c : ServiceControlCallImpl) (info : CheckRequestInfo)
  : CheckRequest Distribution := (FillCheckRequest (request_builder_ c) info empty_CheckRequest).1.

(** A check on the thread of [t], to its end. *)
Definition run_service_check (c : ServiceControlCallImpl) (t : ThreadLocalCache)
    (info : CheckRequestInfo) (cached : option (Status * CheckResponse))
  : option (list (Status * CheckResponseInfo) * list Effect) :=
  callCheck extractHostPathFromUri serialize_check parse_check c t info cached later
    (answer_now answers inside)
  ≫= finish_check extractHostPathFromUri parse_check answers inside (λ n, thread_token (later n))
       (client_cache_ t) (serialize_check (check_request c info)).

Lemma run_service_check_eq c t info cached :
  run_service_check c t info cached
  = run_check extractHostPathFromUri serialize_check parse_check answers inside
      (λ n, thread_token (later n)) (client_cache_ t) (check_request c info) cached.
Proof.
  unfold run_service_check, callCheck, check_request, run_check. by destruct (FillCheckRequest _ _ _).
Qed.

Lemma check_request_fields c (info : CheckRequestInfo) :
  operation_id info ≠ "" → operation_name info ≠ "" → api_key info ≠ "" →
  let request := check_request c info in
  cr_service_name request = service_name_ (request_builder_ c) ∧
  cr_service_config_id request = service_config_id_ (request_builder_ c) ∧
  op_operation_name (cr_operation request) = operation_name info ∧
  op_consumer_id (cr_operation request) = "api_key:" +:+ api_key info.
Proof.
  intros Hid%is_empty_false Hname%is_empty_false Hkey%is_empty_false. cbv zeta.
  unfold check_request, FillCheckRequest, VerifyRequiredCheckFields, SetOperationCommonFields.
  rewrite Hid, Hname, Hkey. done.
Qed.

(** C9: a check of the call object of a service, with an operation and an API key.
    What is sent is the check of that service, operation and key, as the body of a
    POST with the service control token the thread has at that attempt, and nothing
    is sent while there is none; the caller gets one answer: the verdict of the
    response when one was received, and otherwise an admission exactly when
    network_fail_open is set. *)
Theorem service_check_correct proto_config config threads c t (info : CheckRequestInfo) cached :
  new_ServiceControlCallImpl proto_config config threads = inr c →
  t ∈ tls_ c → operation_id info ≠ "" → operation_name info ≠ "" → api_key info ≠ "" →
  (0 ≤ check_retries_ (setting (client_cache_ t)) < 2 ^ 32 - 1)%Z →
  ∃ request st response_info effects,
    run_service_check c t info cached = Some ([(st, response_info)], effects) ∧
    cr_service_name request = Proto.service_name config ∧
    cr_service_config_id request = Proto.service_config_id config ∧
    op_operation_name (cr_operation request) = operation_name info ∧
    op_consumer_id (cr_operation request) = "api_key:" +:+ api_key info ∧
    Forall (λ e, match e with
                 | Send n _ message _ =>
                     msg_method message = "POST" ∧ msg_body message = serialize_check request ∧
                     msg_authorization message = "Bearer " +:+ sc_token (later n) ∧
                     sc_token (later n) ≠ ""
                 | _ => True
                 end) effects ∧
    ((∃ response,
        received parse_check answers (λ n, thread_token (later n)) (client_cache_ t) cached response ∧
        ConvertCheckResponse response (Proto.service_name config) (Some new_CheckResponseInfo)
        = Some (Some response_info, st)) ∨
     ((∀ response, ¬ received parse_check answers (λ n, thread_token (later n)) (client_cache_ t)
                       cached response) ∧
      status_ok st = network_fail_open_ (setting (client_cache_ t)))).
Proof.
  intros (_&Hb&_&Htls)%created_tls Ht Hid Hname Hkey Hr.
  pose proof (create_builder_spec config) as Hspec. rewrite Hb in Hspec.
  destruct Hspec as (_&Hn&Hc). destruct (check_request_fields c info Hid Hname Hkey) as (H1&H2&H3&H4).
  rewrite Htls in Ht. apply elem_of_replicate in Ht as [-> _].
  destruct (run_check_spec extractHostPathFromUri serialize_check parse_check answers inside
    (λ n, thread_token (later n)) (new_ClientCache config proto_config) (check_request c info) cached Hr)
    as (st&ri&effects&Hrun&Hd&Hs&_).
  exists (check_request c info), st, ri, effects. rewrite run_service_check_eq, H1, H2, Hn, Hc.
  split_and!; [done..| |].
  - eapply Forall_impl; [exact Hs|]. intros [n span msg now| | |]; simpl; [|done..].
    unfold request_of. simpl. destruct (extractHostPathFromUri _) as [host path].
    intros [-> Htok%is_empty_false]. done.
  - destruct Hd as [Hd|(Hno&_&Hst)]; [by left|by right].
Qed.

End check.

End impl.

(** ** Streams that go while a check is out *)

Section destroy.
Context `{HeaderMapOps H} `{HttpUtility H} `{FilterStateOps F}.
Context (grpcToHttpStatus : Z → Z) (status_to_string : Status → string).
Context (parse_check : string → CheckResponse * bool).

(** C20: when a stream is destroyed while its check is out, the handler's cancel
    function cancels the HTTP call, the cancelled call still answers the check, and
    the answer is handled as if the stream were there: with network_fail_open the
    check is taken as passed, so that the filter goes on decoding the destroyed
    stream, or a quota call is made for it; without, the filter sends a reply on
    it. *)
Theorem destroyed_stream_goes_on cc (call : HttpCallImpl) f h ctx stream_info now (headers : H) :
  handler_ f = Some h → cancel_fn_ h = true → require_ctx_ h = Some ctx →
  state_ f = Calling → stopped_ f = true → cancelled call = false →
  ∃ call' effects answer,
    cancel_fn parse_check cc call = Some (call', effects, [answer]) ∧
    let '(f', actions, headers') :=
      filter_onDestroy grpcToHttpStatus status_to_string f stream_info now headers (Some answer) None in
    headers' = headers ∧
    if network_fail_open_ (setting cc) then
      if isQuotaRequired ctx
      then ∃ info, actions = [CallQuota (service_config (service_ctx ctx)) info] ∧ state_ f' = Calling
      else state_ f' = Complete ∧ forwarded f' = (forwarded f + 1)%Z ∧ allowed_ f' = (allowed_ f + 1)%Z
    else
      state_ f' = Responded ∧ denied_ f' = (denied_ f + 1)%Z ∧
      rejections f' = rejections f ++
        [mkLocalReply (grpcToHttpStatus Code.CANCELLED) (status_to_string call_cancelled)
           "rejected_by_service_control_check"].
Proof.
  intros Hh Hc Hctx Hst Hstop Hcall.
  destruct (cancel_fn_answers parse_check cc call Hcall) as (call'&effects&E).
  eexists call', effects, _. split; [exact E|]. unfold filter_onDestroy, onDestroy. rewrite Hh, Hc, Hctx.
  unfold check_answer, onCheckResponse. simpl.
  destruct (network_fail_open_ (setting cc)); simpl; [|done].
  unfold Handler.callQuota. destruct (isQuotaRequired ctx); simpl.
  - split; [done|]. eexists. split; [done|]. done.
  - by rewrite Hstop.
Qed.

End destroy.

(** ** Samples *)

#[local] Existing Instance sample_helper.
#[local] Existing Instance sample_env.

Module CallSample.

Definition iam : Common.IamTokenInfo :=
  Common.mkIamTokenInfo (Common.mkHttpUri "https://iam/token" "iam")
    (Common.remote_token (Common.mkHttpUri "http://metadata/token" "metadata")) ["robot"].

Definition iam_config : Proto.FilterConfig :=
  Proto.mkFilterConfig [Sample.service] [] None (Proto.iam_token iam) None
    (Common.mkHttpUri "https://sc/v1/services/" "sc").

Definition unpack (any : Common.Any) : option LogsMetricsLoader.Service := None.

(** The call object on two threads. *)
Definition impl : ServiceControlCallImpl :=
  match new_ServiceControlCallImpl unpack iam_config Sample.service 2 with
  | inr c => c
  | inl _ => mkServiceControlCallImpl (RequestBuilder_all ∅ "" "") no_sources "" []
  end.

Lemma created : new_ServiceControlCallImpl unpack iam_config Sample.service 2 = inr impl.
Proof. reflexivity. Defined.

Definition thread : ThreadLocalCache := new_ThreadLocalCache Sample.service iam_config.
Definition info : CheckRequestInfo :=
  mkCheckRequestInfo (mkOperationInfo "uuid" "GetShelf" "project" "k" "" 0 "" "") "" "" "".

(** The waiting filter, and its handler. *)
Definition waiting : ScFilter := filter Sample.waiting_world.
Definition waiting_handler : Handler := default (Sample.handler "GetShelf") (handler_ waiting).

End CallSample.

(** The access token of IAM comes first, then two tokens of IAM. *)
Lemma service_control_tokens_witness :
  Forall (λ t, sc_token t = "t2" ∧ quota_token t = "t2")
    (tls_ (foldl update_token CallSample.impl [AccessUpdate "a"; IamUpdate "t1"; IamUpdate "t2"])).
Proof.
  apply Forall_forall. intros t Ht.
  destruct (service_control_tokens CallSample.unpack CallSample.iam_config Sample.service 2
    CallSample.impl [AccessUpdate "a"; IamUpdate "t1"; IamUpdate "t2"] CallSample.created)
    as (_&_&Hall).
  - repeat constructor; eexists; reflexivity.
  - destruct (Hall t Ht) as (_&Hsc&Hq&_). split; [exact Hsc|exact Hq].
Defined.

Lemma ServiceControlCall_created_witness :
  service_name_ (request_builder_ CallSample.impl) = "bookstore" ∧
  ∃ message body,
    iam_prepareRequest (λ uri, ("iam", uri)) ["robot"] [kServiceControlScope] false "a"
      "https://iam/token" = Some message ∧
    tr_body message = Some body ∧ body !! "scope" = Some (StringList [kServiceControlScope]).
Proof.
  pose proof (ServiceControlCall_created CallSample.unpack CallSample.iam_config Sample.service 2
    (λ uri, ("iam", uri)) (λ _, None) (λ _, None) (mkTimestamp 0 0) "a") as Hc.
  destruct Hc as (_&_&Hn&_&Hiam). split; [exact Hn|].
  destruct (Hiam CallSample.iam _ eq_refl eq_refl) as (_&_&body&Hb&Hs&_).
  eexists _, body. split; [reflexivity|]. split; [exact Hb|exact Hs].
Defined.

Lemma service_check_correct_witness :
  ∃ request st response_info effects,
    run_service_check (λ uri, ("sc", uri)) cr_service_name CheckSample.parse CheckSample.answers
      (λ n, (n =? 1)%Z) (λ _, set_sc_token "t" CallSample.thread) CallSample.impl CallSample.thread
      CallSample.info None = Some ([(st, response_info)], effects) ∧
    cr_service_name (Distribution := Distribution) request = "bookstore" ∧
    op_consumer_id (cr_operation request) = "api_key:k".
Proof.
  destruct (service_check_correct CallSample.unpack (λ uri, ("sc", uri)) cr_service_name
    CheckSample.parse CheckSample.answers (λ n, (n =? 1)%Z) (λ _, set_sc_token "t" CallSample.thread)
    CallSample.iam_config Sample.service 2 CallSample.impl CallSample.thread CallSample.info None
    CallSample.created) as (request&st&ri&effects&Hrun&Hname&_&_&Hkey&_).
  - left.
  - discriminate.
  - discriminate.
  - discriminate.
  - vm_compute. by split.
  - exists request, st, ri, effects. split; [exact Hrun|]. split; [exact Hname|exact Hkey].
Defined.

(** The default setting is to admit, and the operation needs quota: a quota call is
    made for the stream that is gone. *)
Lemma destroyed_stream_goes_on_witness :
  ∃ call' effects answer info,
    cancel_fn CheckSample.parse (new_ClientCache Sample.service Sample.config) (new_HttpCallImpl 3)
      = Some (call', effects, [answer]) ∧
    (filter_onDestroy (λ c, c) error_message CallSample.waiting Sample.info 0 Sample.headers
      (Some answer) None).1.2 = [CallQuota Sample.service info].
Proof.
  destruct (destroyed_stream_goes_on (λ c, c) error_message CheckSample.parse
    (new_ClientCache Sample.service Sample.config) (new_HttpCallImpl 3) CallSample.waiting
    CallSample.waiting_handler (Sample.context Sample.guarded) Sample.info 0 Sample.headers)
    as (call'&effects&answer&Hc&Hd); try (vm_compute; reflexivity).
  destruct (filter_onDestroy _ _ _ _ _ _ _ _) as [[f' actions] hs] eqn:E. destruct Hd as [_ Hq].
  simpl in Hq. destruct Hq as (info&Hact&_). exists call', effects, answer, info.
  split; [exact Hc|]. rewrite E. exact Hact.
Defined.
