(* ===== verification/FilterConfigs.v ===== *)
(** * Filter configurations, statistics and factories:
    filter_config.h, filter_config_impl.h, filter_stats.h and filter_factory.cc of
    src/envoy/http/{path_matcher,service_control,backend_auth,backend_routing}

    A factory makes the configuration of a filter once, with its counters in the
    scope of the server, and returns a function that adds a filter with this
    configuration to the chain of each new stream.  The configuration of service
    control holds a call object for every service. *)
From S2P Require Import Prelude PathMatcher RequestInfo SupportedMetrics SupportedLabels RequestBuilder RequestBuilderCorrect LogsMetricsLoader EnvoyUtils RoutingFilters ConfigMessages ConfigParser HandlerUtils Handler ScFilter ServiceControlCorrect HttpCall Token TokenFactory BackendAuth ClientCache ServiceControlCall.

(** ** Counters *)

(** Stats::Scope: the counters of the server by name. *)
Abbreviation Scope := (gmap string Z).

(** A counter of the scope: made at its first use. *)
Definition pool_counter (scope : Scope) (name : string) : Scope :=
  match scope !! name with Some _ => scope | None => <[name := 0%Z]> scope end.

(** POOL_COUNTER_PREFIX for a list of counters: their names, and the scope. *)
Definition POOL_COUNTER_PREFIX (scope : Scope) (prefix : string) (counters : list string)
  : list string * Scope :=
  let names := (λ c, prefix +:+ c) <$> counters in
  (names, foldl pool_counter scope names).

(** inc() by [n]. *)
Definition add_counter (name : string) (n : Z) (scope : Scope) : Scope := alter (Z.add n) name scope.

(** The counters that the four filters declare. *)
Definition PATH_MATCHER_STATS : list string := ["allowed"; "denied"].
Definition ALL_SERVICE_CONTROL_FILTER_STATS : list string := ["allowed"; "denied"].
Definition BACKEND_AUTH_STATS : list string := ["token_added"].
Definition ALL_BACKEND_ROUTING_FILTER_STATS : list string :=
  ["append_path_to_address_request"; "constant_address_request"].

Definition path_matcher_generateStats (prefix : string) (scope : Scope) : list string * Scope :=
  POOL_COUNTER_PREFIX scope (prefix +:+ "path_matcher.") PATH_MATCHER_STATS.
Definition service_control_generateStats (prefix : string) (scope : Scope) : list string * Scope :=
  POOL_COUNTER_PREFIX scope (prefix +:+ "service_control.") ALL_SERVICE_CONTROL_FILTER_STATS.
Definition backend_auth_generateStats (prefix : string) (scope : Scope) : list string * Scope :=
  POOL_COUNTER_PREFIX scope (prefix +:+ "backend_auth.") BACKEND_AUTH_STATS.
Definition backend_routing_generateStats (prefix : string) (scope : Scope) : list string * Scope :=
  POOL_COUNTER_PREFIX scope (prefix +:+ "backend_routing.") ALL_BACKEND_ROUTING_FILTER_STATS.

Section configs.
Context `{DH : DistributionHelper} `{LE : LabelEnv}.
Context (UnpackTo : Common.Any → option LogsMetricsLoader.Service) (threads : nat).

(** ** Configurations *)

(** class ServiceControlFilterConfig: its counters, the call object of each
    service, by name, and the parser. *)
Record ServiceControlFilterConfig := mkServiceControlFilterConfig {
  sc_stats : list string;
  sc_calls : gmap string ServiceControlCallImpl;
  config_parser_ : FilterConfigParser
}.

(** The calls of [factory.create] by the contexts of the services, in order; a
    context is kept under the name of its service unless there is one. *)
Fixpoint create_calls (proto_config : Proto.FilterConfig) (services : list Proto.Service)
    (calls : gmap string ServiceControlCallImpl) : string + gmap string ServiceControlCallImpl :=
  match services with
  | [] => inr calls
  | service :: services =>
      match create UnpackTo proto_config threads service with
      | inl e => inl e
      | inr c => create_calls proto_config services (emplace (Proto.service_name service) c calls)
      end
  end.

(** ServiceControlFilterConfig(): the counters are made before anything throws. *)
Definition new_ServiceControlFilterConfig (proto_config : Proto.FilterConfig) (stats_prefix : string)
    (scope : Scope) : (string + ServiceControlFilterConfig) * Scope :=
  let '(stats, scope) := service_control_generateStats stats_prefix scope in
  (match create_calls proto_config (Proto.services proto_config) ∅ with
   | inl e => inl e
   | inr calls =>
       match new_FilterConfigParser proto_config with
       | inl e => inl e
       | inr parser => inr (mkServiceControlFilterConfig stats calls parser)
       end
   end, scope).

(** ServiceContext::call(), for the context of a requirement. *)
Definition call_of (cfg : ServiceControlFilterConfig) (service : Proto.Service)
  : option ServiceControlCallImpl := sc_calls cfg !! Proto.service_name service.

(** The configurations of the other filters, with their counters. *)
Definition new_PathMatcherFilterConfig (proto_config : PathMatcherFilter.ProtoConfig)
    (stats_prefix : string) (scope : Scope)
  : (string + (PathMatcherFilter.FilterConfig * list string)) * Scope :=
  let '(stats, scope) := path_matcher_generateStats stats_prefix scope in
  (match PathMatcherFilter.new_FilterConfig proto_config with
   | inl e => inl e
   | inr config => inr (config, stats)
   end, scope).

Definition new_BackendAuthFilterConfig (proto_config : AuthConfig) (stats_prefix : string)
    (scope : Scope) : (AuthConfigParser * list string) * Scope :=
  let '(stats, scope) := backend_auth_generateStats stats_prefix scope in
  ((new_AuthConfigParser proto_config, stats), scope).

Definition new_BackendRoutingFilterConfig (rules : list BackendRouting.BackendRoutingRule)
    (stats_prefix : string) (scope : Scope)
  : (gmap string BackendRouting.BackendRoutingRule * list string) * Scope :=
  let '(stats, scope) := backend_routing_generateStats stats_prefix scope in
  ((BackendRouting.new_FilterConfig rules, stats), scope).

(** ** Factories *)

Definition kPathMatcherFilterName : string := "envoy.filters.http.path_matcher".
Definition ServiceControl_FilterName : string := "envoy.filters.http.service_control".
Definition BackendAuth_FilterName : string := "envoy.filters.http.backend_auth".
Definition BackendRouting_FilterName : string := "envoy.filters.http.backend_routing".

(** The filters of a stream. *)
Inductive StreamFilter :=
  | PathMatcherF (config : PathMatcherFilter.FilterConfig) (stats : list string)
  | ServiceControlF (config : ServiceControlFilterConfig) (filter : ScFilter)
  | BackendAuthF (config : AuthConfigParser) (stats : list string)
  | BackendRoutingF (config : gmap string BackendRouting.BackendRoutingRule) (stats : list string).

(** Http::FilterChainFactoryCallbacks: what was added so far. *)
Record FilterChain := mkFilterChain {
  decoder_filters : list StreamFilter;
  encoder_filters : list StreamFilter;
  access_log_handlers : list StreamFilter
}.

Definition addStreamDecoderFilter (f : StreamFilter) (c : FilterChain) : FilterChain :=
  mkFilterChain (decoder_filters c ++ [f]) (encoder_filters c) (access_log_handlers c).
Definition addStreamFilter (f : StreamFilter) (c : FilterChain) : FilterChain :=
  mkFilterChain (decoder_filters c ++ [f]) (encoder_filters c ++ [f]) (access_log_handlers c).
Definition addAccessLogHandler (f : StreamFilter) (c : FilterChain) : FilterChain :=
  mkFilterChain (decoder_filters c) (encoder_filters c) (access_log_handlers c ++ [f]).

(** Http::FilterFactoryCb. *)
Abbreviation FilterFactoryCb := (FilterChain → FilterChain).

Definition path_matcher_factory (proto_config : PathMatcherFilter.ProtoConfig) (stats_prefix : string)
    (scope : Scope) : (string + FilterFactoryCb) * Scope :=
  let '(config, scope) := new_PathMatcherFilterConfig proto_config stats_prefix scope in
  (match config with
   | inl e => inl e
   | inr (config, stats) => inr (addStreamDecoderFilter (PathMatcherF config stats))
   end, scope).

(** A filter of service control is also the access log handler of its stream. *)
Definition service_control_factory (proto_config : Proto.FilterConfig) (stats_prefix : string)
    (scope : Scope) : (string + FilterFactoryCb) * Scope :=
  let '(config, scope) := new_ServiceControlFilterConfig proto_config stats_prefix scope in
  (match config with
   | inl e => inl e
   | inr config =>
       inr (λ callbacks,
              let filter := ServiceControlF config new_ScFilter in
              addAccessLogHandler filter (addStreamFilter filter callbacks))
   end, scope).

Definition backend_auth_factory (proto_config : AuthConfig) (stats_prefix : string) (scope : Scope)
  : (string + FilterFactoryCb) * Scope :=
  let '((config, stats), scope) := new_BackendAuthFilterConfig proto_config stats_prefix scope in
  (inr (addStreamDecoderFilter (BackendAuthF config stats)), scope).

Definition backend_routing_factory (rules : list BackendRouting.BackendRoutingRule)
    (stats_prefix : string) (scope : Scope) : (string + FilterFactoryCb) * Scope :=
  let '((config, stats), scope) := new_BackendRoutingFilterConfig rules stats_prefix scope in
  (inr (addStreamDecoderFilter (BackendRoutingF config stats)), scope).

(** ** Correctness *)

Lemma emplace_lookup {V} k (v : V) m j :
  ConfigParser.emplace k v m !! j
  = match m !! j with Some x => Some x | None => if bool_decide (k = j) then Some v else None end.
Proof.
  unfold ConfigParser.emplace. destruct (m !! k) eqn:E.
  - destruct (m !! j) eqn:Ej; [done|]. rewrite bool_decide_eq_false_2; [done|]. congruence.
  - destruct (decide (k = j)) as [<-|Hne].
    + by rewrite lookup_insert_eq, E, bool_decide_eq_true_2.
    + rewrite lookup_insert_ne, bool_decide_eq_false_2 by done. by destruct (m !! j).
Qed.

Definition creates (proto_config : Proto.FilterConfig) (s : Proto.Service) : bool :=
  negb (iam_without_remote proto_config) && negb (config_not_unpacked UnpackTo s).

Lemma create_spec proto_config s :
  match create UnpackTo proto_config threads s with
  | inl _ => creates proto_config s = false
  | inr _ => creates proto_config s = true
  end.
Proof.
  unfold create, new_ServiceControlCallImpl, creates.
  pose proof (create_sources_error proto_config) as Hs.
  destruct (create_sources proto_config); rewrite Hs; [done|]. simpl.
  pose proof (create_builder_spec UnpackTo s) as Hb.
  destruct (create_builder UnpackTo s); [by rewrite Hb|]. destruct Hb as [-> _]. done.
Qed.

Lemma create_calls_spec proto_config services : ∀ calls,
  match create_calls proto_config services calls with
  | inl _ => ¬ Forall (λ s, creates proto_config s = true) services
  | inr calls' => Forall (λ s, creates proto_config s = true) services ∧
      (∀ k c, calls !! k = Some c → calls' !! k = Some c) ∧
      ∀ s, NoDup (Proto.service_name <$> services) → s ∈ services →
        calls !! Proto.service_name s = None →
        ∃ c, calls' !! Proto.service_name s = Some c ∧ create UnpackTo proto_config threads s = inr c
  end.
Proof.
  induction services as [|s0 services IH]; intros calls; simpl.
  { split_and!; [constructor|done|]. intros s _ Hs. by apply not_elem_of_nil in Hs. }
  pose proof (create_spec proto_config s0) as H0.
  destruct (create UnpackTo proto_config threads s0) as [e|c0] eqn:E0.
  { intros [Hc _]%Forall_cons. congruence. }
  specialize (IH (ConfigParser.emplace (Proto.service_name s0) c0 calls)).
  destruct (create_calls _ _ _) as [e|calls'].
  { intros [_ Hc]%Forall_cons. by apply IH. }
  destruct IH as (Hall&Hkeep&Hnew). split_and!; [by constructor| |].
  - intros k c Hk. apply Hkeep. by rewrite emplace_lookup, Hk.
  - intros s [Hni Hnd]%NoDup_cons Hs Hk. apply elem_of_cons in Hs as [->|Hs].
    + exists c0. split; [|done]. apply Hkeep.
      by rewrite emplace_lookup, Hk, bool_decide_eq_true_2.
    + apply Hnew; [done|done|]. rewrite emplace_lookup, Hk, bool_decide_eq_false_2; [done|].
      intros Heq. apply Hni. rewrite Heq. by apply list_elem_of_fmap_2.
Qed.

Lemma new_ServiceControlFilterConfig_spec proto_config prefix scope :
  match (new_ServiceControlFilterConfig proto_config prefix scope).1 with
  | inl _ => ¬ (config_ok proto_config ∧
                Forall (λ s, creates proto_config s = true) (Proto.services proto_config))
  | inr cfg =>
      config_ok proto_config ∧
      Forall (λ s, creates proto_config s = true) (Proto.services proto_config) ∧
      new_FilterConfigParser proto_config = inr (config_parser_ cfg) ∧
      ∀ s, s ∈ Proto.services proto_config →
        ∃ c, call_of cfg s = Some c ∧ create UnpackTo proto_config threads s = inr c
  end.
Proof.
  unfold new_ServiceControlFilterConfig. simpl.
  pose proof (create_calls_spec proto_config (Proto.services proto_config) ∅) as Hc.
  destruct (create_calls _ _ _) as [e|calls]; [by intros [_ ?]|]. destruct Hc as (Hall&_&Hnew).
  pose proof (new_FilterConfigParser_spec proto_config) as Hp.
  destruct (new_FilterConfigParser proto_config) as [e|parser]; [by intros [? _]|].
  destruct Hp as (Hok&_). split_and!; [apply Hok..|done|done|]. intros s Hs.
  apply (Hnew s); [apply Hok|done|apply lookup_empty].
Qed.

(** The requirements that requests of a configuration have: those it declares, and
    the one for requests that match none. *)
Definition requirement_in (cfg : ServiceControlFilterConfig) (ctx : RequirementContext) : Prop :=
  (∃ op, FindRequirement (config_parser_ cfg) op = Some ctx) ∨
  ctx = non_match_rqm_ctx_ (config_parser_ cfg).

(** The call object of a requirement, and its cache on a thread. *)
Lemma requirement_call proto_config prefix scope cfg thread ctx :
  (new_ServiceControlFilterConfig proto_config prefix scope).1 = inr cfg → thread < threads →
  requirement_in cfg ctx →
  let service := service_config (service_ctx ctx) in
  ∃ c, call_of cfg service = Some c ∧
    new_ServiceControlCallImpl UnpackTo proto_config service threads = inr c ∧
    tls_ c !! thread = Some (new_ThreadLocalCache service proto_config).
Proof.
  intros Hcfg Hthread Hctx. pose proof (new_ServiceControlFilterConfig_spec proto_config prefix scope) as Hs.
  rewrite Hcfg in Hs. destruct Hs as (_&_&Hp&Hcall).
  pose proof (new_FilterConfigParser_spec proto_config) as Hps. rewrite Hp in Hps.
  destruct Hps as (_&Hfind&_&_&_&s0&Hs0&Hn).
  assert (service_config (service_ctx ctx) ∈ Proto.services proto_config) as Hin.
  { destruct Hctx as [[op Hop]| ->].
    - apply Hfind in Hop as (r&s&_&Hs&_&_&->). done.
    - rewrite Hn. by apply list_elem_of_lookup_2 in Hs0. }
  destruct (Hcall _ Hin) as (c&Hc1&Hc2). exists c. split_and!; [done|done|].
  destruct (created_tls _ _ _ _ _ Hc2) as (_&_&_&->). by apply lookup_replicate_2.
Qed.

Lemma pool_counters_lookup names : ∀ scope name,
  foldl pool_counter scope names !! name
  = match scope !! name with
    | Some v => Some v
    | None => if bool_decide (name ∈ names) then Some 0%Z else None
    end.
Proof.
  induction names as [|n names IH]; intros scope name; simpl; [by destruct (scope !! name)|].
  rewrite IH. unfold pool_counter. destruct (decide (n = name)) as [->|Hne].
  - rewrite (bool_decide_eq_true_2 (name ∈ name :: names)) by left.
    destruct (scope !! name) eqn:E; [by rewrite E|by rewrite lookup_insert_eq].
  - rewrite (bool_decide_ext (name ∈ n :: names) (name ∈ names))
      by (rewrite elem_of_cons; naive_solver).
    destruct (scope !! n); [done|]. by rewrite lookup_insert_ne.
Qed.

(** C21: the factory of service control.  It makes the two counters of its prefix, at
    zero unless they are there, and leaves every other counter alone; it throws
    exactly when the configuration is malformed (no services, a name of a service or
    an operation twice, a requirement for an unknown service), when tokens come from
    IAM without a remote access token, or when the configuration of a service does
    not unpack.  Otherwise each stream gets a new filter, which decodes, encodes and
    logs; every requirement that is declared is found under its operation, with its
    service, no others are found, and each is found together with the call object
    made for the service of that requirement. *)
Theorem service_control_factory_correct proto_config prefix scope :
  let '(result, scope') := service_control_factory proto_config prefix scope in
  (∀ name, scope' !! name =
     match scope !! name with
     | Some v => Some v
     | None => if bool_decide (name = prefix +:+ "service_control.allowed" ∨
                               name = prefix +:+ "service_control.denied") then Some 0%Z else None
     end) ∧
  let accepted :=
    config_ok proto_config ∧ iam_without_remote proto_config = false ∧
    Forall (λ s, config_not_unpacked UnpackTo s = false) (Proto.services proto_config) in
  match result with
  | inl _ => ¬ accepted
  | inr add => accepted ∧ ∃ cfg,
      (∀ chain, let f := ServiceControlF cfg new_ScFilter in
         add chain = mkFilterChain (decoder_filters chain ++ [f]) (encoder_filters chain ++ [f])
                       (access_log_handlers chain ++ [f])) ∧
      (∀ r, r ∈ Proto.requirements proto_config → ∃ s,
         s ∈ Proto.services proto_config ∧ Proto.service_name s = Proto.requirement_service_name r ∧
         FindRequirement (config_parser_ cfg) (Proto.operation_name r)
         = Some (new_RequirementContext r (new_ServiceContext s))) ∧
      ∀ op ctx, FindRequirement (config_parser_ cfg) op = Some ctx →
        ∃ r s c, r ∈ Proto.requirements proto_config ∧ s ∈ Proto.services proto_config ∧
          Proto.operation_name r = op ∧ Proto.service_name s = Proto.requirement_service_name r ∧
          ctx = new_RequirementContext r (new_ServiceContext s) ∧
          call_of cfg s = Some c ∧
          new_ServiceControlCallImpl UnpackTo proto_config s threads = inr c
  end.
Proof.
  unfold service_control_factory.
  pose proof (new_ServiceControlFilterConfig_spec proto_config prefix scope) as Hc.
  assert ((new_ServiceControlFilterConfig proto_config prefix scope).2
          = foldl pool_counter scope [prefix +:+ "service_control.allowed";
                                      prefix +:+ "service_control.denied"]) as Hsc.
  { unfold new_ServiceControlFilterConfig, service_control_generateStats, POOL_COUNTER_PREFIX. simpl.
    by rewrite !app_assoc_s. }
  destruct (new_ServiceControlFilterConfig _ _ _) as [config scope']. cbn [fst snd] in Hc, Hsc. subst scope'.
  split.
  { intros name. rewrite pool_counters_lookup. destruct (scope !! name); [done|].
    by rewrite (bool_decide_ext (name ∈ _) (name = prefix +:+ "service_control.allowed" ∨
      name = prefix +:+ "service_control.denied")) by set_solver. }
  assert (config_ok proto_config →
          Forall (λ s, creates proto_config s = true) (Proto.services proto_config) ↔
          iam_without_remote proto_config = false ∧
          Forall (λ s, config_not_unpacked UnpackTo s = false) (Proto.services proto_config)) as Hcr.
  { intros (Hne&_). unfold creates. rewrite !Forall_forall.
    destruct (Proto.services proto_config) as [|s0 ss]; [done|]. split.
    - intros Hf. split.
      + specialize (Hf s0 ltac:(left)). by destruct (iam_without_remote proto_config).
      + intros s Hs. specialize (Hf s Hs). by destruct (iam_without_remote _), (config_not_unpacked _ s).
    - intros [-> Hf] s Hs. by rewrite (Hf s Hs). }
  destruct config as [e|cfg].
  - intros (Hok&Hr). apply Hc. split; [done|]. by apply Hcr.
  - destruct Hc as (Hok&Hall&Hp&Hcall). split; [split; [done|by apply Hcr]|].
    pose proof (new_FilterConfigParser_spec proto_config) as Hps. rewrite Hp in Hps.
    destruct Hps as (_&Hfind&_).
    exists cfg. split; [done|]. split.
    { intros r Hr. destruct Hok as (_&_&Hserv&_). rewrite Forall_forall in Hserv.
      specialize (Hserv r Hr). apply list_elem_of_fmap in Hserv as (s&Hn&Hs).
      exists s. split_and!; [done|done|]. apply Hfind. by exists r, s. }
    intros op ctx Hctx. apply Hfind in Hctx as (r&s&Hr&Hs&Ho&Hn&->). destruct (Hcall s Hs) as (c&Hc1&Hc2).
    by exists r, s, c.
Qed.

End configs.

(** ** A sample configuration *)

#[local] Existing Instance sample_helper.
#[local] Existing Instance sample_env.

Module ConfigSample.

Definition unpack (any : Common.Any) : option LogsMetricsLoader.Service := None.

Definition result : (string + ServiceControlFilterConfig) * Scope :=
  new_ServiceControlFilterConfig unpack 1 Sample.config "http." ∅.
Definition cfg : ServiceControlFilterConfig :=
  match result.1 with
  | inr c => c
  | inl _ => mkServiceControlFilterConfig [] ∅ Sample.parser
  end.

Lemma cfg_ok : result.1 = inr cfg.
Proof.
  assert ((match result.1 with inr _ => true | inl _ => false end) = true) as Hr
    by (vm_compute; reflexivity).
  unfold cfg. by destruct result.1.
Qed.

End ConfigSample.
