(* ===== verification/Gateway.v ===== *)
(** * A request through the chain of filters

    The filters of a stream in the order of the generated configuration: path
    matcher, service control, backend authentication and backend routing; the
    filters of the proxy itself between them are left out.  Service control is
    followed to its end: the check goes to the call object of the service and from
    there over HTTP, the quota call to the client library, and their answers come
    back to the filter, which goes on or rejects. *)
From S2P Require Import Prelude HttpTemplate TemplateGrammar PathMatcherNode PathMatcher RequestPath PathMatcherCorrect RequestInfo SupportedMetrics SupportedLabels RequestBuilder RequestBuilderCorrect LogsMetricsLoader EnvoyUtils RoutingFilters ConfigMessages ConfigParser HandlerUtils Handler ScFilter ServiceControlCorrect HttpCall Token TokenFactory BackendAuth ClientCache ServiceControlCall FilterConfigs.

(** What the world outside does for one request: the random id, what the proxy knows
    of the stream, the times of decoding and of the two answers, the thread, the
    library's cached check and its quota answer, and the HTTP client's answers with
    the tokens at each attempt. *)
Record Outside := mkOutside {
  out_uuid : string;
  out_info : StreamInfo;
  out_now : Z;
  out_check_time : Z;
  out_thread : nat;
  out_cached : option (Status * CheckResponse);
  out_quota : Status * AllocateQuotaResponse;
  out_answers : Z → Answer;
  out_inside : Z → bool;
  out_later : Z → ThreadLocalCache
}.

Definition check_call_of (a : Action) : option (Proto.Service * CheckRequestInfo) :=
  match a with CallCheck service info => Some (service, info) | _ => None end.
Definition quota_call_of (a : Action) : option (Proto.Service * QuotaRequestInfo) :=
  match a with CallQuota service info => Some (service, info) | _ => None end.

(** What becomes of a request: the replies of the filter that stopped it, or the
    headers for the backend. *)
Inductive Outcome (H : Type) :=
  | Rejected (sent : list LocalReply)
  | Forwarded (headers : H).
Arguments Rejected {H}.
Arguments Forwarded {H}.

Section gateway.
Context `{DH : DistributionHelper} `{LE : LabelEnv}.
Context `{HeaderMapLaws H} `{HU : HttpUtility H} `{FilterStateLaws F}.
Context (UnpackTo : Common.Any → option LogsMetricsLoader.Service) (threads : nat).
Context (hasGrpcContentType : H → bool) (grpcToHttpStatus : Z → Z) (status_to_string : Status → string).
Context (extractHostPathFromUri : string → string * string).
Context (serialize_check : CheckRequest Distribution → string).
Context (parse_check : string → CheckResponse * bool).

(** ** Service control to its end *)

#[local] Abbreviation run_callbacks := (run_callbacks grpcToHttpStatus status_to_string).

(** The check that was called, if one was: its answer comes back to the handler. *)
Definition serve_check (cfg : ServiceControlFilterConfig) (o : Outside)
    (w : ScFilter * list Action * H) : option (ScFilter * list Action * H) :=
  let '(f, actions, headers) := w in
  match omap check_call_of actions with
  | [] => Some w
  | (service, info) :: _ =>
      c ← call_of cfg service;
      t ← tls_ c !! out_thread o;
      '(got, _) ← run_service_check extractHostPathFromUri serialize_check parse_check
                    (out_answers o) (out_inside o) (out_later o) c t info (out_cached o);
      match got with
      | [(st, response_info)] =>
          h ← handler_ f;
          ctx ← require_ctx_ h;
          let '(h, more, headers) :=
            check_answer h ctx (out_info o) (out_check_time o) headers st response_info None in
          Some (run_callbacks more (set_handler h f), actions ++ more, headers)
      | _ => None
      end
  end.

(** The quota call likewise. *)
Definition serve_quota (cfg : ServiceControlFilterConfig) (o : Outside)
    (w : ScFilter * list Action * H) : option (ScFilter * list Action * H) :=
  let '(f, actions, headers) := w in
  match omap quota_call_of actions with
  | [] => Some w
  | (service, info) :: _ =>
      c ← call_of cfg service;
      t ← tls_ c !! out_thread o;
      h ← handler_ f;
      let '(_, st) := ServiceControlCall.callQuota c t info (out_quota o) in
      let '(h, more) := quota_answer h st in
      Some (run_callbacks more (set_handler h f), actions ++ more, headers)
  end.

(** The filter from decodeHeaders to the last answer. *)
Definition run_service_control (cfg : ServiceControlFilterConfig) (o : Outside) (headers : H) (fs : F)
  : option (ScFilter * list Action * H) :=
  let '(_, f, actions, headers) :=
    ScFilter.decodeHeaders hasGrpcContentType grpcToHttpStatus status_to_string new_ScFilter headers fs
      (out_info o) (out_uuid o) (config_parser_ cfg) (out_now o) None None in
  w ← serve_check cfg o (f, actions, headers);
  serve_quota cfg o w.

(** ** The chain *)

Record Chain := mkChain {
  chain_matcher : PathMatcherFilter.FilterConfig;
  chain_service_control : ServiceControlFilterConfig;
  chain_auth : AuthConfigParser;
  chain_routing : gmap string BackendRouting.BackendRoutingRule
}.

(** decodeHeaders of the filters, one after the other until one stops; the counters
    are left out. *)
Definition decode_chain (chain : Chain) (o : Outside) (headers : H) (s : Stream F)
  : option (Outcome H) :=
  '(status, _, s) ←
    PathMatcherFilter.decodeHeaders (chain_matcher chain) headers (PathMatcherFilter.mkFilterStats 0 0) s;
  match status with
  | StopIteration => Some (Rejected (replies s))
  | Continue =>
      '(f, _, headers) ← run_service_control (chain_service_control chain) o headers (filter_state s);
      if bool_decide (state_ f = Complete) then
        let '(status, headers, _, s) := auth_decodeHeaders (chain_auth chain) headers 0 s in
        match status with
        | StopIteration => Some (Rejected (replies s))
        | Continue =>
            let '(_, headers, _) :=
              BackendRouting.decodeHeaders (chain_routing chain) headers
                (BackendRouting.mkFilterStats 0 0) (filter_state s) in
            Some (Forwarded headers)
        end
      else Some (Rejected (rejections f))
  end.

(** ** What service control decides *)

Context (proto_config : Proto.FilterConfig) (prefix : string) (scope : Scope).
Context (cfg : ServiceControlFilterConfig).
Hypothesis Hcfg :
  (new_ServiceControlFilterConfig UnpackTo threads proto_config prefix scope).1 = inr cfg.
Context (o : Outside).
Hypothesis Hthread : out_thread o < threads.
Hypothesis Hretries : (0 ≤ check_retries_ (InitHttpRequestSetting proto_config) < 2 ^ 32 - 1)%Z.

(** The verdict of a check for a service: that of a response that was received, and
    the setting otherwise. *)
Definition check_verdict (service : Proto.Service) (st : Status) (info : CheckResponseInfo) : Prop :=
  decided parse_check (out_answers o) (λ n, thread_token (out_later o n))
    (new_ClientCache service proto_config) (out_cached o) st info.

(** The verdict of quota: the library's answer. *)
Definition quota_verdict (service : Proto.Service) : Status :=
  if status_ok (out_quota o).1
  then ConvertAllocateQuotaResponse (out_quota o).2 (Proto.service_name service)
  else (out_quota o).1.

(** The call object of a requirement and its cache on the thread of the request. *)
Lemma call_found op ctx :
  FindRequirement (config_parser_ cfg) op = Some ctx →
  let service := service_config (service_ctx ctx) in
  ∃ c, call_of cfg service = Some c ∧
    new_ServiceControlCallImpl UnpackTo proto_config service threads = inr c ∧
    tls_ c !! out_thread o = Some (new_ThreadLocalCache service proto_config).
Proof using Hcfg Hthread.
  intros Hctx. apply (requirement_call UnpackTo threads proto_config prefix scope); [done|done|].
  left. by exists op.
Qed.

Lemma run_check_verdict op ctx (info : CheckRequestInfo) :
  FindRequirement (config_parser_ cfg) op = Some ctx →
  ∃ c t st response_info effects,
    call_of cfg (service_config (service_ctx ctx)) = Some c ∧ tls_ c !! out_thread o = Some t ∧
    run_service_check extractHostPathFromUri serialize_check parse_check (out_answers o)
      (out_inside o) (out_later o) c t info (out_cached o) = Some ([(st, response_info)], effects) ∧
    check_verdict (service_config (service_ctx ctx)) st response_info.
Proof using Hcfg Hthread Hretries.
  intros Hctx. destruct (call_found op ctx Hctx) as (c&Hc&Hnew&Ht).
  destruct (run_check_spec extractHostPathFromUri serialize_check parse_check (out_answers o)
    (out_inside o) (λ n, thread_token (out_later o n))
    (new_ClientCache (service_config (service_ctx ctx)) proto_config) (check_request c info)
    (out_cached o) Hretries) as (st&ri&effects&Hrun&Hd&_).
  eexists c, _, st, ri, effects. split_and!; [done|exact Ht| |done]. by rewrite run_service_check_eq.
Qed.

Lemma quota_done_verdict service :
  quota_done (new_ClientCache service proto_config) (out_quota o).1 (out_quota o).2
  = quota_verdict service.
Proof.
  unfold quota_done, quota_verdict. simpl. destruct (out_quota o) as [[code msg] response]. simpl.
  by destruct (status_ok (mkStatus code msg)).
Qed.

Lemma run_quota_verdict op ctx :
  FindRequirement (config_parser_ cfg) op = Some ctx →
  ∃ c t, call_of cfg (service_config (service_ctx ctx)) = Some c ∧ tls_ c !! out_thread o = Some t ∧
    quota_done (client_cache_ t) (out_quota o).1 (out_quota o).2
    = quota_verdict (service_config (service_ctx ctx)).
Proof using Hcfg Hthread.
  intros Hctx. destruct (call_found op ctx Hctx) as (c&Hc&_&Ht).
  eexists c, _. split_and!; [done|exact Ht|]. apply quota_done_verdict.
Qed.

(** The filter at its end, for the status it was given. *)
Definition answered (st : Status) (f : ScFilter) : Prop :=
  if status_ok st then state_ f = Complete ∧ forwarded f = 1%Z ∧ rejections f = []
  else state_ f = Responded ∧ forwarded f = 0%Z ∧
       rejections f = [mkLocalReply (grpcToHttpStatus (error_code st)) (status_to_string st)
                         "rejected_by_service_control_check"].

Lemma onCheckDone_answered st f :
  stopped_ f = true → forwarded f = 0%Z → rejections f = [] →
  answered st (onCheckDone grpcToHttpStatus status_to_string st f).
Proof.
  intros Hs Hf Hr. unfold answered, onCheckDone. destruct (status_ok st); simpl; [|by rewrite Hf, Hr].
  by rewrite Hs, Hf, Hr.
Qed.

(** The service of a request's requirement. *)
Definition request_service (ctx : option RequirementContext) : Proto.Service :=
  match ctx with
  | Some ctx => service_config (service_ctx ctx)
  | None => service_config (service_ctx (non_match_rqm_ctx_ (config_parser_ cfg)))
  end.

(** The headers after a check: the consumer project is added when there is one. *)
Definition with_project (info : CheckResponseInfo) (headers : H) : H :=
  if negb (is_empty (consumer_project_id info))
  then hm_set kConsumerProjectId (consumer_project_id info) headers else headers.

Definition made_check (h : Handler) : bool :=
  match require_ctx_ h with Some ctx => isCheckRequired ctx && hasApiKey h | None => false end.

(** The headers that service control leaves. *)
Definition checked_headers (h : Handler) (info : CheckResponseInfo) (headers : H) : H :=
  if made_check h then with_project info headers else headers.

Lemma checked_headers_path h info headers : hm_Path (checked_headers h info headers) = hm_Path headers.
Proof.
  unfold checked_headers, with_project, hm_Path. destruct (made_check h), (is_empty (consumer_project_id info)); try done.
  by apply hm_get_set_ne.
Qed.

Lemma run_service_control_spec (headers : H) (fs : F) :
  let h := new_Handler hasGrpcContentType headers fs (out_uuid o) (config_parser_ cfg) (out_now o) in
  let service := request_service (require_ctx_ h) in
  ∃ f actions headers' check info,
    run_service_control cfg o headers fs = Some (f, actions, headers') ∧
    answered (admission (require_ctx_ h) (hasApiKey h) check (quota_verdict service)) f ∧
    (made_check h = true → check_verdict service check info) ∧
    headers' = checked_headers h info headers.
Proof using Hcfg Hthread Hretries.
  cbv zeta. unfold run_service_control, ScFilter.decodeHeaders, createHandler, checked_headers, made_check.
  set (h := new_Handler _ _ _ _ _ _).
  assert (cancel_fn_ h = false ∧ check_status_ h = Status_OK) as [Hc0 Hs0] by done.
  assert (∀ ctx, require_ctx_ h = Some ctx → ∃ op, FindRequirement (config_parser_ cfg) op = Some ctx)
    as Hfind.
  { intros ctx. subst h. unfold new_Handler. simpl.
    destruct (is_empty (getStringFilterState fs kOperation)); [done|]. eauto. }
  clearbody h. unfold Handler.callCheck, admission, request_service.
  destruct (require_ctx_ h) as [ctx|] eqn:Hctx.
  2: { eexists _, _, _, Status_OK, new_CheckResponseInfo. split; [reflexivity|]. by split_and!. }
  destruct (Hfind ctx eq_refl) as [op Hop].
  destruct (isCheckRequired ctx) eqn:Hreq; simpl.
  - destruct (hasApiKey h) eqn:Hkey; simpl.
    + edestruct (run_check_verdict op ctx) as (c&t&st&ri&effects&Hc&Ht&Hrun&Hv); [done|].
      rewrite Hc. simpl. rewrite Ht. simpl. rewrite Hrun. simpl. rewrite Hctx. simpl.
      unfold check_answer, onCheckResponse. fold (with_project ri headers).
      destruct (status_ok st) eqn:Est; simpl.
      * unfold Handler.callQuota. destruct (isQuotaRequired ctx); simpl.
        -- destruct (run_quota_verdict op ctx Hop) as (c'&t'&Hc'&Ht'&Hq).
           rewrite Hc'. simpl. rewrite Ht'. simpl. rewrite Hq. simpl.
           eexists _, _, _, st, ri. split; [reflexivity|]. rewrite Est. simpl. split_and!; try done.
           by apply onCheckDone_answered.
        -- eexists _, _, _, st, ri. split; [reflexivity|]. rewrite Est. simpl. split_and!; try done.
           by apply onCheckDone_answered.
      * eexists _, _, _, st, ri. split; [reflexivity|]. rewrite Est. simpl. split_and!; try done.
        by apply onCheckDone_answered.
    + eexists _, _, _, Status_OK, new_CheckResponseInfo. split; [reflexivity|]. by split_and!.
  - unfold Handler.callQuota. destruct (isQuotaRequired ctx); simpl.
    + destruct (run_quota_verdict op ctx Hop) as (c'&t'&Hc'&Ht'&Hq).
      rewrite Hc'. simpl. rewrite Ht'. simpl. rewrite Hq. simpl.
      eexists _, _, _, Status_OK, new_CheckResponseInfo. split; [reflexivity|].
      split_and!; try done. by apply onCheckDone_answered.
    + rewrite Hs0. eexists _, _, _, Status_OK, new_CheckResponseInfo. split; [reflexivity|].
      by split_and!.
Qed.

(** ** The whole chain *)

(** The headers for the backend, [headers'], from those that service control leaves:
    the path is routed, the token of the backend is set, and nothing else changes. *)
Definition backend_headers (rules : list BackendRouting.BackendRoutingRule) (op path : string)
    (query token : option string) (headers headers' : H) : Prop :=
  hm_Path headers' = Some match BackendRouting.findRule (BackendRouting.new_FilterConfig rules) op with
                          | Some rule => routed_path rule path query
                          | None => path
                          end ∧
  (∀ t, token = Some t → hm_get headers' "authorization" = Some ("Bearer " +:+ t)) ∧
  ∀ k, k ≠ ":path" → (k ≠ "authorization" ∨ token = None) → hm_get headers' k = hm_get headers k.

(** What becomes of a request of operation [op] that service control answered with
    [st]; [query] is made of its path parameters. *)
Definition settles (auth_config : AuthConfig) (updates : list (string * string))
    (rules : list BackendRouting.BackendRoutingRule) (op path : string) (query : option string)
    (st : Status) (sent : list LocalReply) (headers : H) (outcome : Outcome H) : Prop :=
  if status_ok st then
    match backend_token auth_config updates op with
    | Some None =>
        outcome = Rejected (sent ++ [mkLocalReply 500 "missing tokens" "missing_backend_token"])
    | Some (Some t) => ∃ headers', outcome = Forwarded headers' ∧
        backend_headers rules op path query (Some t) headers headers'
    | None => ∃ headers', outcome = Forwarded headers' ∧
        backend_headers rules op path query None headers headers'
    end
  else
    outcome = Rejected [mkLocalReply (grpcToHttpStatus (error_code st)) (status_to_string st)
                          "rejected_by_service_control_check"].

(** The filters after service control. *)
Lemma after_service_control auth_config updates rules op path query (s : Stream F) headers :
  fs_get (filter_state s) kOperation = Some op → fs_get (filter_state s) kQueryParams = query →
  (∀ q, query = Some q → is_empty q = false) → op ≠ "" → hm_Path headers = Some path →
  settles auth_config updates rules op path query Status_OK (replies s) headers
    (let '(status, headers, _, s) :=
       auth_decodeHeaders (foldl BackendAuth.update_token (new_AuthConfigParser auth_config) updates)
         headers 0 s in
     match status with
     | StopIteration => Rejected (replies s)
     | Continue =>
         let '(_, headers, _) :=
           BackendRouting.decodeHeaders (BackendRouting.new_FilterConfig rules) headers
             (BackendRouting.mkFilterStats 0 0) (filter_state s) in
         Forwarded headers
     end).
Proof.
  intros Ho Hq Hne Hop Hp. unfold settles. simpl.
  pose proof (auth_decodeHeaders_spec auth_config updates headers 0 s) as Ha. cbv zeta in Ha.
  assert (getStringFilterState (filter_state s) kOperation = op) as Hop'
    by (unfold getStringFilterState; by rewrite Ho).
  rewrite Hop', (proj2 (is_empty_false op) Hop) in Ha.
  destruct (auth_decodeHeaders _ _ _ _) as [[[status hs] n] s'].
  destruct (backend_token auth_config updates op) as [[t|]|].
  - destruct Ha as (->&_&->&Ht&Hk).
    pose proof (routing_decode (BackendRouting.new_FilterConfig rules) hs
      (BackendRouting.mkFilterStats 0 0) (filter_state s) op query path Ho Hq Hne) as Hr.
    specialize (Hr ltac:(unfold hm_Path; rewrite Hk by done; done)).
    destruct (BackendRouting.decodeHeaders _ _ _ _) as [[st' hs'] stats].
    destruct Hr as (_&Hk'&Hpath). eexists. split; [done|]. split_and!; [by apply Hpath| |].
    + intros t' [= <-]. by rewrite Hk'.
    + intros k Hk1 [Hk2|?]; [|done]. by rewrite Hk', Hk.
  - destruct Ha as (->&_&_&->). done.
  - destruct Ha as (->&->&_&->).
    pose proof (routing_decode (BackendRouting.new_FilterConfig rules) headers
      (BackendRouting.mkFilterStats 0 0) (filter_state s) op query path Ho Hq Hne Hp) as Hr.
    destruct (BackendRouting.decodeHeaders _ _ _ _) as [[st' hs'] stats].
    destruct Hr as (_&Hk'&Hpath). eexists. split; [done|]. split_and!; [by apply Hpath|done|].
    intros k Hk1 _. by rewrite Hk'.
Qed.

Lemma settles_ok auth_config updates rules op path query st sent headers outcome :
  status_ok st = true →
  settles auth_config updates rules op path query Status_OK sent headers outcome →
  settles auth_config updates rules op path query st sent headers outcome.
Proof. unfold settles. by intros ->. Qed.

Lemma new_Handler_ctx headers (fs : F) op :
  fs_get fs kOperation = Some op →
  require_ctx_ (new_Handler hasGrpcContentType headers fs (out_uuid o) (config_parser_ cfg) (out_now o))
  = if is_empty op then None else FindRequirement (config_parser_ cfg) op.
Proof. intros Ho. unfold new_Handler, getStringFilterState. simpl. by rewrite Ho. Qed.

(** C4: a request through the chain.  It always has an outcome.  When no URI template
    matches it is answered with 404.  Otherwise some rule that matches decides its
    operation, service control answers once, with the status that the requirement of
    the operation, the API key, the verdict of the check and that of quota
    determine; the check is decided by the response received for the service of the
    operation, or by network_fail_open when none was.  With any other status than OK
    the request is rejected with it.  With OK it is rejected with 500 if the
    operation has an audience without a token, and forwarded otherwise: to the path
    of the operation's backend rule, with the token of the audience and the consumer
    project of the check, if it has one, and with no other header changed. *)
Theorem gateway_correct pc config auth_config updates rules (headers : H) (s : Stream F) m0 path :
  PathMatcherFilter.new_FilterConfig pc = inr config →
  Forall (λ r, fits_int (PathMatcherFilter.pattern_uri_template r)) (PathMatcherFilter.rules pc) →
  hm_Method headers = Some m0 → hm_Path headers = Some path → fits_int path →
  fs_get (filter_state s) kOperation = None → fs_get (filter_state s) kQueryParams = None →
  let chain := mkChain config cfg (foldl BackendAuth.update_token (new_AuthConfigParser auth_config) updates)
                 (BackendRouting.new_FilterConfig rules) in
  let method := getRequestHTTPMethodWithOverride m0 headers in
  let parts := parts_of (PathMatcherFilter.path_matcher_ config) path in
  let registered := rule_of <$> PathMatcherFilter.rules pc in
  ∃ outcome, decode_chain chain o headers s = Some outcome ∧
    (((∀ r ht, entry registered r ht → ¬ rule_matches r ht method parts) ∧
      ∃ sent, outcome = Rejected sent ∧ reply_code <$> last sent = Some 404%Z) ∨
     ∃ r ht fs check info,
       let op := rule_method r in
       let h := new_Handler hasGrpcContentType headers fs (out_uuid o) (config_parser_ cfg) (out_now o) in
       let service := request_service (require_ctx_ h) in
       entry registered r ht ∧ rule_matches r ht method parts ∧
       require_ctx_ h = (if is_empty op then None else FindRequirement (config_parser_ cfg) op) ∧
       (made_check h = true → check_verdict service check info) ∧
       settles auth_config updates rules op path (stored_query config op ht parts)
         (admission (require_ctx_ h) (hasApiKey h) check (quota_verdict service)) (replies s)
         (checked_headers h info headers) outcome).
Proof using Hcfg Hthread Hretries H1 H3.
  intros Hpc Hsmall Hm Hp Hfit Hop Hqp. cbv zeta. unfold decode_chain. simpl.
  destruct (decodeHeaders_spec pc config Hpc Hsmall headers (PathMatcherFilter.mkFilterStats 0 0) s m0
    path Hm Hp Hfit Hop Hqp) as (status&stats&s'&E&Hcase). rewrite E. cbn [mbind option_bind].
  destruct Hcase as [(->&Hrep&_&r&ht&He&Hmatch&Hfo&Hfq)|(->&_&_&Hlast&Hno)].
  2: { eexists. split; [done|]. left. split; [done|]. by exists (replies s'). }
  destruct (run_service_control_spec headers (filter_state s'))
    as (f&actions&headers'&check&info&Hrun&Hans&Hcv&->). rewrite Hrun. cbn [mbind option_bind].
  pose proof (new_Handler_ctx headers (filter_state s') (rule_method r) Hfo) as Hctx.
  set (h := new_Handler _ headers (filter_state s') _ _ _) in *.
  set (st := admission _ _ _ _) in *. unfold answered in Hans.
  destruct (status_ok st) eqn:Est.
  - destruct Hans as (->&_&_). rewrite bool_decide_eq_true_2 by done. eexists.
    split; [|right; exists r, ht, (filter_state s'), check, info; split_and!; try done].
    2: { rewrite <-Hrep. apply settles_ok; [exact Est|]. eapply (after_service_control _ _ _ _ _ _ s').
         - exact Hfo.
         - exact Hfq.
         - intros q. apply stored_query_not_empty.
         - intros Hnil. subst st. rewrite Hctx, Hnil in Est. done.
         - by rewrite checked_headers_path. }
    destruct (auth_decodeHeaders _ _ _ _) as [[[[] ?] ?] ?]; [|done].
    by destruct (BackendRouting.decodeHeaders _ _ _ _) as [[? ?] ?].
  - destruct Hans as (->&_&->). rewrite bool_decide_eq_false_2 by done. eexists. split; [done|].
    right. exists r, ht, (filter_state s'), check, info. split_and!; try done.
    unfold settles. change (admission _ _ _ _) with st. by rewrite Est.
Qed.

End gateway.

(** ** A sample request *)

#[local] Existing Instance sample_helper.
#[local] Existing Instance sample_env.
#[local] Existing Instance Sample.utility.

Module GatewaySample.

Definition matcher_proto : PathMatcherFilter.ProtoConfig :=
  PathMatcherFilter.mkProtoConfig
    [PathMatcherFilter.mkPathMatcherRule "GetShelf" "GET" "/shelves/{shelf_id}" true]
    [("shelf_id", "shelfId")].

Definition matcher : PathMatcherFilter.FilterConfig :=
  Eval vm_compute in
    match PathMatcherFilter.new_FilterConfig matcher_proto with
    | inr c => c
    | inl _ => PathMatcherFilter.mkFilterConfig new_builder ∅ ∅
    end.

Lemma matcher_ok : PathMatcherFilter.new_FilterConfig matcher_proto = inr matcher.
Proof. vm_compute. reflexivity. Qed.

Lemma retries_ok : (0 ≤ check_retries_ (InitHttpRequestSetting Sample.config) < 2 ^ 32 - 1)%Z.
Proof. vm_compute. by split. Qed.

Definition auth : AuthConfig :=
  mkAuthConfig [mkBackendAuthRule "GetShelf" "aud"] (ImdsToken (Common.mkHttpUri "http://m" "c")).

Definition rules : list BackendRouting.BackendRoutingRule :=
  [BackendRouting.mkBackendRoutingRule "GetShelf" true "/get"].

Definition chain : Chain :=
  mkChain matcher ConfigSample.cfg (foldl BackendAuth.update_token (new_AuthConfigParser auth) [("aud", "id")])
    (BackendRouting.new_FilterConfig rules).

Definition headers : gmap string string :=
  {[":method" := "GET"; ":path" := "/shelves/3?lang=de"; "x-api-key" := "k"]}.
Definition stream : Stream (gmap string string) := mkStream ∅ [] false.

(** The first attempt of the check fails inside send(), the second is answered. *)
Definition outside (response : CheckResponse) : Outside :=
  mkOutside "uuid" Sample.info 0 0 0 None (Status_OK, mkAllocateQuotaResponse [])
    (λ n, if (n =? 1)%Z then Failure else Success (Some 200%Z) "body") (λ n, (n =? 1)%Z)
    (λ _, set_sc_token "t" (new_ThreadLocalCache Sample.service Sample.config)).

Definition run (response : CheckResponse) : option (Outcome (gmap string string)) :=
  decode_chain (λ _, false) (λ c, c) error_message (λ uri, ("sc", uri)) cr_service_name
    (λ _, (response, true)) chain (outside response) headers stream.

End GatewaySample.

(** A check without errors lets the request pass, with the project of the consumer;
    one with an error rejects it. *)
Lemma gateway_correct_witness :
  (match GatewaySample.run (mkCheckResponse 7 []) with
   | Some (Forwarded hs) =>
       hm_Path hs = Some "/get?lang=de&shelfId=3" ∧ hm_get hs "authorization" = Some "Bearer id" ∧
       hm_get hs kConsumerProjectId = Some "7"
   | _ => False
   end) ∧
  (match GatewaySample.run (mkCheckResponse 7 [CE_API_KEY_INVALID]) with
   | Some (Rejected [r]) => reply_code r = Code.INVALID_ARGUMENT
   | _ => False
   end) ∧
  ∃ outcome, GatewaySample.run (mkCheckResponse 7 []) = Some outcome.
Proof.
  split; [vm_compute; by split_and!|]. split; [vm_compute; reflexivity|].
  destruct (gateway_correct (F := gmap string string) ConfigSample.unpack 1 (λ _, false) (λ c, c)
    error_message
    (λ uri, ("sc", uri)) cr_service_name (λ _, (mkCheckResponse 7 [], true)) Sample.config "http." ∅
    ConfigSample.cfg ConfigSample.cfg_ok (GatewaySample.outside (mkCheckResponse 7 [])) (le_n 1)
    GatewaySample.retries_ok GatewaySample.matcher_proto GatewaySample.matcher GatewaySample.auth
    [("aud", "id")] GatewaySample.rules GatewaySample.headers GatewaySample.stream "GET"
    "/shelves/3?lang=de" GatewaySample.matcher_ok) as (outcome&E&_).
  - repeat (constructor; [vm_compute; reflexivity|]). constructor.
  - reflexivity.
  - reflexivity.
  - vm_compute. reflexivity.
  - reflexivity.
  - reflexivity.
  - exists outcome. exact E.
Defined.
