(* ===== verification/ReportPath.v ===== *)
(** * Reports from the handler to the client library

    The reports of a request, the intermediate ones while data flows and the final
    one, go to the call object of the service of the request, which builds a request
    of service control from each and hands it to the client library. *)
From S2P Require Import Prelude RequestInfo SupportedMetrics SupportedLabels RequestBuilder RequestBuilderCorrect LogsMetricsLoader EnvoyUtils ConfigMessages ConfigParser HandlerUtils Handler RoutingFilters ScFilter ServiceControlCorrect HttpCall Token TokenFactory ClientCache ServiceControlCall FilterConfigs.

Section delivery.
Context `{HeaderMapOps H}.
Context `{DH : DistributionHelper} `{LE : LabelEnv} {Hdist : DistributionHelperOk}.
Context (UnpackTo : Common.Any → option LogsMetricsLoader.Service) (threads : nat).

(** A report on the thread of its request. *)
Definition deliver (cfg : ServiceControlFilterConfig) (thread : nat) (r : Report) : option LibraryCall :=
  c ← call_of cfg r.1;
  t ← tls_ c !! thread;
  ServiceControlCall.callReport c t r.2.

Context (proto_config : Proto.FilterConfig) (prefix : string) (scope : Scope).
Context (cfg : ServiceControlFilterConfig).
Hypothesis Hcfg :
  (new_ServiceControlFilterConfig UnpackTo threads proto_config prefix scope).1 = inr cfg.

Lemma created_builder_ok service c :
  create UnpackTo proto_config threads service = inr c →
  builder_ok (request_builder_ c) ∧ service_name_ (request_builder_ c) = Proto.service_name service ∧
  service_config_id_ (request_builder_ c) = Proto.service_config_id service.
Proof.
  intros Hc. destruct (created_tls _ _ _ _ _ Hc) as (_&Hb&_).
  pose proof (create_builder_spec UnpackTo service) as Hs. rewrite Hb in Hs.
  destruct Hs as (_&Hn&Hid). split; [|done]. unfold create_builder in Hb.
  destruct (Proto.service_config service) as [any|]; [destruct (UnpackTo any) as [origin|]; [|done]|].
  - destruct (Load origin ∅ ∅ ∅) as [[[logs metrics] labels] st]. injection Hb as <-.
    apply RequestBuilder_select_ok.
  - injection Hb as <-. apply RequestBuilder_all_ok.
Qed.

(** The request made of a report: for the service of the report, with the main
    operation, and the one by consumer when the check found a consumer project. *)
Definition reported_as (c : ServiceControlCallImpl) (r : Report) (request : ReportRequest Distribution)
  : Prop :=
  let rb := request_builder_ c in
  ∃ main by_consumer,
    request = mkReportRequest (Proto.service_name r.1) (Proto.service_config_id r.1)
                (main :: if is_empty (consumer_project_id (check_response_info r.2)) then []
                         else [by_consumer]) ∧
    describes rb r.2 (operation_id r.2) (λ l, negb (by_consumer_only l)) (main_metric r.2)
      (report_logs rb r.2) main ∧
    describes rb r.2 (operation_id r.2 +:+ "1") (λ _, true)
      (λ m, bool_decide (mark m = PRODUCER_BY_CONSUMER)) [] by_consumer.

(** The metrics of the main operation. *)
Definition main_metrics (request : ReportRequest Distribution) : list (MetricValueSet Distribution) :=
  from_option op_metric_value_sets [] (head (rr_operations request)).

Lemma deliver_reported thread c service r :
  call_of cfg service = Some c → create UnpackTo proto_config threads service = inr c →
  is_Some (tls_ c !! thread) → r.1 = service → (-100 < response_code r.2)%Z →
  ∃ request, deliver cfg thread r = Some (LibraryReport request) ∧ reported_as c r request ∧
    ∃ op rest, FillReportRequest (request_builder_ c) r.2 empty_ReportRequest
      = Some (mkReportRequest (service_name_ (request_builder_ c))
                (service_config_id_ (request_builder_ c))
                (rr_operations empty_ReportRequest ++ op :: rest), Status_OK) ∧
      main_metrics request = op_metric_value_sets op.
Proof using Hdist.
  intros Hc Hnew [t Ht] Hr Hcode. destruct (created_builder_ok service c Hnew) as (Hok&Hn&Hid).
  destruct (FillReportRequest_describes (request_builder_ c) r.2 empty_ReportRequest Hok Hcode)
    as (main&byc&E&Hmain&Hbyc).
  unfold deliver, ServiceControlCall.callReport. rewrite Hr, Hc. simpl. rewrite Ht. simpl. rewrite E. simpl.
  eexists. split; [done|]. split.
  - exists main, byc. rewrite Hr, Hn, Hid. done.
  - by eexists main, _.
Qed.

Lemma deliver_all thread c service reports :
  call_of cfg service = Some c → create UnpackTo proto_config threads service = inr c →
  is_Some (tls_ c !! thread) → Forall (λ r, r.1 = service ∧ (-100 < response_code r.2)%Z) reports →
  ∃ requests ops, mapM (deliver cfg thread) reports = Some (LibraryReport <$> requests) ∧
    Forall2 (reported_as c) reports requests ∧
    Forall2 (λ info op, ∃ rest, FillReportRequest (request_builder_ c) info empty_ReportRequest
      = Some (mkReportRequest (service_name_ (request_builder_ c))
                (service_config_id_ (request_builder_ c))
                (rr_operations empty_ReportRequest ++ op :: rest), Status_OK)) reports.*2 ops ∧
    requests ≫= main_metrics = ops ≫= op_metric_value_sets.
Proof using Hdist.
  intros Hc Hnew Ht. induction 1 as [|r reports [Hr Hcode] _ IH].
  { exists [], []. split_and!; [done|constructor|constructor|done]. }
  destruct IH as (requests&ops&Hm&Hrep&Hops&Hmet).
  destruct (deliver_reported thread c service r Hc Hnew Ht Hr Hcode) as (q&Hq&Has&op&rest&E&Hop).
  exists (q :: requests), (op :: ops). split_and!.
  - simpl. by rewrite Hq, Hm.
  - by constructor.
  - constructor; [by exists rest|done].
  - rewrite !bind_cons. by rewrite Hop, Hmet.
Qed.

(** C12: the reports of a request on their way.  Take a request of the configuration
    with an id, whose operation has a name and does not skip service control, and whose
    JWT payloads can be printed; a response code above -100; and for intermediate
    reports of gRPC a requirement and a known protocol of the response, which is the
    case from the response headers on (an intermediate report before them reads the
    protocol unset).  Then the reports of the handler, the intermediate ones at any
    times from there and the final one, all reach the client library through the call
    object of the service of its requirement; each is a request for that service with
    an operation of the request's id and name, and one by consumer when there is a
    project; and over all of them every metric that the service asks for is sent as its
    tag says: START once, with the first, FINAL once, with the last, INTERMEDIATE with
    each. *)
Theorem reports_delivered thread h events si (rh rsh rt : option H) now :
  let ctx := report_ctx h in
  let service := service_config (service_ctx ctx) in
  thread < threads → cfg_parser_ h = config_parser_ cfg →
  (∀ ctx, require_ctx_ h = Some ctx → ∃ op, FindRequirement (config_parser_ cfg) op = Some ctx) →
  uuid_ h ≠ "" → Proto.operation_name (requirement_config ctx) ≠ "" →
  is_first_report_ h = true → isReportRequired ctx = true →
  (events ≠ [] → is_grpc_ h = true → is_Some (require_ctx_ h) ∧ is_Some (frontend_protocol_ h)) →
  is_Some (fillJwtPayloads (jwt_metadata si) (Proto.jwt_payload_metadata_name service)
             (Proto.log_jwt_payloads service) "") →
  (-100 < default 500 (responseCode si))%Z →
  ∃ c reports requests, call_of cfg service = Some c ∧
    run_reports h events si rh rsh rt now = Some reports ∧ reports ≠ [] ∧ stream_ok reports.*2 ∧
    mapM (deliver cfg thread) reports = Some (LibraryReport <$> requests) ∧
    Forall2 (reported_as c) reports requests ∧
    Forall (report_for h) reports ∧
    ∀ m, m ∈ metrics_ (request_builder_ c) →
      base.filter (λ vs, metric_name vs = metric_entry_name m) (requests ≫= main_metrics)
      = stream_contribution m reports.*2.
Proof using Hcfg Hdist.
  cbv zeta. intros Hthread Hparser Hreq Hid Hname Hfirst Hneed Hg Hjwt Hcode.
  assert (requirement_in cfg (report_ctx h)) as Hin.
  { unfold requirement_in, report_ctx. rewrite Hparser.
    destruct (require_ctx_ h) as [ctx|]; [left; by apply Hreq|by right]. }
  destruct (requirement_call UnpackTo threads proto_config prefix scope cfg thread (report_ctx h)
    Hcfg Hthread Hin) as (c&Hc&Hnew&Ht).
  destruct (run_reports_stream h events si rh rsh rt now Hfirst Hneed Hg Hjwt)
    as (reports&E&Hne&Hs&Hall).
  assert (Forall (λ r, r.1 = service_config (service_ctx (report_ctx h)) ∧
                       (-100 < response_code r.2)%Z) reports) as Hcodes.
  { eapply Forall_impl; [exact Hall|]. intros r [(Hr&_&_) Hrc]. split; [done|].
    rewrite Hrc. by destruct (is_final_report r.2). }
  destruct (deliver_all thread c _ reports Hc Hnew (mk_is_Some _ _ Ht) Hcodes)
    as (requests&ops&Hm&Hrep&Hops&Hmet).
  exists c, reports, requests. split_and!; [done..| |].
  - eapply Forall_impl; [exact Hall|]. by intros r [? _].
  - intros m Hmm. rewrite Hmet. destruct (created_builder_ok _ c Hnew) as (Hok&_).
    eapply FillReportRequest_stream; [done|done|done| |exact Hops].
    apply Forall_fmap, Forall_forall. intros r Hr. rewrite Forall_forall in Hall, Hcodes. simpl.
    destruct (Hall r Hr) as [(_&Hr1&Hr2) _]. destruct (Hcodes r Hr) as [_ Hr3]. split; [|done].
    unfold has_operation. rewrite Hr1, Hr2.
    by rewrite (proj2 (is_empty_false _) Hid), (proj2 (is_empty_false _) Hname).
Qed.

End delivery.

(** ** A sample: a gRPC stream with two intermediate reports *)

#[local] Existing Instance sample_helper.
#[local] Existing Instance sample_helper_ok.
#[local] Existing Instance sample_env.
#[local] Existing Instance Sample.utility.

Definition sample_stream : Handler :=
  processResponseHeaders
    (new_Handler Sample.grpc Sample.headers (Sample.state "GetShelf") "uuid" (config_parser_ ConfigSample.cfg) 0)
    Sample.info Sample.response.

Lemma reports_delivered_witness :
  ∃ (reports : list Report) (requests : list (ReportRequest _)),
    run_reports sample_stream [(Sample.info, 10000000000%Z); (Sample.info, 20000000000%Z)]
      Sample.info (Some Sample.headers) (Some Sample.response) None 21000000000 = Some reports ∧
    mapM (deliver ConfigSample.cfg 0) reports = Some (LibraryReport <$> requests) ∧
    stream_ok reports.*2.
Proof.
  destruct (reports_delivered ConfigSample.unpack 1 Sample.config "http." ∅ ConfigSample.cfg
    ConfigSample.cfg_ok 0 sample_stream
    [(Sample.info, 10000000000%Z); (Sample.info, 20000000000%Z)] Sample.info (Some Sample.headers)
    (Some Sample.response) None 21000000000) as (c&reports&requests&_&E&_&Hs&Hm&_).
  - apply le_n.
  - reflexivity.
  - intros ctx Hctx. exists "GetShelf". exact Hctx.
  - discriminate.
  - vm_compute. discriminate.
  - reflexivity.
  - vm_compute. reflexivity.
  - intros _ _. split; vm_compute; eexists; reflexivity.
  - vm_compute. eexists. reflexivity.
  - vm_compute. reflexivity.
  - exists reports, requests. split; [exact E|]. split; [exact Hm|exact Hs].
Defined.
