(* ===== verification/Streams.v ===== *)
(** * Many streams and their counters

    The streams of a server, on all its threads, interleave their steps; what they
    share of service control is the configuration, which does not change, and the
    two counters of the filter in the scope of the server.  [allowed_] and [denied_]
    of a filter in [ScFilter] are its own shares of these counters. *)
From S2P Require Import Prelude RequestInfo EnvoyUtils RoutingFilters ConfigParser HandlerUtils Handler ScFilter ServiceControlCorrect FilterConfigs.

(** ** Totals over a map *)

Section total.
Context {A : Type} (g : A → Z).

Definition total (m : gmap nat A) : Z := map_fold (λ _ a acc, g a + acc)%Z 0%Z m.

Lemma total_empty : total ∅ = 0%Z.
Proof. apply map_fold_empty. Qed.

Lemma total_insert_new m i a : m !! i = None → total (<[i := a]> m) = (g a + total m)%Z.
Proof. intros Hi. unfold total. rewrite map_fold_insert_L; [done|intros; lia|done]. Qed.

Lemma total_delete m i a : m !! i = Some a → total m = (g a + total (delete i m))%Z.
Proof. intros Hi. unfold total. rewrite (map_fold_delete_L _ _ i a); [done|intros; lia|done]. Qed.

Lemma total_insert m i a b :
  m !! i = Some a → total (<[i := b]> m) = (total m - g a + g b)%Z.
Proof.
  intros Hi. rewrite (total_delete m i a Hi).
  rewrite <-insert_delete_eq, total_insert_new by apply lookup_delete_eq. lia.
Qed.

End total.

(** The number of entries with a property. *)
Definition count {A} (p : A → bool) (m : gmap nat A) : Z := total (λ a, if p a then 1 else 0)%Z m.

Lemma total_ext {A} (f g : A → Z) m :
  (∀ i a, m !! i = Some a → f a = g a) → total f m = total g m.
Proof.
  induction m as [|i a m Hi IH] using map_ind; intros Hfg; [done|].
  rewrite !total_insert_new by done. rewrite (Hfg i a) by apply lookup_insert_eq.
  f_equal. apply IH. intros j b Hj. apply (Hfg j). rewrite lookup_insert_ne; [done|congruence].
Qed.

Lemma total_add {A} (f g : A → Z) m : (total f m + total g m = total (λ a, f a + g a) m)%Z.
Proof.
  induction m as [|i a m Hi IH] using map_ind; [done|]. rewrite !total_insert_new by done. lia.
Qed.

Lemma total_const {A} (m : gmap nat A) : total (λ _, 1%Z) m = Z.of_nat (size m).
Proof.
  induction m as [|i a m Hi IH] using map_ind; [done|].
  rewrite total_insert_new, map_size_insert_None by done. lia.
Qed.

(** ** The server *)

Section streams.
Context `{HeaderMapOps H} `{HttpUtility H} `{FilterStateOps F}.
Context (hasGrpcContentType : H → bool) (grpcToHttpStatus : Z → Z) (status_to_string : Status → string).
(** The names of the two counters in the scope. *)
Context (allowed_name denied_name : string).

#[local] Abbreviation filter_step :=
  (ScFilter.step (F := F) hasGrpcContentType grpcToHttpStatus status_to_string).
#[local] Abbreviation filter_reachable :=
  (ScFilter.reachable (F := F) hasGrpcContentType grpcToHttpStatus status_to_string).

(** The scope and the streams so far; a stream that is gone stays in the map. *)
Record Server := mkServer { server_scope : Scope; streams : gmap nat (ScFilter.World (H := H)) }.

(** What a step of a stream adds to the counters. *)
Definition count_step (w w' : ScFilter.World (H := H)) (scope : Scope) : Scope :=
  add_counter denied_name (denied_ (filter w') - denied_ (filter w))
    (add_counter allowed_name (allowed_ (filter w') - allowed_ (filter w)) scope).

(** A stream comes, and the factory's function adds a new filter to its chain; or
    a stream makes a step. *)
Inductive server_step : Server → Server → Prop :=
  | server_new scope m i headers :
      m !! i = None →
      server_step (mkServer scope m) (mkServer scope (<[i := mkWorld new_ScFilter headers false false]> m))
  | server_filter scope m i w w' :
      m !! i = Some w → filter_step w w' →
      server_step (mkServer scope m) (mkServer (count_step w w' scope) (<[i := w']> m)).

(** Reachable from a scope in which the counters were made. *)
Inductive server_reachable (scope0 : Scope) : Server → Prop :=
  | server_start : server_reachable scope0 (mkServer scope0 ∅)
  | server_more s s' : server_reachable scope0 s → server_step s s' → server_reachable scope0 s'.

Definition in_state (st : State) (w : ScFilter.World (H := H)) : bool :=
  bool_decide (state_ (filter w) = st).

(** The shares of a filter, from its state. *)
Lemma shares w : filter_reachable w →
  allowed_ (filter w) = (if in_state Complete w then 1 else 0)%Z ∧
  denied_ (filter w) = (if in_state Responded w then 1 else 0)%Z.
Proof.
  intros Hr%reachable_invariant. unfold invariant, in_state in *.
  destruct (state_ (filter w)); simpl; destruct_and?; done.
Qed.

Lemma add_counter_eq name n scope v :
  scope !! name = Some v → add_counter name n scope !! name = Some (n + v)%Z.
Proof. intros Hv. unfold add_counter. by rewrite lookup_alter_eq, Hv. Qed.

Lemma add_counter_ne name name' n scope :
  name ≠ name' → add_counter name n scope !! name' = scope !! name'.
Proof. intros Hn. unfold add_counter. by rewrite lookup_alter_ne. Qed.

Lemma server_invariant scope0 s :
  allowed_name ≠ denied_name →
  scope0 !! allowed_name = Some 0%Z → scope0 !! denied_name = Some 0%Z →
  server_reachable scope0 s →
  server_scope s !! allowed_name = Some (total (λ w, allowed_ (filter w)) (streams s)) ∧
  server_scope s !! denied_name = Some (total (λ w, denied_ (filter w)) (streams s)) ∧
  (∀ name, name ≠ allowed_name → name ≠ denied_name → server_scope s !! name = scope0 !! name) ∧
  ∀ i w, streams s !! i = Some w → filter_reachable w.
Proof.
  intros Hne Ha Hd. induction 1 as [|s s' _ IH Hstep].
  { simpl. rewrite !total_empty. split_and!; [done..|]. intros i w. by rewrite lookup_empty. }
  destruct IH as (IHa&IHd&IHo&IHr). destruct Hstep as [scope m i hs Hi|scope m i w w' Hi Hs]; simpl in *.
  - rewrite !total_insert_new by done. split_and!; [done..|].
    intros j w. destruct (decide (i = j)) as [<-|Hij].
    + rewrite lookup_insert_eq. intros [= <-]. constructor.
    + rewrite lookup_insert_ne by done. apply IHr.
  - rewrite (total_insert _ m i w), (total_insert (λ w, denied_ (filter w)) m i w) by done.
    unfold count_step. split_and!.
    + rewrite add_counter_ne by done. rewrite (add_counter_eq _ _ _ _ IHa). f_equal. lia.
    + erewrite add_counter_eq by (rewrite add_counter_ne by done; exact IHd). f_equal. lia.
    + intros name Hn1 Hn2. rewrite !add_counter_ne by done. by apply IHo.
    + intros j w2. destruct (decide (i = j)) as [<-|Hij].
      * rewrite lookup_insert_eq. intros [= <-]. eapply reachable_step; [|exact Hs]. by eapply IHr.
      * rewrite lookup_insert_ne by done. apply IHr.
Qed.

Lemma counter_states scope0 s :
  allowed_name ≠ denied_name →
  scope0 !! allowed_name = Some 0%Z → scope0 !! denied_name = Some 0%Z →
  server_reachable scope0 s →
  server_scope s !! allowed_name = Some (count (in_state Complete) (streams s)) ∧
  server_scope s !! denied_name = Some (count (in_state Responded) (streams s)) ∧
  (∀ name, name ≠ allowed_name → name ≠ denied_name → server_scope s !! name = scope0 !! name) ∧
  (count (in_state Init) (streams s) + count (in_state Calling) (streams s) +
   count (in_state Complete) (streams s) + count (in_state Responded) (streams s)
   = Z.of_nat (size (streams s)))%Z.
Proof.
  intros Hne Ha Hd Hs. destruct (server_invariant scope0 s Hne Ha Hd Hs) as (Ha'&Hd'&Ho&Hr).
  unfold count. rewrite Ha', Hd'. split_and!; [| |done|].
  - f_equal. apply total_ext. intros i w Hi. by apply (shares w), (Hr i).
  - f_equal. apply total_ext. intros i w Hi. by apply (shares w), (Hr i).
  - rewrite !total_add, <-total_const. apply total_ext. intros i w _. unfold in_state.
    by destruct (state_ (filter w)).
Qed.

End streams.

Lemma app_inj_l_s p s t : p +:+ s = p +:+ t → s = t.
Proof.
  induction p as [|c p IH]; [done|]. rewrite !app_cons_s. intros [= Heq]. by apply IH.
Qed.

Section counters.
Context `{HeaderMapOps H} `{HttpUtility H} `{FilterStateOps F}.
Context (hasGrpcContentType : H → bool) (grpcToHttpStatus : Z → Z) (status_to_string : Status → string).

(** C8: however the streams of a server interleave, the counters that the
    configuration of the filter made are exact: allowed counts the streams whose
    request was let through, denied those whose request was rejected; no other counter
    is touched, and every stream is not decoded yet, waiting, let through or rejected. *)
Theorem counters_exact prefix scope s :
  let allowed := prefix +:+ "service_control.allowed" in
  let denied := prefix +:+ "service_control.denied" in
  scope !! allowed = None → scope !! denied = None →
  server_reachable (F := F) hasGrpcContentType grpcToHttpStatus status_to_string allowed denied
    (service_control_generateStats prefix scope).2 s →
  server_scope s !! allowed = Some (count (in_state Complete) (streams s)) ∧
  server_scope s !! denied = Some (count (in_state Responded) (streams s)) ∧
  (∀ name, name ≠ allowed → name ≠ denied → server_scope s !! name = scope !! name) ∧
  (count (in_state Init) (streams s) + count (in_state Calling) (streams s) +
   count (in_state Complete) (streams s) + count (in_state Responded) (streams s)
   = Z.of_nat (size (streams s)))%Z.
Proof.
  intros allowed denied Ha Hd Hs.
  assert ((service_control_generateStats prefix scope).2 = foldl pool_counter scope [allowed; denied])
    as Hgen.
  { unfold service_control_generateStats, POOL_COUNTER_PREFIX. simpl. by rewrite !app_assoc_s. }
  rewrite Hgen in Hs. apply counter_states in Hs as (H1'&H2'&H3'&H4').
  - split_and!; [done|done| |done]. intros name Hn1 Hn2. rewrite H3' by done.
    rewrite pool_counters_lookup, bool_decide_eq_false_2 by set_solver. by destruct (scope !! name).
  - by intros Heq%app_inj_l_s.
  - rewrite pool_counters_lookup, Ha, bool_decide_eq_true_2 by set_solver. done.
  - rewrite pool_counters_lookup, Hd, bool_decide_eq_true_2 by set_solver. done.
Qed.

End counters.

(** ** A sample: one stream waits for its check, another came later *)

#[local] Existing Instance Sample.utility.

Definition first_world : World := mkWorld new_ScFilter Sample.headers false false.

Definition sample_server : Server :=
  mkServer
    (count_step "http.service_control.allowed" "http.service_control.denied" first_world
       Sample.waiting_world (service_control_generateStats "http." ∅).2)
    (<[2 := first_world]> (<[1 := Sample.waiting_world]> (<[1 := first_world]> ∅))).

Lemma sample_step :
  ScFilter.step (F := gmap string string) Sample.grpc (λ c, c) error_message first_world
    Sample.waiting_world.
Proof.
  unfold Sample.waiting_world.
  destruct (decodeHeaders _ _ _ _ _ _ _ _ _ _ _ _) as [[[status f] actions] hs] eqn:E.
  by eapply step_decodeHeaders.
Qed.

Lemma counters_exact_witness :
  server_scope sample_server !! "http.service_control.allowed"
  = Some (count (in_state Complete) (streams sample_server)) ∧
  count (in_state Calling) (streams sample_server) = 1%Z.
Proof.
  split; [|vm_compute; reflexivity].
  apply (counters_exact (F := gmap string string) Sample.grpc (λ c, c) error_message "http." ∅
    sample_server); [reflexivity|reflexivity|].
  eapply server_more; [|by apply server_new].
  eapply server_more; [|eapply server_filter; [reflexivity|apply sample_step]].
  eapply server_more; [apply server_start|by apply server_new].
Defined.
