(* ===== verification/ClientTeardown.v ===== *)
(** * The end of a client cache: ~ClientCache of
    src/envoy/http/service_control/client_cache.h

    The members go in reverse order: the client library first, which sends the
    reports it has batched through the report transport, then the factories for
    report, quota and check calls, which cancel their active calls. *)
From S2P Require Import Prelude RequestInfo RequestBuilder ConfigMessages ConfigParser HttpCall ClientCache.

(** The calls of the three factories of a client cache. *)
Record ClientCalls := mkClientCalls {
  check_calls : HttpCallFactory;
  quota_calls : HttpCallFactory;
  report_calls : HttpCallFactory
}.

Section teardown.
Context {Distribution : Type}.
Context (extractHostPathFromUri : string → string * string).
Context (serialize_report : ReportRequest Distribution → string).
Context (cc : ClientCache) (tokens : Tokens) (now : Z → option Answer).

#[local] Abbreviation retries := (factory_retries (report_call_factory_ cc)).

(** The library sends a report that it batched, as the call [id].  Fuel is never
    spent, so that the last case does not occur. *)
Definition flush_report (f : HttpCallFactory) (report : nat * ReportRequest Distribution)
  : HttpCallFactory :=
  let '(id, request) := report in
  let f := createHttpCall id retries f in
  match report_transport extractHostPathFromUri serialize_report cc request tokens now with
  | Some s => update id (after (new_World retries) [] s) f
  | None => f
  end.

(** ~ClientCache, with the reports that the library has batched. *)
Definition destroy_ClientCache (batched : list (nat * ReportRequest Distribution)) (c : ClientCalls)
  : ClientCalls :=
  let report_calls := foldl flush_report (report_calls c) batched in
  mkClientCalls (destroy_HttpCallFactory (check_calls c)) (destroy_HttpCallFactory (quota_calls c))
    (destroy_HttpCallFactory report_calls).

(** ** Correctness *)

(** Reachable states of a factory, whose calls go to one host and path. *)
Definition factory_reachable (f : CallFactory) (calls : HttpCallFactory) : Prop :=
  let '(host, path) := extractHostPathFromUri (Common.uri (factory_uri f) +:+ suffix_url_ f) in
  HttpCall.reachable host path (factory_trace f) calls.

Lemma factory_reachable_ok f calls :
  factory_reachable f calls → factory_ok calls ∧ destruct_mode_ calls = false.
Proof.
  unfold factory_reachable. destruct (extractHostPathFromUri _) as [host path]. apply reachable_ok.
Qed.

Hypothesis Hretries : (0 ≤ retries < 2 ^ 32 - 1)%Z.

#[local] Abbreviation first_token := (tokens 1%Z (factory_token_fn (report_call_factory_ cc))).
#[local] Abbreviation transport :=
  (report_transport extractHostPathFromUri serialize_report cc).

(** One call of the report transport: it is over, or waits for an answer, and what
    it does without an answer inside send(). *)
Lemma report_transport_ends request :
  ∃ c effects,
    transport request tokens now = Some (c, effects) ∧ cancelled c = false ∧
    (settled c effects ∨ pending c effects) ∧
    (is_empty first_token = true → effects = [OnDone missing_token ""; DeferredDelete]) ∧
    (is_empty first_token = false → now 1%Z = None → omap awaited_of effects = [1%Z] ∧ request_ c = Some 1%Z).
Proof using Hretries.
  unfold report_transport, factory_call. destruct (extractHostPathFromUri _) as [host path].
  set (tk := λ n, tokens n _).
  destruct (makeOneCall_total host path (serialize_report request) (factory_trace (report_call_factory_ cc))
    tk now (enough (new_HttpCallImpl retries)) (new_HttpCallImpl retries)) as [[c effects] E].
  { unfold enough. simpl. lia. }
  { simpl. lia. }
  exists c, effects. split; [exact E|]. pose proof (makeOneCall_ends _ _ _ _ _ _ _ _ _ _ E) as [Hs Hc].
  unfold enough in E. simpl in E. change (u32 (0 + 1)) with 1%Z in E. subst tk. simpl in E.
  split_and!; [done|done| |]; intros Ht; rewrite Ht in E; [by injection E as <- <-|].
  intros Hn. rewrite Hn in E. by injection E as <- <-.
Qed.

(** The call of a report that was flushed. *)
Definition flushed (request : ReportRequest Distribution) (w : World) : Prop :=
  ∃ s, transport request tokens now = Some s ∧ w = after (new_World retries) [] s.

Lemma flush_report_spec f id request :
  factory_reachable (report_call_factory_ cc) f → calls f !! id = None →
  factory_reachable (report_call_factory_ cc) (flush_report f (id, request)) ∧
  (∃ w, calls (flush_report f (id, request)) !! id = Some w ∧ flushed request w) ∧
  ∀ j, j ≠ id → calls (flush_report f (id, request)) !! j = calls f !! j.
Proof using Hretries.
  intros Hf Hid. destruct (report_transport_ends request) as (c&effects&E&_).
  unfold flush_report, flushed. rewrite E. unfold update, createHttpCall. simpl. split_and!.
  - unfold factory_reachable in *. unfold report_transport, factory_call in E.
    destruct (extractHostPathFromUri _) as [host path]. eapply reachable_step.
    + eapply reachable_step; [exact Hf|]. apply (step_create _ _ _ f id retries); [done|lia].
    + eapply (step_call _ _ _ (createHttpCall id retries f) id (new_World retries)
        (serialize_report request) (λ n, tokens n (factory_token_fn (report_call_factory_ cc))) now
        (c, effects)); try done. simpl. by rewrite lookup_insert_eq.
  - eexists. rewrite lookup_insert_eq. split; [done|]. by eexists.
  - intros j Hj. by rewrite !lookup_insert_ne.
Qed.

Lemma flush_reports_spec batched : ∀ f,
  factory_reachable (report_call_factory_ cc) f → NoDup batched.*1 →
  (∀ id, id ∈ batched.*1 → calls f !! id = None) →
  factory_reachable (report_call_factory_ cc) (foldl flush_report f batched) ∧
  (∀ id request, (id, request) ∈ batched →
     ∃ w, calls (foldl flush_report f batched) !! id = Some w ∧ flushed request w) ∧
  ∀ id, id ∉ batched.*1 → calls (foldl flush_report f batched) !! id = calls f !! id.
Proof using Hretries.
  induction batched as [|[id0 request0] batched IH]; intros f Hf Hnd Hfresh.
  { split_and!; [done| |done]. intros id request Hin. by apply not_elem_of_nil in Hin. }
  apply NoDup_cons in Hnd as [Hni Hnd]. cbn [foldl].
  destruct (flush_report_spec f id0 request0 Hf) as (Hr&(w0&Hw0&Hfl0)&Hother).
  { apply Hfresh. left. }
  destruct (IH (flush_report f (id0, request0)) Hr Hnd) as (Hr'&Hin'&Hout').
  { intros id Hid. rewrite Hother by (intros ->; by apply Hni). apply Hfresh. by right. }
  split_and!; [done| |].
  - intros id request [[= -> ->]|Hin]%elem_of_cons; [|by apply Hin'].
    exists w0. split; [|done]. by rewrite Hout'.
  - intros id Hid. simpl in Hid. apply not_elem_of_cons in Hid as [Hne Hid].
    rewrite Hout' by done. by apply Hother.
Qed.

(** What the destructor of the factory makes of a report that was flushed. *)
Lemma flushed_end f id request w :
  factory_ok f → destruct_mode_ f = false → calls f !! id = Some w → flushed request w →
  ∃ c effects w', transport request tokens now = Some (c, effects) ∧
    calls (destroy_HttpCallFactory f) !! id = Some w' ∧
    (if bool_decide (omap awaited_of effects = [])
     then dones w' = omap done_of effects ∧ live w' = []
     else dones w' = [(call_cancelled, "")] ∧
       live w' = if request_ c is Some _ then [] else omap awaited_of effects) ∧
    (is_empty first_token = true → dones w' = [(missing_token, "")]) ∧
    (is_empty first_token = false → now 1%Z = None →
     dones w' = [(call_cancelled, "")] ∧ live w' = []).
Proof using Hretries.
  intros Hf Hm Hw (s&Hs&->). destruct (report_transport_ends request) as (c&effects&E&_&Hend&Hno&Hwait).
  rewrite E in Hs. injection Hs as <-. exists c, effects.
  destruct Hend as [(H1&H2&H3&H4)|(H1&H2&H3&n&b&H4&H5&H6)].
  - rewrite H2. exists (after (new_World retries) [] (c, effects)). split_and!; try done.
    + apply destroyed_done; try done. simpl. by rewrite H3.
    + intros Ht. by rewrite (Hno Ht).
    + intros Ht Hn. destruct (Hwait Ht Hn) as [Haw _]. by rewrite H2 in Haw.
  - destruct (destroyed_active f id (after (new_World retries) [] (c, effects))) as (w'&Hw'&Hd&Hl); try done.
    { simpl. by rewrite H2. }
    exists w'. rewrite H4. simpl in Hl. rewrite H4, H5 in Hl. simpl in Hl.
    split_and!; try done; [by rewrite Hl, H6; destruct b|..].
    + intros Ht. rewrite (Hno Ht) in H4. done.
    + intros Ht Hn. destruct (Hwait Ht Hn) as [Haw Hq]. rewrite Hq in H6. by destruct b.
Qed.

(** C22: the end of a client cache.  Every call of its three factories is deleted and
    its callback ran exactly once; a check that was out ends with CANCELLED.  Each
    report that the library flushes then is sent through the report transport and
    either ends there (without a token, with the missing-token status; or because the
    client answers inside send()), or waits: then the factory that sent it, the next
    member to go, cancels it before an answer can come, and it ends with CANCELLED.
    So a report sent with a token that the client does not answer inside send() is
    always cancelled.  A request is left out only for a call that was cancelled while
    [request_] was null because its request was accepted inside another send(). *)
Theorem flushed_reports_cancelled batched c :
  factory_reachable (check_call_factory_ cc) (check_calls c) →
  factory_reachable (quota_call_factory_ cc) (quota_calls c) →
  factory_reachable (report_call_factory_ cc) (report_calls c) →
  NoDup batched.*1 → (∀ id, id ∈ batched.*1 → calls (report_calls c) !! id = None) →
  let c' := destroy_ClientCache batched c in
  (∀ f id w, f ∈ [check_calls c'; quota_calls c'; report_calls c'] → calls f !! id = Some w →
     deleted w = true ∧ length (dones w) = 1 ∧
     length (live w) = if cancelled (impl w) && inside_send w then 1 else 0) ∧
  (∀ id w, calls (check_calls c) !! id = Some w → deleted w = false →
     ∃ w', calls (check_calls c') !! id = Some w' ∧ dones w' = [(call_cancelled, "")]) ∧
  (∀ id request, (id, request) ∈ batched →
     ∃ h effects w', transport request tokens now = Some (h, effects) ∧
       calls (report_calls c') !! id = Some w' ∧
       (if bool_decide (omap awaited_of effects = [])
        then dones w' = omap done_of effects ∧ live w' = []
        else dones w' = [(call_cancelled, "")] ∧
          live w' = if request_ h is Some _ then [] else omap awaited_of effects) ∧
       (is_empty first_token = true → dones w' = [(missing_token, "")]) ∧
       (is_empty first_token = false → now 1%Z = None →
        dones w' = [(call_cancelled, "")] ∧ live w' = [])).
Proof using Hretries.
  intros [Hc Hcm]%factory_reachable_ok [Hq Hqm]%factory_reachable_ok Hr Hnd Hfresh. cbv zeta.
  destruct (flush_reports_spec batched (report_calls c) Hr Hnd Hfresh) as (Hr'&Hin&_).
  apply factory_reachable_ok in Hr' as [Hrok Hrm]. split_and!.
  - intros f id w Hf Hw.
    assert (∃ f0, factory_ok f0 ∧ destruct_mode_ f0 = false ∧ f = destroy_HttpCallFactory f0)
      as (f0&Hf0&Hm0&->).
    { rewrite !elem_of_cons in Hf. destruct Hf as [->|[->|[->|Hf]]];
        [exists (check_calls c)|exists (quota_calls c)
        |exists (foldl flush_report (report_calls c) batched)|by apply not_elem_of_nil in Hf];
        by split_and!. }
    destruct (destroyed_calls f0 id w Hf0 Hm0 Hw) as (Hdel&Hok&_). split; [done|].
    unfold call_ok in Hok. by rewrite Hdel in Hok.
  - intros id w Hw Hdel. simpl. destruct (destroyed_active _ _ w Hc Hcm Hw Hdel) as (w'&?&?&_). eauto.
  - intros id request Hin'. destruct (Hin id request Hin') as (w&Hw&Hfl). by eapply flushed_end.
Qed.

End teardown.

(** Two batched reports, and a check that waits. *)
Definition sample_calls : ClientCalls :=
  mkClientCalls (createHttpCall 0 3 new_HttpCallFactory) new_HttpCallFactory new_HttpCallFactory.

Definition sample_report : ReportRequest unit := mkReportRequest "bookstore" "2024" [].

Definition sample_end : ClientCalls :=
  destroy_ClientCache (λ uri, ("sc", uri)) (λ _, "body") (new_ClientCache CheckSample.service CheckSample.config)
    (λ _ _, "t") (λ _, None) [(0, sample_report); (1, sample_report)] sample_calls.

Lemma flushed_reports_cancelled_witness :
  ∃ w, calls (report_calls sample_end) !! 1 = Some w ∧ dones w = [(call_cancelled, "")] ∧ live w = [].
Proof.
  destruct (flushed_reports_cancelled (λ uri, ("sc", uri)) (λ _, "body")
    (new_ClientCache CheckSample.service CheckSample.config) (λ _ _, "t") (λ _, None)
    ltac:(vm_compute; by split) [(0, sample_report); (1, sample_report)] sample_calls) as (_&_&Hrep).
  - eapply reachable_step; [apply reachable_new|]. apply (step_create _ _ _ _ 0 3); [reflexivity|lia].
  - apply reachable_new.
  - apply reachable_new.
  - repeat constructor; set_solver.
  - intros id _. reflexivity.
  - destruct (Hrep 1 sample_report ltac:(right; left)) as (h&effects&w&_&Hw&_&_&Hend).
    exists w. split; [exact Hw|]. exact (Hend eq_refl eq_refl).
Defined.
